(* ===== verification/_CoqProject ===== *)
-Q . S2P
Prelude.v
Machine.v
Script.v
Buffer.v
Protocol.v
Queue.v
SocketUtils.v
Logging.v
Commands.v
Respond.v
Listener.v
Options.v
Client.v
ClientProps.v
ServerUds.v
ServerUdsClient.v
ServerUdsTable.v
ServerUdsLoop.v
ServerUdsProps.v
Session.v
ServerUdsTalk.v
Threads.v
Workers.v
Programs.v
WorkersInv.v
WorkersThread.v
WorkersMain.v
WorkersProps.v
EndToEnd.v
