(* ===== verification/Prelude.v ===== *)
(** * WireCommand: a verification development

    WireCommand is a small remote command service in C. A client sends one
    request (LS, PWD or CAT with an argument) as a length-prefixed frame over a
    UNIX or TCP stream socket; a server runs the command in a child process and
    answers with a frame that holds the output or an error text. There are three
    servers: an event loop over poll() for UNIX sockets (server_uds.c), and two
    that serve each connection in a thread of its own (server_tcp.c,
    server_uds_threaded.c). All of src/src is modelled, function by function,
    and the theorems below are about those definitions.

    ** How the parts interact

    The servers and the client keep the bytes of a connection in bounded buffers
    (buffer.c) and cut frames out of them with the incremental parsers of
    protocol.c. The event loop decodes requests into a linked FIFO (queue.c) and
    serves the queue one response at a time; a worker thread serves its single
    connection directly, and shares with the main thread a mutex, a stop flag and
    a table of 64 workers. All of them dispatch to commands.c, which builds a
    quoted shell command and reads the child's output, log through logging.c,
    and use the retry loops of socket_utils.c. The four programs (main_*.c)
    parse their command lines and call a server, or are the client.

    ** Files

    - [Prelude] (this file): integer types at their width, byte and list
      lemmas, tactics and hint databases.
    - [Machine]: the abstract machine. [Posix] is the operating system, a class
      of calls whose answers are arbitrary; [PosixLaws] the documented bounds of
      those answers; [machine] the process (errno, live heap blocks, queue nodes,
      open descriptors, standard error, log level, and a ghost trace of
      transfers, closes and children); [M] a state monad whose outcome is a
      result, undefined behaviour ([UB]) or a loop cut off ([NoFuel]); [wp] its
      correctness calculus, total or partial. NULL dereferences, accesses outside
      a block and uses of freed nodes are [UB], and so, in this machine, is the
      close of a descriptor that is not open, which close() reports as EBADF; every
      theorem of the form "the call is [Ret]" excludes them.
    - [Script]: an executable operating system that answers from lists; the
      concrete runs and the witnesses use it.
    - [Buffer] (buffer.c), [Protocol] (protocol.c), [Queue] (queue.c),
      [SocketUtils] (socket_utils.c), [Logging] (logging.c), [Commands]
      (commands.c): one file per module, with the abstract object it implements:
      a byte string, a frame codec, a FIFO of requests, the bytes of a stream, a
      log record, the word list a POSIX shell reads.
    - [Respond], [Listener]: the text the servers share (running a request and
      encoding its answer; opening a listening socket).
    - [Options], [Client], [ClientProps] (main_client.c): the command-line
      parsers with the part of strtoul() and strcasecmp() they use; the client.
    - [ServerUds] (server_uds.c): the event loop and its handlers.
      [ServerUdsClient] specifies the handlers of one client; [ServerUdsTable]
      holds the abstract server [uds] and the invariant [server_inv] that ties
      it to the client table, the queue and the trace; [ServerUdsLoop] specifies
      the rounds and the run; [ServerUdsProps] draws the conclusions.
    - [Session]: one connection of the threaded servers and the abstract
      connection [conn] it refines. The two files have the same text up to log
      records and a few calls; it is written once over [transport] and
      instantiated under the C names ([wc_tcp_*], [wc_threaded_uds_*]).
    - [ServerUdsTalk]: the trace of the event loop cut into the conversations
      of the single connections, each of them a run of [conn].
    - [Threads]: programs of threads, as trees of atomic actions with unbounded
      loops, and a rely-guarantee logic for them.
    - [Workers] (server_tcp.c, server_uds_threaded.c): the worker threads and the
      main thread over the shared state [sys]; [cstep] interleaves them.
      [WorkersInv], [WorkersThread], [WorkersMain] verify each thread on its own;
      [WorkersProps] draws the conclusions for every reachable configuration.
    - [Programs] (main_uds.c, main_uds_threaded.c, main_tcp.c): the server
      programs, with their exit codes.
    - [EndToEnd]: a client and a server, threaded or not, joined by a
      connection.

    ** What the theorems show

    - Data: the buffer behaves as a byte string within its limit, the queue as a
      FIFO list, for any sequence of operations, without leaks or double frees;
      the parsers compute the frame decoder and are stable under splitting; the
      encoders round-trip and fail without effect.
    - Commands: whatever the argument, the shell reads it as one word; a command
      run returns, reaps its child, and yields the whole output of a child that
      succeeded, within the limit, or fails with the errno of the reason.
    - Event loop: each round preserves the invariant; the whole run refines an
      abstract FIFO server, so that every conversation is answered in order
      whatever the other clients do; the server returns once a stop is requested
      and gives back every descriptor and block.
    - Threaded servers, in every interleaving: no undefined behaviour, no data
      race on the shared structure, no deadlock, every connection answered in
      order, at most 64 workers, and nothing left behind on return.
    - Client and programs: termination, exit codes, and that a client which
      reports success printed exactly the answer that the server at the other
      end of its connection gave to its command.

    ** Bounds and fuel

    Loops of the C code that only the outside world can prolong (retries after
    EINTR, reading while data arrives, the rounds of the event loop) carry
    [fuel]. [PosixFair] gives a number [os_budget] of how many more times the
    world can interrupt, deliver or withhold the stop request; a theorem that
    promises a result asks for more fuel than that (plus the bytes to write, for
    the write loops), so the result never depends on running out. Loops of
    threads have no fuel: [Piter] is unbounded, and [safe n] speaks of any number
    [n] of steps.

    In the thread model a call into another module is one atomic action; shared
    fields are read and written by separate actions that name their location.
    This is coarser than the machine only inside calls that touch no shared
    field. [errno] is per thread. The fields [y_owner], [y_blocks] and [y_events]
    of [sys] are ghost: they record who owns descriptors and blocks and what each
    thread transferred.

    ** Assumptions

    [PosixLaws]: transfers are within the requested size, new descriptors are
    fresh, poll() reports what was asked. [PthreadLaws]: a created thread can be
    joined, the owner of a mutex can unlock it; every other call may fail.

    ** Not modelled

    Errors of snprintf() and vsnprintf() other than a length above INT_MAX, which
    the formats of the program do not have, and partial output of a failing
    fprintf(); the contents of the address structures passed to bind() and
    connect(); the signal handlers' assignment to the stop flag, which is an
    answer of the operating system ([os_stop_requested]); what the children do
    beyond their output and exit status. The read buffers on the stack are lists
    of bytes. The tests are not modelled. The log texts are reproduced as formats
    and arguments, with the conversions the program uses.

    ** Plan

    Left: termination of the threaded servers' shutdown under fair scheduling.
    [threads_progress] shows that some thread can always take a step; that the
    main thread then returns needs a bound on the steps of each worker, as
    [PosixFair] gives for the loops with fuel. *)

From stdpp Require Export base tactics numbers option list list_numbers gmap strings.
From Stdlib Require Export ZArith Lia.
From Stdlib Require Strings.Byte.

Abbreviation byte := Init.Byte.byte.

#[export] Set Warnings "-clear-no-such-hyp".

Declare Scope wc_scope.
Delimit Scope wc_scope with wc.

#[global] Open Scope Z_scope.

(** ** C integer types

    A [size_t], [uint16_t] or [unsigned char] value is a [Z] in range; every
    C operation that can leave the range is followed by the explicit
    conversion below. *)

Definition SIZE_MAX : Z := 2 ^ 64 - 1.
Definition UINT16_MAX : Z := 65535.

Definition to_size (x : Z) : Z := x mod 2 ^ 64.
Definition to_u16 (x : Z) : Z := x mod 2 ^ 16.
Definition to_u8 (x : Z) : Z := x mod 2 ^ 8.

Definition is_size (x : Z) : Prop := 0 ≤ x ≤ SIZE_MAX.

(** [size_t] addition, subtraction and multiplication. *)
Definition size_add (a b : Z) : Z := to_size (a + b).
Definition size_sub (a b : Z) : Z := to_size (a - b).
Definition size_mul (a b : Z) : Z := to_size (a * b).

Notation "a +ₛ b" := (size_add a b) (at level 50, left associativity) : wc_scope.
Notation "a -ₛ b" := (size_sub a b) (at level 50, left associativity) : wc_scope.
Notation "a *ₛ b" := (size_mul a b) (at level 40, left associativity) : wc_scope.

#[global] Open Scope wc_scope.

Lemma to_size_small (x : Z) : is_size x → to_size x = x.
Proof. unfold is_size, SIZE_MAX, to_size. intros. apply Z.mod_small. lia. Qed.

Lemma size_add_small (a b : Z) : 0 ≤ a + b ≤ SIZE_MAX → a +ₛ b = a + b.
Proof. apply to_size_small. Qed.

Lemma size_sub_small (a b : Z) : 0 ≤ a - b ≤ SIZE_MAX → a -ₛ b = a - b.
Proof. apply to_size_small. Qed.

Lemma size_mul_small (a b : Z) : 0 ≤ a * b ≤ SIZE_MAX → a *ₛ b = a * b.
Proof. apply to_size_small. Qed.

Lemma to_u16_small (x : Z) : 0 ≤ x ≤ UINT16_MAX → to_u16 x = x.
Proof. unfold UINT16_MAX, to_u16. intros. apply Z.mod_small. lia. Qed.

(** ** Bytes *)

#[global] Instance byte_eq_dec : EqDecision byte := Byte.byte_eq_dec.

(** The value of an [unsigned char] and the conversion to it. *)
Definition byte_val (b : byte) : Z := Z.of_N (Byte.to_N b).

Definition byte_of (z : Z) : byte :=
  match Byte.of_N (Z.to_N (to_u8 z)) with
  | Some b => b
  | None => Byte.x00
  end.

Lemma byte_val_range (b : byte) : 0 ≤ byte_val b < 256.
Proof. unfold byte_val. pose proof (Byte.to_N_bounded b). lia. Qed.

Lemma byte_of_val (b : byte) : byte_of (byte_val b) = b.
Proof.
  unfold byte_of, to_u8. pose proof (byte_val_range b) as Hb.
  rewrite Z.mod_small by lia. unfold byte_val. rewrite N2Z.id.
  by rewrite Byte.of_to_N.
Qed.

Lemma byte_val_of (z : Z) : byte_val (byte_of z) = z mod 256.
Proof.
  unfold byte_of, to_u8. change (2 ^ 8) with 256.
  pose proof (Z.mod_pos_bound z 256 ltac:(lia)) as Hz.
  destruct (Byte.of_N (Z.to_N (z mod 256))) as [b|] eqn:Hb.
  - unfold byte_val. apply Byte.to_of_N in Hb. rewrite Hb. lia.
  - apply Byte.of_N_None_iff in Hb. lia.
Qed.

(** The bytes of a C string literal, without its terminator. *)
Definition lit (s : string) : list byte := String.list_byte_of_string s.

(** ** List lengths in [Z] *)

Abbreviation zlen l := (Z.of_nat (length l)).

Lemma zlen_nonneg {A} (l : list A) : 0 ≤ zlen l.
Proof. lia. Qed.

Lemma zlen_app {A} (l k : list A) : zlen (l ++ k) = zlen l + zlen k.
Proof. rewrite length_app. lia. Qed.

Lemma zlen_nil_inv {A} (l : list A) : zlen l = 0 → l = [].
Proof. destruct l; [done | simpl; lia]. Qed.

(** ** Automation *)

Create HintDb wc.
Create Rewrite HintDb wc_len.
#[export] Hint Resolve zlen_nonneg byte_val_range : wc.
#[export] Hint Rewrite @zlen_app @length_app @length_take @length_drop
  @length_replicate @length_fmap @length_insert : wc_len.

(** Turn boolean comparisons of the code into propositions. *)
Ltac bool_to_prop :=
  repeat match goal with
  | H : (_ <? _)%Z = true |- _ => apply Z.ltb_lt in H
  | H : (_ <? _)%Z = false |- _ => apply Z.ltb_ge in H
  | H : (_ <=? _)%Z = true |- _ => apply Z.leb_le in H
  | H : (_ <=? _)%Z = false |- _ => apply Z.leb_gt in H
  | H : (_ >? _)%Z = true |- _ => rewrite Z.gtb_ltb in H; apply Z.ltb_lt in H
  | H : (_ >? _)%Z = false |- _ => rewrite Z.gtb_ltb in H; apply Z.ltb_ge in H
  | H : (_ >=? _)%Z = true |- _ => rewrite Z.geb_leb in H; apply Z.leb_le in H
  | H : (_ >=? _)%Z = false |- _ => rewrite Z.geb_leb in H; apply Z.leb_gt in H
  | H : (_ =? _)%Z = true |- _ => apply Z.eqb_eq in H
  | H : (_ =? _)%Z = false |- _ => apply Z.eqb_neq in H
  | H : (_ && _) = true |- _ => apply andb_true_iff in H as [??]
  | H : (_ && _) = false |- _ => apply andb_false_iff in H
  | H : (_ || _) = true |- _ => apply orb_true_iff in H
  | H : (_ || _) = false |- _ => apply orb_false_iff in H as [??]
  | H : negb _ = true |- _ => apply negb_true_iff in H
  | H : negb _ = false |- _ => apply negb_false_iff in H
  end.

(** Split on the innermost boolean test of the goal, keeping the equation. *)
Ltac case_if_as H :=
  match goal with
  | |- context [if ?b then _ else _] =>
    lazymatch b with
    | context [if _ then _ else _] => fail
    | _ => destruct b eqn:H; bool_to_prop
    end
  end.

Tactic Notation "case_if" "as" ident(H) := case_if_as H.
Tactic Notation "case_if" := let H := fresh "Hc" in case_if_as H.

(** List-length arithmetic. *)
Ltac len_lia :=
  autorewrite with wc_len in *; simpl length in *; lia.

(** Membership in an explicit list. *)
Ltac list_in := solve [rewrite list_elem_of_In; simpl; tauto].

(** ** Lists *)

Lemma take_app_exact {A} (l k : list A) (n : nat) :
  n = length l → take n (l ++ k) = l.
Proof. intros ->. apply take_app_length. Qed.

Lemma drop_app_exact {A} (l k : list A) (n : nat) :
  n = length l → drop n (l ++ k) = k.
Proof. intros ->. apply drop_app_length. Qed.

Lemma take_fmap {A B} (f : A → B) (l : list A) (n : nat) :
  take n (f <$> l) = f <$> take n l.
Proof. by rewrite fmap_take. Qed.

(** Induction two elements at a time. *)
Lemma pairs_ind {A} (P : list A → Prop) :
  P [] → (∀ x, P [x]) → (∀ x y l, P l → P (x :: y :: l)) → ∀ l, P l.
Proof. intros H0 H1 H2. fix IH 1. intros [|x [|y l]]; [done | done | by apply H2]. Qed.
