(* ===== verification/Machine.v ===== *)
(** * The machine the C code runs on

    The abstract machine shared by every component: the operating system as a
    class of operations ([Posix]) whose answers are arbitrary, its documented
    behaviour as a class of laws ([PosixLaws]), the process state ([machine]:
    errno, heap, descriptors, standard error, ghost trace), and the small
    state-and-error monad [M] the functions of the program are written in,
    with its total and partial correctness calculus [wp]. *)

From S2P Require Import Prelude.

(** ** Errno values, poll events and descriptor flags (Linux) *)

Definition ENOENT : Z := 2.
Definition EINTR : Z := 4.
Definition EIO : Z := 5.
Definition EAGAIN : Z := 11.
Definition EWOULDBLOCK : Z := EAGAIN.
Definition ENOMEM : Z := 12.
Definition EINVAL : Z := 22.
Definition EMFILE : Z := 24.
Definition EPIPE : Z := 32.
Definition ENAMETOOLONG : Z := 36.
Definition EPROTO : Z := 71.
Definition EOVERFLOW : Z := 75.
Definition EMSGSIZE : Z := 90.
Definition ECONNRESET : Z := 104.
Definition ENOBUFS : Z := 105.

Definition POLLIN : Z := 1.
Definition POLLOUT : Z := 4.
Definition POLLERR : Z := 8.
Definition POLLHUP : Z := 16.
Definition POLLNVAL : Z := 32.

Definition O_NONBLOCK : Z := 2048.

Definition INT_MAX : Z := 2 ^ 31 - 1.
Definition NUL : byte := Byte.x00.

(** [(events & mask) != 0] *)
Definition has_event (events mask : Z) : bool := negb (Z.land events mask =? 0).

(** ** The operating system

    [W] is the state of everything outside the process. A call returns its
    result and the next state; [inr e] is a failure that sets [errno] to [e].
    No call is assumed to succeed. *)

Class Posix (W : Type) := {
  (** malloc/realloc of a number of bytes succeeds *)
  os_malloc : Z → W → bool * W;
  (** read(fd, _, count); an empty list is end of file *)
  os_read : Z → Z → W → (list byte + Z) * W;
  (** write(fd, bytes) *)
  os_write : Z → list byte → W → (Z + Z) * W;
  (** send(fd, bytes, MSG_NOSIGNAL) *)
  os_send : Z → list byte → W → (Z + Z) * W;
  (** accept(listener) in a process with the given open descriptors *)
  os_accept : gset Z → Z → W → (Z + Z) * W;
  (** socket() in a process with the given open descriptors *)
  os_socket : gset Z → W → (Z + Z) * W;
  (** error of close(fd), if any *)
  os_close : Z → W → option Z * W;
  os_getfl : Z → W → (Z + Z) * W;
  os_setfl : Z → Z → W → option Z * W;
  os_setsockopt_reuseaddr : Z → W → option Z * W;
  os_bind : Z → W → option Z * W;
  os_listen : Z → Z → W → option Z * W;
  os_connect : Z → W → option Z * W;
  os_unlink : list byte → W → option Z * W;
  (** poll(descriptors with requested events, timeout): number of ready
      descriptors and the revents *)
  os_poll : list (Z * Z) → Z → W → (Z * list Z + Z) * W;
  (** popen(command, "r"): a stream *)
  os_popen : list byte → W → (Z + Z) * W;
  (** fread(_, 1, count, stream) and ferror(stream) afterwards *)
  os_fread : Z → Z → W → (list byte * bool) * W;
  (** pclose(stream): the wait status *)
  os_pclose : Z → W → (Z + Z) * W;
  (** the stop flag of the process, set by the signal handlers *)
  os_stop_requested : W → bool * W;
  (** inet_pton(AF_INET, text): 1, 0 or -1 with errno *)
  os_inet_pton : list byte → W → Z * Z * W;
  os_sigemptyset : W → option Z * W;
  os_sigaction : Z → W → option Z * W;
  (** time(NULL), -1 on failure *)
  os_time : W → Z * W;
  (** localtime_r: a broken-down time or a failure *)
  os_localtime_r : Z → W → (Z + Z) * W;
  (** strftime of a broken-down time with the logger's format *)
  os_strftime : Z → string;
  (** error of fprintf(stderr) with the given text, if any *)
  os_stderr : string → W → option Z * W;
  os_strerror : Z → list byte;
}.

(** What the code relies on: the bounds POSIX puts on transfer counts and the
    freshness of new descriptors; file status flags are not negative; poll()
    reports the requested events and the three error conditions only. *)
Class PosixLaws (W : Type) {OS : Posix W} := {
  os_read_bound fd n w bs w' :
    0 ≤ n → os_read fd n w = (inl bs, w') → zlen bs ≤ n;
  os_write_bound fd bs w n w' :
    os_write fd bs w = (inl n, w') → 0 ≤ n ≤ zlen bs;
  os_send_bound fd bs w n w' :
    os_send fd bs w = (inl n, w') → 0 ≤ n ≤ zlen bs;
  os_accept_fresh open l w fd w' :
    os_accept open l w = (inl fd, w') → 0 ≤ fd ∧ fd ∉ open;
  os_socket_fresh open w fd w' :
    os_socket open w = (inl fd, w') → 0 ≤ fd ∧ fd ∉ open;
  os_getfl_nonneg fd w v w' : os_getfl fd w = (inl v, w') → 0 ≤ v;
  os_fread_bound h n w bs e w' :
    0 ≤ n → os_fread h n w = ((bs, e), w') → zlen bs ≤ n;
  os_poll_revents ds timeout w k revents w' :
    os_poll ds timeout w = (inl (k, revents), w') → length revents = length ds;
  os_poll_requested ds timeout w k revents w' i fd ev r :
    os_poll ds timeout w = (inl (k, revents), w') →
    ds !! i = Some (fd, ev) → revents !! i = Some r →
    Z.land r (Z.lor ev (Z.lor POLLERR (Z.lor POLLHUP POLLNVAL))) = r;
}.

(** The calls that neither retry nor deliver anything. *)
Inductive quiet_call {W} {OS : Posix W} : ∀ {R}, (W → R * W) → Prop :=
| quiet_malloc n : quiet_call (os_malloc n)
| quiet_socket open : quiet_call (os_socket open)
| quiet_close fd : quiet_call (os_close fd)
| quiet_setsockopt fd : quiet_call (os_setsockopt_reuseaddr fd)
| quiet_bind fd : quiet_call (os_bind fd)
| quiet_listen fd n : quiet_call (os_listen fd n)
| quiet_connect fd : quiet_call (os_connect fd)
| quiet_unlink path : quiet_call (os_unlink path)
| quiet_poll ds timeout : quiet_call (os_poll ds timeout)
| quiet_popen command : quiet_call (os_popen command)
| quiet_fread h n : quiet_call (os_fread h n)
| quiet_pclose h : quiet_call (os_pclose h)
| quiet_inet_pton text : quiet_call (os_inet_pton text)
| quiet_sigemptyset : quiet_call os_sigemptyset
| quiet_sigaction sig : quiet_call (os_sigaction sig)
| quiet_time : quiet_call os_time
| quiet_localtime t : quiet_call (os_localtime_r t)
| quiet_stderr text : quiet_call (os_stderr text).
#[export] Hint Constructors quiet_call : wc.

(** An outside world that cannot interrupt calls, deliver data and connections
    or leave the stop flag unset for ever: [bud] bounds how many more times it
    can. *)
Record budget_laws {W} {OS : Posix W} (bud : W → nat) : Prop := {
  bud_quiet R (f : W → R * W) w r w' :
    quiet_call f → f w = (r, w') → (bud w' ≤ bud w)%nat;
  bud_getfl fd w r w' : os_getfl fd w = (r, w') →
    (bud w' ≤ bud w)%nat ∧ (r = inr EINTR → (bud w' < bud w)%nat);
  bud_setfl fd fl w r w' : os_setfl fd fl w = (r, w') →
    (bud w' ≤ bud w)%nat ∧ (r = Some EINTR → (bud w' < bud w)%nat);
  bud_read fd n w r w' : os_read fd n w = (r, w') →
    (bud w' ≤ bud w)%nat ∧
    (r = inr EINTR ∨ (∃ c bs, r = inl (c :: bs)) → (bud w' < bud w)%nat);
  bud_write fd bs w r w' : os_write fd bs w = (r, w') →
    (bud w' ≤ bud w)%nat ∧ (r = inr EINTR → (bud w' < bud w)%nat);
  bud_send fd bs w r w' : os_send fd bs w = (r, w') →
    (bud w' ≤ bud w)%nat ∧ (r = inr EINTR → (bud w' < bud w)%nat);
  bud_accept open l w r w' : os_accept open l w = (r, w') →
    (bud w' ≤ bud w)%nat ∧
    (r = inr EINTR ∨ (∃ fd, r = inl fd) → (bud w' < bud w)%nat);
  bud_stop w r w' : os_stop_requested w = (r, w') →
    (bud w' ≤ bud w)%nat ∧ (r = false → (bud w' < bud w)%nat);
}.

Class PosixFair (W : Type) {OS : Posix W} := {
  os_budget : W → nat;
  os_budget_laws : budget_laws os_budget;
}.

(** ** Memory

    A block is a list of cells; [None] is an uninitialised byte. A pointer is
    [None] when it is NULL, otherwise the cells from the pointed position to
    the end of its block, so an access past the block is an access past the
    list. *)

Abbreviation cell := (option byte).
Abbreviation block := (list cell).
Abbreviation pointer := (option block).

Definition bytes_block (bs : list byte) : block := Some <$> bs.

(** The first [n] bytes at a pointer, if they exist and are initialised. *)
Fixpoint block_prefix (n : nat) (b : block) : option (list byte) :=
  match n, b with
  | O, _ => Some []
  | S n, Some c :: b => bs ← block_prefix n b; Some (c :: bs)
  | S _, _ => None
  end.

(** Overwrite the cells of [b] from position [i]. *)
Definition block_write (b : block) (i : nat) (bs : list byte) : option block :=
  if decide (i + length bs ≤ length b)%nat
  then Some (take i b ++ bytes_block bs ++ drop (i + length bs) b)
  else None.

Abbreviation loc := positive.

(** A queue node as [malloc] lays it out (struct wc_queued_request). *)
Record wc_queued_request := WcQueuedRequest {
  qr_client_fd : Z;
  qr_type : Z;
  qr_argument_length : Z;
  qr_next : option loc;
  qr_argument : block;
}.

(** ** Process state *)

(** Ghost record of what the process exchanged with the outside world. For a
    child process: a popen() that failed with an error, one that started the
    child, each fread() from its stream with the bytes and ferror() afterwards,
    and pclose() with the status it returned. *)
Inductive event :=
| EvRecv (fd : Z) (bs : list byte)
| EvSend (fd : Z) (bs : list byte)
| EvWrite (fd : Z) (bs : list byte)
| EvAccept (fd : Z)
| EvClose (fd : Z)
| EvSetfl (fd flags : Z)
| EvNoExec (command : list byte) (e : Z)
| EvExec (command : list byte)
| EvPipe (stream : Z) (r : list byte * bool)
| EvReap (stream status : Z).

Record machine (W : Type) := Machine {
  m_errno : Z;
  (** heap blocks allocated and not yet freed *)
  m_live : Z;
  (** queue nodes *)
  m_heap : gmap loc wc_queued_request;
  m_next_loc : loc;
  (** open descriptors *)
  m_open : gset Z;
  m_trace : list event;
  (** lines written to standard error *)
  m_stderr : list string;
  (** wc_minimum_level of logging.c *)
  m_log_level : Z;
  m_os : W;
}.

Arguments Machine {W}.
Arguments m_errno {W}.
Arguments m_live {W}.
Arguments m_heap {W}.
Arguments m_next_loc {W}.
Arguments m_open {W}.
Arguments m_trace {W}.
Arguments m_stderr {W}.
Arguments m_log_level {W}.
Arguments m_os {W}.

Section setters.
Context {W : Type}.
Implicit Types m : machine W.

Definition set_errno (e : Z) m : machine W :=
  Machine e (m_live m) (m_heap m) (m_next_loc m) (m_open m) (m_trace m)
    (m_stderr m) (m_log_level m) (m_os m).
Definition set_live (n : Z) m : machine W :=
  Machine (m_errno m) n (m_heap m) (m_next_loc m) (m_open m) (m_trace m)
    (m_stderr m) (m_log_level m) (m_os m).
Definition set_heap (h : gmap loc wc_queued_request) m : machine W :=
  Machine (m_errno m) (m_live m) h (m_next_loc m) (m_open m) (m_trace m)
    (m_stderr m) (m_log_level m) (m_os m).
Definition set_next_loc (l : loc) m : machine W :=
  Machine (m_errno m) (m_live m) (m_heap m) l (m_open m) (m_trace m)
    (m_stderr m) (m_log_level m) (m_os m).
Definition set_open (o : gset Z) m : machine W :=
  Machine (m_errno m) (m_live m) (m_heap m) (m_next_loc m) o (m_trace m)
    (m_stderr m) (m_log_level m) (m_os m).
Definition add_event (e : event) m : machine W :=
  Machine (m_errno m) (m_live m) (m_heap m) (m_next_loc m) (m_open m)
    (m_trace m ++ [e]) (m_stderr m) (m_log_level m) (m_os m).
Definition set_stderr (s : list string) m : machine W :=
  Machine (m_errno m) (m_live m) (m_heap m) (m_next_loc m) (m_open m)
    (m_trace m) s (m_log_level m) (m_os m).
Definition set_log_level (l : Z) m : machine W :=
  Machine (m_errno m) (m_live m) (m_heap m) (m_next_loc m) (m_open m)
    (m_trace m) (m_stderr m) l (m_os m).
Definition set_os (w : W) m : machine W :=
  Machine (m_errno m) (m_live m) (m_heap m) (m_next_loc m) (m_open m)
    (m_trace m) (m_stderr m) (m_log_level m) w.

End setters.

(** ** The monad

    [UB] is undefined behaviour (a NULL or wild access, a use after free) or a
    close of a descriptor that is not open; [NoFuel] is a loop that was cut
    off. *)

Inductive outcome (S A : Type) :=
| Ret (a : A) (s : S)
| UB
| NoFuel.
Arguments Ret {S A}.
Arguments UB {S A}.
Arguments NoFuel {S A}.

Definition M (W A : Type) : Type := machine W → outcome (machine W) A.

#[global] Instance M_ret {W} : MRet (M W) := λ A a m, Ret a m.
#[global] Instance M_bind {W} : MBind (M W) := λ A B k c m,
  match c m with
  | Ret a m' => k a m'
  | UB => UB
  | NoFuel => NoFuel
  end.

Notation "c1 ;; c2" := (mbind (M := M _) (λ _, c2) c1)
  (at level 100, c2 at level 200, right associativity) : wc_scope.

Section primitives.
Context {W : Type}.

Definition ub {A} : M W A := λ _, UB.
Definition nofuel {A} : M W A := λ _, NoFuel.
Definition gets {A} (f : machine W → A) : M W A := λ m, Ret (f m) m.
Definition modify (f : machine W → machine W) : M W () := λ m, Ret () (f m).

Definition from_option_ub {A} (o : option A) : M W A :=
  match o with Some a => mret a | None => ub end.

(** A call of the operating system. *)
Definition os_call {R} (f : W → R * W) : M W R := λ m,
  let '(r, w) := f (m_os m) in Ret r (set_os w m).

Definition get_errno : M W Z := gets m_errno.
Definition put_errno (e : Z) : M W () := modify (set_errno e).

(** [&x] passed to a function that updates its pointee. *)
Definition by_ref {A R} (f : option A → M W (R * option A)) (a : A) : M W (R * A) :=
  '(r, p) ← f (Some a);
  a' ← from_option_ub p;
  mret (r, a').

(** Loops: the body returns [Continue s] to start the next iteration in the
    local state [s] and [Break r] to leave the loop. *)
Fixpoint iter {S R} (fuel : nat) (body : S → M W (S + R)) (s : S) : M W R :=
  match fuel with
  | O => nofuel
  | Datatypes.S fuel =>
    r ← body s;
    match r with
    | inl s' => iter fuel body s'
    | inr r => mret r
    end
  end.

End primitives.

Arguments ub : simpl never.
Arguments nofuel : simpl never.
Arguments gets : simpl never.
Arguments modify : simpl never.
Arguments from_option_ub : simpl never.
Arguments os_call : simpl never.
Arguments get_errno : simpl never.
Arguments put_errno : simpl never.
Arguments by_ref : simpl never.

Abbreviation Continue := inl.
Abbreviation Break := inr.

(** ** Correctness

    [wp true c Q m]: started in [m], [c] returns, without undefined
    behaviour, a result and a state that satisfy [Q]. [wp false c Q m] allows
    a loop to be cut off as well (safety). *)

Definition wp {W A} (total : bool) (c : M W A) (Q : A → machine W → Prop)
    (m : machine W) : Prop :=
  match c m with
  | Ret a m' => Q a m'
  | UB => False
  | NoFuel => total = false
  end.

Section wp_rules.
Context {W : Type}.
Implicit Types (m : machine W) (t : bool).

Lemma wp_ret {A} t (a : A) Q m : Q a m → wp t (mret a) Q m.
Proof. done. Qed.

Lemma wp_bind {A B} t (c : M W A) (k : A → M W B) Q m :
  wp t c (λ a m', wp t (k a) Q m') m → wp t (mbind k c) Q m.
Proof. unfold wp, mbind, M_bind. by destruct (c m). Qed.

Lemma wp_mono {A} t (c : M W A) (Q Q' : A → machine W → Prop) m :
  wp t c Q m → (∀ a m', Q a m' → Q' a m') → wp t c Q' m.
Proof. unfold wp. destruct (c m); naive_solver. Qed.

Lemma wp_partial {A} (c : M W A) (Q : A → machine W → Prop) t m :
  wp true c Q m → wp t c Q m.
Proof. unfold wp. by destruct (c m). Qed.

Lemma wp_total_inv {A} (c : M W A) (Q : A → machine W → Prop) m :
  wp true c Q m → ∃ a m', c m = Ret a m' ∧ Q a m'.
Proof. unfold wp. destruct (c m); naive_solver. Qed.

Lemma wp_gets {A} t (f : machine W → A) Q m : Q (f m) m → wp t (gets f) Q m.
Proof. done. Qed.

Lemma wp_modify t f (Q : () → machine W → Prop) m :
  Q () (f m) → wp t (modify f) Q m.
Proof. done. Qed.

Lemma wp_os_call {R} t (f : W → R * W) Q m :
  (∀ r w, f (m_os m) = (r, w) → Q r (set_os w m)) → wp t (os_call f) Q m.
Proof. unfold wp, os_call. destruct (f (m_os m)) as [r w]. auto. Qed.

Lemma wp_from_option {A} t (o : option A) a Q m :
  o = Some a → Q a m → wp t (from_option_ub o) Q m.
Proof. by intros ->. Qed.

Lemma wp_by_ref {A R} t (f : option A → M W (R * option A)) a
    (Q : R * A → machine W → Prop) m :
  wp t (f (Some a)) (λ r m', match r with
                             | (r, Some a') => Q (r, a') m'
                             | (_, None) => False
                             end) m →
  wp t (by_ref f a) Q m.
Proof.
  intros Hf. unfold by_ref. apply wp_bind. eapply wp_mono; [exact Hf|].
  by intros [r [a'|]] m'.
Qed.

(** The loop rule: an invariant indexed by a bound on the iterations left,
    which total correctness makes every iteration decrease. *)
Lemma wp_iter_ix {S R} t (body : S → M W (S + R))
    (Inv : nat → S → machine W → Prop) Q fuel n s m :
  (∀ n s m, Inv n s m →
    wp t (body s) (λ r m', match r with
      | inl s' => ∃ n', (t = true → (n' < n)%nat) ∧ Inv n' s' m'
      | inr r => Q r m'
      end) m) →
  Inv n s m → (t = true → (n < fuel)%nat) →
  wp t (iter fuel body s) Q m.
Proof.
  intros Hbody. revert n s m.
  induction fuel as [|fuel IH]; intros n s m HI Hfuel; simpl.
  { destruct t; [by specialize (Hfuel eq_refl); lia | done]. }
  apply wp_bind. eapply wp_mono; [by eapply Hbody|].
  intros [s'|r] m'; [|done]. intros (n' & Hdec & HI'). eapply IH; [done|].
  intros ->. specialize (Hdec eq_refl). specialize (Hfuel eq_refl). lia.
Qed.

(** The same with a measure on the loop state. *)
Lemma wp_iter {S R} t (body : S → M W (S + R)) (Inv : S → machine W → Prop)
    (measure : S → machine W → nat) Q fuel s m :
  (∀ s m, Inv s m →
    wp t (body s) (λ r m', match r with
      | inl s' => Inv s' m' ∧ (t = true → (measure s' m' < measure s m)%nat)
      | inr r => Q r m'
      end) m) →
  Inv s m → (t = true → (measure s m < fuel)%nat) →
  wp t (iter fuel body s) Q m.
Proof.
  intros Hbody HI Hfuel.
  apply (wp_iter_ix _ _ (λ n s m, n = measure s m ∧ Inv s m) _ _ (measure s m));
    [|done..].
  intros n s' m' [-> HI']. eapply wp_mono; [by apply Hbody|].
  intros [s2|r] m2; naive_solver.
Qed.

End wp_rules.

(** Symbolic execution of the structural steps of a function body. *)
Ltac wp_step :=
  match goal with
  | |- wp _ (mbind _ _) _ _ => apply wp_bind
  | |- wp _ (mret _) _ _ => apply wp_ret
  | |- wp _ (gets _) _ _ => apply wp_gets
  | |- wp _ (modify _) _ _ => apply wp_modify
  | |- wp _ get_errno _ _ => apply wp_gets
  | |- wp _ (put_errno _) _ _ => apply wp_modify
  | |- wp _ (by_ref _ _) _ _ => apply wp_by_ref
  | |- wp _ (from_option_ub (Some ?a)) _ _ =>
    apply (wp_from_option _ (Some a) a _ _ eq_refl)
  | H : ?o = Some ?a |- wp _ (from_option_ub ?o) _ _ =>
    apply (wp_from_option _ o a _ _ H)
  end; cbn beta iota.
Ltac wp_go := repeat wp_step.

(** ** Allocation *)

Section allocation.
Context {W : Type} {OS : Posix W}.

(** [malloc(n)] of a byte block; [m_live] counts it until it is freed. *)
Definition malloc_block (n : Z) : M W pointer :=
  ok ← os_call (os_malloc n);
  if (ok : bool) then
    modify (λ m, set_live (m_live m + 1) m) ;;
    mret (Some (replicate (Z.to_nat n) None))
  else put_errno ENOMEM ;; mret None.

(** [realloc(p, n)]: the old cells are kept up to the new size. A size of
    zero has no portable meaning and is treated as undefined. *)
Definition realloc_block (p : pointer) (n : Z) : M W pointer :=
  if n <=? 0 then ub else
  ok ← os_call (os_malloc n);
  if (ok : bool) then
    match p with
    | None =>
      modify (λ m, set_live (m_live m + 1) m) ;;
      mret (Some (replicate (Z.to_nat n) None))
    | Some b => mret (Some (resize (Z.to_nat n) None b))
    end
  else put_errno ENOMEM ;; mret None.

Definition free_block (p : pointer) : M W () :=
  match p with
  | None => mret ()
  | Some _ => modify (λ m, set_live (m_live m - 1) m)
  end.

(** [memcpy] source: the first [n] bytes at a pointer. *)
Definition read_bytes (p : pointer) (n : Z) : M W (list byte) :=
  b ← from_option_ub p;
  from_option_ub (block_prefix (Z.to_nat n) b).

(** One byte load, [p[i]]. *)
Definition load_byte (p : pointer) (i : Z) : M W byte :=
  b ← from_option_ub p;
  if i <? 0 then ub else
  c ← from_option_ub (b !! Z.to_nat i);
  from_option_ub c.

(** Store of [bs] from position [i] of a block. *)
Definition write_bytes (p : pointer) (i : Z) (bs : list byte) : M W pointer :=
  b ← from_option_ub p;
  if i <? 0 then ub else
  b' ← from_option_ub (block_write b (Z.to_nat i) bs);
  mret (Some b').

(** [snprintf(p, size, ...)] for a formatted text: the length of the text, of
    which the block gets what fits, with a NUL. It fails when the length is no
    [int]; the formats of the program have no other error. *)
Definition snprintf (p : pointer) (size : Z) (text : list byte) : M W (Z * pointer) :=
  if zlen text >? INT_MAX then put_errno EOVERFLOW ;; mret (-1, p) else
  p ← write_bytes p 0 (take (Z.to_nat (size - 1)) text ++ [NUL]);
  mret (zlen text, p).

End allocation.

Arguments malloc_block : simpl never.
Arguments realloc_block : simpl never.
Arguments free_block : simpl never.
Arguments read_bytes : simpl never.
Arguments load_byte : simpl never.
Arguments write_bytes : simpl never.
Arguments snprintf : simpl never.

(** [p + i] *)
Definition ptr_add (p : pointer) (i : Z) : pointer := drop (Z.to_nat i) <$> p.

Definition is_null {A} (p : option A) : bool :=
  match p with None => true | Some _ => false end.

(** Number of heap blocks a pointer owns. *)
Definition owned {A} (p : option A) : Z := if is_null p then 0 else 1.

(** ** Frames

    [silent m m']: nothing but [errno], the count of live blocks and the
    allocator's part of the outside world changed. *)

(** The outside world after any number of allocations. *)
Definition os_mallocs {W} {OS : Posix W} : relation W :=
  rtc (λ w w', ∃ n b, os_malloc n w = (b, w')).

Record silent {W} {OS : Posix W} (m m' : machine W) : Prop := {
  silent_heap : m_heap m' = m_heap m;
  silent_next : m_next_loc m' = m_next_loc m;
  silent_open : m_open m' = m_open m;
  silent_trace : m_trace m' = m_trace m;
  silent_stderr : m_stderr m' = m_stderr m;
  silent_level : m_log_level m' = m_log_level m;
  silent_os : os_mallocs (m_os m) (m_os m');
}.

#[global] Instance silent_preorder {W} {OS : Posix W} : PreOrder silent.
Proof.
  split.
  - intros m. by constructor.
  - intros m1 m2 m3 [] []. constructor; try congruence. by etrans.
Qed.

(** Chains of [silent] steps. *)
Ltac os_tac :=
  solve [ apply rtc_refl
        | eassumption
        | etrans; [eassumption|]; first [eassumption | etrans; eassumption]
        | apply rtc_once; eauto
        | eapply rtc_r; [eassumption|]; eauto ].
Ltac silent_tac :=
  solve [ constructor; simpl in *;
          repeat match goal with H : silent _ _ |- _ => destruct H end;
          simpl in *; first [congruence | os_tac] ].

(** Routine side conditions of a specification. *)
Ltac side := first [done | reflexivity | lia | by (simpl; lia) | silent_tac | idtac].

(** ** Facts about blocks *)

Lemma length_bytes_block (bs : list byte) : length (bytes_block bs) = length bs.
Proof. apply length_fmap. Qed.
#[export] Hint Rewrite length_bytes_block : wc_len.
Arguments bytes_block : simpl never.

Lemma block_prefix_app (bs : list byte) (rest : block) :
  block_prefix (length bs) (bytes_block bs ++ rest) = Some bs.
Proof.
  unfold bytes_block.
  induction bs as [|c bs IH]; [by destruct rest |].
  rewrite fmap_cons. simpl. by rewrite IH.
Qed.

Lemma block_prefix_Some (n : nat) (b : block) (bs : list byte) :
  block_prefix n b = Some bs ↔ ∃ rest, b = bytes_block bs ++ rest ∧ length bs = n.
Proof.
  split.
  - revert b bs. induction n as [|n IH]; intros b bs; simpl.
    { intros [= <-]. by exists b. }
    destruct b as [|[c|] b]; simpl; [done| |done].
    destruct (block_prefix n b) as [bs'|] eqn:Hb; simpl; [|done].
    intros [= <-]. apply IH in Hb as (rest & -> & <-). by exists rest.
  - intros (rest & -> & <-). apply block_prefix_app.
Qed.

Lemma block_prefix_le (n k : nat) (b : block) (bs : list byte) :
  block_prefix n b = Some bs → (k ≤ n)%nat → block_prefix k b = Some (take k bs).
Proof.
  intros (rest & -> & <-)%block_prefix_Some Hk.
  apply block_prefix_Some. exists (bytes_block (drop k bs) ++ rest).
  unfold bytes_block. rewrite app_assoc, <-fmap_app, take_drop.
  split; [done|]. rewrite length_take. lia.
Qed.

Lemma block_prefix_drop (n k : nat) (b : block) (bs : list byte) :
  block_prefix n b = Some bs → (k ≤ n)%nat →
  block_prefix (n - k) (drop k b) = Some (drop k bs).
Proof.
  intros (rest & -> & <-)%block_prefix_Some Hk.
  apply block_prefix_Some. exists rest. split.
  - unfold bytes_block. rewrite drop_app_le by (rewrite length_fmap; lia).
    by rewrite fmap_drop.
  - by rewrite length_drop.
Qed.

Lemma block_prefix_bytes (bs : list byte) (n : nat) :
  (n ≤ length bs)%nat → block_prefix n (bytes_block bs) = Some (take n bs).
Proof.
  intros Hn. rewrite <-(app_nil_r (bytes_block bs)).
  eapply block_prefix_le; [apply block_prefix_app | done].
Qed.

Lemma block_write_at (bs new : list byte) (rest : block) (i : nat) :
  i = length bs → (length new ≤ length rest)%nat →
  block_write (bytes_block bs ++ rest) i new =
    Some (bytes_block (bs ++ new) ++ drop (length new) rest).
Proof.
  intros -> Hl. unfold block_write, bytes_block.
  rewrite decide_True by (rewrite length_app, length_fmap; lia).
  f_equal. rewrite take_app_exact by (by rewrite length_fmap).
  rewrite fmap_app, <-app_assoc. do 2 f_equal.
  rewrite drop_app_ge by (rewrite length_fmap; lia). f_equal.
  rewrite length_fmap. lia.
Qed.

(** [points_to p bs]: the bytes [bs] can be read at [p]; NULL holds none. *)
Definition points_to (p : pointer) (bs : list byte) : Prop :=
  match p with
  | None => bs = []
  | Some b => block_prefix (length bs) b = Some bs
  end.

Lemma points_to_bytes bs : points_to (Some (bytes_block bs)) bs.
Proof. simpl. by rewrite block_prefix_bytes, firstn_all. Qed.
#[export] Hint Resolve points_to_bytes : wc.

(** The [data == NULL && size != 0] test of the C functions is false. *)
Lemma points_to_null_test p bs :
  points_to p bs → is_null p && negb (zlen bs =? 0) = false.
Proof. by destruct p; [|intros ->]. Qed.

Section memory_rules.
Context {W : Type} {OS : Posix W}.
Implicit Types (m : machine W) (t : bool).

Lemma wp_read_bytes t p b n bs (Q : list byte → machine W → Prop) m :
  p = Some b → block_prefix (Z.to_nat n) b = Some bs → Q bs m →
  wp t (read_bytes p n) Q m.
Proof. intros -> Hb HQ. unfold read_bytes. by wp_go. Qed.

Lemma wp_read_points_to t p bs (Q : list byte → machine W → Prop) m :
  points_to p bs → zlen bs ≠ 0 → Q bs m → wp t (read_bytes p (zlen bs)) Q m.
Proof.
  intros Hp Hn HQ. destruct p as [b|]; simpl in Hp; [|by subst].
  eapply wp_read_bytes; [done | by rewrite Nat2Z.id | done].
Qed.

Lemma wp_load_byte t p b n bs i c (Q : byte → machine W → Prop) m :
  p = Some b → block_prefix n b = Some bs → 0 ≤ i →
  bs !! Z.to_nat i = Some c → Q c m →
  wp t (load_byte p i) Q m.
Proof.
  intros -> (rest & -> & <-)%block_prefix_Some Hi Hc HQ.
  unfold load_byte. wp_go.
  rewrite (proj2 (Z.ltb_ge i 0)) by lia. wp_go.
  assert ((bytes_block bs ++ rest) !! Z.to_nat i = Some (Some c)) as Hl.
  { unfold bytes_block. rewrite lookup_app_l.
    - by rewrite list_lookup_fmap, Hc.
    - rewrite length_fmap. by apply lookup_lt_Some in Hc. }
  by wp_go.
Qed.

Lemma wp_write_bytes t p b b' i bs (Q : pointer → machine W → Prop) m :
  p = Some b → 0 ≤ i → block_write b (Z.to_nat i) bs = Some b' →
  Q (Some b') m → wp t (write_bytes p i bs) Q m.
Proof.
  intros -> Hi Hw HQ. unfold write_bytes. wp_go.
  rewrite (proj2 (Z.ltb_ge i 0)) by lia. by wp_go.
Qed.

(** [snprintf] into a block of [n] uninitialised bytes. *)
Lemma wp_snprintf t n text (Q : Z * pointer → machine W → Prop) m :
  0 < n →
  (zlen text ≤ INT_MAX → ∀ rest,
     Q (zlen text, Some (bytes_block (take (Z.to_nat (n - 1)) text ++ [NUL]) ++ rest)) m) →
  (INT_MAX < zlen text → Q (-1, Some (replicate (Z.to_nat n) None)) (set_errno EOVERFLOW m)) →
  wp t (snprintf (Some (replicate (Z.to_nat n) None)) n text) Q m.
Proof.
  intros Hn Hok Hbig. unfold snprintf. destruct (zlen text >? INT_MAX) eqn:Hl.
  { wp_go. apply Hbig. lia. }
  apply wp_bind. set (new := take _ text ++ [NUL]).
  assert (length new ≤ Z.to_nat n)%nat as Hfit
    by (subst new; rewrite length_app, length_take; simpl; lia).
  eapply wp_write_bytes; [done | done | |].
  { change (replicate (Z.to_nat n) None) with
      (bytes_block [] ++ replicate (Z.to_nat n) (@None byte)).
    apply block_write_at; [done | by rewrite length_replicate]. }
  wp_go. apply Hok. lia.
Qed.

Lemma wp_malloc_block t n (Q : pointer → machine W → Prop) m :
  (∀ m', silent m m' → m_live m' = m_live m + 1 → m_errno m' = m_errno m →
     Q (Some (replicate (Z.to_nat n) None)) m') →
  (∀ m', silent m m' → m_live m' = m_live m → m_errno m' = ENOMEM → Q None m') →
  wp t (malloc_block n) Q m.
Proof.
  intros Hok Hfail. unfold malloc_block. apply wp_bind, wp_os_call.
  intros [] w Hw; wp_go; [apply Hok | apply Hfail]; first [done | silent_tac].
Qed.

Lemma wp_realloc_block t p n (Q : pointer → machine W → Prop) m :
  0 < n →
  (∀ m', silent m m' → m_live m' = m_live m + 1 - owned p →
     m_errno m' = m_errno m →
     Q (Some (resize (Z.to_nat n) None (default [] p))) m') →
  (∀ m', silent m m' → m_live m' = m_live m → m_errno m' = ENOMEM → Q None m') →
  wp t (realloc_block p n) Q m.
Proof.
  intros Hn Hok Hfail. unfold realloc_block.
  rewrite (proj2 (Z.leb_gt n 0)) by lia.
  apply wp_bind, wp_os_call. intros [] w Hw; cbn iota.
  - destruct p as [b|]; wp_go.
    + apply Hok; try done; first [silent_tac | unfold owned; simpl; lia].
    + simpl in Hok. rewrite resize_nil in Hok.
      apply Hok; try done; first [silent_tac | unfold owned; simpl; lia].
  - wp_go. apply Hfail; first [done | silent_tac].
Qed.

Lemma wp_free_block t p (Q : () → machine W → Prop) m :
  (∀ m', silent m m' → m_live m' = m_live m - owned p →
     m_errno m' = m_errno m → Q () m') →
  wp t (free_block p) Q m.
Proof.
  intros HQ. destruct p as [b|]; simpl; wp_go; apply HQ;
    first [done | silent_tac | unfold owned; simpl; lia].
Qed.

End memory_rules.

Lemma points_to_app_r p bs1 bs2 :
  points_to p (bs1 ++ bs2) → points_to (ptr_add p (zlen bs1)) bs2.
Proof.
  unfold ptr_add. rewrite Nat2Z.id.
  destruct p as [b|]; unfold points_to; [|by intros [_ ->]%app_eq_nil].
  intros Hp. apply (block_prefix_drop _ (length bs1)) in Hp; [|rewrite length_app; lia].
  rewrite length_app, drop_app_length in Hp.
  by replace (length bs1 + length bs2 - length bs1)%nat with (length bs2) in Hp by lia.
Qed.

Lemma points_to_app_l p bs1 bs2 : points_to p (bs1 ++ bs2) → points_to p bs1.
Proof.
  destruct p as [b|]; simpl; [|by intros [-> _]%app_eq_nil].
  intros Hp. apply (block_prefix_le _ (length bs1)) in Hp; [|rewrite length_app; lia].
  by rewrite take_app_length in Hp.
Qed.

Lemma points_to_drop p bs (i : nat) :
  points_to p bs → (i ≤ length bs)%nat → points_to (ptr_add p (Z.of_nat i)) (drop i bs).
Proof.
  intros Hp Hi. rewrite <-(take_drop i bs) in Hp. apply points_to_app_r in Hp.
  by rewrite length_take, Nat.min_l in Hp by done.
Qed.

Lemma os_mallocs_budget {W} {OS : Posix W} (bud : W → nat) w w' :
  budget_laws bud → os_mallocs w w' → (bud w' ≤ bud w)%nat.
Proof.
  intros Hb. induction 1 as [|w1 w2 w3 (n & b & Hw) _ IH]; [done|].
  apply (bud_quiet _ Hb) in Hw; [lia | constructor].
Qed.

(** ** System calls

    The C calling convention over [Posix]: -1 with [errno] set on failure.
    Descriptors are tracked in [m_open] and transfers in [m_trace]. *)

Section system_calls.
Context {W : Type} {OS : Posix W}.

(** An [int] result: the value, or -1 with [errno]. *)
Definition int_result (r : Z + Z) : M W Z :=
  match r with
  | inl v => mret v
  | inr e => put_errno e ;; mret (-1)
  end.

(** A status result: 0, or -1 with [errno]. *)
Definition status_result (r : option Z) : M W Z :=
  match r with
  | None => mret 0
  | Some e => put_errno e ;; mret (-1)
  end.

Definition sys_read (fd count : Z) : M W (Z * list byte) :=
  r ← os_call (os_read fd count);
  match r with
  | inl bs => modify (add_event (EvRecv fd bs)) ;; mret (zlen bs, bs)
  | inr e => put_errno e ;; mret (-1, [])
  end.

Definition sys_write (fd : Z) (bs : list byte) : M W Z :=
  r ← os_call (os_write fd bs);
  match r with
  | inl n => modify (add_event (EvWrite fd (take (Z.to_nat n) bs))) ;; mret n
  | inr e => put_errno e ;; mret (-1)
  end.

Definition sys_send (fd : Z) (bs : list byte) : M W Z :=
  r ← os_call (os_send fd bs);
  match r with
  | inl n => modify (add_event (EvSend fd (take (Z.to_nat n) bs))) ;; mret n
  | inr e => put_errno e ;; mret (-1)
  end.

Definition sys_accept (listener : Z) : M W Z :=
  open ← gets m_open;
  r ← os_call (os_accept open listener);
  match r with
  | inl fd =>
    modify (λ m, add_event (EvAccept fd) (set_open ({[fd]} ∪ m_open m) m)) ;; mret fd
  | inr e => put_errno e ;; mret (-1)
  end.

Definition sys_socket : M W Z :=
  open ← gets m_open;
  r ← os_call (os_socket open);
  match r with
  | inl fd => modify (λ m, set_open ({[fd]} ∪ m_open m) m) ;; mret fd
  | inr e => put_errno e ;; mret (-1)
  end.

(** Linux releases the descriptor even when close() reports an error. Closing a
    descriptor that is not open is a fault: close() would report EBADF or, if
    another thread has got the number in the meantime, close its file. The
    machine stops at it, so a run that returns has closed nothing twice. *)
Definition sys_close (fd : Z) : M W Z :=
  open ← gets m_open;
  if decide (fd ∈ open) then
    modify (λ m, add_event (EvClose fd) (set_open (m_open m ∖ {[fd]}) m)) ;;
    r ← os_call (os_close fd);
    status_result r
  else ub.

Definition sys_getfl (fd : Z) : M W Z := r ← os_call (os_getfl fd); int_result r.
Definition sys_setfl (fd flags : Z) : M W Z :=
  r ← os_call (os_setfl fd flags);
  match r with
  | None => modify (add_event (EvSetfl fd flags)) ;; mret 0
  | Some e => put_errno e ;; mret (-1)
  end.

(** poll(): number of ready descriptors and their revents; the revents stay
    zero, as the caller set them, when the call fails. *)
Definition sys_poll (ds : list (Z * Z)) (timeout : Z) : M W (Z * list Z) :=
  r ← os_call (os_poll ds timeout);
  match r with
  | inl (k, revents) => mret (k, revents)
  | inr e => put_errno e ;; mret (-1, replicate (length ds) 0)
  end.

Definition sys_unlink (path : list byte) : M W Z :=
  r ← os_call (os_unlink path); status_result r.

(** [(void)fprintf(stderr, ...)]: [line] is the text without its newline. *)
Definition sys_stderr (line : string) : M W () :=
  r ← os_call (os_stderr line);
  match r with
  | None => modify (λ m, set_stderr (m_stderr m ++ [line]) m)
  | Some e => put_errno e
  end.

End system_calls.

Arguments sys_read : simpl never.
Arguments sys_write : simpl never.
Arguments sys_send : simpl never.
Arguments sys_accept : simpl never.
Arguments sys_socket : simpl never.
Arguments sys_close : simpl never.
Arguments sys_getfl : simpl never.
Arguments sys_setfl : simpl never.
Arguments sys_poll : simpl never.
Arguments sys_unlink : simpl never.
Arguments sys_stderr : simpl never.

(** [kept m m']: the heap and the logging level are unchanged, and the
    outside world did not gain the power to interrupt more calls. *)
Definition os_mono {W} {OS : Posix W} (w w' : W) : Prop :=
  ∀ bud, budget_laws bud → (bud w' ≤ bud w)%nat.

#[global] Instance os_mono_preorder {W} {OS : Posix W} : PreOrder os_mono.
Proof.
  split; [by intros w bud _|]. intros w1 w2 w3 H1 H2 bud Hb.
  specialize (H1 bud Hb). specialize (H2 bud Hb). lia.
Qed.

Lemma os_mono_quiet {W} {OS : Posix W} {R} (f : W → R * W) w r w' :
  quiet_call f → f w = (r, w') → os_mono w w'.
Proof. intros Hf Hw bud Hb. by eapply bud_quiet. Qed.

Record kept {W} {OS : Posix W} (m m' : machine W) : Prop := {
  kept_heap : m_heap m' = m_heap m;
  kept_next : m_next_loc m' = m_next_loc m;
  kept_level : m_log_level m' = m_log_level m;
  kept_os : os_mono (m_os m) (m_os m');
}.

#[global] Instance kept_preorder {W} {OS : Posix W} : PreOrder kept.
Proof.
  split.
  - intros m. by constructor.
  - intros m1 m2 m3 [] []. constructor; try congruence. by etrans.
Qed.

Lemma silent_kept {W} {OS : Posix W} (m m' : machine W) : silent m m' → kept m m'.
Proof.
  intros []. constructor; try done. intros bud Hb. by apply os_mallocs_budget.
Qed.
#[export] Hint Resolve silent_kept : wc.

(** The outside world spent some of its power to interrupt or deliver. *)
Definition os_spent {W} {OS : Posix W} (w w' : W) : Prop :=
  ∀ bud, budget_laws bud → (bud w' < bud w)%nat.

Lemma os_spent_mono {W} {OS : Posix W} (w1 w2 w3 : W) :
  os_spent w1 w2 → os_mono w2 w3 → os_spent w1 w3.
Proof.
  intros H1 H2 bud Hb. specialize (H1 bud Hb). specialize (H2 bud Hb). lia.
Qed.

(** A system call: as [kept], and memory and the log are unchanged. *)
Record call_frame {W} {OS : Posix W} (m m' : machine W) : Prop := {
  cf_kept : kept m m';
  cf_live : m_live m' = m_live m;
  cf_stderr : m_stderr m' = m_stderr m;
}.

#[global] Instance call_frame_preorder {W} {OS : Posix W} : PreOrder call_frame.
Proof.
  split; [by intros m; constructor|].
  intros m1 m2 m3 [] []. constructor; try congruence. by etrans.
Qed.

(** A system call that opened, closed and transferred nothing. *)
Record call_frame0 {W} {OS : Posix W} (m m' : machine W) : Prop := {
  cf0_frame : call_frame m m';
  cf0_open : m_open m' = m_open m;
  cf0_trace : m_trace m' = m_trace m;
}.

#[global] Instance call_frame0_preorder {W} {OS : Posix W} : PreOrder call_frame0.
Proof.
  split; [by intros m; constructor|].
  intros m1 m2 m3 [] []. constructor; try congruence. by etrans.
Qed.

Lemma call_frame0_frame {W} {OS : Posix W} (m m' : machine W) :
  call_frame0 m m' → call_frame m m'.
Proof. by intros []. Qed.
Lemma call_frame_kept {W} {OS : Posix W} (m m' : machine W) :
  call_frame m m' → kept m m'.
Proof. by intros []. Qed.
#[export] Hint Resolve call_frame0_frame call_frame_kept : wc.

Lemma call_frame0_errno {W} {OS : Posix W} (m : machine W) e :
  call_frame0 m (set_errno e m).
Proof. by repeat constructor. Qed.
#[export] Hint Resolve call_frame0_errno : wc.

Section system_call_rules.
Context {W : Type} {OS : Posix W}.
Implicit Types (m : machine W) (t : bool).

Lemma wp_quiet_call {R} t (f : W → R * W) (Q : R → machine W → Prop) m :
  quiet_call f →
  (∀ r m', call_frame0 m m' → m_errno m' = m_errno m → Q r m') →
  wp t (os_call f) Q m.
Proof.
  intros Hf HQ. apply wp_os_call. intros r w Hw. apply HQ; [|done].
  repeat constructor; try done. by eapply os_mono_quiet.
Qed.

Lemma wp_stop_requested t (Q : bool → machine W → Prop) m :
  (∀ r m', call_frame0 m m' → m_errno m' = m_errno m →
     (r = false → os_spent (m_os m) (m_os m')) → Q r m') →
  wp t (os_call os_stop_requested) Q m.
Proof.
  intros HQ. apply wp_os_call. intros r w Hw. apply HQ; [|done|].
  - repeat constructor; try done. intros bud Hb. exact (proj1 (bud_stop _ Hb _ _ _ Hw)).
  - intros -> bud Hb. by apply (proj2 (bud_stop _ Hb _ _ _ Hw)).
Qed.

Lemma wp_sys_stderr t line (Q : () → machine W → Prop) m :
  (∀ e w, os_mono (m_os m) w → Q () (set_errno e (set_os w m))) →
  (∀ w, os_mono (m_os m) w → Q () (set_stderr (m_stderr m ++ [line]) (set_os w m))) →
  wp t (sys_stderr line) Q m.
Proof.
  intros Hfail Hok. unfold sys_stderr. apply wp_bind, wp_os_call. intros r w Hw.
  assert (os_mono (m_os m) w) by (eapply os_mono_quiet, Hw; constructor).
  destruct r; wp_go; auto.
Qed.

Lemma wp_int_result t r (Q : Z → machine W → Prop) m :
  (∀ v, r = inl v → Q v m) →
  (∀ e, r = inr e → Q (-1) (set_errno e m)) →
  wp t (int_result r) Q m.
Proof. intros H1 H2. destruct r; unfold int_result; wp_go; auto. Qed.

Lemma wp_status_result t r (Q : Z → machine W → Prop) m :
  (r = None → Q 0 m) →
  (∀ e, r = Some e → Q (-1) (set_errno e m)) →
  wp t (status_result r) Q m.
Proof. intros H1 H2. destruct r; unfold status_result; wp_go; auto. Qed.

Lemma wp_sys_getfl t fd (Q : Z → machine W → Prop) m `{!PosixLaws W} :
  (∀ v m', 0 ≤ v → call_frame0 m m' → Q v m') →
  (∀ m', call_frame0 m m' →
     (m_errno m' = EINTR → os_spent (m_os m) (m_os m')) → Q (-1) m') →
  wp t (sys_getfl fd) Q m.
Proof.
  intros Hok Hfail. unfold sys_getfl. apply wp_bind, wp_os_call. intros r w Hw.
  assert (os_mono (m_os m) w) as Hm by (intros bud Hb; exact (proj1 (bud_getfl _ Hb _ _ _ _ Hw))).
  apply wp_int_result; intros v ->; [apply Hok | apply Hfail];
    [by eapply os_getfl_nonneg | by repeat constructor..|].
  simpl. intros -> bud Hb. pose proof (proj2 (bud_getfl _ Hb _ _ _ _ Hw)) as Hd. by apply Hd; auto.
Qed.

Lemma wp_sys_setfl t fd fl (Q : Z → machine W → Prop) m :
  (∀ m', call_frame m m' → m_open m' = m_open m →
     m_trace m' = m_trace m ++ [EvSetfl fd fl] → Q 0 m') →
  (∀ m', call_frame0 m m' →
     (m_errno m' = EINTR → os_spent (m_os m) (m_os m')) → Q (-1) m') →
  wp t (sys_setfl fd fl) Q m.
Proof.
  intros Hok Hfail. unfold sys_setfl. apply wp_bind, wp_os_call. intros r w Hw.
  assert (os_mono (m_os m) w) as Hm by (intros bud Hb; exact (proj1 (bud_setfl _ Hb _ _ _ _ _ Hw))).
  destruct r as [e|]; wp_go; [apply Hfail | apply Hok]; try by repeat constructor.
  simpl. intros -> bud Hb. pose proof (proj2 (bud_setfl _ Hb _ _ _ _ _ Hw)) as Hd. by apply Hd; auto.
Qed.

Lemma wp_sys_write t fd bs (Q : Z → machine W → Prop) m `{!PosixLaws W} :
  (∀ n m', 0 ≤ n ≤ zlen bs → call_frame m m' → m_open m' = m_open m →
     m_trace m' = m_trace m ++ [EvWrite fd (take (Z.to_nat n) bs)] → Q n m') →
  (∀ m', call_frame0 m m' →
     (m_errno m' = EINTR → os_spent (m_os m) (m_os m')) → Q (-1) m') →
  wp t (sys_write fd bs) Q m.
Proof.
  intros Hok Hfail. unfold sys_write. apply wp_bind, wp_os_call. intros r w Hw.
  assert (os_mono (m_os m) w) as Hm by (intros bud Hb; exact (proj1 (bud_write _ Hb _ _ _ _ _ Hw))).
  destruct r as [n|e]; wp_go; [apply Hok | apply Hfail];
    try by repeat constructor.
  - by eapply os_write_bound.
  - simpl. intros -> bud Hb. pose proof (proj2 (bud_write _ Hb _ _ _ _ _ Hw)) as Hd. by apply Hd; auto.
Qed.

Lemma wp_sys_send t fd bs (Q : Z → machine W → Prop) m `{!PosixLaws W} :
  (∀ n m', 0 ≤ n ≤ zlen bs → call_frame m m' → m_open m' = m_open m →
     m_trace m' = m_trace m ++ [EvSend fd (take (Z.to_nat n) bs)] → Q n m') →
  (∀ m', call_frame0 m m' →
     (m_errno m' = EINTR → os_spent (m_os m) (m_os m')) → Q (-1) m') →
  wp t (sys_send fd bs) Q m.
Proof.
  intros Hok Hfail. unfold sys_send. apply wp_bind, wp_os_call. intros r w Hw.
  assert (os_mono (m_os m) w) as Hm by (intros bud Hb; exact (proj1 (bud_send _ Hb _ _ _ _ _ Hw))).
  destruct r as [n|e]; wp_go; [apply Hok | apply Hfail]; try by repeat constructor.
  - by eapply os_send_bound.
  - simpl. intros -> bud Hb. pose proof (proj2 (bud_send _ Hb _ _ _ _ _ Hw)) as Hd. by apply Hd; auto.
Qed.

Lemma wp_sys_read t fd count (Q : Z * list byte → machine W → Prop) m `{!PosixLaws W} :
  0 ≤ count →
  (∀ bs m', zlen bs ≤ count → call_frame m m' → m_open m' = m_open m →
     m_trace m' = m_trace m ++ [EvRecv fd bs] →
     (bs ≠ [] → os_spent (m_os m) (m_os m')) → Q (zlen bs, bs) m') →
  (∀ m', call_frame0 m m' →
     (m_errno m' = EINTR → os_spent (m_os m) (m_os m')) → Q (-1, []) m') →
  wp t (sys_read fd count) Q m.
Proof.
  intros Hc Hok Hfail. unfold sys_read. apply wp_bind, wp_os_call. intros r w Hw.
  assert (os_mono (m_os m) w) as Hm by (intros bud Hb; exact (proj1 (bud_read _ Hb _ _ _ _ _ Hw))).
  destruct r as [bs|e]; wp_go; [apply Hok | apply Hfail]; try by repeat constructor.
  - by eapply os_read_bound.
  - intros Hbs bud Hb. pose proof (proj2 (bud_read _ Hb _ _ _ _ _ Hw)) as Hd. apply Hd. right.
    destruct bs as [|c bs]; [done|]. by exists c, bs.
  - simpl. intros -> bud Hb. pose proof (proj2 (bud_read _ Hb _ _ _ _ _ Hw)) as Hd. by apply Hd; auto.
Qed.

Lemma wp_sys_accept t l (Q : Z → machine W → Prop) m `{!PosixLaws W} :
  (∀ fd m', 0 ≤ fd → (fd ∉ m_open m) → call_frame m m' →
     m_open m' = {[fd]} ∪ m_open m → m_trace m' = m_trace m ++ [EvAccept fd] →
     os_spent (m_os m) (m_os m') → Q fd m') →
  (∀ m', call_frame0 m m' →
     (m_errno m' = EINTR → os_spent (m_os m) (m_os m')) → Q (-1) m') →
  wp t (sys_accept l) Q m.
Proof.
  intros Hok Hfail. unfold sys_accept. wp_go. apply wp_os_call. intros r w Hw.
  assert (os_mono (m_os m) w) as Hm by (intros bud Hb; exact (proj1 (bud_accept _ Hb _ _ _ _ _ Hw))).
  destruct r as [fd|e]; wp_go.
  - destruct (os_accept_fresh _ _ _ _ _ Hw). apply Hok; try by repeat constructor.
    simpl. intros bud Hb. pose proof (proj2 (bud_accept _ Hb _ _ _ _ _ Hw)) as Hd. apply Hd. eauto.
  - apply Hfail; try by repeat constructor.
    simpl. intros -> bud Hb. pose proof (proj2 (bud_accept _ Hb _ _ _ _ _ Hw)) as Hd. by apply Hd; auto.
Qed.

Lemma wp_sys_socket t (Q : Z → machine W → Prop) m `{!PosixLaws W} :
  (∀ fd m', 0 ≤ fd → (fd ∉ m_open m) → call_frame m m' →
     m_open m' = {[fd]} ∪ m_open m → m_trace m' = m_trace m → Q fd m') →
  (∀ m', call_frame0 m m' → Q (-1) m') →
  wp t sys_socket Q m.
Proof.
  intros Hok Hfail. unfold sys_socket. wp_go. apply wp_os_call. intros r w Hw.
  assert (os_mono (m_os m) w) as Hm by (eapply os_mono_quiet, Hw; constructor).
  destruct r as [fd|e]; wp_go.
  - destruct (os_socket_fresh _ _ _ _ Hw). apply Hok; try by repeat constructor.
  - apply Hfail; try by repeat constructor.
Qed.

Lemma wp_sys_close t fd (Q : Z → machine W → Prop) m :
  (fd ∈ m_open m) →
  (∀ r m', call_frame m m' → m_open m' = m_open m ∖ {[fd]} →
     m_trace m' = m_trace m ++ [EvClose fd] → Q r m') →
  wp t (sys_close fd) Q m.
Proof.
  intros Hin HQ. unfold sys_close. wp_go. rewrite decide_True by done. wp_go.
  apply wp_os_call. intros r w Hw. simpl in Hw.
  assert (os_mono (m_os m) w) as Hm by (eapply os_mono_quiet, Hw; constructor).
  apply wp_status_result; intros; apply HQ; by repeat constructor.
Qed.

Lemma wp_sys_poll t ds timeout (Q : Z * list Z → machine W → Prop) m `{!PosixLaws W} :
  (∀ k revents m', length revents = length ds → call_frame0 m m' → Q (k, revents) m') →
  wp t (sys_poll ds timeout) Q m.
Proof.
  intros HQ. unfold sys_poll. apply wp_bind, wp_os_call. intros r w Hw.
  assert (os_mono (m_os m) w) as Hm by (eapply os_mono_quiet, Hw; constructor).
  destruct r as [[k revents]|e]; wp_go; apply HQ; try by repeat constructor.
  - by eapply os_poll_revents.
  - apply length_replicate.
Qed.

(** poll() on one descriptor. *)
Lemma wp_sys_poll_one t fd ev timeout (Q : Z * list Z → machine W → Prop) m `{!PosixLaws W} :
  (∀ k r m', Z.land r (Z.lor ev (Z.lor POLLERR (Z.lor POLLHUP POLLNVAL))) = r →
     call_frame0 m m' → Q (k, [r]) m') →
  wp t (sys_poll [(fd, ev)] timeout) Q m.
Proof.
  intros HQ. unfold sys_poll. apply wp_bind, wp_os_call. intros r w Hw.
  assert (os_mono (m_os m) w) as Hm by (eapply os_mono_quiet, Hw; constructor).
  destruct r as [[k revents]|e]; wp_go.
  - pose proof (os_poll_revents _ _ _ _ _ _ Hw) as Hl.
    destruct revents as [|r [|? ?]]; try done.
    apply HQ; [by eapply (os_poll_requested _ _ _ _ _ _ 0) | by repeat constructor].
  - by apply HQ; [|repeat constructor].
Qed.

Lemma wp_sys_unlink t path (Q : Z → machine W → Prop) m :
  (∀ r m', call_frame0 m m' → Q r m') →
  wp t (sys_unlink path) Q m.
Proof.
  intros HQ. unfold sys_unlink. apply wp_bind, wp_os_call. intros r w Hw.
  assert (os_mono (m_os m) w) as Hm by (eapply os_mono_quiet, Hw; constructor).
  apply wp_status_result; intros; apply HQ; by repeat constructor.
Qed.

End system_call_rules.

(** Bytes sent, written and received on a descriptor, in order. *)
Definition sent_bytes (fd : Z) (tr : list event) : list byte :=
  mjoin ((λ e, match e with
               | EvSend fd' bs => if decide (fd' = fd) then bs else []
               | _ => []
               end) <$> tr).

Definition written_bytes (fd : Z) (tr : list event) : list byte :=
  mjoin ((λ e, match e with
               | EvWrite fd' bs => if decide (fd' = fd) then bs else []
               | _ => []
               end) <$> tr).

Definition received_bytes (fd : Z) (tr : list event) : list byte :=
  mjoin ((λ e, match e with
               | EvRecv fd' bs => if decide (fd' = fd) then bs else []
               | _ => []
               end) <$> tr).

Lemma sent_bytes_snoc fd tr e :
  sent_bytes fd (tr ++ [e]) = sent_bytes fd tr ++ sent_bytes fd [e].
Proof. unfold sent_bytes. by rewrite fmap_app, join_app. Qed.
Lemma written_bytes_snoc fd tr e :
  written_bytes fd (tr ++ [e]) = written_bytes fd tr ++ written_bytes fd [e].
Proof. unfold written_bytes. by rewrite fmap_app, join_app. Qed.
Lemma received_bytes_snoc fd tr e :
  received_bytes fd (tr ++ [e]) = received_bytes fd tr ++ received_bytes fd [e].
Proof. unfold received_bytes. by rewrite fmap_app, join_app. Qed.

(** Apply the rule of a call at the head of the goal. *)
Tactic Notation "wp_call" uconstr(l) :=
  repeat match goal with |- wp _ (mbind _ _) _ _ => apply wp_bind end;
  apply l; try exact _; cbn beta iota.

(** ** Loops that retry

    [enough t fuel w]: for total correctness, the outside world [w] cannot
    interrupt or deliver [fuel] more times. *)

Definition enough {W} {OS : Posix W} (t : bool) (fuel : nat) (w : W) : Prop :=
  t = true → ∃ bud, budget_laws bud ∧ (bud w < fuel)%nat.

Lemma enough_mono {W} {OS : Posix W} t fuel fuel' (w w' : W) :
  enough t fuel w → os_mono w w' → (fuel ≤ fuel')%nat → enough t fuel' w'.
Proof.
  intros He Hm Hf Ht. destruct (He Ht) as (bud & Hb & ?).
  exists bud. split; [done|]. specialize (Hm bud Hb). lia.
Qed.

Lemma enough_budget {W} {OS : Posix W} `{!PosixFair W} t fuel (w : W) :
  (os_budget w < fuel)%nat → enough t fuel w.
Proof. intros ? _. exists os_budget. by split; [apply os_budget_laws|]. Qed.

Lemma enough_false {W} {OS : Posix W} fuel (w : W) : enough false fuel w.
Proof. done. Qed.

(** Every iteration makes the local state smaller or uses up some of the
    power of the outside world. *)
Lemma wp_iter_enough {W} {OS : Posix W} {S R} t (body : S → M W (S + R))
    (Inv : S → machine W → Prop) (size : S → nat) Q fuel s m :
  (∀ s m, Inv s m →
    wp t (body s) (λ r m', match r with
      | inl s' => Inv s' m' ∧
          ((os_mono (m_os m) (m_os m') ∧ (size s' < size s)%nat) ∨
           (os_spent (m_os m) (m_os m') ∧ (size s' ≤ size s)%nat))
      | inr r => Q r m'
      end) m) →
  Inv s m → enough t (fuel - size s) (m_os m) →
  wp t (iter fuel body s) Q m.
Proof.
  intros Hbody HI He. destruct t.
  - destruct (He eq_refl) as (bud & Hb & Hlt).
    apply (wp_iter true body Inv (λ s m, bud (m_os m) + size s)%nat);
      [|done | intros _; lia].
    intros s1 m1 HI1. eapply wp_mono; [by apply Hbody|].
    intros [s2|r] m2; [|done]. intros (HI2 & Hd). split; [done|]. intros _.
    destruct Hd as [[Hm ?]|[Hm ?]]; specialize (Hm bud Hb); lia.
  - apply (wp_iter false body Inv (λ _ _, 0%nat)); [|done..].
    intros s1 m1 HI1. eapply wp_mono; [by apply Hbody|].
    intros [s2|r] m2; [|done]. by intros (? & _).
Qed.
