(* ===== verification/Script.v ===== *)
(** * A scripted operating system

    A concrete instance of [Posix]: every kind of call answers from a list of
    prepared answers, and from a fixed default when its list is empty. It
    satisfies [PosixLaws], so the theorems that assume the laws apply to it;
    the concrete runs of the development use it. *)

From S2P Require Import Prelude Machine.

Record script := Script {
  (** malloc succeeds *)
  sc_malloc : list bool;
  sc_read : list (list byte + Z);
  sc_write : list (Z + Z);
  sc_send : list (Z + Z);
  (** [None] accepts a connection, [Some e] fails *)
  sc_accept : list (option Z);
  sc_poll : list (list Z + Z);
  (** what the next child processes print, and their wait status *)
  sc_child : list (list byte * Z);
  (** output of the running child not yet read *)
  sc_pipe : list byte;
  sc_status : Z;
  (** values of the stop flag *)
  sc_stop : list bool;
  (** errors of the next fcntl(F_SETFL) calls *)
  sc_setfl : list Z;
}.

Definition empty_script : script := Script [] [] [] [] [] [] [] [] 0 [] [].

(** The least descriptor above every open one, and above standard error. *)
Definition fresh_fd (open : gset Z) : Z := 1 + foldr Z.max 2 (elements open).

Lemma foldr_max_le (l : list Z) x : x ∈ l → x ≤ foldr Z.max 2 l.
Proof.
  induction l as [|y l IH]; [by intros ?%not_elem_of_nil|].
  intros [->|Hin]%elem_of_cons; simpl; [lia | specialize (IH Hin); lia].
Qed.

Lemma foldr_max_ge (l : list Z) : 2 ≤ foldr Z.max 2 l.
Proof. induction l; simpl; lia. Qed.

Lemma fresh_fd_fresh open : 0 ≤ fresh_fd open ∧ fresh_fd open ∉ open.
Proof.
  unfold fresh_fd. pose proof (foldr_max_ge (elements open)). split; [lia|].
  intros Hin. apply elem_of_elements, foldr_max_le in Hin. lia.
Qed.

(** Answer a transfer count, at most the size of the request. *)
Definition clamp (n : Z) (bs : list byte) : Z := Z.max 0 (Z.min n (zlen bs)).

#[global] Instance script_posix : Posix script := {|
  os_malloc _ s :=
    match sc_malloc s with
    | [] => (true, s)
    | b :: r => (b, Script r (sc_read s) (sc_write s) (sc_send s) (sc_accept s)
                      (sc_poll s) (sc_child s) (sc_pipe s) (sc_status s) (sc_stop s) (sc_setfl s))
    end;
  os_read _ n s :=
    match sc_read s with
    | [] => (inr EAGAIN, s)
    | a :: r =>
      (match a with inl bs => inl (take (Z.to_nat n) bs) | inr e => inr e end,
       Script (sc_malloc s) r (sc_write s) (sc_send s) (sc_accept s)
         (sc_poll s) (sc_child s) (sc_pipe s) (sc_status s) (sc_stop s) (sc_setfl s))
    end;
  os_write _ bs s :=
    match sc_write s with
    | [] => (inl (zlen bs), s)
    | a :: r =>
      (match a with inl n => inl (clamp n bs) | inr e => inr e end,
       Script (sc_malloc s) (sc_read s) r (sc_send s) (sc_accept s)
         (sc_poll s) (sc_child s) (sc_pipe s) (sc_status s) (sc_stop s) (sc_setfl s))
    end;
  os_send _ bs s :=
    match sc_send s with
    | [] => (inl (zlen bs), s)
    | a :: r =>
      (match a with inl n => inl (clamp n bs) | inr e => inr e end,
       Script (sc_malloc s) (sc_read s) (sc_write s) r (sc_accept s)
         (sc_poll s) (sc_child s) (sc_pipe s) (sc_status s) (sc_stop s) (sc_setfl s))
    end;
  os_accept open _ s :=
    match sc_accept s with
    | [] => (inr EAGAIN, s)
    | a :: r =>
      (match a with None => inl (fresh_fd open) | Some e => inr e end,
       Script (sc_malloc s) (sc_read s) (sc_write s) (sc_send s) r
         (sc_poll s) (sc_child s) (sc_pipe s) (sc_status s) (sc_stop s) (sc_setfl s))
    end;
  os_socket open s := (inl (fresh_fd open), s);
  os_close _ s := (None, s);
  os_getfl _ s := (inl 0, s);
  os_setfl _ _ s :=
    match sc_setfl s with
    | [] => (None, s)
    | e :: r => (Some e, Script (sc_malloc s) (sc_read s) (sc_write s) (sc_send s)
                      (sc_accept s) (sc_poll s) (sc_child s) (sc_pipe s)
                      (sc_status s) (sc_stop s) r)
    end;
  os_setsockopt_reuseaddr _ s := (None, s);
  os_bind _ s := (None, s);
  os_listen _ _ s := (None, s);
  os_connect _ s := (None, s);
  os_unlink _ s := (None, s);
  os_poll ds _ s :=
    match sc_poll s with
    | [] => (inr EINTR, s)
    | a :: r =>
      (match a with
       | inl revents =>
         let revents := zip_with (λ '(_, ev) r, Z.land r (Z.lor ev 56)) ds
                          (resize (length ds) 0 revents) in
         inl (zlen (filter (λ e, e ≠ 0) revents), revents)
       | inr e => inr e
       end,
       Script (sc_malloc s) (sc_read s) (sc_write s) (sc_send s) (sc_accept s)
         r (sc_child s) (sc_pipe s) (sc_status s) (sc_stop s) (sc_setfl s))
    end;
  os_popen _ s :=
    match sc_child s with
    | [] => (inr ENOMEM, s)
    | (out, status) :: r =>
      (inl 0, Script (sc_malloc s) (sc_read s) (sc_write s) (sc_send s)
                (sc_accept s) (sc_poll s) r out status (sc_stop s) (sc_setfl s))
    end;
  os_fread _ n s :=
    ((take (Z.to_nat n) (sc_pipe s), false),
     Script (sc_malloc s) (sc_read s) (sc_write s) (sc_send s) (sc_accept s)
       (sc_poll s) (sc_child s) (drop (Z.to_nat n) (sc_pipe s)) (sc_status s)
       (sc_stop s) (sc_setfl s));
  os_pclose _ s := (inl (sc_status s), s);
  os_stop_requested s :=
    match sc_stop s with
    | [] => (true, s)
    | b :: r => (b, Script (sc_malloc s) (sc_read s) (sc_write s) (sc_send s)
                      (sc_accept s) (sc_poll s) (sc_child s) (sc_pipe s)
                      (sc_status s) r (sc_setfl s))
    end;
  os_inet_pton _ s := (1, 0, s);
  os_sigemptyset s := (None, s);
  os_sigaction _ s := (None, s);
  os_time s := (0, s);
  os_localtime_r _ s := (inl 0, s);
  os_strftime _ := "1970-01-01 00:00:00"%string;
  os_stderr _ s := (None, s);
  os_strerror _ := lit "Error";
|}.

Lemma clamp_bound n bs : 0 ≤ clamp n bs ≤ zlen bs.
Proof. unfold clamp. lia. Qed.

#[global] Instance script_laws : PosixLaws script.
Proof.
  split; simpl.
  - intros fd n s bs s' Hn. destruct (sc_read s) as [|[bs'|e] r]; [done| |done].
    intros [= <- _]. rewrite length_take. lia.
  - intros fd bs s n s'. destruct (sc_write s) as [|[k|e] r]; [|..|done].
    + intros [= <- _]. lia.
    + intros [= <- _]. apply clamp_bound.
  - intros fd bs s n s'. destruct (sc_send s) as [|[k|e] r]; [|..|done].
    + intros [= <- _]. lia.
    + intros [= <- _]. apply clamp_bound.
  - intros open l s fd s'. destruct (sc_accept s) as [|[e|] r]; [done..|].
    intros [= <- _]. apply fresh_fd_fresh.
  - intros open s fd s' [= <- _]. apply fresh_fd_fresh.
  - by intros fd s v s' [= <- _].
  - intros h n s bs e s' Hn [= <- _ _]. rewrite length_take. lia.
  - intros ds timeout s k revents s'. destruct (sc_poll s) as [|[es|e] r]; [done| |done].
    intros [= _ <- _]. rewrite length_zip_with, length_resize. lia.
  - intros ds timeout s k revents s' i fd ev r.
    destruct (sc_poll s) as [|[es|e] es']; [done| |done].
    intros [= _ <- _] Hd Hr. rewrite lookup_zip_with, Hd in Hr. simpl in Hr.
    destruct (resize _ _ _ !! i); simplify_eq/=.
    change (Z.lor POLLERR (Z.lor POLLHUP POLLNVAL)) with 56.
    by rewrite <-Z.land_assoc, Z.land_diag.
Qed.

(** Every answer taken from the script shortens it; the default answers end
    the loops that retry. *)
Definition script_budget (s : script) : nat :=
  (length (sc_read s) + length (sc_write s) + length (sc_send s) +
   length (sc_accept s) + length (sc_setfl s) + length (sc_stop s))%nat.

Lemma script_budget_laws : budget_laws script_budget.
Proof.
  split; unfold script_budget; simpl.
  - intros R f s r s' Hf. destruct Hf; simpl; try (intros [= _ <-]; simpl; lia).
    + destruct (sc_malloc s); intros [= _ <-]; simpl; lia.
    + destruct (sc_poll s); intros [= _ <-]; simpl; lia.
    + destruct (sc_child s) as [|[]]; intros [= _ <-]; simpl; lia.
  - intros fd s r s' [= <- <-]. by split; [lia|].
  - intros fd fl s r s'. destruct (sc_setfl s) eqn:E; intros [= <- <-];
      simpl; rewrite ?E; simpl; [by split; [lia|] | lia].
  - intros fd n s r s'. destruct (sc_read s) eqn:E; intros [= <- <-];
      simpl; rewrite ?E; simpl; [|lia].
    split; [lia|]. by intros [?|(c & bs & ?)].
  - intros fd bs s r s'. destruct (sc_write s) eqn:E; intros [= <- <-];
      simpl; rewrite ?E; simpl; [by split; [lia|] | lia].
  - intros fd bs s r s'. destruct (sc_send s) eqn:E; intros [= <- <-];
      simpl; rewrite ?E; simpl; [by split; [lia|] | lia].
  - intros open l s r s'. destruct (sc_accept s) eqn:E; intros [= <- <-];
      simpl; rewrite ?E; simpl; [|lia].
    split; [lia|]. by intros [?|(fd & ?)].
  - intros s r s'. destruct (sc_stop s) eqn:E; intros [= <- <-];
      simpl; rewrite ?E; simpl; [by split; [lia|] | lia].
Qed.

#[global] Instance script_fair : PosixFair script := {|
  os_budget := script_budget; os_budget_laws := script_budget_laws
|}.

(** A process that has done nothing yet. *)
Definition boot (s : script) : machine script :=
  Machine 0 0 ∅ 1%positive {[0; 1; 2]} [] [] 2 s.
