(* ===== verification/Buffer.v ===== *)
(** * The bounded byte buffer (src/src/buffer.c, src/include/wirecommand/buffer.h)

    The record [wc_buffer] has the fields of the C struct; the block behind
    [data] is stored in the record because a buffer is the only owner of its
    allocation. [buffer_repr b bs] relates a buffer to the byte string it
    holds. *)

From S2P Require Import Prelude Machine Script.

Record wc_buffer := WcBuffer {
  buf_data : pointer;
  buf_length : Z;
  buf_capacity : Z;
  buf_max_size : Z;
}.

Definition WC_BUFFER_INITIAL_CAPACITY : Z := 64.

(** The doubling loop of [wc_buffer_grow] runs at most 65 times on 64-bit
    sizes ([grow_loop_spec]). *)
Definition GROW_FUEL : nat := 66.

Section operations.
Context {W : Type} {OS : Posix W}.

(** The while loop: double the capacity, or jump to [max_size] when doubling
    would pass it. *)
Definition wc_buffer_grow_loop (fuel : nat) (max_size required_capacity : Z)
    (new_capacity : Z) : M W Z :=
  iter fuel (λ new_capacity,
    mret (if new_capacity <? required_capacity then
            Continue (if new_capacity >? max_size / 2 then max_size
                      else new_capacity *ₛ 2)
          else Break new_capacity)) new_capacity.

Definition wc_buffer_grow (buffer : wc_buffer) (required_capacity : Z)
    : M W (Z * wc_buffer) :=
  let new_capacity := buf_capacity buffer in
  if required_capacity <=? buf_capacity buffer then mret (0, buffer) else
  let new_capacity :=
    if new_capacity =? 0 then WC_BUFFER_INITIAL_CAPACITY else new_capacity in
  let new_capacity :=
    if new_capacity >? buf_max_size buffer then buf_max_size buffer
    else new_capacity in
  new_capacity ← wc_buffer_grow_loop GROW_FUEL (buf_max_size buffer)
                   required_capacity new_capacity;
  new_data ← realloc_block (buf_data buffer) new_capacity;
  if is_null new_data then put_errno ENOMEM ;; mret (-1, buffer) else
  mret (0, WcBuffer new_data (buf_length buffer) new_capacity
             (buf_max_size buffer)).

Definition wc_buffer_init (buffer : option wc_buffer) (max_size : Z)
    : M W (Z * option wc_buffer) :=
  match buffer with
  | None => put_errno EINVAL ;; mret (-1, None)
  | Some _ => mret (0, Some (WcBuffer None 0 0 max_size))
  end.

Definition wc_buffer_append (buffer : option wc_buffer) (data : pointer)
    (size : Z) : M W (Z * option wc_buffer) :=
  match buffer with
  | None => put_errno EINVAL ;; mret (-1, None)
  | Some buffer =>
    if is_null data && negb (size =? 0) then
      put_errno EINVAL ;; mret (-1, Some buffer)
    else if size >? buf_max_size buffer -ₛ buf_length buffer then
      put_errno EMSGSIZE ;; mret (-1, Some buffer)
    else if size =? 0 then mret (0, Some buffer)
    else
      let required_capacity := buf_length buffer +ₛ size in
      '(r, buffer) ← wc_buffer_grow buffer required_capacity;
      if r =? -1 then mret (-1, Some buffer) else
      src ← read_bytes data size;
      data' ← write_bytes (buf_data buffer) (buf_length buffer) src;
      mret (0, Some (WcBuffer data' (buf_length buffer +ₛ size)
                       (buf_capacity buffer) (buf_max_size buffer)))
  end.

Definition wc_buffer_consume (buffer : option wc_buffer) (size : Z)
    : M W (Z * option wc_buffer) :=
  match buffer with
  | None => put_errno EINVAL ;; mret (-1, None)
  | Some buffer =>
    if size >? buf_length buffer then
      put_errno EINVAL ;; mret (-1, Some buffer)
    else if size =? 0 then mret (0, Some buffer)
    else
      let remaining := buf_length buffer -ₛ size in
      blk ← from_option_ub (buf_data buffer);
      src ← read_bytes (Some (drop (Z.to_nat size) blk)) remaining;
      data' ← write_bytes (buf_data buffer) 0 src;
      mret (0, Some (WcBuffer data' remaining (buf_capacity buffer)
                       (buf_max_size buffer)))
  end.

Definition wc_buffer_destroy (buffer : option wc_buffer)
    : M W (option wc_buffer) :=
  match buffer with
  | None => mret None
  | Some buffer =>
    free_block (buf_data buffer) ;;
    mret (Some (WcBuffer None 0 0 0))
  end.

End operations.

Arguments wc_buffer_grow : simpl never.
Arguments wc_buffer_init : simpl never.
Arguments wc_buffer_append : simpl never.
Arguments wc_buffer_consume : simpl never.
Arguments wc_buffer_destroy : simpl never.

(** ** Representation invariant *)

Record buffer_repr (b : wc_buffer) (bs : list byte) : Prop := {
  br_max : is_size (buf_max_size b);
  br_length : buf_length b = zlen bs;
  br_fits : zlen bs ≤ buf_capacity b;
  br_capacity : buf_capacity b ≤ buf_max_size b;
  br_data :
    match buf_data b with
    | None => buf_capacity b = 0
    | Some blk => zlen blk = buf_capacity b ∧ 0 < buf_capacity b ∧
                  block_prefix (length bs) blk = Some bs
    end;
}.

(** Blocks owned by a buffer. *)
Definition buf_owned (b : wc_buffer) : Z := owned (buf_data b).

Lemma buffer_repr_fits_max b bs : buffer_repr b bs → zlen bs ≤ buf_max_size b.
Proof. intros []. lia. Qed.

Lemma buffer_repr_null b bs : buffer_repr b bs → buf_data b = None → bs = [].
Proof.
  intros [] Hn. rewrite Hn in *. apply zlen_nil_inv. pose proof (zlen_nonneg bs).
  lia.
Qed.

Lemma buffer_repr_empty max_size :
  is_size max_size → buffer_repr (WcBuffer None 0 0 max_size) [].
Proof. unfold is_size. intros. constructor; simpl; unfold is_size; lia. Qed.

(** A buffer holds one byte string. *)
Lemma buffer_repr_inj b bs1 bs2 :
  buffer_repr b bs1 → buffer_repr b bs2 → bs1 = bs2.
Proof.
  intros H1 H2. destruct (buf_data b) as [blk|] eqn:Hd.
  - destruct H1 as [? L1 ?? D1], H2 as [? L2 ?? D2]. rewrite Hd in D1, D2.
    assert (length bs1 = length bs2) as Hl by lia.
    destruct D1 as (_ & _ & D1), D2 as (_ & _ & D2).
    rewrite Hl in D1. congruence.
  - by rewrite (buffer_repr_null _ _ H1 Hd), (buffer_repr_null _ _ H2 Hd).
Qed.

(** The bytes a buffer holds. *)
Definition buffer_contents (b : wc_buffer) : list byte :=
  match buf_data b with
  | None => []
  | Some blk => default [] (block_prefix (Z.to_nat (buf_length b)) blk)
  end.

Lemma buffer_repr_contents b bs : buffer_repr b bs → buffer_contents b = bs.
Proof.
  intros [_ Hlen Hfit _ Hd]. unfold buffer_contents. destruct (buf_data b) as [blk|].
  - destruct Hd as (_ & _ & Hp). by rewrite Hlen, Nat2Z.id, Hp.
  - symmetry. apply zlen_nil_inv. lia.
Qed.

Lemma buffer_repr_points_to b bs : buffer_repr b bs → points_to (buf_data b) bs.
Proof.
  intros H. unfold points_to. destruct (buf_data b) as [blk|] eqn:Hd.
  - destruct H as [???? D]. rewrite Hd in D. by destruct D as (_ & _ & D).
  - by apply (buffer_repr_null b).
Qed.
#[export] Hint Resolve buffer_repr_points_to : wc.

(** Setting [length] back drops the bytes appended last. *)
Lemma buffer_repr_truncate b bs tail :
  buffer_repr b (bs ++ tail) →
  buffer_repr (WcBuffer (buf_data b) (zlen bs) (buf_capacity b) (buf_max_size b)) bs.
Proof.
  intros [? Hl Hf ? Hd]. rewrite zlen_app in *. constructor; simpl; try done; try lia.
  destruct (buf_data b) as [blk|]; [|done]. destruct Hd as (? & ? & Hpre).
  split_and!; try done.
  apply (block_prefix_le _ (length bs)) in Hpre; [|rewrite length_app; lia].
  by rewrite take_app_length in Hpre.
Qed.

(** The bytes a pointer to the contents of a buffer gives access to. *)
Lemma buffer_repr_prefix b bs n :
  buffer_repr b bs → (n ≤ length bs)%nat → (0 < n)%nat →
  ∃ blk, buf_data b = Some blk ∧ block_prefix n blk = Some (take n bs).
Proof.
  intros H Hn H0. destruct (buf_data b) as [blk|] eqn:Hd.
  - exists blk. split; [done|]. destruct H as [???? D]. rewrite Hd in D.
    destruct D as (_ & _ & D). by eapply block_prefix_le.
  - rewrite (buffer_repr_null _ _ H Hd) in Hn. simpl in Hn. lia.
Qed.

Section specs.
Context {W : Type} {OS : Posix W}.
Implicit Types (m : machine W) (t : bool).

(** ** Growth *)

Lemma grow_step_bounds max_size required c :
  is_size max_size → 1 ≤ c ≤ max_size → c < required → required ≤ max_size →
  let c' := if c >? max_size / 2 then max_size else c *ₛ 2 in
  1 ≤ c' ≤ max_size ∧ c' ≤ 2 * required ∧
  (required ≤ c' ∨ Z.log2 c' = Z.log2 c + 1).
Proof.
  intros Hm Hc Hr Hrm c'. subst c'. unfold is_size, SIZE_MAX in Hm.
  pose proof (Z.div_mod max_size 2 ltac:(lia)).
  pose proof (Z.mod_pos_bound max_size 2 ltac:(lia)).
  case_if as Hh; [lia|].
  rewrite size_mul_small by (unfold SIZE_MAX; lia).
  replace (c * 2) with (2 * c) by lia. rewrite Z.log2_double by lia. lia.
Qed.

Definition grow_measure (required c : Z) : nat :=
  if c <? required then S (Z.to_nat (64 - Z.log2 c)) else O.

Lemma grow_measure_bound required c : (grow_measure required c < GROW_FUEL)%nat.
Proof.
  unfold grow_measure, GROW_FUEL. case_if; [|lia].
  pose proof (Z.log2_nonneg c). lia.
Qed.

Lemma log2_size c : 1 ≤ c ≤ SIZE_MAX → 0 ≤ Z.log2 c < 64.
Proof.
  unfold SIZE_MAX. intros Hc. split; [apply Z.log2_nonneg|].
  apply Z.log2_lt_pow2; lia.
Qed.

Lemma grow_loop_spec max_size required c (Q : Z → machine W → Prop) m :
  is_size max_size → 1 ≤ c ≤ max_size → required ≤ max_size →
  (∀ c', c ≤ c' ≤ max_size → required ≤ c' → c' ≤ Z.max c (2 * required) →
         Q c' m) →
  wp true (wc_buffer_grow_loop GROW_FUEL max_size required c) Q m.
Proof.
  intros Hm Hc Hrm HQ. unfold wc_buffer_grow_loop.
  apply (wp_iter _ _
    (λ c' m', m' = m ∧ c ≤ c' ≤ max_size ∧ c' ≤ Z.max c (2 * required))
    (λ c' _, grow_measure required c')).
  - intros c' ? (-> & Hc' & Hmax). wp_go. case_if as Hlt.
    + destruct (grow_step_bounds max_size required c' Hm) as (? & ? & Hlog);
        [lia..|]. set (c'' := if _ >? _ then _ else _) in *.
      split; [repeat split; try lia|].
      { destruct Hlog; [lia|]. destruct (Z.le_gt_cases c c''); [lia|].
        pose proof (Z.log2_le_mono c'' c' ltac:(lia)). lia. }
      intros _. unfold grow_measure. rewrite (proj2 (Z.ltb_lt c' _)) by lia.
      pose proof (log2_size c' ltac:(unfold is_size in Hm; lia)).
      case_if; [|lia]. lia.
    + apply HQ; lia.
  - repeat split; lia.
  - intros _. apply grow_measure_bound.
Qed.

(** The loop never ends when more than [max_size] is asked for: the guard of
    [wc_buffer_append] is what keeps [wc_buffer_grow] terminating. *)
Lemma grow_loop_stuck fuel max_size required c m :
  is_size max_size → 0 ≤ c ≤ max_size → max_size < required →
  wc_buffer_grow_loop (W:=W) fuel max_size required c m = NoFuel.
Proof.
  intros Hm. unfold wc_buffer_grow_loop, is_size, SIZE_MAX in *.
  revert c. induction fuel as [|fuel IH]; intros c Hc Hr; [done|].
  simpl. unfold mbind, M_bind, mret, M_ret.
  rewrite (proj2 (Z.ltb_lt c required)) by lia.
  apply IH; [|done].
  pose proof (Z.div_mod max_size 2 ltac:(lia)).
  pose proof (Z.mod_pos_bound max_size 2 ltac:(lia)).
  case_if; [lia|]. rewrite size_mul_small by (unfold SIZE_MAX; lia). lia.
Qed.

Lemma wc_buffer_grow_spec b bs required (Q : Z * wc_buffer → machine W → Prop) m :
  buffer_repr b bs → 0 < required ≤ buf_max_size b →
  (∀ b' m', silent m m' → m_errno m' = m_errno m →
     m_live m' = m_live m + buf_owned b' - buf_owned b →
     buffer_repr b' bs → buf_max_size b' = buf_max_size b →
     required ≤ buf_capacity b' → is_Some (buf_data b') →
     buf_capacity b ≤ buf_capacity b' →
     buf_capacity b' ≤
       Z.max (Z.max WC_BUFFER_INITIAL_CAPACITY (buf_capacity b)) (2 * required) →
     Q (0, b') m') →
  (∀ m', silent m m' → m_errno m' = ENOMEM → m_live m' = m_live m →
     Q (-1, b) m') →
  wp true (wc_buffer_grow b required) Q m.
Proof.
  intros Hb Hr Hok Hfail. pose proof Hb as [Hmax Hlen Hfit Hcap Hdata].
  unfold wc_buffer_grow. case_if as Hle.
  { wp_go. destruct (buf_data b) as [blk|] eqn:Hd; [|lia].
    apply Hok; side. }
  set (c0 := if _ >? _ then _ else _).
  assert (1 ≤ c0 ≤ buf_max_size b ∧ buf_capacity b ≤ c0 ∧
          c0 ≤ Z.max WC_BUFFER_INITIAL_CAPACITY (buf_capacity b)) as (Hc0 & Hcc & Hc1).
  { subst c0. unfold WC_BUFFER_INITIAL_CAPACITY.
    pose proof (zlen_nonneg bs). repeat case_if; lia. }
  apply wp_bind. eapply grow_loop_spec; [done..| lia |].
  intros c' Hc' Hrc' Hub. apply wp_bind. apply wp_realloc_block; [lia| |].
  - intros m' Hs Hl He. cbn [is_null]. wp_go. apply Hok; side.
    constructor; simpl; try done; try lia.
    rewrite length_resize. split; [lia|]. split; [lia|].
    destruct (buf_data b) as [blk|] eqn:Hd; simpl.
    + destruct Hdata as (Hblk & _ & Hpre).
      apply block_prefix_Some in Hpre as (rest & -> & _).
      unfold bytes_block in *. rewrite length_app, length_fmap in Hblk.
      rewrite resize_app_ge by (rewrite length_fmap; lia).
      apply block_prefix_app.
    + by rewrite (buffer_repr_null b bs).
  - intros m' Hs Hl He. cbn [is_null]. wp_go. apply Hfail; simpl; done || silent_tac.
Qed.

(** ** Append, consume, init, destroy

    Each specification covers every branch of the operation; the caller
    supplies one continuation per outcome. *)

Lemma wc_buffer_init_spec t b max_size Q m :
  is_size max_size →
  (∀ b', buffer_repr b' [] → buf_max_size b' = max_size → buf_owned b' = 0 →
     Q (0, Some b') m) →
  wp t (wc_buffer_init (Some b) max_size) Q m.
Proof.
  intros Hm HQ. unfold wc_buffer_init. wp_go.
  apply HQ; [by apply buffer_repr_empty | done..].
Qed.

Lemma wc_buffer_append_spec t b bs data new Q m :
  buffer_repr b bs → points_to data new →
  (zlen new ≤ buf_max_size b - zlen bs →
   ∀ b' m', silent m m' → m_errno m' = m_errno m →
     m_live m' = m_live m + buf_owned b' - buf_owned b →
     buffer_repr b' (bs ++ new) → buf_max_size b' = buf_max_size b →
     Q (0, Some b') m') →
  (buf_max_size b - zlen bs < zlen new →
   Q (-1, Some b) (set_errno EMSGSIZE m)) →
  (0 < zlen new ≤ buf_max_size b - zlen bs →
   ∀ m', silent m m' → m_errno m' = ENOMEM → m_live m' = m_live m →
     Q (-1, Some b) m') →
  wp t (wc_buffer_append (Some b) data (zlen new)) Q m.
Proof.
  intros Hb Hnew Hok Hbig Hmem. pose proof Hb as [Hmax Hlen Hfit Hcap _].
  unfold is_size in Hmax. apply wp_partial.
  unfold wc_buffer_append. rewrite (points_to_null_test data new) by done.
  rewrite size_sub_small by lia. rewrite Hlen.
  case_if as Hgt; [by wp_go; apply Hbig; lia|].
  case_if as Hz.
  { wp_go. apply Hok; side. apply zlen_nil_inv in Hz as ->. by rewrite app_nil_r. }
  rewrite size_add_small by lia. apply wp_bind.
  eapply wc_buffer_grow_spec; [done | lia | |].
  - intros b' m' Hs He Hl Hb' Hm' Hreq [blk Hd] _ _. cbn.
    pose proof Hb' as [_ Hlen' _ Hcap' Hdata']. rewrite Hd in Hdata'.
    destruct Hdata' as (Hblk & _ & Hpre).
    apply block_prefix_Some in Hpre as (rest & -> & _).
    apply wp_bind. eapply wp_read_points_to; [done | done |].
    autorewrite with wc_len in Hblk. apply wp_bind.
    eapply wp_write_bytes; [done | lia | apply block_write_at; lia |].
    wp_go. rewrite size_add_small by lia. apply Hok; side; try lia.
    + unfold buf_owned, owned in *. rewrite Hd in Hl. done.
    + constructor; simpl; side; autorewrite with wc_len; try lia.
      { by rewrite Hm'. }
      split; [lia|]. split; [lia|]. rewrite <-length_app. apply block_prefix_app.
  - intros m' Hs He Hl. cbn. wp_go. apply Hmem; side.
Qed.

Lemma wc_buffer_consume_spec t b bs size Q m :
  buffer_repr b bs → 0 ≤ size →
  (size ≤ zlen bs →
   ∀ b', buffer_repr b' (drop (Z.to_nat size) bs) →
     buf_max_size b' = buf_max_size b → buf_owned b' = buf_owned b →
     Q (0, Some b') m) →
  (zlen bs < size → Q (-1, Some b) (set_errno EINVAL m)) →
  wp t (wc_buffer_consume (Some b) size) Q m.
Proof.
  intros Hb Hs Hok Hbad. pose proof Hb as [Hmax Hlen Hfit Hcap Hdata].
  unfold is_size in Hmax. unfold wc_buffer_consume. rewrite Hlen.
  case_if as Hgt; [by wp_go; apply Hbad|].
  case_if as Hz.
  { wp_go. subst size. apply Hok; side. }
  destruct (buf_data b) as [blk|] eqn:Hd; [|by lia].
  destruct Hdata as (Hblk & Hcap0 & Hpre).
  pose proof (block_prefix_drop _ (Z.to_nat size) _ _ Hpre ltac:(lia)) as Hrem.
  rewrite size_sub_small by lia. wp_go.
  replace (length bs - Z.to_nat size)%nat with (Z.to_nat (zlen bs - size)) in Hrem
    by lia.
  eapply wp_read_bytes; [done..|]. apply wp_bind.
  set (rem := drop (Z.to_nat size) bs) in *.
  assert (length rem = Z.to_nat (zlen bs - size)) as Hrl
    by (subst rem; rewrite length_drop; lia).
  eapply wp_write_bytes;
    [done | lia | apply (block_write_at [] rem blk); [done | lia] |]. wp_go. apply Hok; side; [|unfold buf_owned; by rewrite Hd].
  constructor; simpl; side. split; [|split; [done|apply block_prefix_app]].
  autorewrite with wc_len. lia.
Qed.

Lemma wc_buffer_destroy_spec t b Q m :
  (∀ m', silent m m' → m_errno m' = m_errno m →
     m_live m' = m_live m - buf_owned b → Q (Some (WcBuffer None 0 0 0)) m') →
  wp t (wc_buffer_destroy (Some b)) Q m.
Proof.
  intros HQ. unfold wc_buffer_destroy. wp_go. apply wp_free_block.
  intros m' ???. wp_go. by apply HQ.
Qed.

End specs.

(** ** Sequences of operations

    The abstract buffer is a byte string with a limit. [spec_result] says
    which results an operation may report on it and [spec_effect] what it
    then holds. *)

Inductive buffer_op :=
| BAppend (bs : list byte)
| BConsume (size : Z).

Definition spec_result (max_size : Z) (op : buffer_op) (bs : list byte) (r : Z) : Prop :=
  match op with
  | BAppend new =>
    if zlen bs + zlen new <=? max_size then r = 0 ∨ (r = -1 ∧ new ≠ []) else r = -1
  | BConsume size => r = if size <=? zlen bs then 0 else -1
  end.

Definition spec_effect (op : buffer_op) (r : Z) (bs : list byte) : list byte :=
  if r =? 0 then
    match op with
    | BAppend new => bs ++ new
    | BConsume size => drop (Z.to_nat size) bs
    end
  else bs.

Inductive spec_run (max_size : Z) : list buffer_op → list Z → list byte → list byte → Prop :=
| spec_run_nil bs : spec_run max_size [] [] bs bs
| spec_run_cons op ops r rs bs bs' :
    spec_result max_size op bs r →
    spec_run max_size ops rs (spec_effect op r bs) bs' →
    spec_run max_size (op :: ops) (r :: rs) bs bs'.

Definition op_ok (op : buffer_op) : Prop :=
  match op with BAppend _ => True | BConsume size => 0 ≤ size end.

Section sequences.
Context {W : Type} {OS : Posix W}.

Definition buffer_exec (op : buffer_op) (b : wc_buffer) : M W (Z * wc_buffer) :=
  match op with
  | BAppend bs => by_ref (λ p, wc_buffer_append p (Some (bytes_block bs)) (zlen bs)) b
  | BConsume size => by_ref (λ p, wc_buffer_consume p size) b
  end.

Fixpoint buffer_run (ops : list buffer_op) (b : wc_buffer)
    : M W (list Z * wc_buffer) :=
  match ops with
  | [] => mret ([], b)
  | op :: ops =>
    '(r, b) ← buffer_exec op b;
    '(rs, b) ← buffer_run ops b;
    mret (r :: rs, b)
  end.

Lemma buffer_exec_spec op b bs (Q : Z * wc_buffer → machine W → Prop) m :
  buffer_repr b bs → op_ok op →
  (∀ r b' m', silent m m' → spec_result (buf_max_size b) op bs r →
     buffer_repr b' (spec_effect op r bs) → buf_max_size b' = buf_max_size b →
     m_live m' - buf_owned b' = m_live m - buf_owned b →
     Q (r, b') m') →
  wp true (buffer_exec op b) Q m.
Proof.
  intros Hb Hop HQ. destruct op as [new|size]; simpl; wp_go.
  - eapply wc_buffer_append_spec; [done | apply points_to_bytes | ..].
    + intros Hle b' m' ?????. apply HQ; side. simpl. case_if; [by left | lia].
    + intros Hgt. apply HQ; side. simpl. case_if; [lia | done].
    + intros Hle m' ???. apply HQ; side. simpl. case_if; [|lia].
      right. split; [done | intros ->; simpl in *; lia].
  - eapply wc_buffer_consume_spec; [done..| |].
    + intros Hle b' ???. apply HQ; side. simpl. case_if; [done | lia].
    + intros Hgt. apply HQ; side. simpl. case_if; [lia | done].
Qed.

Lemma buffer_run_spec ops b bs (m : machine W) :
  buffer_repr b bs → Forall op_ok ops →
  wp true (buffer_run ops b) (λ '(rs, b') m', ∃ bs', silent m m' ∧
    spec_run (buf_max_size b) ops rs bs bs' ∧ buffer_repr b' bs' ∧
    buf_max_size b' = buf_max_size b ∧
    m_live m' - buf_owned b' = m_live m - buf_owned b) m.
Proof.
  revert b bs m. induction ops as [|op ops IH]; intros b bs m Hb Hops; simpl.
  { wp_go. exists bs. split_and!; side. }
  inversion_clear Hops as [|?? Hop Hops']. apply wp_bind.
  eapply buffer_exec_spec; [done..|]. intros r b1 m1 Hs Hr Hb1 Hmax Hl. apply wp_bind.
  eapply wp_mono; [by apply IH|]. intros [rs b2] m2 (bs2 & Hs2 & Hrun & Hb2 & Hm2 & Hl2).
  wp_go. exists bs2. rewrite Hmax in *. split_and!; side.
Qed.

End sequences.

(** ** Properties *)

Section properties.
Context {W : Type} {OS : Posix W}.
Implicit Types (m : machine W).

(** [wc_buffer_append] on a well-formed buffer always returns, never
    touches memory outside the block, and does one of three things: append
    exactly the given bytes when they fit, refuse with EMSGSIZE exactly when
    they do not, or refuse with ENOMEM leaving the buffer as it was. The heap
    block it may have allocated is accounted for. *)
Theorem wc_buffer_append_refines b bs data new m :
  buffer_repr b bs → points_to data new →
  ∃ r b' m', wc_buffer_append (Some b) data (zlen new) m = Ret (r, Some b') m' ∧
    silent m m' ∧ m_live m' - buf_owned b' = m_live m - buf_owned b ∧
    buf_max_size b' = buf_max_size b ∧
    (if zlen bs + zlen new <=? buf_max_size b then
       (r = 0 ∧ buffer_repr b' (bs ++ new) ∧ m_errno m' = m_errno m) ∨
       (r = -1 ∧ b' = b ∧ m_errno m' = ENOMEM ∧ new ≠ [])
     else r = -1 ∧ b' = b ∧ m_errno m' = EMSGSIZE).
Proof.
  intros Hb Hnew.
  assert (wp true (wc_buffer_append (Some b) data (zlen new)) (λ '(r, p) m',
    ∃ b', p = Some b' ∧ silent m m' ∧
      m_live m' - buf_owned b' = m_live m - buf_owned b ∧
      buf_max_size b' = buf_max_size b ∧
      if zlen bs + zlen new <=? buf_max_size b then
       (r = 0 ∧ buffer_repr b' (bs ++ new) ∧ m_errno m' = m_errno m) ∨
       (r = -1 ∧ b' = b ∧ m_errno m' = ENOMEM ∧ new ≠ [])
      else r = -1 ∧ b' = b ∧ m_errno m' = EMSGSIZE) m) as Hwp.
  { eapply wc_buffer_append_spec; [done..| | |].
    - intros Hle b' m' ?????. exists b'. split_and!; side. case_if; [by left | lia].
    - intros Hgt. exists b. split_and!; side. case_if; [lia | done].
    - intros Hle m' ???. exists b. split_and!; side. case_if; [|lia].
      right. split_and!; side. intros ->; simpl in *; lia. }
  apply wp_total_inv in Hwp as ([r p] & m' & Hrun & b' & -> & Hpost). by exists r, b', m'.
Qed.

(** [wc_buffer_consume] removes exactly the first [size] bytes and keeps
    the rest in order; when asked for more than the buffer holds it fails
    with EINVAL and changes nothing. It never allocates or frees. *)
Theorem wc_buffer_consume_refines b bs size m :
  buffer_repr b bs → 0 ≤ size →
  ∃ r b' m', wc_buffer_consume (Some b) size m = Ret (r, Some b') m' ∧
    silent m m' ∧ m_live m' = m_live m ∧ buf_max_size b' = buf_max_size b ∧
    (if size <=? zlen bs then
       r = 0 ∧ m' = m ∧ buffer_repr b' (drop (Z.to_nat size) bs)
     else r = -1 ∧ b' = b ∧ m_errno m' = EINVAL).
Proof.
  intros Hb Hs.
  assert (wp true (wc_buffer_consume (Some b) size) (λ '(r, p) m',
    ∃ b', p = Some b' ∧ silent m m' ∧ m_live m' = m_live m ∧
      buf_max_size b' = buf_max_size b ∧
      if size <=? zlen bs then
        r = 0 ∧ m' = m ∧ buffer_repr b' (drop (Z.to_nat size) bs)
      else r = -1 ∧ b' = b ∧ m_errno m' = EINVAL) m) as Hwp.
  { eapply wc_buffer_consume_spec; [done..| |].
    - intros Hle b' ???. exists b'. split_and!; side. case_if; [done | lia].
    - intros Hgt. exists b. split_and!; side. case_if; [lia | done]. }
  apply wp_total_inv in Hwp as ([r p] & m' & Hrun & b' & -> & Hpost). by exists r, b', m'.
Qed.

(** C26: whatever sequence of appends and consumes a fresh buffer goes through,
    every call returns, the buffer holds exactly what the abstract byte string
    holds after the same calls with the same results, its capacity stays
    within the limit given to [wc_buffer_init], and [wc_buffer_destroy] gives
    back every block: nothing leaks. *)
Theorem wc_buffer_lifecycle b0 max_size ops m :
  is_size max_size → Forall op_ok ops →
  ∃ rs b bs m',
    ('(_, b) ← by_ref (λ p, wc_buffer_init p max_size) b0;
     buffer_run ops b) m = Ret (rs, b) m' ∧
    spec_run max_size ops rs [] bs ∧ buffer_repr b bs ∧
    buf_capacity b ≤ max_size ∧
    ∃ m'', wc_buffer_destroy (Some b) m' = Ret (Some (WcBuffer None 0 0 0)) m'' ∧
      m_live m'' = m_live m ∧ silent m m''.
Proof.
  intros Hmax Hops.
  assert (wp true ('(_, b) ← by_ref (λ p, wc_buffer_init p max_size) b0;
     buffer_run ops b) (λ '(rs, b) m', ∃ bs, silent m m' ∧
    spec_run max_size ops rs [] bs ∧ buffer_repr b bs ∧
    buf_max_size b = max_size ∧ m_live m' = m_live m + buf_owned b) m) as Hwp.
  { wp_go. apply wc_buffer_init_spec; [done|]. intros b Hb <- Ho.
    eapply wp_mono; [by apply (buffer_run_spec ops b [])|].
    intros [rs b'] m' (bs & ? & ? & ? & ? & ?). exists bs. split_and!; side. }
  apply wp_total_inv in Hwp as ([rs b] & m' & Hrun & bs & Hs & Hspec & Hb & Hm & Hl).
  exists rs, b, bs, m'. pose proof (br_capacity _ _ Hb). split_and!; side.
  assert (wp true (wc_buffer_destroy (Some b)) (λ p m'',
    p = Some (WcBuffer None 0 0 0) ∧ m_live m'' = m_live m ∧ silent m m'') m') as Hd.
  { apply wc_buffer_destroy_spec. intros m'' ???. split_and!; side. }
  apply wp_total_inv in Hd as (p & m'' & Hrun' & -> & ?). by exists m''.
Qed.

(** C31: growing a well-formed buffer to a capacity within its limit returns
    after at most 65 doublings; the new capacity covers the request, never
    exceeds [max_size] and is at most twice the request (or the initial 64
    bytes, or the old capacity), and the contents are unchanged. *)
Theorem wc_buffer_grow_bounds b bs required m :
  buffer_repr b bs → 0 < required ≤ buf_max_size b →
  ∃ r b' m', wc_buffer_grow b required m = Ret (r, b') m' ∧ buffer_repr b' bs ∧
    ((r = 0 ∧ required ≤ buf_capacity b' ≤ buf_max_size b ∧
      buf_capacity b' ≤ Z.max (Z.max 64 (buf_capacity b)) (2 * required)) ∨
     (r = -1 ∧ b' = b ∧ m_errno m' = ENOMEM)).
Proof.
  intros Hb Hr.
  assert (wp true (wc_buffer_grow b required) (λ '(r, b') m', buffer_repr b' bs ∧
    ((r = 0 ∧ required ≤ buf_capacity b' ≤ buf_max_size b ∧
      buf_capacity b' ≤ Z.max (Z.max 64 (buf_capacity b)) (2 * required)) ∨
     (r = -1 ∧ b' = b ∧ m_errno m' = ENOMEM))) m) as Hwp.
  { eapply wc_buffer_grow_spec; [done..| |].
    - intros b' m' ??? Hb' ?????. split; [done|]. left.
      pose proof (br_capacity _ _ Hb'). split_and!; side.
    - intros m' ???. split; [done|]. by right. }
  apply wp_total_inv in Hwp as ([r b'] & m' & Hrun & Hpost). by exists r, b', m'.
Qed.

(** The doubling loop depends on its caller's size check: asked for more
    than [max_size], it never leaves the loop, whatever the fuel. *)
Theorem wc_buffer_grow_diverges_past_max fuel max_size required c m :
  is_size max_size → 0 ≤ c ≤ max_size → max_size < required →
  wc_buffer_grow_loop (W:=W) fuel max_size required c m = NoFuel.
Proof. apply grow_loop_stuck. Qed.

End properties.

(** ** Concrete runs *)

Definition sample_buffer : wc_buffer := WcBuffer (Some (bytes_block (lit "ab"))) 2 2 16.

Lemma sample_buffer_repr : buffer_repr sample_buffer (lit "ab").
Proof. by constructor. Qed.

Lemma wc_buffer_append_refines_witness :
  ∃ r b' m', wc_buffer_append (Some sample_buffer) (Some (bytes_block (lit "cd"))) 2
      (boot empty_script) = Ret (r, Some b') m' ∧ buf_max_size b' = 16.
Proof.
  destruct (wc_buffer_append_refines sample_buffer (lit "ab")
    (Some (bytes_block (lit "cd"))) (lit "cd") (boot empty_script) sample_buffer_repr
    (points_to_bytes _)) as (r & b' & m' & Hrun & _ & _ & Hm & _).
  exists r, b', m'. split; [exact Hrun | exact Hm].
Defined.

Lemma wc_buffer_consume_refines_witness :
  ∃ b' m', wc_buffer_consume (Some sample_buffer) 1 (boot empty_script) =
      Ret (0, Some b') m' ∧ buffer_repr b' (lit "b").
Proof.
  destruct (wc_buffer_consume_refines sample_buffer (lit "ab") 1 (boot empty_script)
    sample_buffer_repr ltac:(lia)) as (r & b' & m' & Hrun & _ & _ & _ & -> & _ & Hb).
  exists b', m'. split; [exact Hrun | exact Hb].
Defined.

Lemma wc_buffer_lifecycle_witness :
  ∃ rs b bs m', ('(_, b) ← by_ref (λ p, wc_buffer_init p 8) sample_buffer;
     buffer_run [BAppend (lit "abc"); BConsume 1; BAppend (lit "defghijk")] b)
     (boot empty_script) = Ret (rs, b) m' ∧ buffer_repr b bs ∧ buf_capacity b ≤ 8.
Proof.
  destruct (wc_buffer_lifecycle sample_buffer 8
    [BAppend (lit "abc"); BConsume 1; BAppend (lit "defghijk")] (boot empty_script))
    as (rs & b & bs & m' & Hrun & _ & Hb & Hc & _).
  - unfold is_size, SIZE_MAX. lia.
  - repeat constructor; simpl; lia.
  - exists rs, b, bs, m'. split; [exact Hrun | by split].
Defined.

Lemma wc_buffer_grow_bounds_witness :
  ∃ r b' m', wc_buffer_grow sample_buffer 9 (boot empty_script) = Ret (r, b') m' ∧
    buffer_repr b' (lit "ab").
Proof.
  destruct (wc_buffer_grow_bounds sample_buffer (lit "ab") 9 (boot empty_script)
    sample_buffer_repr ltac:(simpl; lia)) as (r & b' & m' & Hrun & Hb & _).
  exists r, b', m'. split; [exact Hrun | exact Hb].
Defined.

Lemma wc_buffer_grow_diverges_past_max_witness :
  wc_buffer_grow_loop 1000 16 17 16 (boot empty_script) = NoFuel.
Proof.
  apply wc_buffer_grow_diverges_past_max; unfold is_size, SIZE_MAX; lia.
Defined.
