(* ===== verification/Protocol.v ===== *)
(** * The wire protocol (src/src/protocol.c, src/include/wirecommand/protocol.h)

    The encoders and the incremental parsers as functions on memory, and the
    abstract codec they implement: [request_frame]/[spec_parse_request] and
    [response_frame]/[spec_parse_response] on byte strings. *)

From S2P Require Import Prelude Machine Script Buffer.

(** ** Constants and data *)

Definition WC_PROTOCOL_REQUEST_LENGTH_OFFSET : Z := 0.
Definition WC_PROTOCOL_REQUEST_TYPE_OFFSET : Z := 2.
Definition WC_PROTOCOL_REQUEST_ARGUMENT_LENGTH_OFFSET : Z := 4.
Definition WC_PROTOCOL_REQUEST_HEADER_SIZE : Z := 6.
Definition WC_PROTOCOL_RESPONSE_LENGTH_OFFSET : Z := 0.
Definition WC_PROTOCOL_RESPONSE_HEADER_SIZE : Z := 2.

(** enum wc_request_type; a C enum object holds any integer. *)
Definition WC_REQUEST_LS : Z := 1.
Definition WC_REQUEST_PWD : Z := 2.
Definition WC_REQUEST_CAT : Z := 3.

Inductive wc_parse_result :=
| WC_PARSE_COMPLETE
| WC_PARSE_NEED_MORE
| WC_PARSE_INVALID.

#[global] Instance wc_parse_result_eq_dec : EqDecision wc_parse_result.
Proof. solve_decision. Defined.

(** [rq_argument] and [rp_data] are positions in the parsed data: the view a
    complete parse returns borrows from it. *)
Record wc_request := WcRequest {
  rq_type : Z;
  rq_argument : Z;
  rq_argument_length : Z;
  rq_message_length : Z;
}.

Record wc_response := WcResponse {
  rp_data : Z;
  rp_data_length : Z;
  rp_message_length : Z;
}.

Definition wc_protocol_request_type_valid (type : Z) : bool :=
  (type =? WC_REQUEST_LS) || (type =? WC_REQUEST_PWD) || (type =? WC_REQUEST_CAT).

Section operations.
Context {W : Type} {OS : Posix W}.

Definition wc_protocol_decode_u16 (data : pointer) : M W Z :=
  d0 ← load_byte data 0;
  d1 ← load_byte data 1;
  mret (to_u16 (Z.lor (Z.shiftl (byte_val d0) 8) (byte_val d1))).

(** [destination + offset] is the two-byte field written. *)
Definition wc_protocol_encode_u16 (destination : block) (offset value : Z)
    : M W block :=
  p ← write_bytes (Some destination) offset [byte_of (Z.shiftr value 8)];
  p ← write_bytes p (offset + 1) [byte_of value];
  from_option_ub p.

Definition wc_protocol_encode_request (output : option wc_buffer) (type : Z)
    (argument : pointer) (argument_length : Z) : M W (Z * option wc_buffer) :=
  if is_null output || (is_null argument && negb (argument_length =? 0)) then
    put_errno EINVAL ;; mret (-1, output)
  else if negb (wc_protocol_request_type_valid type) then
    put_errno EINVAL ;; mret (-1, output)
  else if argument_length >? UINT16_MAX - WC_PROTOCOL_REQUEST_HEADER_SIZE then
    put_errno EMSGSIZE ;; mret (-1, output)
  else
    output ← from_option_ub output;
    let message_length := WC_PROTOCOL_REQUEST_HEADER_SIZE +ₛ argument_length in
    if (buf_length output >? buf_max_size output)
       || (message_length >? buf_max_size output -ₛ buf_length output) then
      put_errno EMSGSIZE ;; mret (-1, Some output)
    else
      header ← wc_protocol_encode_u16 (replicate 6 None)
                 WC_PROTOCOL_REQUEST_LENGTH_OFFSET (to_u16 message_length);
      header ← wc_protocol_encode_u16 header
                 WC_PROTOCOL_REQUEST_TYPE_OFFSET (to_u16 type);
      header ← wc_protocol_encode_u16 header
                 WC_PROTOCOL_REQUEST_ARGUMENT_LENGTH_OFFSET
                 (to_u16 argument_length);
      let original_length := buf_length output in
      '(r, output) ← by_ref (λ p, wc_buffer_append p (Some header)
                                    WC_PROTOCOL_REQUEST_HEADER_SIZE) output;
      if r =? -1 then mret (-1, Some output) else
      '(r, output) ← by_ref (λ p, wc_buffer_append p argument argument_length)
                       output;
      if r =? -1 then
        mret (-1, Some (WcBuffer (buf_data output) original_length
                          (buf_capacity output) (buf_max_size output)))
      else mret (0, Some output).

(** Out parameters: [None] is a NULL pointer, otherwise the current pointee. *)
Definition wc_protocol_parse_request (data : pointer) (data_size : Z)
    (request : option wc_request) (consumed : option Z)
    : M W (wc_parse_result * option wc_request * option Z) :=
  if is_null request || is_null consumed
     || (is_null data && negb (data_size =? 0)) then
    mret (WC_PARSE_INVALID, request, consumed)
  else
    let consumed := Some 0 in
    if data_size <? WC_PROTOCOL_REQUEST_HEADER_SIZE then
      mret (WC_PARSE_NEED_MORE, request, consumed)
    else
      request_length ← wc_protocol_decode_u16
        (ptr_add data WC_PROTOCOL_REQUEST_LENGTH_OFFSET);
      request_type ← wc_protocol_decode_u16
        (ptr_add data WC_PROTOCOL_REQUEST_TYPE_OFFSET);
      argument_length ← wc_protocol_decode_u16
        (ptr_add data WC_PROTOCOL_REQUEST_ARGUMENT_LENGTH_OFFSET);
      if negb (wc_protocol_request_type_valid request_type) then
        mret (WC_PARSE_INVALID, request, consumed)
      else if request_length <? WC_PROTOCOL_REQUEST_HEADER_SIZE then
        mret (WC_PARSE_INVALID, request, consumed)
      else if negb (request_length =?
                      WC_PROTOCOL_REQUEST_HEADER_SIZE +ₛ argument_length) then
        mret (WC_PARSE_INVALID, request, consumed)
      else if data_size <? request_length then
        mret (WC_PARSE_NEED_MORE, request, consumed)
      else
        mret (WC_PARSE_COMPLETE,
              Some (WcRequest request_type WC_PROTOCOL_REQUEST_HEADER_SIZE
                      argument_length request_length),
              Some request_length).

Definition wc_protocol_encode_response (output : option wc_buffer)
    (data : pointer) (data_length : Z) : M W (Z * option wc_buffer) :=
  if is_null output || (is_null data && negb (data_length =? 0)) then
    put_errno EINVAL ;; mret (-1, output)
  else if data_length >? UINT16_MAX then
    put_errno EMSGSIZE ;; mret (-1, output)
  else
    output ← from_option_ub output;
    let message_length := WC_PROTOCOL_RESPONSE_HEADER_SIZE +ₛ data_length in
    if (buf_length output >? buf_max_size output)
       || (message_length >? buf_max_size output -ₛ buf_length output) then
      put_errno EMSGSIZE ;; mret (-1, Some output)
    else
      header ← wc_protocol_encode_u16 (replicate 2 None)
                 WC_PROTOCOL_RESPONSE_LENGTH_OFFSET (to_u16 data_length);
      let original_length := buf_length output in
      '(r, output) ← by_ref (λ p, wc_buffer_append p (Some header)
                                    WC_PROTOCOL_RESPONSE_HEADER_SIZE) output;
      if r =? -1 then mret (-1, Some output) else
      '(r, output) ← by_ref (λ p, wc_buffer_append p data data_length) output;
      if r =? -1 then
        mret (-1, Some (WcBuffer (buf_data output) original_length
                          (buf_capacity output) (buf_max_size output)))
      else mret (0, Some output).

Definition wc_protocol_parse_response (data : pointer) (data_size : Z)
    (response : option wc_response) (consumed : option Z)
    : M W (wc_parse_result * option wc_response * option Z) :=
  if is_null response || is_null consumed
     || (is_null data && negb (data_size =? 0)) then
    mret (WC_PARSE_INVALID, response, consumed)
  else
    let consumed := Some 0 in
    if data_size <? WC_PROTOCOL_RESPONSE_HEADER_SIZE then
      mret (WC_PARSE_NEED_MORE, response, consumed)
    else
      response_length ← wc_protocol_decode_u16
        (ptr_add data WC_PROTOCOL_RESPONSE_LENGTH_OFFSET);
      let message_length := WC_PROTOCOL_RESPONSE_HEADER_SIZE + response_length in
      if data_size <? message_length then
        mret (WC_PARSE_NEED_MORE, response, consumed)
      else
        mret (WC_PARSE_COMPLETE,
              Some (WcResponse WC_PROTOCOL_RESPONSE_HEADER_SIZE response_length
                      message_length),
              Some message_length).

End operations.

Arguments wc_protocol_encode_request : simpl never.
Arguments wc_protocol_parse_request : simpl never.
Arguments wc_protocol_encode_response : simpl never.
Arguments wc_protocol_parse_response : simpl never.

(** ** The abstract codec *)

Definition u16_bytes (v : Z) : list byte := [byte_of (Z.shiftr v 8); byte_of v].
Definition u16_val (b0 b1 : byte) : Z := byte_val b0 * 256 + byte_val b1.

Definition request_frame (type : Z) (arg : list byte) : list byte :=
  u16_bytes (6 + zlen arg) ++ u16_bytes type ++ u16_bytes (zlen arg) ++ arg.

Definition response_frame (data : list byte) : list byte :=
  u16_bytes (zlen data) ++ data.

Inductive parsed (A : Type) :=
| PComplete (a : A)
| PNeedMore
| PInvalid.
Arguments PComplete {A}.
Arguments PNeedMore {A}.
Arguments PInvalid {A}.

(** First request of a byte string. *)
Definition spec_parse_request (bs : list byte) : parsed (Z * list byte) :=
  match bs with
  | l1 :: l0 :: t1 :: t0 :: a1 :: a0 :: rest =>
    if negb (wc_protocol_request_type_valid (u16_val t1 t0)) then PInvalid
    else if negb (u16_val l1 l0 =? 6 + u16_val a1 a0) then PInvalid
    else if zlen bs <? u16_val l1 l0 then PNeedMore
    else PComplete (u16_val t1 t0, take (Z.to_nat (u16_val a1 a0)) rest)
  | _ => PNeedMore
  end.

Definition spec_parse_response (bs : list byte) : parsed (list byte) :=
  match bs with
  | l1 :: l0 :: rest =>
    if zlen bs <? 2 + u16_val l1 l0 then PNeedMore
    else PComplete (take (Z.to_nat (u16_val l1 l0)) rest)
  | _ => PNeedMore
  end.

(** A request the client may send. *)
Definition request_ok (type : Z) (arg : list byte) : Prop :=
  wc_protocol_request_type_valid type = true ∧ zlen arg ≤ 65529.

(** ** Sixteen-bit fields *)

Lemma u16_val_range b0 b1 : 0 ≤ u16_val b0 b1 ≤ UINT16_MAX.
Proof.
  unfold u16_val, UINT16_MAX. pose proof (byte_val_range b0).
  pose proof (byte_val_range b1). lia.
Qed.

Lemma land_shiftl_byte a b : 0 ≤ b < 256 → Z.land (Z.shiftl a 8) b = 0.
Proof.
  intros Hb. apply Z.bits_inj'. intros n Hn.
  rewrite Z.land_spec, Z.bits_0, Z.shiftl_spec by lia.
  destruct (Z.lt_ge_cases n 8).
  - rewrite Z.testbit_neg_r by lia. done.
  - replace b with (b mod 2 ^ 8) by (apply Z.mod_small; lia).
    rewrite Z.mod_pow2_bits_high by lia. apply andb_false_r.
Qed.

(** The shift-and-or of the decoder is the big-endian value. *)
Lemma u16_lor b0 b1 :
  to_u16 (Z.lor (Z.shiftl (byte_val b0) 8) (byte_val b1)) = u16_val b0 b1.
Proof.
  pose proof (byte_val_range b1) as H1.
  pose proof (Z.add_lor_land (Z.shiftl (byte_val b0) 8) (byte_val b1)) as Hsum.
  rewrite land_shiftl_byte, Z.shiftl_mul_pow2 in Hsum by lia.
  rewrite Z.shiftl_mul_pow2 by lia. change (2 ^ 8) with 256 in *.
  rewrite to_u16_small; unfold u16_val; [lia|].
  pose proof (u16_val_range b0 b1) as Hr. unfold u16_val in Hr. lia.
Qed.

Lemma u16_val_bytes v :
  0 ≤ v ≤ UINT16_MAX → u16_val (byte_of (Z.shiftr v 8)) (byte_of v) = v.
Proof.
  unfold UINT16_MAX, u16_val. intros Hv.
  rewrite !byte_val_of, Z.shiftr_div_pow2 by lia. change (2 ^ 8) with 256.
  pose proof (Z.div_mod v 256 ltac:(lia)).
  assert (0 ≤ v / 256 < 256) by
    (split; [apply Z.div_pos | apply Z.div_lt_upper_bound]; lia).
  rewrite (Z.mod_small (v / 256)) by lia. lia.
Qed.

Lemma byte_of_mod z : byte_of (z mod 256) = byte_of z.
Proof. unfold byte_of, to_u8. change (2 ^ 8) with 256. by rewrite Z.mod_mod by lia. Qed.

Lemma u16_bytes_val b0 b1 : u16_bytes (u16_val b0 b1) = [b0; b1].
Proof.
  unfold u16_bytes, u16_val. pose proof (byte_val_range b1).
  rewrite Z.shiftr_div_pow2 by lia. change (2 ^ 8) with 256.
  rewrite Z.div_add_l, (Z.div_small (byte_val b1)), Z.add_0_r by lia.
  rewrite <-(byte_of_mod (_ + _)), Z.add_comm, Z.mod_add, Z.mod_small by lia.
  by rewrite !byte_of_val.
Qed.

Lemma zlen_request_frame type arg : zlen (request_frame type arg) = 6 + zlen arg.
Proof. unfold request_frame, u16_bytes. len_lia. Qed.

Lemma zlen_response_frame data : zlen (response_frame data) = 2 + zlen data.
Proof. unfold response_frame, u16_bytes. len_lia. Qed.
#[export] Hint Rewrite zlen_request_frame zlen_response_frame : wc_len.

(** ** Laws of the abstract codec *)

Lemma type_valid_range type :
  wc_protocol_request_type_valid type = true → 1 ≤ type ≤ 3.
Proof.
  unfold wc_protocol_request_type_valid, WC_REQUEST_LS, WC_REQUEST_PWD,
    WC_REQUEST_CAT. intros. bool_to_prop. destruct_or!; bool_to_prop; lia.
Qed.

(** Decoding an encoded request, whatever follows it. *)
Lemma spec_parse_request_frame type arg rest :
  request_ok type arg →
  spec_parse_request (request_frame type arg ++ rest) = PComplete (type, arg).
Proof.
  intros [Hty Harg]. pose proof (type_valid_range _ Hty).
  unfold request_frame, u16_bytes. simpl app. unfold spec_parse_request.
  rewrite !u16_val_bytes by (unfold UINT16_MAX; lia).
  rewrite Hty, Z.eqb_refl. cbn [negb].
  rewrite (proj2 (Z.ltb_ge _ _)) by (simpl length; rewrite length_app; lia).
  by rewrite Nat2Z.id, take_app_length.
Qed.

Lemma spec_parse_response_frame data rest :
  zlen data ≤ UINT16_MAX →
  spec_parse_response (response_frame data ++ rest) = PComplete data.
Proof.
  intros Hd. unfold response_frame, u16_bytes. simpl app. unfold spec_parse_response.
  rewrite u16_val_bytes by lia.
  rewrite (proj2 (Z.ltb_ge _ _)) by (simpl length; rewrite length_app; lia).
  by rewrite Nat2Z.id, take_app_length.
Qed.

(** A complete parse consumed exactly the encoding of what it returned. *)
Lemma spec_parse_request_inv bs type arg :
  spec_parse_request bs = PComplete (type, arg) →
  request_ok type arg ∧ ∃ rest, bs = request_frame type arg ++ rest.
Proof.
  unfold spec_parse_request. destruct bs as [|l1 [|l0 [|t1 [|t0 [|a1 [|a0 rest]]]]]]; try done.
  case_if as Hty; [done|]. case_if as Hlen; [done|]. case_if as Hshort; [done|].
  intros [= <- <-]. pose proof (u16_val_range a1 a0) as Ha. simpl length in Hshort.
  pose proof (u16_val_range l1 l0) as Hl. unfold UINT16_MAX in *.
  assert (zlen (take (Z.to_nat (u16_val a1 a0)) rest) = u16_val a1 a0) as Htk
    by (rewrite length_take; lia).
  split; [split; [done | lia]|].
  exists (drop (Z.to_nat (u16_val a1 a0)) rest).
  unfold request_frame. rewrite Htk, <-Hlen, !u16_bytes_val. simpl.
  by rewrite take_drop.
Qed.

Lemma spec_parse_response_inv bs data :
  spec_parse_response bs = PComplete data →
  zlen data ≤ UINT16_MAX ∧ ∃ rest, bs = response_frame data ++ rest.
Proof.
  unfold spec_parse_response. destruct bs as [|l1 [|l0 rest]]; try done.
  case_if as Hshort; [done|]. intros [= <-].
  pose proof (u16_val_range l1 l0) as Hl. unfold UINT16_MAX in *. simpl length in Hshort.
  assert (zlen (take (Z.to_nat (u16_val l1 l0)) rest) = u16_val l1 l0) as Htk
    by (rewrite length_take; lia).
  split; [lia|]. exists (drop (Z.to_nat (u16_val l1 l0)) rest).
  unfold response_frame. rewrite Htk, !u16_bytes_val. simpl. by rewrite take_drop.
Qed.

(** More bytes never change a decision already taken. *)
Lemma spec_parse_request_app bs more :
  spec_parse_request bs ≠ PNeedMore →
  spec_parse_request (bs ++ more) = spec_parse_request bs.
Proof.
  destruct (spec_parse_request bs) as [[type arg]| |] eqn:Hbs; [|done|]; intros _.
  - apply spec_parse_request_inv in Hbs as (Hok & rest & ->).
    rewrite <-app_assoc. by apply spec_parse_request_frame.
  - revert Hbs. unfold spec_parse_request.
    destruct bs as [|l1 [|l0 [|t1 [|t0 [|a1 [|a0 rest]]]]]]; try done.
    cbn iota beta delta [app]. destruct (negb _); [done|]. destruct (negb _); [done|].
    by case_if.
Qed.

Lemma spec_parse_request_need_more_short bs :
  spec_parse_request bs = PNeedMore → zlen bs < UINT16_MAX.
Proof.
  unfold UINT16_MAX, spec_parse_request.
  destruct bs as [|l1 [|l0 [|t1 [|t0 [|a1 [|a0 rest]]]]]]; try (simpl; lia).
  case_if; [done|]. case_if; [done|]. case_if; [|done]. intros _.
  pose proof (u16_val_range l1 l0). unfold UINT16_MAX in *. lia.
Qed.

Lemma spec_parse_response_need_more_short bs :
  spec_parse_response bs = PNeedMore → zlen bs < 2 + UINT16_MAX.
Proof.
  unfold spec_parse_response. destruct bs as [|l1 [|l0 rest]];
    try (unfold UINT16_MAX; simpl; lia).
  case_if; [|done]. intros _. pose proof (u16_val_range l1 l0). lia.
Qed.

Lemma spec_parse_response_valid bs : spec_parse_response bs ≠ PInvalid.
Proof.
  unfold spec_parse_response. destruct bs as [|? [|? ?]]; try done. by case_if.
Qed.

(** ** The parsers implement the abstract codec *)

(** What the out parameters hold after a parse with result [r]. *)
Definition request_result (request : wc_request) (r : parsed (Z * list byte))
    : wc_parse_result * option wc_request * option Z :=
  match r with
  | PComplete (type, arg) =>
    (WC_PARSE_COMPLETE, Some (WcRequest type 6 (zlen arg) (6 + zlen arg)),
     Some (6 + zlen arg))
  | PNeedMore => (WC_PARSE_NEED_MORE, Some request, Some 0)
  | PInvalid => (WC_PARSE_INVALID, Some request, Some 0)
  end.

Definition response_result (response : wc_response) (r : parsed (list byte))
    : wc_parse_result * option wc_response * option Z :=
  match r with
  | PComplete data =>
    (WC_PARSE_COMPLETE, Some (WcResponse 2 (zlen data) (2 + zlen data)),
     Some (2 + zlen data))
  | PNeedMore => (WC_PARSE_NEED_MORE, Some response, Some 0)
  | PInvalid => (WC_PARSE_INVALID, Some response, Some 0)
  end.

Section specs.
Context {W : Type} {OS : Posix W}.
Implicit Types (m : machine W) (t : bool).

Lemma wp_decode_u16 t p bs i b0 b1 Q m :
  points_to p bs → bs !! i = Some b0 → bs !! S i = Some b1 →
  Q (u16_val b0 b1) m →
  wp t (wc_protocol_decode_u16 (ptr_add p (Z.of_nat i))) Q m.
Proof.
  intros Hp H0 H1 HQ. destruct p as [b|]; [|by rewrite Hp in H0].
  simpl in Hp. pose proof (lookup_lt_Some _ _ _ H1) as Hlt.
  pose proof (block_prefix_drop _ i _ _ Hp ltac:(lia)) as Hd.
  unfold wc_protocol_decode_u16, ptr_add. simpl fmap. rewrite Nat2Z.id.
  apply wp_bind. eapply wp_load_byte; [done..| |].
  { rewrite lookup_drop, Nat.add_0_r. exact H0. }
  apply wp_bind. eapply wp_load_byte; [done..| |].
  { rewrite lookup_drop. change (Z.to_nat 1) with 1%nat. rewrite Nat.add_1_r. exact H1. }
  wp_go. by rewrite u16_lor.
Qed.

Lemma parse_request_spec t p bs request consumed Q m :
  points_to p bs → Q (request_result request (spec_parse_request bs)) m →
  wp t (wc_protocol_parse_request p (zlen bs) (Some request) (Some consumed)) Q m.
Proof.
  intros Hp. unfold wc_protocol_parse_request, spec_parse_request.
  rewrite (points_to_null_test p bs) by done. cbn [is_null orb].
  unfold WC_PROTOCOL_REQUEST_HEADER_SIZE.
  destruct bs as [|l1 [|l0 [|t1 [|t0 [|a1 [|a0 rest]]]]]]; try by intros HQ; wp_go.
  set (bs := l1 :: _) in *. intros HQ.
  rewrite (proj2 (Z.ltb_ge (zlen bs) 6)) by (subst bs; simpl; lia).
  apply wp_bind, (wp_decode_u16 _ _ bs 0 l1 l0); [done..|].
  apply wp_bind, (wp_decode_u16 _ _ bs 2 t1 t0); [done..|].
  apply wp_bind, (wp_decode_u16 _ _ bs 4 a1 a0); [done..|].
  pose proof (u16_val_range a1 a0) as Ha. pose proof (u16_val_range l1 l0) as Hl.
  unfold UINT16_MAX in *. rewrite size_add_small by (unfold SIZE_MAX; lia).
  destruct (negb (wc_protocol_request_type_valid _)); [by wp_go|].
  destruct (negb (u16_val l1 l0 =? _)) eqn:Hlen.
  { by case_if; wp_go. }
  bool_to_prop. rewrite (proj2 (Z.ltb_ge (u16_val l1 l0) 6)) by lia.
  case_if as Hs; wp_go; [done|]. subst bs. simpl length in Hs.
  unfold request_result in HQ. rewrite length_take in HQ.
  replace (Z.of_nat (Z.to_nat (u16_val a1 a0) `min` length rest))
    with (u16_val a1 a0) in HQ by lia.
  by rewrite Hlen.
Qed.

Lemma parse_response_spec t p bs response consumed Q m :
  points_to p bs → Q (response_result response (spec_parse_response bs)) m →
  wp t (wc_protocol_parse_response p (zlen bs) (Some response) (Some consumed)) Q m.
Proof.
  intros Hp. unfold wc_protocol_parse_response, spec_parse_response.
  rewrite (points_to_null_test p bs) by done. cbn [is_null orb].
  unfold WC_PROTOCOL_RESPONSE_HEADER_SIZE.
  destruct bs as [|l1 [|l0 rest]]; try by intros HQ; wp_go.
  set (bs := l1 :: _) in *. intros HQ.
  rewrite (proj2 (Z.ltb_ge (zlen bs) 2)) by (subst bs; simpl; lia).
  apply wp_bind, (wp_decode_u16 _ _ bs 0 l1 l0); [done..|].
  pose proof (u16_val_range l1 l0) as Hl.
  case_if as Hs; wp_go; [done|]. subst bs. simpl length in Hs.
  unfold response_result in HQ. rewrite length_take in HQ.
  by replace (Z.of_nat (Z.to_nat (u16_val l1 l0) `min` length rest))
    with (u16_val l1 l0) in HQ by lia.
Qed.

(** ** The encoders *)

Lemma wp_encode_u16 t (dst dst' : block) i v Q m :
  (b ← block_write dst i [byte_of (Z.shiftr v 8)];
   block_write b (S i) [byte_of v]) = Some dst' →
  Q dst' m → wp t (wc_protocol_encode_u16 dst (Z.of_nat i) v) Q m.
Proof.
  destruct (block_write dst i _) as [b|] eqn:Hb; [|done]. simpl. intros Hd HQ.
  unfold wc_protocol_encode_u16. apply wp_bind.
  eapply wp_write_bytes; [done | lia | by rewrite Nat2Z.id |]. apply wp_bind.
  eapply wp_write_bytes; [done | lia | |by wp_go].
  replace (Z.to_nat (Z.of_nat i + 1)) with (S i) by lia. done.
Qed.

(** Append a header and a body, or restore the old length: the common tail
    of both encoders. *)
Lemma append_frame_spec t b bs header body data Q m :
  buffer_repr b bs → points_to data body → header ≠ [] →
  zlen header + zlen body ≤ buf_max_size b - zlen bs →
  (∀ b' m', silent m m' → m_errno m' = m_errno m →
     m_live m' - buf_owned b' = m_live m - buf_owned b →
     buffer_repr b' (bs ++ header ++ body) → buf_max_size b' = buf_max_size b →
     Q (0, Some b') m') →
  (∀ b' m', silent m m' → m_errno m' = ENOMEM →
     m_live m' - buf_owned b' = m_live m - buf_owned b →
     buffer_repr b' bs → buf_max_size b' = buf_max_size b →
     Q (-1, Some b') m') →
  wp t ('(r, output) ← by_ref (λ p, wc_buffer_append p
                          (Some (bytes_block header)) (zlen header)) b;
        if r =? -1 then mret (-1, Some output) else
        '(r, output) ← by_ref (λ p, wc_buffer_append p data (zlen body)) output;
        if r =? -1 then
          mret (-1, Some (WcBuffer (buf_data output) (buf_length b)
                            (buf_capacity output) (buf_max_size output)))
        else mret (0, Some output)) Q m.
Proof.
  intros Hb Hd Hne Hfit Hok Hmem. wp_go.
  eapply wc_buffer_append_spec; [done | apply points_to_bytes | ..].
  - intros _ b1 m1 Hs1 He1 Hl1 Hb1 Hm1. cbn. wp_go.
    eapply wc_buffer_append_spec; [done..| | |].
    + intros _ b2 m2 Hs2 He2 Hl2 Hb2 Hm2. cbn. wp_go. rewrite <-app_assoc in Hb2.
      apply Hok; side.
    + intros Hbad. rewrite Hm1, zlen_app in Hbad. lia.
    + intros _ m2 Hs2 He2 Hl2. cbn. wp_go. rewrite (br_length _ _ Hb).
      apply Hmem; side; [unfold buf_owned in *; simpl; lia|].
      by eapply buffer_repr_truncate.
  - intros Hbad. pose proof (zlen_nonneg body). lia.
  - intros _ m1 Hs1 He1 Hl1. cbn. wp_go. by apply Hmem; side.
Qed.

Lemma encode_request_spec t b bs type arg data Q m :
  buffer_repr b bs → points_to data arg →
  (request_ok type arg → 6 + zlen arg ≤ buf_max_size b - zlen bs →
   ∀ b' m', silent m m' → m_errno m' = m_errno m →
     m_live m' - buf_owned b' = m_live m - buf_owned b →
     buffer_repr b' (bs ++ request_frame type arg) →
     buf_max_size b' = buf_max_size b → Q (0, Some b') m') →
  (∀ e b' m', e ∈ [EINVAL; EMSGSIZE; ENOMEM] →
     (e = EINVAL ↔ wc_protocol_request_type_valid type = false) →
     (e = EMSGSIZE → 65529 < zlen arg ∨ buf_max_size b - zlen bs < 6 + zlen arg) →
     (e = ENOMEM → request_ok type arg ∧ 6 + zlen arg ≤ buf_max_size b - zlen bs) →
     silent m m' → m_errno m' = e →
     m_live m' - buf_owned b' = m_live m - buf_owned b →
     buffer_repr b' bs → buf_max_size b' = buf_max_size b → Q (-1, Some b') m') →
  wp t (wc_protocol_encode_request (Some b) type data (zlen arg)) Q m.
Proof.
  intros Hb Hd Hok Hfail. pose proof Hb as [Hmax Hlen ???].
  unfold wc_protocol_encode_request. rewrite (points_to_null_test data arg) by done.
  cbn [is_null orb]. unfold UINT16_MAX, WC_PROTOCOL_REQUEST_HEADER_SIZE, is_size in *.
  destruct (wc_protocol_request_type_valid type) eqn:Hty; cbn [negb]; cycle 1.
  { wp_go. apply (Hfail EINVAL); side; list_in. }
  case_if as Hbig.
  { wp_go. apply (Hfail EMSGSIZE); side; first [list_in | by left; lia]. }
  wp_go. rewrite Hlen, size_add_small, size_sub_small by (unfold SIZE_MAX in *; lia).
  destruct (zlen bs >? buf_max_size b) eqn:Hx; bool_to_prop; [lia|]. cbn [orb].
  case_if as Hroom.
  { wp_go. apply (Hfail EMSGSIZE); side; first [list_in | by right; lia]. }
  pose proof (type_valid_range _ Hty). rewrite !to_u16_small by (unfold UINT16_MAX; lia).
  apply wp_bind; eapply (wp_encode_u16 _ _ _ 0); [reflexivity|].
  apply wp_bind; eapply (wp_encode_u16 _ _ _ 2); [reflexivity|].
  apply wp_bind; eapply (wp_encode_u16 _ _ _ 4); [reflexivity|]. rewrite <-Hlen.
  apply (append_frame_spec t b bs (u16_bytes (6 + zlen arg) ++ u16_bytes type ++
           u16_bytes (zlen arg)) arg); try done.
  - intros b' m' ?????. by apply Hok; side.
  - intros b' m' ?????. apply (Hfail ENOMEM); side; list_in.
Qed.

Lemma encode_response_spec t b bs body data Q m :
  buffer_repr b bs → points_to data body →
  (zlen body ≤ UINT16_MAX → 2 + zlen body ≤ buf_max_size b - zlen bs →
   ∀ b' m', silent m m' → m_errno m' = m_errno m →
     m_live m' - buf_owned b' = m_live m - buf_owned b →
     buffer_repr b' (bs ++ response_frame body) →
     buf_max_size b' = buf_max_size b → Q (0, Some b') m') →
  (∀ e b' m', e ∈ [EMSGSIZE; ENOMEM] →
     (e = EMSGSIZE ↔
        UINT16_MAX < zlen body ∨ buf_max_size b - zlen bs < 2 + zlen body) →
     silent m m' → m_errno m' = e →
     m_live m' - buf_owned b' = m_live m - buf_owned b →
     buffer_repr b' bs → buf_max_size b' = buf_max_size b → Q (-1, Some b') m') →
  wp t (wc_protocol_encode_response (Some b) data (zlen body)) Q m.
Proof.
  intros Hb Hd Hok Hfail. pose proof Hb as [Hmax Hlen ???].
  unfold wc_protocol_encode_response. rewrite (points_to_null_test data body) by done.
  cbn [is_null orb]. unfold UINT16_MAX, WC_PROTOCOL_RESPONSE_HEADER_SIZE, is_size in *.
  case_if as Hbig.
  { wp_go. apply (Hfail EMSGSIZE); side; first [list_in | by split; [left|]]. }
  wp_go. rewrite Hlen, size_add_small, size_sub_small by (unfold SIZE_MAX in *; lia).
  destruct (zlen bs >? buf_max_size b) eqn:Hx; bool_to_prop; [lia|]. cbn [orb].
  case_if as Hroom.
  { wp_go. apply (Hfail EMSGSIZE); side; first [list_in | by split; [right|]]. }
  rewrite to_u16_small by (unfold UINT16_MAX; lia).
  apply wp_bind; eapply (wp_encode_u16 _ _ _ 0); [reflexivity|]. rewrite <-Hlen.
  apply (append_frame_spec t b bs (u16_bytes (zlen body)) body); try done.
  - intros b' m' ?????. by apply Hok; side.
  - intros b' m' ?????. apply (Hfail ENOMEM); side; [list_in|].
    split; [done | lia].
Qed.

End specs.

(** ** Streams of requests

    [spec_frames] decodes requests until the rest is incomplete or invalid.
    Every frame has at least six bytes, so the length of the string is enough
    fuel ([frames_fuel_enough]). *)

Fixpoint frames_fuel (fuel : nat) (bs : list byte)
    : list (Z * list byte) * list byte :=
  match fuel with
  | O => ([], bs)
  | S fuel =>
    match spec_parse_request bs with
    | PComplete (type, arg) =>
      let '(rs, rest) := frames_fuel fuel (drop (6 + length arg) bs) in
      ((type, arg) :: rs, rest)
    | _ => ([], bs)
    end
  end.

Definition spec_frames (bs : list byte) : list (Z * list byte) * list byte :=
  frames_fuel (length bs) bs.

Lemma drop_request_frame type arg rest :
  drop (6 + length arg) (request_frame type arg ++ rest) = rest.
Proof.
  apply drop_app_exact. pose proof (zlen_request_frame type arg). lia.
Qed.

Lemma frames_fuel_irrel n k bs :
  (length bs ≤ n)%nat → (length bs ≤ k)%nat → frames_fuel n bs = frames_fuel k bs.
Proof.
  revert k bs. induction n as [|n IH]; intros k bs Hn Hk.
  { destruct bs; simpl in Hn; [by destruct k | lia]. }
  destruct k as [|k]; [destruct bs; simpl in Hk; [done | lia]|]. cbn [frames_fuel].
  destruct (spec_parse_request bs) as [[type arg]| |]; try done.
  by rewrite (IH k) by (rewrite length_drop; lia).
Qed.

Lemma frames_fuel_enough n bs :
  (length bs ≤ n)%nat → frames_fuel n bs = spec_frames bs.
Proof. intros. by apply frames_fuel_irrel. Qed.

Lemma spec_frames_stop bs :
  (∀ x, spec_parse_request bs ≠ PComplete x) → spec_frames bs = ([], bs).
Proof.
  intros H. unfold spec_frames. destruct (length bs); [done|]. simpl.
  destruct (spec_parse_request bs) as [x| |]; [by destruct (H x)|done..].
Qed.

Lemma spec_frames_frame type arg rest :
  request_ok type arg →
  spec_frames (request_frame type arg ++ rest) =
    let '(rs, rest') := spec_frames rest in ((type, arg) :: rs, rest').
Proof.
  intros Hok. rewrite <-(frames_fuel_enough (S (length (request_frame type arg ++ rest))))
    by lia. cbn [frames_fuel]. rewrite spec_parse_request_frame by done.
  rewrite drop_request_frame, frames_fuel_enough; [done|]. rewrite length_app. lia.
Qed.

(** Induction along the frames of a byte string. *)
Lemma frames_ind (P : list byte → Prop) :
  (∀ bs, (∀ x, spec_parse_request bs ≠ PComplete x) → P bs) →
  (∀ type arg rest, request_ok type arg → P rest → P (request_frame type arg ++ rest)) →
  ∀ bs, P bs.
Proof.
  intros Hstop Hframe bs.
  induction bs as [bs IH] using (induction_ltof1 _ (@length byte)).
  destruct (spec_parse_request bs) as [[type arg]| |] eqn:Hbs.
  - apply spec_parse_request_inv in Hbs as (Hok & rest & ->). apply Hframe; [done|].
    apply IH. unfold ltof. pose proof (zlen_request_frame type arg).
    rewrite length_app. lia.
  - apply Hstop. by rewrite Hbs.
  - apply Hstop. by rewrite Hbs.
Qed.

(** Decoding in two steps: what the first bytes yield, then the undecoded
    rest together with the bytes that follow. *)
Lemma spec_frames_app bs more :
  spec_frames (bs ++ more) =
    let '(rs, rest) := spec_frames bs in
    let '(rs', rest') := spec_frames (rest ++ more) in (rs ++ rs', rest').
Proof.
  induction bs as [bs Hstop | type arg rest Hok IH] using frames_ind.
  - rewrite (spec_frames_stop bs) by done. by destruct (spec_frames (bs ++ more)).
  - rewrite <-app_assoc, !spec_frames_frame by done. rewrite IH.
    destruct (spec_frames rest) as [rs r]. by destruct (spec_frames (r ++ more)).
Qed.

(** What a reader that decodes after every chunk ends up with. *)
Fixpoint feed (pending : list byte) (chunks : list (list byte))
    : list (Z * list byte) * list byte :=
  match chunks with
  | [] => ([], pending)
  | c :: cs =>
    let '(rs, rest) := spec_frames (pending ++ c) in
    let '(rs', rest') := feed rest cs in (rs ++ rs', rest')
  end.

Lemma spec_frames_rest bs rs rest :
  spec_frames bs = (rs, rest) → ∀ x, spec_parse_request rest ≠ PComplete x.
Proof.
  revert rs rest. induction bs as [bs Hstop | type arg tl Hok IH] using frames_ind;
    intros rs rest.
  - rewrite spec_frames_stop by done. by intros [= <- <-].
  - rewrite spec_frames_frame by done. destruct (spec_frames tl) as [rs' rest'] eqn:E.
    intros [= <- <-]. by apply (IH rs').
Qed.

(** Every decoded request is one a client may send. *)
Lemma spec_frames_ok bs rs rest :
  spec_frames bs = (rs, rest) → Forall (λ x, request_ok x.1 x.2) rs.
Proof.
  revert rs rest. induction bs as [bs Hstop | type arg tl Hok IH] using frames_ind;
    intros rs rest.
  - rewrite spec_frames_stop by done. by intros [= <- <-].
  - rewrite spec_frames_frame by done. destruct (spec_frames tl) as [rs' rest'] eqn:E.
    intros [= <- <-]. constructor; [done | by apply (IH rs' rest')].
Qed.

Lemma feed_concat pending chunks :
  spec_frames pending = ([], pending) →
  feed pending chunks = spec_frames (pending ++ concat chunks).
Proof.
  revert pending. induction chunks as [|c cs IH]; intros pending Hp; simpl.
  { by rewrite app_nil_r. }
  rewrite app_assoc, (spec_frames_app (pending ++ c)).
  destruct (spec_frames (pending ++ c)) as [rs rest] eqn:E.
  rewrite IH; [done|]. by eapply spec_frames_stop, spec_frames_rest.
Qed.

(** ** Properties *)

(** The borrowed view of a complete parse. *)
Lemma frame_view p type arg rest :
  points_to p (request_frame type arg ++ rest) → points_to (ptr_add p 6) (arg ++ rest).
Proof.
  unfold request_frame. rewrite <-!app_assoc. intros Hp.
  by apply (points_to_app_r _ (u16_bytes (6 + zlen arg) ++ u16_bytes type ++
              u16_bytes (zlen arg))) in Hp.
Qed.

Section properties.
Context {W : Type} {OS : Posix W}.
Implicit Types (m : machine W).

Lemma parse_request_eq p bs request consumed m :
  points_to p bs →
  wc_protocol_parse_request p (zlen bs) (Some request) (Some consumed) m =
    Ret (request_result request (spec_parse_request bs)) m.
Proof.
  intros Hp. pose proof (parse_request_spec true p bs request consumed
    (λ r m', r = request_result request (spec_parse_request bs) ∧ m' = m) m Hp
    ltac:(done)) as Hwp.
  by apply wp_total_inv in Hwp as (r & m' & -> & -> & ->).
Qed.

Lemma parse_response_eq p bs response consumed m :
  points_to p bs →
  wc_protocol_parse_response p (zlen bs) (Some response) (Some consumed) m =
    Ret (response_result response (spec_parse_response bs)) m.
Proof.
  intros Hp. pose proof (parse_response_spec true p bs response consumed
    (λ r m', r = response_result response (spec_parse_response bs) ∧ m' = m) m Hp
    ltac:(done)) as Hwp.
  by apply wp_total_inv in Hwp as (r & m' & -> & -> & ->).
Qed.

(** C22: on every initialised byte string, [wc_protocol_parse_request] reads
    only those bytes, changes no state and returns exactly what the abstract
    decoder returns: the request and its length when the first frame is
    complete, NEED_MORE or INVALID with zero consumed otherwise. *)
Theorem wc_protocol_parse_request_refines p bs request consumed m :
  points_to p bs →
  wc_protocol_parse_request p (zlen bs) (Some request) (Some consumed) m =
    Ret (request_result request (spec_parse_request bs)) m.
Proof. apply parse_request_eq. Qed.

(** C23: round trip. A valid request that fits the output buffer is encoded,
    unless memory runs out, and parsing the bytes of the buffer, whatever
    bytes follow them, returns the same type and a view of exactly the
    argument, and consumes exactly the encoded bytes. *)
Theorem request_roundtrip b type arg data m :
  buffer_repr b [] → points_to data arg → request_ok type arg →
  6 + zlen arg ≤ buf_max_size b →
  ∃ r b' m', wc_protocol_encode_request (Some b) type data (zlen arg) m
               = Ret (r, Some b') m' ∧
    ((r = 0 ∧ ∃ frame, buffer_repr b' frame ∧
       ∀ p rest request consumed m2, points_to p (frame ++ rest) →
         wc_protocol_parse_request p (zlen (frame ++ rest)) (Some request)
           (Some consumed) m2 =
         Ret (WC_PARSE_COMPLETE, Some (WcRequest type 6 (zlen arg) (zlen frame)),
              Some (zlen frame)) m2 ∧
         points_to (ptr_add p 6) arg) ∨
     (r = -1 ∧ m_errno m' = ENOMEM)).
Proof.
  intros Hb Hd Hok Hfit.
  assert (wp true (wc_protocol_encode_request (Some b) type data (zlen arg))
    (λ '(r, p) m', ∃ b', p = Some b' ∧
      ((r = 0 ∧ buffer_repr b' (request_frame type arg)) ∨
       (r = -1 ∧ m_errno m' = ENOMEM))) m) as Hwp.
  { eapply encode_request_spec; [done..| |].
    - intros _ _ b' m' ?????. exists b'. split; [done|]. by left.
    - intros e b' m' He Hinv Hbig _ ? <- ???. exists b'. split; [done|]. right.
      split; [done|]. destruct Hok as [Hty Harg]. rewrite list_elem_of_In in He.
      destruct He as [He|[He|[He|[]]]]; try done; exfalso.
      + symmetry in He. apply Hinv in He. congruence.
      + symmetry in He. apply Hbig in He. simpl in He. lia. }
  apply wp_total_inv in Hwp as ([r p] & m' & Hrun & b' & -> & Hpost).
  exists r, b', m'. split; [done|].
  destruct Hpost as [[-> Hb']|?]; [left|by right]. split; [done|].
  exists (request_frame type arg). split; [done|]. intros p rest request consumed m2 Hp.
  split; [|by eapply points_to_app_l, frame_view].
  rewrite parse_request_eq by done. rewrite spec_parse_request_frame by done.
  by rewrite zlen_request_frame.
Qed.

(** C29: the parser accepts only canonical frames. When it reports a complete
    request, the bytes it consumed are exactly the bytes
    [wc_protocol_encode_request] would produce for that type and argument. *)
Theorem parse_request_canonical p bs request0 consumed0 request consumed m m' :
  points_to p bs →
  wc_protocol_parse_request p (zlen bs) (Some request0) (Some consumed0) m =
    Ret (WC_PARSE_COMPLETE, Some request, Some consumed) m' →
  ∃ arg rest, bs = request_frame (rq_type request) arg ++ rest ∧
    points_to (ptr_add p (rq_argument request)) arg ∧
    rq_argument_length request = zlen arg ∧
    rq_message_length request = consumed ∧ consumed = 6 + zlen arg ∧
    request_ok (rq_type request) arg.
Proof.
  intros Hp. rewrite parse_request_eq by done. intros [= Hr _].
  destruct (spec_parse_request bs) as [[type arg]| |] eqn:Hbs; try done.
  simpl in Hr. injection Hr as <- <-. simpl.
  apply spec_parse_request_inv in Hbs as (Hok & rest & ->).
  exists arg, rest. split_and!; try done. by eapply points_to_app_l, frame_view.
Qed.

(** C30: the incremental parser is stable. Once some bytes are decided
    (complete or invalid), the bytes received later never change the answer. *)
Theorem parse_request_stable p bs p' more request consumed m :
  points_to p bs → points_to p' (bs ++ more) →
  (wc_protocol_parse_request p (zlen bs) (Some request) (Some consumed) m ≠
     Ret (WC_PARSE_NEED_MORE, Some request, Some 0) m) →
  wc_protocol_parse_request p' (zlen (bs ++ more)) (Some request) (Some consumed) m =
  wc_protocol_parse_request p (zlen bs) (Some request) (Some consumed) m.
Proof.
  intros Hp Hp'. rewrite !parse_request_eq by done. intros Hdec.
  rewrite spec_parse_request_app; [done|]. by intros Heq; rewrite Heq in Hdec.
Qed.

(** A full input buffer is always decided. With 65535 bytes available the
    parser never asks for more, so a connection cannot get stuck waiting for
    space in a buffer of that size. *)
Theorem parse_request_progress p bs request consumed m :
  points_to p bs → UINT16_MAX ≤ zlen bs →
  ∃ result request' consumed',
    wc_protocol_parse_request p (zlen bs) (Some request) (Some consumed) m =
      Ret (result, request', consumed') m ∧ result ≠ WC_PARSE_NEED_MORE.
Proof.
  intros Hp Hlen. rewrite parse_request_eq by done.
  destruct (spec_parse_request bs) as [[type arg]| |] eqn:Hbs; simpl; eauto.
  apply spec_parse_request_need_more_short in Hbs. lia.
Qed.

(** C25: the encoder is atomic. Whatever the reason of a failure (an unknown
    type, an argument or message too long, or no memory, even after the
    header was already appended), the output buffer holds the same bytes as
    before; EINVAL is reported exactly for an unknown type. *)
Theorem encode_request_atomic b bs type arg data m :
  buffer_repr b bs → points_to data arg →
  ∃ r b' m', wc_protocol_encode_request (Some b) type data (zlen arg) m
               = Ret (r, Some b') m' ∧
    m_live m' - buf_owned b' = m_live m - buf_owned b ∧
    ((r = 0 ∧ request_ok type arg ∧ buffer_repr b' (bs ++ request_frame type arg)) ∨
     (r = -1 ∧ buffer_repr b' bs ∧
      m_errno m' ∈ [EINVAL; EMSGSIZE; ENOMEM] ∧
      (m_errno m' = EINVAL ↔ wc_protocol_request_type_valid type = false))).
Proof.
  intros Hb Hd.
  assert (wp true (wc_protocol_encode_request (Some b) type data (zlen arg))
    (λ '(r, p) m', ∃ b', p = Some b' ∧
      m_live m' - buf_owned b' = m_live m - buf_owned b ∧
      ((r = 0 ∧ request_ok type arg ∧ buffer_repr b' (bs ++ request_frame type arg)) ∨
       (r = -1 ∧ buffer_repr b' bs ∧ m_errno m' ∈ [EINVAL; EMSGSIZE; ENOMEM] ∧
        (m_errno m' = EINVAL ↔ wc_protocol_request_type_valid type = false)))) m) as Hwp.
  { eapply encode_request_spec; [done..| |].
    - intros ?? b' m' ?????. exists b'. split_and!; [done..|]. by left.
    - intros e b' m' ????? <- ???. exists b'. split_and!; [done..|]. by right. }
  apply wp_total_inv in Hwp as ([r p] & m' & Hrun & b' & -> & Hpost). by exists r, b', m'.
Qed.

(** C24: response round trip. Response data of at most 65535 bytes that fits
    the buffer is encoded, unless memory runs out, and the client's parser
    returns a view of exactly that data, whatever bytes follow. *)
Theorem response_roundtrip b body data m :
  buffer_repr b [] → points_to data body → zlen body ≤ UINT16_MAX →
  2 + zlen body ≤ buf_max_size b →
  ∃ r b' m', wc_protocol_encode_response (Some b) data (zlen body) m
               = Ret (r, Some b') m' ∧
    ((r = 0 ∧ ∃ frame, buffer_repr b' frame ∧
       ∀ p rest response consumed m2, points_to p (frame ++ rest) →
         wc_protocol_parse_response p (zlen (frame ++ rest)) (Some response)
           (Some consumed) m2 =
         Ret (WC_PARSE_COMPLETE, Some (WcResponse 2 (zlen body) (zlen frame)),
              Some (zlen frame)) m2 ∧
         points_to (ptr_add p 2) body) ∨
     (r = -1 ∧ m_errno m' = ENOMEM)).
Proof.
  intros Hb Hd Hlen Hfit.
  assert (wp true (wc_protocol_encode_response (Some b) data (zlen body))
    (λ '(r, p) m', ∃ b', p = Some b' ∧
      ((r = 0 ∧ buffer_repr b' (response_frame body)) ∨
       (r = -1 ∧ m_errno m' = ENOMEM))) m) as Hwp.
  { eapply encode_response_spec; [done..| |].
    - intros _ _ b' m' ?????. exists b'. split; [done|]. by left.
    - intros e b' m' He Hbig ? <- ???. exists b'. split; [done|]. right.
      split; [done|]. rewrite list_elem_of_In in He.
      destruct He as [He|[He|[]]]; [|done]. symmetry in He.
      apply Hbig in He. simpl in He. lia. }
  apply wp_total_inv in Hwp as ([r p] & m' & Hrun & b' & -> & Hpost).
  exists r, b', m'. split; [done|].
  destruct Hpost as [[-> Hb']|?]; [left|by right]. split; [done|].
  exists (response_frame body). split; [done|]. intros p rest response consumed m2 Hp.
  rewrite parse_response_eq, spec_parse_response_frame, zlen_response_frame by done.
  split; [done|]. apply (points_to_app_l _ _ rest). unfold response_frame in Hp.
  rewrite <-app_assoc in Hp. by apply (points_to_app_r _ (u16_bytes _)) in Hp.
Qed.

(** Chunking does not matter. A reader that appends each received chunk to
    the undecoded rest and decodes the complete requests after every read
    obtains the same requests, in the same order, and the same rest as one
    that decodes the whole stream at once, however the stream is cut. *)
Theorem feed_chunking_irrelevant chunks :
  feed [] chunks = spec_frames (concat chunks).
Proof. by apply feed_concat. Qed.

(** C40: [consumed] is not zeroed on every invalid call. A NULL [data] with a
    nonzero size is reported as INVALID with the caller's [consumed] left
    untouched. *)
Theorem parse_request_null_keeps_consumed data_size request consumed m :
  data_size ≠ 0 →
  wc_protocol_parse_request None data_size (Some request) (Some consumed) m =
    Ret (WC_PARSE_INVALID, Some request, Some consumed) m.
Proof.
  intros Hne. unfold wc_protocol_parse_request. cbn [is_null orb andb].
  by rewrite (proj2 (Z.eqb_neq _ _) Hne).
Qed.

End properties.

(** ** Concrete runs *)

Definition sample_request : wc_request := WcRequest 0 0 0 0.

Lemma wc_protocol_parse_request_refines_witness :
  wc_protocol_parse_request (Some (bytes_block (request_frame 3 (lit "/a")))) 8
    (Some sample_request) (Some 77) (boot empty_script) =
  Ret (WC_PARSE_COMPLETE, Some (WcRequest 3 6 2 8), Some 8) (boot empty_script).
Proof.
  exact (wc_protocol_parse_request_refines (Some (bytes_block (request_frame 3 (lit "/a"))))
    (request_frame 3 (lit "/a")) sample_request 77 (boot empty_script) (points_to_bytes _)).
Defined.

Lemma request_roundtrip_witness :
  ∃ r b' m', wc_protocol_encode_request (Some (WcBuffer None 0 0 64)) WC_REQUEST_CAT
      (Some (bytes_block (lit "/a"))) 2 (boot empty_script) = Ret (r, Some b') m'.
Proof.
  destruct (request_roundtrip (WcBuffer None 0 0 64) WC_REQUEST_CAT (lit "/a")
    (Some (bytes_block (lit "/a"))) (boot empty_script))
    as (r & b' & m' & Hrun & _).
  - apply buffer_repr_empty. unfold is_size, SIZE_MAX. lia.
  - apply points_to_bytes.
  - split; [reflexivity | simpl; lia].
  - simpl. lia.
  - exists r, b', m'. exact Hrun.
Defined.

Lemma parse_request_canonical_witness :
  ∃ arg rest, request_frame 2 [] ++ lit "x" = request_frame 2 arg ++ rest ∧
    zlen arg = 0.
Proof.
  destruct (parse_request_canonical (Some (bytes_block (request_frame 2 [] ++ lit "x")))
    (request_frame 2 [] ++ lit "x") sample_request 0 (WcRequest 2 6 0 6) 6
    (boot empty_script) (boot empty_script)) as (arg & rest & Hbs & _ & Hl & _).
  - apply points_to_bytes.
  - reflexivity.
  - exists arg, rest. simpl in Hl. by split.
Defined.

Lemma parse_request_stable_witness :
  wc_protocol_parse_request (Some (bytes_block (request_frame 2 [] ++ lit "xyz"))) 9
    (Some sample_request) (Some 0) (boot empty_script) =
  wc_protocol_parse_request (Some (bytes_block (request_frame 2 []))) 6
    (Some sample_request) (Some 0) (boot empty_script).
Proof.
  apply (parse_request_stable (Some (bytes_block (request_frame 2 [])))
    (request_frame 2 []) (Some (bytes_block (request_frame 2 [] ++ lit "xyz"))) (lit "xyz")).
  - apply points_to_bytes.
  - apply points_to_bytes.
  - discriminate.
Defined.

(** A full buffer of zero bytes: the type field is invalid. *)
Lemma parse_request_progress_witness :
  ∃ result request' consumed',
    wc_protocol_parse_request (Some (bytes_block (replicate (Z.to_nat 65535) Byte.x00)))
      65535 (Some sample_request) (Some 0) (boot empty_script) =
      Ret (result, request', consumed') (boot empty_script) ∧
    result ≠ WC_PARSE_NEED_MORE.
Proof.
  pose proof (parse_request_progress
    (Some (bytes_block (replicate (Z.to_nat 65535) Byte.x00)))
    (replicate (Z.to_nat 65535) Byte.x00) sample_request 0 (boot empty_script)
    (points_to_bytes _)) as H.
  rewrite length_replicate, Z2Nat.id in H by lia. apply H. unfold UINT16_MAX. lia.
Defined.

Lemma encode_request_atomic_witness :
  ∃ r b' m', wc_protocol_encode_request (Some sample_buffer) 9 None 0
      (boot empty_script) = Ret (r, Some b') m'.
Proof.
  destruct (encode_request_atomic sample_buffer (lit "ab") 9 [] None (boot empty_script)
    sample_buffer_repr eq_refl) as (r & b' & m' & Hrun & _).
  exists r, b', m'. exact Hrun.
Defined.

Lemma response_roundtrip_witness :
  ∃ r b' m', wc_protocol_encode_response (Some (WcBuffer None 0 0 64))
      (Some (bytes_block (lit "hi"))) 2 (boot empty_script) = Ret (r, Some b') m'.
Proof.
  destruct (response_roundtrip (WcBuffer None 0 0 64) (lit "hi")
    (Some (bytes_block (lit "hi"))) (boot empty_script)) as (r & b' & m' & Hrun & _).
  - apply buffer_repr_empty. unfold is_size, SIZE_MAX. lia.
  - apply points_to_bytes.
  - unfold UINT16_MAX. simpl. lia.
  - simpl. lia.
  - exists r, b', m'. exact Hrun.
Defined.

Lemma parse_request_null_keeps_consumed_witness :
  wc_protocol_parse_request None 4 (Some sample_request) (Some 77) (boot empty_script) =
    Ret (WC_PARSE_INVALID, Some sample_request, Some 77) (boot empty_script).
Proof. apply parse_request_null_keeps_consumed. lia. Defined.
