(* ===== verification/Queue.v ===== *)
(** * The request queue (src/src/queue.c, src/include/wirecommand/queue.h)

    A singly linked list of heap nodes with head and tail pointers, modelled
    with its pointers: nodes live in [m_heap], and every access to a node
    that is not allocated is undefined behaviour. [queue_repr] relates the
    heap and the queue to the abstract FIFO, a list of [qreq]. *)

From S2P Require Import Prelude Machine Script Protocol.

Record wc_request_queue := WcRequestQueue {
  q_head : option loc;
  q_tail : option loc;
  q_length : Z;
}.

(** sizeof(struct wc_queued_request) *)
Definition SIZEOF_QUEUED_REQUEST : Z := 24.

Definition wc_request_type_valid (type : Z) : bool :=
  (type =? WC_REQUEST_LS) || (type =? WC_REQUEST_PWD) || (type =? WC_REQUEST_CAT).

Definition set_next (n : wc_queued_request) (next : option loc) : wc_queued_request :=
  WcQueuedRequest (qr_client_fd n) (qr_type n) (qr_argument_length n) next
    (qr_argument n).

(** ** Heap nodes *)

Section nodes.
Context {W : Type} {OS : Posix W}.

(** [malloc] of a node: a fresh location whose bytes after the fixed part are
    the flexible array member. *)
Definition malloc_node (size : Z) : M W (option loc) :=
  ok ← os_call (os_malloc size);
  if (ok : bool) then
    l ← gets m_next_loc;
    modify (λ m, set_next_loc (Pos.succ l)
      (set_live (m_live m + 1)
        (set_heap (<[l := WcQueuedRequest 0 0 0 None
            (replicate (Z.to_nat (size - SIZEOF_QUEUED_REQUEST)) None)]>
          (m_heap m)) m))) ;;
    mret (Some l)
  else put_errno ENOMEM ;; mret None.

Definition load_node (l : loc) : M W wc_queued_request :=
  h ← gets m_heap; from_option_ub (h !! l).

Definition store_node (l : loc) (n : wc_queued_request) : M W () :=
  _ ← load_node l;
  modify (λ m, set_heap (<[l := n]> (m_heap m)) m).

Definition free_node (p : option loc) : M W () :=
  match p with
  | None => mret ()
  | Some l =>
    _ ← load_node l;
    modify (λ m, set_live (m_live m - 1) (set_heap (delete l (m_heap m)) m))
  end.

(** ** Operations *)

Definition wc_request_queue_init (queue : option wc_request_queue)
    : M W (Z * option wc_request_queue) :=
  match queue with
  | None => put_errno EINVAL ;; mret (-1, None)
  | Some _ => mret (0, Some (WcRequestQueue None None 0))
  end.

Definition wc_request_queue_enqueue (queue : option wc_request_queue)
    (client_fd type : Z) (argument : pointer) (argument_length : Z)
    : M W (Z * option wc_request_queue) :=
  if is_null queue || (client_fd <? 0) || negb (wc_request_type_valid type)
     || (is_null argument && negb (argument_length =? 0)) then
    put_errno EINVAL ;; mret (-1, queue)
  else if argument_length >? SIZE_MAX - SIZEOF_QUEUED_REQUEST then
    put_errno EOVERFLOW ;; mret (-1, queue)
  else
    queue ← from_option_ub queue;
    let allocation_size := SIZEOF_QUEUED_REQUEST +ₛ argument_length in
    request ← malloc_node allocation_size;
    match request with
    | None => mret (-1, Some queue)
    | Some request =>
      n ← load_node request;
      store_node request (WcQueuedRequest client_fd type argument_length None
                            (qr_argument n)) ;;
      (if argument_length >? 0 then
         n ← load_node request;
         src ← read_bytes argument argument_length;
         p ← write_bytes (Some (qr_argument n)) 0 src;
         a ← from_option_ub p;
         store_node request (WcQueuedRequest (qr_client_fd n) (qr_type n)
                               (qr_argument_length n) (qr_next n) a)
       else mret ()) ;;
      head ← match q_tail queue with
             | None => mret (Some request)
             | Some tail =>
               n ← load_node tail;
               store_node tail (set_next n (Some request)) ;;
               mret (q_head queue)
             end;
      mret (0, Some (WcRequestQueue head (Some request) (q_length queue +ₛ 1)))
    end.

(** [request]: [None] is a NULL out parameter, otherwise its pointee. *)
Definition wc_request_queue_dequeue (queue : option wc_request_queue)
    (request : option (option loc))
    : M W (Z * option wc_request_queue * option (option loc)) :=
  match queue, request with
  | Some queue, Some _ =>
    match q_head queue with
    | None => put_errno ENOENT ;; mret (-1, Some queue, Some None)
    | Some l =>
      n ← load_node l;
      let head := qr_next n in
      store_node l (set_next n None) ;;
      let length := q_length queue -ₛ 1 in
      let tail := match head with None => None | Some _ => q_tail queue end in
      mret (0, Some (WcRequestQueue head tail length), Some (Some l))
    end
  | _, _ => put_errno EINVAL ;; mret (-1, queue, request)
  end.

Definition wc_request_queue_peek (queue : option wc_request_queue) : option loc :=
  match queue with
  | None => None
  | Some queue => q_head queue
  end.

(** Local state of the discard loop: current, previous, queue, removed. *)
Definition wc_request_queue_discard_client (queue : option wc_request_queue)
    (client_fd : Z) : M W (Z * option wc_request_queue) :=
  match queue with
  | None => mret (0, None)
  | Some queue =>
    iter (S (Z.to_nat (q_length queue)))
      (λ '(current, previous, queue, removed),
        match current with
        | None => mret (Break (removed, Some queue))
        | Some c =>
          n ← load_node c;
          if qr_client_fd n =? client_fd then
            let next := qr_next n in
            head ← match previous with
                   | None => mret next
                   | Some p =>
                     pn ← load_node p;
                     store_node p (set_next pn next) ;;
                     mret (q_head queue)
                   end;
            let tail :=
              if decide (q_tail queue = Some c) then previous else q_tail queue in
            free_node (Some c) ;;
            mret (Continue (next, previous,
                    WcRequestQueue head tail (q_length queue -ₛ 1), removed +ₛ 1))
          else mret (Continue (qr_next n, Some c, queue, removed))
        end)
      (q_head queue, None, queue, 0)
  end.

Definition wc_request_queue_clear (queue : option wc_request_queue)
    : M W (option wc_request_queue) :=
  match queue with
  | None => mret None
  | Some queue =>
    iter (S (Z.to_nat (q_length queue)))
      (λ current,
        match current with
        | None => mret (Break ())
        | Some c =>
          n ← load_node c;
          let next := qr_next n in
          free_node (Some c) ;;
          mret (Continue next)
        end) (q_head queue) ;;
    mret (Some (WcRequestQueue None None 0))
  end.

Definition wc_queued_request_destroy (request : option loc) : M W () :=
  free_node request.

End nodes.

Arguments wc_request_queue_init : simpl never.
Arguments wc_request_queue_enqueue : simpl never.
Arguments wc_request_queue_dequeue : simpl never.
Arguments wc_request_queue_discard_client : simpl never.
Arguments wc_request_queue_clear : simpl never.
Arguments wc_queued_request_destroy : simpl never.
Arguments malloc_node : simpl never.
Arguments load_node : simpl never.
Arguments store_node : simpl never.
Arguments free_node : simpl never.

(** ** The abstract queue and its representation *)

(** A pending request: the client that sent it, its type and its argument. *)
Record qreq := QReq { qq_fd : Z; qq_type : Z; qq_arg : list byte }.

Definition node_repr (n : wc_queued_request) (r : qreq) : Prop :=
  qr_client_fd n = qq_fd r ∧ qr_type n = qq_type r ∧
  qr_argument_length n = zlen (qq_arg r) ∧ qr_argument n = bytes_block (qq_arg r).

(** [seg h p ls rs q]: from [p], the nodes at [ls] hold [rs] and the last one
    links to [q]. *)
Fixpoint seg (h : gmap loc wc_queued_request) (p : option loc) (ls : list loc)
    (rs : list qreq) (q : option loc) : Prop :=
  match ls, rs with
  | [], [] => p = q
  | l :: ls, r :: rs =>
    p = Some l ∧ ∃ n, h !! l = Some n ∧ node_repr n r ∧ seg h (qr_next n) ls rs q
  | _, _ => False
  end.

Record queue_shape (h : gmap loc wc_queued_request) (next : loc)
    (q : wc_request_queue) (ls : list loc) (rs : list qreq) : Prop := {
  qs_seg : seg h (q_head q) ls rs None;
  qs_nodup : NoDup ls;
  qs_tail : q_tail q = last ls;
  qs_length : q_length q = zlen rs;
  qs_dom : dom h = list_to_set ls;
  qs_fresh : ∀ l, l ∈ ls → (l < next)%positive;
}.

(** The queue holds [rs] and its nodes are the whole node heap. *)
Definition queue_repr (h : gmap loc wc_queued_request) (next : loc)
    (q : wc_request_queue) (rs : list qreq) : Prop :=
  ∃ ls, queue_shape h next q ls rs.

(** Requests that do not belong to a client. *)
Definition other_client (fd : Z) (r : qreq) : Prop := qq_fd r ≠ fd.
#[global] Instance other_client_dec fd r : Decision (other_client fd r).
Proof. unfold other_client. apply _. Defined.

(** ** List segments *)

Section segments.
Implicit Types (h : gmap loc wc_queued_request) (p q : option loc).

Lemma seg_length h p ls rs q : seg h p ls rs q → length ls = length rs.
Proof.
  revert p rs. induction ls as [|l ls IH]; intros p [|r rs]; simpl; try done.
  intros (_ & n & _ & _ & Hs). by rewrite (IH _ _ Hs).
Qed.

Lemma seg_insert h p ls rs q l n :
  seg h p ls rs q → l ∉ ls → seg (<[l:=n]> h) p ls rs q.
Proof.
  revert p rs. induction ls as [|l' ls IH]; intros p [|r rs]; simpl; try done.
  intros (-> & n' & Hl & Hn & Hs). rewrite not_elem_of_cons. intros [Hne Hni].
  split; [done|]. exists n'. rewrite lookup_insert_ne by done. auto.
Qed.

Lemma seg_delete h p ls rs q l :
  seg h p ls rs q → l ∉ ls → seg (delete l h) p ls rs q.
Proof.
  revert p rs. induction ls as [|l' ls IH]; intros p [|r rs]; simpl; try done.
  intros (-> & n' & Hl & Hn & Hs). rewrite not_elem_of_cons. intros [Hne Hni].
  split; [done|]. exists n'. rewrite lookup_delete_ne by done. auto.
Qed.

Lemma seg_app h p ls1 rs1 x ls2 rs2 q :
  seg h p ls1 rs1 x → seg h x ls2 rs2 q → seg h p (ls1 ++ ls2) (rs1 ++ rs2) q.
Proof.
  revert p rs1. induction ls1 as [|l ls1 IH]; intros p [|r rs1]; simpl; try done.
  { by intros ->. }
  intros (-> & n & Hl & Hn & Hs) H2. split; [done|]. exists n. eauto.
Qed.

Lemma seg_snoc h p ls rs l n r q :
  seg h p ls rs (Some l) → h !! l = Some n → node_repr n r → qr_next n = q →
  seg h p (ls ++ [l]) (rs ++ [r]) q.
Proof.
  intros Hs Hl Hn Hq. eapply seg_app; [done|]. simpl. split; [done|]. by exists n.
Qed.

(** Redirect the last link. *)
Lemma seg_relink h p ls l rs q q' :
  seg h p (ls ++ [l]) rs q → NoDup (ls ++ [l]) →
  ∃ n, h !! l = Some n ∧ qr_next n = q ∧
    seg (<[l:=set_next n q']> h) p (ls ++ [l]) rs q'.
Proof.
  revert p rs. induction ls as [|l' ls IH]; intros p [|r rs]; simpl; try done.
  - intros (-> & n & Hl & Hn & Hs) _. destruct rs; [|done].
    exists n. split_and!; try done. exists (set_next n q'). by rewrite lookup_insert_eq.
  - intros (-> & n & Hl & Hn & Hs) [Hni Hnd]%NoDup_cons.
    destruct (IH _ _ Hs Hnd) as (n' & Hl' & Hq & Hs'). exists n'. split_and!; try done.
    exists n. rewrite lookup_insert_ne; [done|]. intros ->. set_solver.
Qed.

(** The nodes of a segment are allocated. *)
Lemma seg_lookup h p ls rs q l : seg h p ls rs q → l ∈ ls → is_Some (h !! l).
Proof.
  revert p rs. induction ls as [|l' ls IH]; intros p [|r rs]; simpl; try done.
  { intros _ H. by apply not_elem_of_nil in H. }
  intros (-> & n & Hl & Hn & Hs) [->|Hin]%elem_of_cons; [by eexists | eauto].
Qed.

End segments.

(** ** Frames of the queue operations *)

(** Nothing but the nodes, [errno], the block count and the outside changed. *)
Record heap_only {W} {OS : Posix W} (m m' : machine W) : Prop := {
  ho_open : m_open m' = m_open m;
  ho_trace : m_trace m' = m_trace m;
  ho_stderr : m_stderr m' = m_stderr m;
  ho_level : m_log_level m' = m_log_level m;
  ho_os : os_mallocs (m_os m) (m_os m');
}.

#[global] Instance heap_only_preorder {W} {OS : Posix W} : PreOrder heap_only.
Proof.
  split; [intros m; by constructor|].
  intros m1 m2 m3 [] []. constructor; try congruence. by etrans.
Qed.

Lemma silent_heap_only {W} {OS : Posix W} (m m' : machine W) :
  silent m m' → heap_only m m'.
Proof. intros []. by constructor. Qed.

Lemma heap_only_mono {W} {OS : Posix W} (m m' : machine W) :
  heap_only m m' → os_mono (m_os m) (m_os m').
Proof. intros [] bud Hb. by apply os_mallocs_budget. Qed.

Ltac heap_only_tac :=
  solve [ constructor; simpl in *;
          repeat match goal with
          | H : silent _ _ |- _ => destruct H
          | H : heap_only _ _ |- _ => destruct H
          end; simpl in *; first [congruence | os_tac] ].

Section node_rules.
Context {W : Type} {OS : Posix W}.
Implicit Types (m : machine W) (t : bool).

Lemma wp_load_node t l n Q m :
  m_heap m !! l = Some n → Q n m → wp t (load_node l) Q m.
Proof. intros Hl HQ. unfold load_node. by wp_go. Qed.

Lemma wp_store_node t l n Q m :
  is_Some (m_heap m !! l) → Q () (set_heap (<[l:=n]> (m_heap m)) m) →
  wp t (store_node l n) Q m.
Proof.
  intros [n' Hl] HQ. unfold store_node. wp_go. eapply wp_load_node; [done|]. by wp_go.
Qed.

Lemma wp_free_node t l Q m :
  is_Some (m_heap m !! l) →
  Q () (set_live (m_live m - 1) (set_heap (delete l (m_heap m)) m)) →
  wp t (free_node (Some l)) Q m.
Proof.
  intros [n' Hl] HQ. unfold free_node. wp_go. eapply wp_load_node; [done|]. by wp_go.
Qed.

Lemma wp_malloc_node t size (Q : option loc → machine W → Prop) m :
  (∀ w, os_mallocs (m_os m) w → Q (Some (m_next_loc m))
     (set_next_loc (Pos.succ (m_next_loc m)) (set_live (m_live m + 1)
       (set_heap (<[m_next_loc m := WcQueuedRequest 0 0 0 None
          (replicate (Z.to_nat (size - SIZEOF_QUEUED_REQUEST)) None)]> (m_heap m))
         (set_os w m))))) →
  (∀ m', silent m m' → m_live m' = m_live m → m_errno m' = ENOMEM → Q None m') →
  wp t (malloc_node size) Q m.
Proof.
  intros Hok Hfail. unfold malloc_node. apply wp_bind, wp_os_call.
  intros [] w Hw; wp_go; [apply Hok; os_tac | apply Hfail]; first [done | silent_tac].
Qed.

End node_rules.

Section specs.
Context {W : Type} {OS : Posix W}.
Implicit Types (m : machine W) (t : bool).

Abbreviation machine_queue m q rs := (queue_repr (m_heap m) (m_next_loc m) q rs).

Lemma queue_empty_repr next : queue_repr ∅ next (WcRequestQueue None None 0) [].
Proof.
  exists []. constructor; simpl; try done; try apply NoDup_nil_2.
  intros l Hl. by apply not_elem_of_nil in Hl.
Qed.

Lemma queue_shape_fresh h next q ls rs :
  queue_shape h next q ls rs → next ∉ ls.
Proof. intros Hq Hin. apply (qs_fresh _ _ _ _ _ Hq) in Hin. lia. Qed.

(** Link an allocated node at the tail. *)
Lemma queue_shape_snoc h next q ls rs n r :
  queue_shape h next q ls rs → node_repr n r → qr_next n = None →
  zlen rs < SIZE_MAX →
  match q_tail q with
  | None =>
    queue_shape (<[next:=n]> h) (Pos.succ next)
      (WcRequestQueue (Some next) (Some next) (q_length q +ₛ 1))
      (ls ++ [next]) (rs ++ [r])
  | Some tail => ∃ tn, h !! tail = Some tn ∧ tail ≠ next ∧
    queue_shape (<[tail:=set_next tn (Some next)]> (<[next:=n]> h)) (Pos.succ next)
      (WcRequestQueue (q_head q) (Some next) (q_length q +ₛ 1))
      (ls ++ [next]) (rs ++ [r])
  end.
Proof.
  intros Hq Hn Hnn Hlen. pose proof (queue_shape_fresh _ _ _ _ _ Hq) as Hni.
  destruct Hq as [Hseg Hnd Htail Hl Hdom Hfr].
  assert (NoDup (ls ++ [next])) as Hnd'.
  { apply NoDup_app. split_and!; [done| |apply NoDup_singleton].
    intros x Hx Hx'. apply list_elem_of_singleton in Hx'. by subst. }
  assert (∀ l, l ∈ ls ++ [next] → (l < Pos.succ next)%positive) as Hfr'.
  { intros l [Hin|Hin]%elem_of_app; [apply Hfr in Hin; lia|].
    apply list_elem_of_singleton in Hin. lia. }
  assert (q_length q +ₛ 1 = zlen (rs ++ [r])) as Hl'.
  { rewrite Hl, size_add_small, zlen_app; [done|]. lia. }
  destruct (q_tail q) as [tail|] eqn:Ht.
  - symmetry in Htail. apply last_Some in Htail as [ls' ->].
    destruct (seg_relink _ _ _ _ _ _ (Some next) Hseg Hnd) as (tn & Htn & _ & Hs').
    assert (tail ≠ next) as Hne by (intros ->; apply Hni, elem_of_app; right; by left).
    exists tn. split_and!; try done. constructor; simpl; try done.
    + eapply seg_snoc; [| by rewrite lookup_insert_ne, lookup_insert_eq | done..].
      rewrite insert_insert_ne by done. by apply seg_insert.
    + by rewrite last_snoc.
    + rewrite !dom_insert_L, Hdom, !list_to_set_app_L. simpl. set_solver.
  - symmetry in Htail. apply last_None in Htail as ->.
    destruct rs as [|? rs]; [|by destruct Hseg].
    constructor; simpl; try done.
    + split; [done|]. exists n. by rewrite lookup_insert_eq.
    + rewrite dom_insert_L, Hdom. simpl. set_solver.
Qed.

(** The argument copy of [wc_request_queue_enqueue]. *)
Lemma copy_argument_spec t l n data arg Q m :
  m_heap m !! l = Some n → points_to data arg →
  qr_argument n = replicate (length arg) None →
  Q () (set_heap (<[l := WcQueuedRequest (qr_client_fd n) (qr_type n)
          (qr_argument_length n) (qr_next n) (bytes_block arg)]> (m_heap m)) m) →
  wp t (if zlen arg >? 0 then
          n ← load_node l;
          src ← read_bytes data (zlen arg);
          p ← write_bytes (Some (qr_argument n)) 0 src;
          a ← from_option_ub p;
          store_node l (WcQueuedRequest (qr_client_fd n) (qr_type n)
                          (qr_argument_length n) (qr_next n) a)
        else mret ()) Q m.
Proof.
  intros Hl Hd Hn HQ. case_if as Hpos.
  - wp_go. eapply wp_load_node; [done|]. wp_go.
    eapply wp_read_points_to; [done | lia |]. wp_go. eapply wp_write_bytes; [done..| |].
    { rewrite Hn. apply (block_write_at [] arg); [done | by rewrite length_replicate]. }
    wp_go. apply wp_store_node; [by eexists|].
    rewrite drop_ge, app_nil_r by (by rewrite length_replicate). exact HQ.
  - wp_go. destruct arg; [|simpl in Hpos; lia]. simpl in Hn. revert HQ.
    change (bytes_block []) with ([] : block). rewrite <-Hn.
    replace (WcQueuedRequest (qr_client_fd n) _ _ _ _) with n by (by destruct n).
    rewrite insert_id by done. by destruct m.
Qed.

Lemma enqueue_spec t q rs fd type data arg Q m :
  machine_queue m q rs → points_to data arg → 0 ≤ fd →
  wc_request_type_valid type = true → zlen rs < SIZE_MAX →
  zlen arg ≤ SIZE_MAX - SIZEOF_QUEUED_REQUEST →
  (∀ q' m', heap_only m m' → m_errno m' = m_errno m → m_live m' = m_live m + 1 →
     machine_queue m' q' (rs ++ [QReq fd type arg]) → Q (0, Some q') m') →
  (∀ m', silent m m' → m_live m' = m_live m → m_errno m' = ENOMEM →
     Q (-1, Some q) m') →
  wp t (wc_request_queue_enqueue (Some q) fd type data (zlen arg)) Q m.
Proof.
  intros [ls Hq] Hd Hfd Hty Hlen Harg Hok Hfail.
  unfold wc_request_queue_enqueue, SIZEOF_QUEUED_REQUEST in *.
  rewrite (points_to_null_test data arg), Hty, (proj2 (Z.ltb_ge fd 0)) by done.
  cbn [is_null orb negb]. case_if as Hbig; [lia|]. wp_go.
  rewrite size_add_small by (unfold SIZE_MAX in *; lia).
  apply wp_malloc_node; cycle 1.
  { intros m' Hs Hl He. wp_go. by apply Hfail. }
  intros w Hw. replace (24 + zlen arg - SIZEOF_QUEUED_REQUEST) with (zlen arg)
    by (unfold SIZEOF_QUEUED_REQUEST; lia). rewrite Nat2Z.id.
  wp_go. eapply wp_load_node; [apply lookup_insert_eq|]. wp_go.
  eapply wp_store_node; [simpl; rewrite lookup_insert_eq; by eexists|]. wp_go.
  eapply copy_argument_spec; [apply lookup_insert_eq | done..|]. simpl.
  rewrite !insert_insert_eq.
  set (n := WcQueuedRequest fd type (zlen arg) None (bytes_block arg)).
  pose proof (queue_shape_snoc _ _ _ _ _ n (QReq fd type arg) Hq) as Hsnoc.
  destruct (q_tail q) as [tail|] eqn:Ht.
  - destruct Hsnoc as (tn & Htn & Hne & Hq'); try done.
    wp_go. eapply wp_load_node; [simpl; rewrite lookup_insert_ne by done; exact Htn|].
    wp_go. apply wp_store_node; [simpl; rewrite lookup_insert_ne by done; by eexists|].
    wp_go. apply Hok; side; try heap_only_tac. by exists (ls ++ [m_next_loc m]).
  - wp_go. apply Hok; side; try heap_only_tac.
    exists (ls ++ [m_next_loc m]). by apply Hsnoc.
Qed.

(** A dequeued node is detached from the queue and still allocated. *)
Lemma dequeue_spec t q rs out Q m :
  machine_queue m q rs → zlen rs ≤ SIZE_MAX →
  (rs = [] → Q (-1, Some q, Some None) (set_errno ENOENT m)) →
  (∀ r rs' l n q' h', rs = r :: rs' → node_repr n r → qr_next n = None →
     h' !! l = None → queue_repr h' (m_next_loc m) q' rs' →
     Q (0, Some q', Some (Some l)) (set_heap (<[l:=n]> h') m)) →
  wp t (wc_request_queue_dequeue (Some q) (Some out)) Q m.
Proof.
  intros [ls [Hseg Hnd Htail Hl Hdom Hfr]] Hlen Hnil Hcons.
  unfold wc_request_queue_dequeue.
  destruct ls as [|l ls], rs as [|r rs]; simpl in Hseg; try done.
  { rewrite Hseg. wp_go. by apply Hnil. }
  destruct Hseg as (-> & n & Hn & Hr & Hseg). apply NoDup_cons in Hnd as [Hni Hnd].
  wp_go. eapply wp_load_node; [done|]. wp_go. apply wp_store_node; [by eexists|].
  wp_go. rewrite <-(insert_delete_eq (m_heap m)).
  eapply (Hcons r rs l (set_next n None)); try done.
  { apply lookup_delete_eq. }
  exists ls. constructor; simpl; try done.
  - by apply seg_delete.
  - rewrite Htail. destruct ls as [|l' ls], rs; simpl in Hseg; try done.
    + by rewrite Hseg.
    + by destruct Hseg as (-> & _).
  - rewrite Hl, size_sub_small; simpl in *; lia.
  - rewrite dom_delete_L, Hdom. simpl. set_solver.
  - intros l' Hl'. apply Hfr. by right.
Qed.

(** *** Discarding a client's requests *)

(** The loop invariant: [kls] are the nodes kept so far, [rls] the nodes not
    yet visited. *)
Record discard_inv (fd : Z) (rs : list qreq) m (n : nat)
    (s : option loc * option loc * wc_request_queue * Z) (m' : machine W)
    (kls : list loc) (krs : list qreq) (rls : list loc) (rrs : list qreq) : Prop := {
  di_kept : seg (m_heap m') (q_head s.1.2) kls krs s.1.1.1;
  di_rest : seg (m_heap m') s.1.1.1 rls rrs None;
  di_nodup : NoDup (kls ++ rls);
  di_previous : s.1.1.2 = last kls;
  di_tail : q_tail s.1.2 = last (kls ++ rls);
  di_length : q_length s.1.2 = zlen krs + zlen rrs;
  di_dom : dom (m_heap m') = list_to_set (kls ++ rls);
  di_fresh : ∀ l, l ∈ kls ++ rls → (l < m_next_loc m)%positive;
  di_filter : filter (other_client fd) rs = krs ++ (filter (other_client fd) rrs);
  di_removed : s.2 = zlen rs - zlen krs - zlen rrs;
  di_count : zlen krs + zlen rrs ≤ zlen rs;
  di_left : n = length rrs;
  di_frame : heap_only m m';
  di_errno : m_errno m' = m_errno m;
  di_next : m_next_loc m' = m_next_loc m;
  di_live : m_live m' = m_live m - s.2;
}.

(** Keep the current node. *)
Lemma discard_keep fd rs m k c prev q removed m' kls krs l rls r rrs n :
  discard_inv fd rs m (S k) (c, prev, q, removed) m' kls krs (l :: rls) (r :: rrs) →
  m_heap m' !! l = Some n → qq_fd r ≠ fd →
  discard_inv fd rs m k (qr_next n, Some l, q, removed) m'
    (kls ++ [l]) (krs ++ [r]) rls rrs.
Proof.
  intros [Hk Hr Hnd Hp Ht Hl Hdom Hfr Hfl Hrem Hcnt Hleft Hfrm He Hnx Hlv] Hn Hne.
  simpl in *. destruct Hr as (-> & n' & Hn' & Hnr & Hrest).
  rewrite Hn in Hn'. injection Hn' as <-.
  assert (kls ++ l :: rls = (kls ++ [l]) ++ rls) as Hassoc by (by rewrite <-app_assoc).
  rewrite Hassoc in *. constructor; simpl; try done.
  - by eapply seg_snoc.
  - by rewrite last_snoc.
  - rewrite zlen_app. simpl. lia.
  - by rewrite Hfl, filter_cons_True, <-app_assoc.
  - rewrite zlen_app. simpl in *. lia.
  - rewrite zlen_app. simpl in *. lia.
  - by injection Hleft.
Qed.

(** Unlink and free the current node. [prev_heap] is the heap after the
    predecessor, if any, was redirected. *)
Lemma discard_drop fd rs m k c prev q removed m' kls krs l rls r rrs n head h' :
  discard_inv fd rs m (S k) (c, prev, q, removed) m' kls krs (l :: rls) (r :: rrs) →
  m_heap m' !! l = Some n → qq_fd r = fd → zlen rs ≤ SIZE_MAX →
  seg h' head kls krs (qr_next n) → seg h' (qr_next n) rls rrs None →
  dom h' = dom (m_heap m') →
  discard_inv fd rs m k
    (qr_next n, prev,
     WcRequestQueue head (if decide (q_tail q = Some l) then prev else q_tail q)
       (q_length q -ₛ 1), removed +ₛ 1)
    (set_live (m_live m' - 1) (set_heap (delete l h') m')) kls krs rls rrs.
Proof.
  intros [Hk Hr Hnd Hp Ht Hl Hdom Hfr Hfl Hrem Hcnt Hleft Hfrm He Hnx Hlv]
    Hn Hfd Hsz Hk' Hr' Hdom'. simpl in *.
  assert (NoDup (kls ++ rls) ∧ (l ∉ kls) ∧ (l ∉ rls)) as (Hnd' & Hlk & Hlr).
  { apply NoDup_app in Hnd as (Hnk & Hd & [Hlr Hnr]%NoDup_cons). split_and!; try done.
    - apply NoDup_app. split_and!; try done. intros x Hx Hx'. apply (Hd x Hx). by right.
    - intros Hx. apply (Hd l Hx). by left. }
  constructor; simpl; try done.
  - by apply seg_delete.
  - by apply seg_delete.
  - destruct (decide (q_tail q = Some l)) as [Htl|Htl].
    + rewrite Htl in Ht. destruct rls as [|l' rls'] using rev_ind.
      * by rewrite app_nil_r.
      * rewrite app_comm_cons, app_assoc, last_snoc in Ht. injection Ht as ->.
        exfalso. apply Hlr, elem_of_app. right. by left.
    + rewrite Ht in *. destruct rls as [|l' rls' _] using rev_ind.
      * by rewrite last_snoc in Htl.
      * by rewrite app_comm_cons, !app_assoc, !last_snoc.
  - rewrite size_sub_small; lia.
  - rewrite dom_delete_L, Hdom', Hdom, !list_to_set_app_L, list_to_set_cons. set_solver.
  - intros x Hx. apply Hfr. set_solver.
  - rewrite Hfl, filter_cons_False; [done|]. by intros Hne.
  - rewrite size_add_small; lia.
  - lia.
  - by injection Hleft.
  - by destruct Hfrm; constructor.
  - rewrite size_add_small; lia.
Qed.

(** At the end of the list the queue holds the requests that were kept. *)
Lemma discard_done fd rs m k c prev q removed m' kls krs :
  discard_inv fd rs m k (c, prev, q, removed) m' kls krs [] [] →
  let kept := filter (other_client fd) rs in
  heap_only m m' ∧ m_errno m' = m_errno m ∧ removed = zlen rs - zlen kept ∧
  m_live m' = m_live m - (zlen rs - zlen kept) ∧ machine_queue m' q kept.
Proof.
  intros [Hk Hc Hnd Hp Ht Hl Hd Hf Hfl Hrem Hcnt _ Hfrm He Hnx Hlv]. simpl in *.
  rewrite app_nil_r in *. rewrite Z.add_0_r, Z.sub_0_r in *. subst removed krs.
  subst c. split_and!; try done. exists kls. constructor; simpl; try done. by rewrite Hnx.
Qed.

Lemma discard_client_spec q rs fd Q m :
  machine_queue m q rs → zlen rs ≤ SIZE_MAX →
  (∀ q' m', heap_only m m' → m_errno m' = m_errno m →
     let kept := filter (other_client fd) rs in
     m_live m' = m_live m - (zlen rs - zlen kept) →
     machine_queue m' q' kept → Q (zlen rs - zlen kept, Some q') m') →
  wp true (wc_request_queue_discard_client (Some q) fd) Q m.
Proof.
  intros [ls [Hseg Hnd Htail Hl Hdom Hfr]] Hsz HQ.
  unfold wc_request_queue_discard_client.
  apply (wp_iter_ix _ _
    (λ n s m', ∃ kls krs rls rrs, discard_inv fd rs m n s m' kls krs rls rrs)
    _ _ (length rs)).
  - intros k [[[c prev] q'] removed] m' (kls & krs & rls & rrs & HI).
    pose proof (di_rest _ _ _ _ _ _ _ _ _ _ HI) as Hr. simpl in Hr.
    destruct rls as [|l rls], rrs as [|r rrs]; try done.
    { simpl in Hr. subst c. wp_go.
      apply discard_done in HI as (? & ? & -> & ? & ?). by apply HQ. }
    destruct Hr as (-> & n & Hn & Hnr & Hrest).
    destruct k as [|k]; [by pose proof (di_left _ _ _ _ _ _ _ _ _ _ HI)|].
    wp_go. eapply wp_load_node; [done|]. cbn beta.
    pose proof Hnr as (Hnfd & _). rewrite Hnfd. case_if as Hfd; cycle 1.
    { wp_go. exists k. split; [lia|].
      exists (kls ++ [l]), (krs ++ [r]), rls, rrs. by eapply discard_keep. }
    pose proof (di_kept _ _ _ _ _ _ _ _ _ _ HI) as Hk.
    pose proof (di_nodup _ _ _ _ _ _ _ _ _ _ HI) as Hnd'.
    pose proof (di_previous _ _ _ _ _ _ _ _ _ _ HI) as Hp. simpl in Hk, Hp.
    apply NoDup_app in Hnd' as (Hnk & Hdis & [Hlr Hnr']%NoDup_cons).
    apply wp_bind. destruct prev as [p|].
    + symmetry in Hp. apply last_Some in Hp as [kls' ->].
      destruct (seg_relink _ _ _ _ _ _ (qr_next n) Hk Hnk) as (pn & Hpn & _ & Hk').
      assert (p ≠ l ∧ (p ∉ rls)) as [Hpl Hpr].
      { assert (p ∉ l :: rls) as Hx by (apply Hdis; apply elem_of_app; right; by left).
        by apply not_elem_of_cons in Hx. }
      wp_go. eapply wp_load_node; [done|]. wp_go. apply wp_store_node; [by eexists|].
      wp_go. apply wp_free_node; [simpl; rewrite lookup_insert_ne by done; by eexists|].
      wp_go. exists k. split; [lia|]. exists (kls' ++ [p]), krs, rls, rrs.
      apply (discard_drop _ _ _ _ _ _ _ _ _ _ _ _ _ _ _ _ (q_head q')
        (<[p:=set_next pn (qr_next n)]> (m_heap m')) HI); try done.
      { by apply seg_insert. }
      rewrite dom_insert_lookup_L; [done | by eexists].
    + wp_go. apply wp_free_node; [by eexists|]. wp_go. exists k. split; [lia|].
      symmetry in Hp. apply last_None in Hp as ->.
      exists [], krs, rls, rrs. eapply discard_drop; try done.
      by destruct krs.
  - exists [], [], ls, rs. constructor; simpl; try done; lia.
  - intros _. rewrite Hl. lia.
Qed.

(** *** Clearing *)

Lemma clear_spec q rs Q m :
  machine_queue m q rs → zlen rs ≤ SIZE_MAX →
  (∀ m', heap_only m m' → m_errno m' = m_errno m → m_live m' = m_live m - zlen rs →
     m_heap m' = ∅ → Q (Some (WcRequestQueue None None 0)) m') →
  wp true (wc_request_queue_clear (Some q)) Q m.
Proof.
  intros [ls [Hseg Hnd Htail Hl Hdom Hfr]] Hsz HQ.
  unfold wc_request_queue_clear. apply wp_bind.
  apply (wp_iter_ix _ _ (λ n c m', ∃ rls rrs, n = length rrs ∧
    seg (m_heap m') c rls rrs None ∧ NoDup rls ∧ dom (m_heap m') = list_to_set rls ∧
    heap_only m m' ∧ m_errno m' = m_errno m ∧
    m_live m' = m_live m - (zlen rs - zlen rrs)) _ _ (length rs)).
  - intros k c m' (rls & rrs & -> & Hs & Hnd' & Hd & Hfrm & He & Hlv).
    destruct rls as [|l rls], rrs as [|r rrs]; try done; simpl in Hs.
    { subst c. wp_go. apply HQ; side; [simpl in Hlv; lia|].
      simpl in Hd. by apply dom_empty_iff_L in Hd. }
    destruct Hs as (-> & n & Hn & _ & Hs). apply NoDup_cons in Hnd' as [Hni Hnd'].
    wp_go. eapply wp_load_node; [done|]. wp_go. apply wp_free_node; [by eexists|].
    wp_go. exists (length rrs). split; [simpl; lia|]. exists rls, rrs. simpl.
    split_and!; try done.
    + by apply seg_delete.
    + rewrite dom_delete_L, Hd. simpl. set_solver.
    + by destruct Hfrm; constructor.
    + simpl in Hlv. lia.
  - exists ls, rs. split_and!; side.
  - intros _. rewrite Hl. lia.
Qed.

End specs.

(** ** Sequences of operations

    The specification is a FIFO list: [fifo_step op rs res rs'] are the
    transitions it allows. *)

Inductive queue_op :=
| QEnqueue (fd type : Z) (arg : list byte)
| QDequeue
| QDiscard (fd : Z)
| QClear.

Inductive queue_res :=
| RCode (r : Z)
| RRequest (r : option qreq)
| RCount (n : Z)
| RDone.

Definition enqueue_args_ok (fd type : Z) : bool :=
  (0 <=? fd) && wc_request_type_valid type.

Inductive fifo_step : queue_op → list qreq → queue_res → list qreq → Prop :=
| fifo_enqueue fd type arg rs :
    enqueue_args_ok fd type = true →
    fifo_step (QEnqueue fd type arg) rs (RCode 0) (rs ++ [QReq fd type arg])
| fifo_enqueue_nomem fd type arg rs :
    enqueue_args_ok fd type = true →
    fifo_step (QEnqueue fd type arg) rs (RCode (-1)) rs
| fifo_enqueue_invalid fd type arg rs :
    enqueue_args_ok fd type = false →
    fifo_step (QEnqueue fd type arg) rs (RCode (-1)) rs
| fifo_dequeue_empty : fifo_step QDequeue [] (RRequest None) []
| fifo_dequeue r rs : fifo_step QDequeue (r :: rs) (RRequest (Some r)) rs
| fifo_discard fd rs :
    fifo_step (QDiscard fd) rs
      (RCount (zlen rs - zlen (filter (other_client fd) rs)))
      (filter (other_client fd) rs)
| fifo_clear rs : fifo_step QClear rs RDone [].

Inductive fifo_run : list queue_op → list qreq → list queue_res → list qreq → Prop :=
| fifo_run_nil rs : fifo_run [] rs [] rs
| fifo_run_cons op ops rs res rs' ress rs'' :
    fifo_step op rs res rs' → fifo_run ops rs' ress rs'' →
    fifo_run (op :: ops) rs (res :: ress) rs''.

Definition queue_op_ok (op : queue_op) : Prop :=
  match op with
  | QEnqueue _ _ arg => zlen arg ≤ SIZE_MAX - SIZEOF_QUEUED_REQUEST
  | _ => True
  end.

Section sequences.
Context {W : Type} {OS : Posix W}.
Implicit Types (m : machine W).

(** Take the oldest request out, read it and release it, as the server does. *)
Definition take_request (queue : wc_request_queue)
    : M W (option qreq * wc_request_queue) :=
  '(r, p, out) ← wc_request_queue_dequeue (Some queue) (Some None);
  queue ← from_option_ub p;
  if r =? -1 then mret (None, queue) else
  out ← from_option_ub out;
  l ← from_option_ub out;
  n ← load_node l;
  arg ← read_bytes (Some (qr_argument n)) (qr_argument_length n);
  wc_queued_request_destroy (Some l) ;;
  mret (Some (QReq (qr_client_fd n) (qr_type n) arg), queue).

Definition queue_exec (op : queue_op) (queue : wc_request_queue)
    : M W (queue_res * wc_request_queue) :=
  match op with
  | QEnqueue fd type arg =>
    '(r, q) ← by_ref (λ p, wc_request_queue_enqueue p fd type
                       (Some (bytes_block arg)) (zlen arg)) queue;
    mret (RCode r, q)
  | QDequeue => '(r, q) ← take_request queue; mret (RRequest r, q)
  | QDiscard fd =>
    '(n, q) ← by_ref (λ p, wc_request_queue_discard_client p fd) queue;
    mret (RCount n, q)
  | QClear =>
    p ← wc_request_queue_clear (Some queue);
    q ← from_option_ub p;
    mret (RDone, q)
  end.

Fixpoint queue_run (ops : list queue_op) (queue : wc_request_queue)
    : M W (list queue_res * wc_request_queue) :=
  match ops with
  | [] => mret ([], queue)
  | op :: ops =>
    '(r, queue) ← queue_exec op queue;
    '(rs, queue) ← queue_run ops queue;
    mret (r :: rs, queue)
  end.

(** The state after an operation: the queue represents [rs'] and owns exactly
    the blocks allocated since [m]. *)
Definition queue_state m (rs : list qreq) (m' : machine W) (q' : wc_request_queue)
    (rs' : list qreq) : Prop :=
  queue_repr (m_heap m') (m_next_loc m') q' rs' ∧ heap_only m m' ∧
  m_live m' - zlen rs' = m_live m - zlen rs.

Lemma take_request_spec q rs (Q : option qreq * wc_request_queue → machine W → Prop) m :
  queue_repr (m_heap m) (m_next_loc m) q rs → zlen rs ≤ SIZE_MAX →
  (rs = [] → Q (None, q) (set_errno ENOENT m)) →
  (∀ r rs' q' m', rs = r :: rs' → queue_state m rs m' q' rs' → Q (Some r, q') m') →
  wp true (take_request q) Q m.
Proof.
  intros Hq Hsz Hnil Hcons. unfold take_request. apply wp_bind.
  eapply dequeue_spec; [done..| |].
  { intros Hr. cbn. wp_go. by apply Hnil. }
  intros r rs' l n q' h' Hrs Hn Hnx Hl Hq'. cbn. wp_go.
  eapply wp_load_node; [apply lookup_insert_eq|]. wp_go.
  destruct Hn as (Hf & Ht & Hal & Ha). rewrite Ha, Hal, Hf, Ht.
  eapply wp_read_bytes; [done | by rewrite Nat2Z.id, block_prefix_bytes by lia |].
  wp_go. apply wp_free_node; [simpl; rewrite lookup_insert_eq; by eexists|].
  wp_go. rewrite firstn_all. simpl. rewrite delete_insert_id by done.
  replace (QReq (qq_fd r) (qq_type r) (qq_arg r)) with r by (by destruct r).
  eapply Hcons; [done|]. split_and!; [done | by constructor | subst rs; simpl; lia].
Qed.

Lemma queue_exec_spec op q rs (Q : queue_res * wc_request_queue → machine W → Prop) m :
  queue_repr (m_heap m) (m_next_loc m) q rs → zlen rs < SIZE_MAX → queue_op_ok op →
  (∀ res q' rs' m', fifo_step op rs res rs' → zlen rs' ≤ zlen rs + 1 →
     queue_state m rs m' q' rs' → Q (res, q') m') →
  wp true (queue_exec op q) Q m.
Proof.
  intros Hq Hsz Hop HQ. destruct op as [fd type arg| |fd|]; simpl; wp_go.
  - destruct (enqueue_args_ok fd type) eqn:Hok.
    + pose proof Hok as Hok'. unfold enqueue_args_ok in Hok'. bool_to_prop.
      eapply enqueue_spec; [done | apply points_to_bytes | done..| |].
      * intros q' m' ????. wp_go. eapply HQ; [by constructor | |split_and!; side];
          rewrite ?zlen_app; simpl; lia.
      * intros m' Hs ??. wp_go. eapply HQ; [by constructor 2 | lia |].
        split_and!; side.
        by rewrite (silent_heap _ _ Hs), (silent_next _ _ Hs).
    + unfold wc_request_queue_enqueue. cbn [is_null orb].
      replace ((fd <? 0) || negb (wc_request_type_valid type)) with true.
      * wp_go. eapply HQ; [by constructor 3 | lia |]. by split_and!; side.
      * unfold enqueue_args_ok in Hok. rewrite Z.leb_antisym in Hok.
        by destruct (fd <? 0), (wc_request_type_valid type).
  - eapply take_request_spec; [done | lia | |].
    + intros ->. wp_go. eapply HQ; [constructor | simpl; lia |]. by split_and!; side.
    + intros r rs' q' m' -> Hst. wp_go. eapply HQ; [constructor | simpl; lia | done].
  - eapply discard_client_spec; [done | lia |]. intros q' m' ?? kept ??. wp_go.
    assert (zlen kept ≤ zlen rs) by (subst kept; pose proof (length_filter (other_client fd) rs); lia).
    eapply HQ; [apply fifo_discard | fold kept; lia |].
    split; [done|]. split; [done|]. fold kept. lia.
  - eapply clear_spec; [done | lia |]. intros m' ??? Hh. wp_go.
    eapply HQ; [constructor | simpl; lia |]. split_and!; side.
    rewrite Hh. apply queue_empty_repr.
Qed.

Lemma queue_run_spec ops q rs m :
  queue_repr (m_heap m) (m_next_loc m) q rs → Forall queue_op_ok ops →
  zlen rs + zlen ops < SIZE_MAX →
  wp true (queue_run ops q) (λ '(ress, q') m', ∃ rs', fifo_run ops rs ress rs' ∧
    queue_state m rs m' q' rs') m.
Proof.
  revert q rs m. induction ops as [|op ops IH]; intros q rs m Hq Hops Hlen; simpl.
  { wp_go. exists rs. by split; [constructor | split_and!]. }
  inversion_clear Hops. simpl in Hlen. apply wp_bind.
  eapply queue_exec_spec; [done | lia | done |].
  intros res q1 rs1 m1 Hstep Hl1 (Hq1 & Hf1 & Hlv1). apply wp_bind.
  eapply wp_mono; [apply (IH q1 rs1 m1); try done; lia|].
  intros [ress q2] m2 (rs2 & Hrun & Hq2 & Hf2 & Hlv2). wp_go. exists rs2.
  split; [by econstructor|]. split_and!; [done | by etrans | lia].
Qed.

End sequences.

(** ** Properties *)

Section properties.
Context {W : Type} {OS : Posix W}.
Implicit Types (m : machine W).

(** C15: the linked queue refines a FIFO list. Any sequence of enqueues,
    dequeues, discards and clears on a fresh queue runs without touching an
    unallocated node, every call returns, the results are those of the list,
    and afterwards the allocated nodes are exactly those of the pending
    requests: nothing leaks and nothing is freed twice. *)
Theorem wc_request_queue_refines_fifo q0 ops m :
  m_heap m = ∅ → Forall queue_op_ok ops → zlen ops < SIZE_MAX →
  ∃ ress q rs m',
    ('(_, q) ← by_ref wc_request_queue_init q0; queue_run ops q) m =
      Ret (ress, q) m' ∧
    fifo_run ops [] ress rs ∧
    queue_repr (m_heap m') (m_next_loc m') q rs ∧
    m_live m' = m_live m + zlen rs ∧ size (m_heap m') = length rs.
Proof.
  intros Hh Hops Hlen.
  assert (wp true ('(_, q) ← by_ref wc_request_queue_init q0; queue_run ops q)
    (λ '(ress, q) m', ∃ rs, fifo_run ops [] ress rs ∧ queue_state m [] m' q rs) m) as Hwp.
  { wp_go. unfold wc_request_queue_init. wp_go. apply (queue_run_spec ops _ [] m); try done.
    rewrite Hh. apply queue_empty_repr. }
  apply wp_total_inv in Hwp as ([ress q] & m' & Hrun & rs & Hf & Hq & _ & Hl).
  exists ress, q, rs, m'. split_and!; side; [simpl in Hl; lia|].
  destruct Hq as [ls [Hseg Hnd _ _ Hdom _]]. rewrite <-(seg_length _ _ _ _ _ Hseg).
  by rewrite <-size_dom, Hdom, size_list_to_set.
Qed.

(** A valid enqueue copies the request behind all pending ones and uses
    one block, or fails with ENOMEM leaving the queue unchanged; the argument
    is copied, so the caller's memory may change afterwards. *)
Theorem wc_request_queue_enqueue_appends q rs fd type data arg m :
  queue_repr (m_heap m) (m_next_loc m) q rs → points_to data arg → 0 ≤ fd →
  wc_request_type_valid type = true → zlen rs < SIZE_MAX →
  zlen arg ≤ SIZE_MAX - SIZEOF_QUEUED_REQUEST →
  ∃ r q' m', wc_request_queue_enqueue (Some q) fd type data (zlen arg) m =
      Ret (r, Some q') m' ∧
    ((r = 0 ∧ queue_repr (m_heap m') (m_next_loc m') q' (rs ++ [QReq fd type arg]) ∧
      q_length q' = zlen rs + 1 ∧ m_live m' = m_live m + 1) ∨
     (r = -1 ∧ q' = q ∧ m_heap m' = m_heap m ∧ m_live m' = m_live m ∧
      m_errno m' = ENOMEM)).
Proof.
  intros Hq Hd Hfd Hty Hlen Harg.
  assert (wp true (wc_request_queue_enqueue (Some q) fd type data (zlen arg))
    (λ '(r, p) m', ∃ q', p = Some q' ∧
      ((r = 0 ∧ queue_repr (m_heap m') (m_next_loc m') q' (rs ++ [QReq fd type arg]) ∧
        q_length q' = zlen rs + 1 ∧ m_live m' = m_live m + 1) ∨
       (r = -1 ∧ q' = q ∧ m_heap m' = m_heap m ∧ m_live m' = m_live m ∧
        m_errno m' = ENOMEM))) m) as Hwp.
  { eapply enqueue_spec; [done..| |].
    - intros q' m' ??? [ls Hq']. exists q'. split; [done|]. left.
      pose proof (qs_length _ _ _ _ _ Hq') as Hl. rewrite zlen_app in Hl.
      split_and!; side. by exists ls.
    - intros m' Hs ??. exists q. split; [done|]. right.
      split_and!; side. apply Hs. }
  apply wp_total_inv in Hwp as ([r p] & m' & Hrun & q' & -> & Hpost). by exists r, q', m'.
Qed.

(** Dequeue hands out the oldest request. On a non-empty queue it detaches
    the first node, which still holds the request and is owned by the caller,
    and the rest of the queue is unchanged; destroying the node restores the
    queue's exact heap. On an empty queue it fails with ENOENT. *)
Theorem wc_request_queue_dequeue_oldest q rs m :
  queue_repr (m_heap m) (m_next_loc m) q rs → zlen rs ≤ SIZE_MAX →
  match rs with
  | [] => wc_request_queue_dequeue (Some q) (Some None) m =
            Ret (-1, Some q, Some None) (set_errno ENOENT m)
  | r :: rs' => ∃ l n q' m' m'',
      wc_request_queue_dequeue (Some q) (Some None) m =
        Ret (0, Some q', Some (Some l)) m' ∧
      m_heap m' !! l = Some n ∧ node_repr n r ∧
      wc_queued_request_destroy (Some l) m' = Ret () m'' ∧
      queue_repr (m_heap m'') (m_next_loc m'') q' rs' ∧
      m_live m'' = m_live m - 1
  end.
Proof.
  intros Hq Hlen.
  assert (wp true (wc_request_queue_dequeue (Some q) (Some None)) (λ res m',
    match rs with
    | [] => res = (-1, Some q, Some None) ∧ m' = set_errno ENOENT m
    | r :: rs' => ∃ l n q' h', res = (0, Some q', Some (Some l)) ∧ node_repr n r ∧
        h' !! l = None ∧ queue_repr h' (m_next_loc m) q' rs' ∧
        m' = set_heap (<[l:=n]> h') m
    end) m) as Hwp.
  { eapply dequeue_spec; [done..| |].
    - by intros ->.
    - intros r rs' l n q' h' -> ????. by exists l, n, q', h'. }
  apply wp_total_inv in Hwp as (res & m' & Hrun & Hpost). destruct rs as [|r rs'].
  { by destruct Hpost as [-> ->]. }
  destruct Hpost as (l & n & q' & h' & -> & Hn & Hl & Hq' & ->).
  eexists l, n, q', _, _. split; [done|]. simpl. rewrite lookup_insert_eq.
  split_and!; [done | done | unfold wc_queued_request_destroy, free_node, load_node;
    cbv [mbind M_bind gets from_option_ub]; simpl; rewrite lookup_insert_eq;
    cbv [mret M_ret modify]; reflexivity | simpl; by rewrite delete_insert_id | done].
Qed.

(** Discarding a client removes exactly the requests of that descriptor,
    keeps the others in order, reports how many it removed and frees exactly
    their nodes; the loop visits each node once. *)
Theorem wc_request_queue_discard_filters q rs fd m :
  queue_repr (m_heap m) (m_next_loc m) q rs → zlen rs ≤ SIZE_MAX →
  ∃ q' m', wc_request_queue_discard_client (Some q) fd m =
      Ret (zlen (filter (λ r, qq_fd r = fd) rs), Some q') m' ∧
    queue_repr (m_heap m') (m_next_loc m') q' (filter (λ r, qq_fd r ≠ fd) rs) ∧
    m_live m' = m_live m - zlen (filter (λ r, qq_fd r = fd) rs) ∧
    m_errno m' = m_errno m.
Proof.
  intros Hq Hlen.
  assert (∀ l : list qreq, filter (other_client fd) l = filter (λ r, qq_fd r ≠ fd) l ∧
    zlen l - zlen (filter (other_client fd) l) = zlen (filter (λ r, qq_fd r = fd) l))
    as Hflt.
  { induction l as [|r l [IH1 IH2]]; [done|]. rewrite !filter_cons.
    unfold other_client at 1 3. repeat case_decide; try done; simpl; split;
      first [done | by f_equal | lia]. }
  assert (wp true (wc_request_queue_discard_client (Some q) fd) (λ '(n, p) m',
    ∃ q', n = zlen (filter (λ r, qq_fd r = fd) rs) ∧ p = Some q' ∧
    queue_repr (m_heap m') (m_next_loc m') q' (filter (λ r, qq_fd r ≠ fd) rs) ∧
    m_live m' = m_live m - zlen (filter (λ r, qq_fd r = fd) rs) ∧
    m_errno m' = m_errno m) m) as Hwp.
  { eapply discard_client_spec; [done..|]. intros q' m' ?? kept Hl Hq'.
    destruct (Hflt rs) as [H1 H2]. exists q'. subst kept. rewrite H2 in *.
    rewrite H1 in Hq'. by split_and!. }
  apply wp_total_inv in Hwp as ([n p] & m' & Hrun & q' & -> & -> & Hpost).
  by exists q', m'.
Qed.

End properties.

(** ** Concrete runs *)

Definition sample_queue_ops : list queue_op :=
  [QEnqueue 4 WC_REQUEST_PWD []; QEnqueue 5 WC_REQUEST_LS (lit "/"); QEnqueue 4 9 [];
   QDiscard 4; QDequeue; QDequeue].

Lemma wc_request_queue_refines_fifo_witness :
  ∃ ress q rs m', ('(_, q) ← by_ref wc_request_queue_init (WcRequestQueue None None 0);
      queue_run sample_queue_ops q) (boot empty_script) = Ret (ress, q) m' ∧
    fifo_run sample_queue_ops [] ress rs.
Proof.
  destruct (wc_request_queue_refines_fifo (WcRequestQueue None None 0) sample_queue_ops
    (boot empty_script)) as (ress & q & rs & m' & Hrun & Hf & _).
  - reflexivity.
  - repeat apply Forall_cons_2; try apply Forall_nil_2;
      simpl; unfold SIZE_MAX, SIZEOF_QUEUED_REQUEST; lia.
  - unfold SIZE_MAX. simpl. lia.
  - exists ress, q, rs, m'. split; [exact Hrun | exact Hf].
Defined.

Lemma boot_queue_repr s :
  queue_repr (m_heap (boot s)) (m_next_loc (boot s)) (WcRequestQueue None None 0) [].
Proof. apply queue_empty_repr. Qed.

Lemma wc_request_queue_enqueue_appends_witness :
  ∃ r q' m', wc_request_queue_enqueue (Some (WcRequestQueue None None 0)) 4
      WC_REQUEST_LS (Some (bytes_block (lit "/"))) 1 (boot empty_script) =
      Ret (r, Some q') m'.
Proof.
  destruct (wc_request_queue_enqueue_appends (WcRequestQueue None None 0) [] 4 WC_REQUEST_LS
    (Some (bytes_block (lit "/"))) (lit "/") (boot empty_script) (boot_queue_repr _)
    (points_to_bytes _)) as (r & q' & m' & Hrun & _).
  - lia.
  - reflexivity.
  - unfold SIZE_MAX. simpl. lia.
  - unfold SIZE_MAX, SIZEOF_QUEUED_REQUEST. simpl. lia.
  - exists r, q', m'. exact Hrun.
Defined.

(** A queue with one pending request, as enqueue leaves it. *)
Definition one_request_heap : gmap loc wc_queued_request :=
  {[1%positive := WcQueuedRequest 4 2 0 None []]}.
Definition one_request_queue : wc_request_queue := WcRequestQueue (Some 1%positive) (Some 1%positive) 1.
Definition one_request_machine : machine script :=
  set_heap one_request_heap (set_next_loc 2%positive (boot empty_script)).

Lemma one_request_repr :
  queue_repr (m_heap one_request_machine) (m_next_loc one_request_machine)
    one_request_queue [QReq 4 2 []].
Proof.
  exists [1%positive]. constructor; try done.
  - simpl. split; [done|]. eexists. split; [apply lookup_singleton_eq|]. by repeat split.
  - apply NoDup_singleton.
  - intros l Hl. apply list_elem_of_singleton in Hl. by subst.
Qed.

Lemma wc_request_queue_dequeue_oldest_witness :
  ∃ q' m', wc_request_queue_dequeue (Some one_request_queue) (Some None)
      one_request_machine = Ret (0, Some q', Some (Some 1%positive)) m'.
Proof.
  destruct (wc_request_queue_dequeue_oldest one_request_queue [QReq 4 2 []]
    one_request_machine one_request_repr) as (l & n & q' & m' & m'' & Hrun & _).
  - unfold SIZE_MAX. simpl. lia.
  - exists q', m'. rewrite Hrun. vm_compute in Hrun. injection Hrun as _ <- _. reflexivity.
Defined.

Lemma wc_request_queue_discard_filters_witness :
  ∃ q' m', wc_request_queue_discard_client (Some one_request_queue) 4
      one_request_machine = Ret (1, Some q') m' ∧ m_live m' = -1.
Proof.
  destruct (wc_request_queue_discard_filters one_request_queue [QReq 4 2 []] 4
    one_request_machine one_request_repr) as (q' & m' & Hrun & _ & Hl & _).
  - unfold SIZE_MAX. simpl. lia.
  - exists q', m'. split; [exact Hrun | exact Hl].
Defined.
