(* ===== verification/SocketUtils.v ===== *)
(** * Socket helpers (src/src/socket_utils.c)

    Non-blocking mode, SIGPIPE and the blocking write loop. The loops that
    retry interrupted calls carry fuel; [enough] says when it suffices. *)

From S2P Require Import Prelude Machine Script.

Definition SIGPIPE : Z := 13.

Section socket_utils.
Context {W : Type} {OS : Posix W}.

Definition wc_socket_set_nonblocking (fuel : nat) (descriptor : Z) : M W Z :=
  flags ← iter fuel (λ _ : (),
    flags ← sys_getfl descriptor;
    e ← get_errno;
    if (flags =? -1) && (e =? EINTR) then mret (Continue ())
    else mret (Break flags)) ();
  if flags =? -1 then mret (-1) else
  if negb (Z.land flags O_NONBLOCK =? 0) then mret 0 else
  flags ← iter fuel (λ flags,
    flags ← sys_setfl descriptor (Z.lor flags O_NONBLOCK);
    e ← get_errno;
    if (flags =? -1) && (e =? EINTR) then mret (Continue flags)
    else mret (Break flags)) flags;
  mret (if flags =? -1 then -1 else 0).

Definition wc_socket_ignore_sigpipe : M W Z :=
  r ← os_call os_sigemptyset;
  r ← status_result r;
  if r =? -1 then mret (-1) else
  r ← os_call (os_sigaction SIGPIPE);
  status_result r.

Definition wc_socket_write_all (fuel : nat) (descriptor : Z) (data : pointer)
    (size : Z) : M W Z :=
  if is_null data && negb (size =? 0) then put_errno EINVAL ;; mret (-1) else
  iter fuel (λ total_written,
    if total_written <? size then
      bytes ← read_bytes (ptr_add data total_written) (size -ₛ total_written);
      bytes_written ← sys_write descriptor bytes;
      if 0 <? bytes_written then
        mret (Continue (total_written +ₛ to_size bytes_written)) else
      e ← get_errno;
      if (bytes_written =? -1) && (e =? EINTR) then
        mret (Continue total_written)
      else
        (if bytes_written =? 0 then put_errno EIO else mret ()) ;;
        mret (Break (-1))
    else mret (Break 0)) 0.

End socket_utils.

Arguments wc_socket_set_nonblocking : simpl never.
Arguments wc_socket_ignore_sigpipe : simpl never.
Arguments wc_socket_write_all : simpl never.

(** ** Specifications *)

(** The new events of a run are writes of [bs] to [fd]. *)
Definition wrote (fd : Z) (bs : list byte) (tr tr' : list event) : Prop :=
  ∃ evs, tr' = tr ++ evs ∧ Forall (λ e, ∃ b, e = EvWrite fd b) evs ∧
         written_bytes fd evs = bs.

Lemma wrote_nil fd tr : wrote fd [] tr tr.
Proof. exists []. by rewrite app_nil_r. Qed.

Lemma wrote_snoc fd bs b tr tr' :
  wrote fd bs tr tr' → wrote fd (bs ++ b) tr (tr' ++ [EvWrite fd b]).
Proof.
  intros (evs & -> & Hall & <-). exists (evs ++ [EvWrite fd b]).
  rewrite app_assoc, written_bytes_snoc. split; [done|]. split.
  - apply Forall_app. split; [done|]. constructor; [by exists b | done].
  - unfold written_bytes at 2. simpl. by rewrite decide_True, app_nil_r.
Qed.

Section socket_utils_specs.
Context {W : Type} {OS : Posix W} `{!PosixLaws W}.
Implicit Types (m : machine W) (t : bool).

(** The bytes written so far are a prefix of the data. *)
Definition write_all_inv (fd : Z) (bs : list byte) m0 (total : Z) m : Prop :=
  0 ≤ total ≤ zlen bs ∧ call_frame m0 m ∧ m_open m = m_open m0 ∧
  wrote fd (take (Z.to_nat total) bs) (m_trace m0) (m_trace m).

Lemma wc_socket_write_all_spec t fuel fd p bs (Q : Z → machine W → Prop) m :
  points_to p bs → zlen bs ≤ SIZE_MAX →
  enough t (fuel - length bs) (m_os m) →
  (∀ m', call_frame m m' → m_open m' = m_open m →
     wrote fd bs (m_trace m) (m_trace m') → Q 0 m') →
  (∀ m' k, (k < length bs)%nat → call_frame m m' → m_open m' = m_open m →
     wrote fd (take k bs) (m_trace m) (m_trace m') → m_errno m' ≠ EINTR →
     Q (-1) m') →
  wp t (wc_socket_write_all fuel fd p (zlen bs)) Q m.
Proof.
  intros Hp Hmax Hfuel Hok Hfail. unfold wc_socket_write_all.
  rewrite points_to_null_test by done.
  apply (wp_iter_enough _ _ (write_all_inv fd bs m)
           (λ total, length bs - Z.to_nat total)%nat);
    [| |by rewrite Nat.sub_0_r].
  2:{ split; [lia|]. do 2 (split; [reflexivity|]). rewrite take_0. apply wrote_nil. }
  intros total m1 (Hr & Hf & Ho & Hw). case_if as Hlt.
  2:{ wp_go. apply Hok; [done..|]. by rewrite take_ge in Hw by lia. }
  apply wp_bind.
  pose proof (points_to_drop p bs (Z.to_nat total) Hp ltac:(lia)) as Hd.
  rewrite Z2Nat.id in Hd by lia.
  rewrite size_sub_small by lia.
  replace (zlen bs - total) with (zlen (drop (Z.to_nat total) bs)) by len_lia.
  apply wp_read_points_to; [done | len_lia |].
  wp_call wp_sys_write.
  - intros n m2 Hn Hf2 Ho2 Htr. cbn beta.
    assert (call_frame m m2) as Hf' by (by etrans).
    assert (m_open m2 = m_open m) as Ho' by congruence.
    apply wrote_snoc with (b := take (Z.to_nat n) (drop (Z.to_nat total) bs)) in Hw.
    rewrite <-Htr, take_take_drop in Hw. case_if as Hpos; wp_go.
    + autorewrite with wc_len in Hn.
      rewrite to_size_small, size_add_small by (unfold is_size; lia).
      split; [|left; split; [apply Hf2 | lia]].
      split; [lia|]. do 2 (split; [done|]). by rewrite Z2Nat.inj_add by lia.
    + assert (n = 0) as -> by lia. simpl. wp_go.
      eapply (Hfail _ (Z.to_nat total)); [lia | | done | |]; simpl.
      * etrans; [done|]. auto with wc.
      * by rewrite Nat.add_0_r in Hw.
      * done.
  - intros m2 [Hf2 Ho2 Ht2] Hintr. simpl. wp_go.
    assert (call_frame m m2) as Hf' by (by etrans).
    case_if as He; wp_go.
    + split; [|right; auto]. split; [done|]. split; [done|]. split; [congruence|].
      by rewrite Ht2.
    + eapply (Hfail _ (Z.to_nat total)); [lia|done|congruence|by rewrite Ht2|lia].
Qed.

(** The descriptor has been put in non-blocking mode, unless it was already. *)
Definition nonblocking_set (fd : Z) (tr tr' : list event) : Prop :=
  tr' = tr ∨ ∃ fl, Z.testbit fl 11 = true ∧ tr' = tr ++ [EvSetfl fd fl].

Lemma lor_nonblock_bit fl : Z.testbit (Z.lor fl O_NONBLOCK) 11 = true.
Proof. rewrite Z.lor_spec. apply orb_true_r. Qed.

Lemma wc_socket_set_nonblocking_spec t fuel fd (Q : Z → machine W → Prop) m :
  enough t fuel (m_os m) →
  (∀ m', call_frame m m' → m_open m' = m_open m →
     nonblocking_set fd (m_trace m) (m_trace m') → Q 0 m') →
  (∀ m', call_frame0 m m' → Q (-1) m') →
  wp t (wc_socket_set_nonblocking fuel fd) Q m.
Proof.
  intros Hfuel Hok Hfail. unfold wc_socket_set_nonblocking. apply wp_bind.
  apply (wp_iter_enough _ _ (λ _ m1, call_frame0 m m1) (λ _, 0%nat));
    [|reflexivity|by rewrite Nat.sub_0_r].
  intros [] m1 Hm1. wp_call wp_sys_getfl.
  2:{ intros m2 Hm2 Hintr. wp_go. simpl. assert (call_frame0 m m2) by (by etrans).
      case_if as He; wp_go; [|by apply Hfail].
      split; [done|]. right. auto. }
  intros v m2 Hv Hm2. wp_go. assert (call_frame0 m m2) as Hm by (by etrans).
  rewrite (proj2 (Z.eqb_neq v (-1))) by lia. simpl. wp_go.
  rewrite (proj2 (Z.eqb_neq v (-1))) by lia.
  case_if as Hset; wp_go.
  { apply Hok; [auto with wc | apply Hm | left; apply Hm]. }
  apply (wp_iter_enough _ _ (λ _ m1, call_frame0 m m1) (λ _, 0%nat)); [|done|].
  2:{ rewrite Nat.sub_0_r. eapply enough_mono; [done | apply Hm | done]. }
  intros fl m3 Hm3. wp_call wp_sys_setfl.
  - intros m4 Hf4 Ho4 Ht4. wp_go. simpl. wp_go. destruct Hm3 as [Hf3 Ho3 Ht3].
    apply Hok; [by etrans | congruence |].
    right. rewrite <-Ht3. exists (Z.lor fl O_NONBLOCK). by split; [apply lor_nonblock_bit|].
  - intros m4 Hm4 Hintr. wp_go. simpl. assert (call_frame0 m m4) by (by etrans).
    case_if as He; wp_go; [|by apply Hfail]. split; [done|]. right. auto.
Qed.

Lemma wc_socket_ignore_sigpipe_spec t (Q : Z → machine W → Prop) m :
  (∀ r m', (r = 0 ∨ r = -1) → call_frame0 m m' → Q r m') →
  wp t wc_socket_ignore_sigpipe Q m.
Proof.
  intros HQ. unfold wc_socket_ignore_sigpipe.
  wp_call wp_quiet_call; [constructor|]. intros r m1 Hm1 _.
  wp_call wp_status_result.
  2:{ intros e ->. simpl. wp_go. apply HQ; [auto|]. etrans; [done | auto with wc]. }
  intros ->. simpl. wp_call wp_quiet_call; [constructor|]. intros r m2 Hm2 _.
  apply wp_status_result.
  - intros ->. apply HQ; [auto | by etrans].
  - intros e ->. apply HQ; [auto|]. etrans; [by etrans | auto with wc].
Qed.

End socket_utils_specs.

(** ** Properties *)

Section properties.
Context {W : Type} {OS : Posix W}.
Implicit Types (m : machine W).

(** C37: [wc_socket_write_all] returns, however often the write is interrupted
    or shortened: 0 when every byte was written, in order and exactly once;
    -1 when the descriptor failed, after a strict prefix of the data, and
    never for an interruption. Nothing else is transferred, opened or closed. *)
Theorem wc_socket_write_all_complete `{!PosixLaws W, !PosixFair W} fuel fd data bs m :
  points_to data bs → zlen bs ≤ SIZE_MAX →
  (os_budget (m_os m) + length bs < fuel)%nat →
  ∃ r m' k, wc_socket_write_all fuel fd data (zlen bs) m = Ret r m' ∧
    call_frame m m' ∧ m_open m' = m_open m ∧
    wrote fd (take k bs) (m_trace m) (m_trace m') ∧
    ((r = 0 ∧ k = length bs) ∨
     (r = -1 ∧ (k < length bs)%nat ∧ m_errno m' ≠ EINTR)).
Proof.
  intros Hp Hmax Hfuel.
  assert (wp true (wc_socket_write_all fuel fd data (zlen bs)) (λ r m', ∃ k,
    call_frame m m' ∧ m_open m' = m_open m ∧
    wrote fd (take k bs) (m_trace m) (m_trace m') ∧
    ((r = 0 ∧ k = length bs) ∨
     (r = -1 ∧ (k < length bs)%nat ∧ m_errno m' ≠ EINTR))) m) as Hwp.
  { apply wc_socket_write_all_spec; [done..| apply enough_budget; lia | |].
    - intros m' ???. exists (length bs). rewrite firstn_all. naive_solver.
    - intros m' k ?????. exists k. naive_solver. }
  apply wp_total_inv in Hwp as (r & m' & Hrun & k & Hpost). by exists r, m', k.
Qed.

(** [wc_socket_set_nonblocking] returns, and when it reports success the
    descriptor is in non-blocking mode: it was already, or O_NONBLOCK is among
    the flags of the one F_SETFL call that succeeded. On failure no flag was
    changed. *)
Theorem wc_socket_set_nonblocking_correct `{!PosixLaws W, !PosixFair W} fuel fd m :
  (os_budget (m_os m) < fuel)%nat →
  ∃ r m', wc_socket_set_nonblocking fuel fd m = Ret r m' ∧
    call_frame m m' ∧ m_open m' = m_open m ∧
    ((r = 0 ∧ nonblocking_set fd (m_trace m) (m_trace m')) ∨
     (r = -1 ∧ m_trace m' = m_trace m)).
Proof.
  intros Hfuel.
  assert (wp true (wc_socket_set_nonblocking fuel fd) (λ r m',
    call_frame m m' ∧ m_open m' = m_open m ∧
    ((r = 0 ∧ nonblocking_set fd (m_trace m) (m_trace m')) ∨
     (r = -1 ∧ m_trace m' = m_trace m))) m) as Hwp.
  { apply wc_socket_set_nonblocking_spec; [by apply enough_budget| |].
    - naive_solver.
    - intros m' []. naive_solver. }
  by apply wp_total_inv in Hwp as (r & m' & Hrun & Hpost); exists r, m'.
Qed.

(** C39: the retry of an interrupted F_SETFL does not repeat the request: the
    result -1 has overwritten the flags, so the second call asks for every
    status flag at once. *)
Theorem wc_socket_set_nonblocking_retry_sets_all fuel fd flags w1 w2 w3 m :
  os_getfl fd (m_os m) = (inl flags, w1) → 0 ≤ flags →
  Z.land flags O_NONBLOCK = 0 →
  os_setfl fd (Z.lor flags O_NONBLOCK) w1 = (Some EINTR, w2) →
  os_setfl fd (-1) w2 = (None, w3) → (2 ≤ fuel)%nat →
  ∃ m', wc_socket_set_nonblocking fuel fd m = Ret 0 m' ∧
    m_trace m' = m_trace m ++ [EvSetfl fd (-1)].
Proof.
  intros Hget Hfl Hnb Hset1 Hset2 Hfuel.
  destruct fuel as [|[|fuel]]; [lia..|]. eexists.
  unfold wc_socket_set_nonblocking, sys_getfl, sys_setfl, os_call, get_errno, put_errno,
    gets, modify, mbind, M_bind; simpl.
  unfold mbind, M_bind. rewrite Hget. simpl.
  rewrite (proj2 (Z.eqb_neq flags (-1))) by lia. simpl. rewrite Hnb. simpl.
  rewrite (proj2 (Z.eqb_neq flags (-1))) by lia. simpl. rewrite Hset1. simpl. replace (Z.lor (-1) O_NONBLOCK) with (-1) by reflexivity.
  rewrite Hset2. simpl. by split.
Qed.

End properties.

(** ** Concrete runs *)

(** Two short writes around an interruption, then a full one. *)
Definition interrupted_writes : script :=
  Script [] [] [inl 2; inr EINTR; inl 1] [] [] [] [] [] 0 [] [].

Lemma wc_socket_write_all_complete_witness :
  ∃ m', wc_socket_write_all 20 4 (Some (bytes_block (lit "hello"))) 5
      (boot interrupted_writes) = Ret 0 m' ∧
    wrote 4 (lit "hello") [] (m_trace m').
Proof.
  destruct (wc_socket_write_all_complete 20 4 (Some (bytes_block (lit "hello")))
    (lit "hello") (boot interrupted_writes) (points_to_bytes _))
    as (r & m' & k & Hrun & _ & _ & Hw & [(-> & ->)|(-> & _)]).
  - unfold SIZE_MAX. simpl. lia.
  - simpl. unfold script_budget. simpl. lia.
  - exists m'. split; [exact Hrun | exact Hw].
  - exfalso. vm_compute in Hrun. discriminate Hrun.
Defined.

Definition interrupted_setfl : script :=
  Script [] [] [] [] [] [] [] [] 0 [] [EINTR].

Lemma wc_socket_set_nonblocking_correct_witness :
  ∃ r m', wc_socket_set_nonblocking 2 4 (boot interrupted_setfl) = Ret r m' ∧
    m_open m' = {[0; 1; 2]}.
Proof.
  destruct (wc_socket_set_nonblocking_correct 2 4 (boot interrupted_setfl))
    as (r & m' & Hrun & _ & Ho & _).
  - simpl. unfold script_budget. simpl. lia.
  - exists r, m'. split; [exact Hrun | exact Ho].
Defined.

Lemma wc_socket_set_nonblocking_retry_sets_all_witness :
  ∃ m', wc_socket_set_nonblocking 2 4 (boot interrupted_setfl) = Ret 0 m' ∧
    m_trace m' = [EvSetfl 4 (-1)].
Proof.
  eapply (wc_socket_set_nonblocking_retry_sets_all 2 4 0 _ _ _ (boot interrupted_setfl));
    first [reflexivity | lia].
Defined.
