(* ===== verification/Logging.v ===== *)
(** * Structured logging (src/src/logging.c)

    The process-wide level, the time stamp and the record written to standard
    error. [vsnprintf] is modelled for the conversions the program uses. *)

From S2P Require Import Prelude Machine Script.
From Stdlib Require Import Strings.Ascii.
From stdpp Require Import pretty.

#[local] Open Scope Z_scope.

(** enum wc_log_level *)
Definition WC_LOG_ERROR : Z := 0.
Definition WC_LOG_WARN : Z := 1.
Definition WC_LOG_INFO : Z := 2.
Definition WC_LOG_DEBUG : Z := 3.
Definition WC_LOG_TRACE : Z := 4.

Definition WC_LOG_TIMESTAMP_SIZE : Z := 40.
Definition WC_LOG_MESSAGE_SIZE : Z := 2048.

(** A variadic argument. *)
Inductive log_arg :=
| LInt (n : Z)
| LStr (s : string).

(** The text [vsnprintf] would produce in an unbounded buffer, for %d, %u,
    %zu, %lu, %s and %%. [None]: the arguments do not match the format. *)
Fixpoint vformat (format : string) (args : list log_arg) : option string :=
  match format with
  | EmptyString => Some EmptyString
  | String c rest =>
    if negb (Ascii.eqb c "%"%char) then String c <$> vformat rest args else
    match rest with
    | EmptyString => None
    | String d rest =>
      if Ascii.eqb d "%"%char then String "%"%char <$> vformat rest args
      else if Ascii.eqb d "s"%char then
        match args with
        | LStr s :: args => String.append s <$> vformat rest args
        | _ => None
        end
      else if Ascii.eqb d "d"%char || Ascii.eqb d "u"%char then
        match args with
        | LInt n :: args => String.append (pretty n) <$> vformat rest args
        | _ => None
        end
      else if Ascii.eqb d "z"%char || Ascii.eqb d "l"%char then
        match rest, args with
        | String "u"%char rest, LInt n :: args =>
          String.append (pretty n) <$> vformat rest args
        | _, _ => None
        end
      else None
    end
  end.

Definition string_zlen (s : string) : Z := Z.of_nat (String.length s).

(** What a buffer of [size] bytes holds of a formatted text. *)
Definition truncated (size : Z) (s : string) : string :=
  String.substring 0 (Z.to_nat (size - 1)) s.

(** [vsnprintf(buffer, size, ...)] for a formatted text: the result and what the
    buffer holds. It fails when the length is no [int]. *)
Definition vsnprintf {W} (size : Z) (text : string) : M W (Z * string) :=
  if string_zlen text >? INT_MAX then put_errno EOVERFLOW ;; mret (-1, "") else
  mret (string_zlen text, truncated size text).

(** A string literal as an argument of type [const char *]. *)
Definition c_string (s : string) : option string := Some s.
Coercion c_string : string >-> option.

(** [%-5s] *)
Definition pad5 (s : string) : string :=
  String.append s (String.substring 0 (5 - String.length s) "     ").

Section logging.
Context {W : Type} {OS : Posix W}.

Definition wc_log_level_valid (level : Z) : bool :=
  (level >=? WC_LOG_ERROR) && (level <=? WC_LOG_TRACE).

Definition wc_log_level_name (level : Z) : string :=
  if negb (wc_log_level_valid level) then "UNKNOWN" else
  nth (Z.to_nat level) ["ERROR"; "WARN"; "INFO"; "DEBUG"; "TRACE"] "".

Definition wc_log_set_level (level : Z) : M W () :=
  if wc_log_level_valid level then modify (set_log_level level) else mret ().

Definition wc_log_get_level : M W Z := gets m_log_level.

Definition wc_log_timestamp (size : Z) : M W (Z * string) :=
  now ← os_call os_time;
  if now =? -1 then mret (-1, "") else
  tm ← os_call (os_localtime_r now);
  match tm with
  | inr e => put_errno e ;; mret (-1, "")
  | inl tm =>
    let text := os_strftime tm in
    if (string_zlen text =? 0) || (string_zlen text >=? size)
    then mret (-1, "") else mret (0, text)
  end.

Definition wc_log_v (level : Z) (component event format : option string)
    (arguments : list log_arg) : M W () :=
  saved_errno ← get_errno;
  minimum ← gets m_log_level;
  match component, event with
  | Some component, Some event =>
    if negb (wc_log_level_valid level) || (level >? minimum) then
      put_errno saved_errno
    else
      '(has_context, context) ←
        (match format with
         | None | Some EmptyString => mret (false, "")
         | Some format =>
           text ← from_option_ub (vformat format arguments);
           '(result, context) ← vsnprintf WC_LOG_MESSAGE_SIZE text;
           mret (result >? 0, context)
         end);
      '(r, timestamp) ← wc_log_timestamp WC_LOG_TIMESTAMP_SIZE;
      if r =? -1 then put_errno saved_errno else
      line ← from_option_ub (vformat "[%s] %s %s:%s%s%s"
        [LStr timestamp; LStr (pad5 (wc_log_level_name level)); LStr component;
         LStr event; LStr (if (has_context : bool) then " " else "");
         LStr (if has_context then context else "")]);
      sys_stderr line ;;
      put_errno saved_errno
  | _, _ => put_errno saved_errno
  end.

Definition wc_log (level : Z) (component event format : option string)
    (arguments : list log_arg) : M W () :=
  saved_errno ← get_errno;
  wc_log_v level component event format arguments ;;
  put_errno saved_errno.

End logging.

Arguments wc_log_set_level : simpl never.
Arguments wc_log_get_level : simpl never.
Arguments wc_log_timestamp : simpl never.
Arguments wc_log_v : simpl never.
Arguments wc_log {_ _} _ _%_string _%_string _ _ : simpl never.
Arguments c_string : simpl never.

(** ** Specifications *)

(** The arguments of a call match its format. *)
Definition log_ok (format : option string) (args : list log_arg) : Prop :=
  match format with None => True | Some f => is_Some (vformat f args) end.

Ltac log_ok := solve [exact I | simpl; eexists; reflexivity].

(** Only the log and the clock moved; at most one record was added. *)
Record logged {W} {OS : Posix W} (m m' : machine W) : Prop := {
  lg_errno : m_errno m' = m_errno m;
  lg_live : m_live m' = m_live m;
  lg_heap : m_heap m' = m_heap m;
  lg_next : m_next_loc m' = m_next_loc m;
  lg_open : m_open m' = m_open m;
  lg_trace : m_trace m' = m_trace m;
  lg_level : m_log_level m' = m_log_level m;
  lg_os : os_mono (m_os m) (m_os m');
}.

#[global] Instance logged_preorder {W} {OS : Posix W} : PreOrder logged.
Proof.
  split; [by intros m; constructor|].
  intros m1 m2 m3 [] []. constructor; try congruence. by etrans.
Qed.

Lemma logged_kept {W} {OS : Posix W} (m m' : machine W) : logged m m' → kept m m'.
Proof. by intros []. Qed.
#[export] Hint Resolve logged_kept : wc.

(** The record [wc_log_v] builds. *)
Definition log_context (format : option string) (args : list log_arg) : string :=
  match format with
  | None | Some EmptyString => ""
  | Some format =>
    match vformat format args with
    | None | Some EmptyString => ""
    | Some text =>
      if string_zlen text >? INT_MAX then ""
      else String.append " " (truncated WC_LOG_MESSAGE_SIZE text)
    end
  end.

Definition log_line (stamp : string) (level : Z) (component event : string)
    (format : option string) (args : list log_arg) : string :=
  String.append "[" (String.append stamp (String.append "] "
    (String.append (pad5 (wc_log_level_name level)) (String.append " "
      (String.append component (String.append ":" (String.append event
        (log_context format args)))))))).

(** The time stamp the outside world provides, if it provides one. *)
Definition clock {W} {OS : Posix W} (w : W) : option string * W :=
  let '(now, w) := os_time w in
  if now =? -1 then (None, w) else
  let '(tm, w) := os_localtime_r now w in
  match tm with
  | inr _ => (None, w)
  | inl tm =>
    let text := os_strftime tm in
    (if (string_zlen text =? 0) || (string_zlen text >=? WC_LOG_TIMESTAMP_SIZE)
     then None else Some text, w)
  end.

Definition log_enabled (level minimum : Z) : bool :=
  (0 <=? level) && (level <=? 4) && (level <=? minimum).

(** The record a call writes, if any: its component and event are not NULL, its
    level is valid and enabled, and the clock and standard error work. *)
Definition log_record {W} {OS : Posix W} (level : Z) (component event format : option string)
    (args : list log_arg) (m : machine W) : list string * W :=
  match component, event with
  | Some component, Some event =>
    if log_enabled level (m_log_level m) then
      match clock (m_os m) with
      | (Some stamp, w) =>
        let line := log_line stamp level component event format args in
        let '(error, w) := os_stderr line w in
        (match error with None => [line] | Some _ => [] end, w)
      | (None, w) => ([], w)
      end
    else ([], m_os m)
  | _, _ => ([], m_os m)
  end.

(** The effect of a call. *)
Definition log_effect {W} {OS : Posix W} (level : Z) (component event format : option string)
    (args : list log_arg) (m : machine W) : machine W :=
  let '(lines, w) := log_record level component event format args m in
  set_stderr (m_stderr m ++ lines) (set_os w m).

Lemma string_app_nil_r (s : string) : String.append s "" = s.
Proof. induction s as [|c s IH]; [done|]. exact (f_equal (String c) IH). Qed.

Lemma string_app_assoc (s1 s2 s3 : string) :
  String.append (String.append s1 s2) s3 = String.append s1 (String.append s2 s3).
Proof. induction s1 as [|c s IH]; [done|]. exact (f_equal (String c) IH). Qed.

Lemma log_enabled_test level minimum :
  negb (wc_log_level_valid level) || (level >? minimum) =
  negb (log_enabled level minimum).
Proof.
  unfold wc_log_level_valid, log_enabled, WC_LOG_ERROR, WC_LOG_TRACE.
  rewrite Z.geb_leb, Z.gtb_ltb, (Z.ltb_antisym level minimum). by destruct (0 <=? level), (level <=? 4), (level <=? minimum).
Qed.

Section logging_specs.
Context {W : Type} {OS : Posix W}.
Implicit Types (m : machine W) (t : bool).

Lemma clock_mono (w w' : W) stamp : clock w = (stamp, w') → os_mono w w'.
Proof.
  unfold clock. destruct (os_time w) as [now w1] eqn:H1.
  apply (os_mono_quiet os_time) in H1; [|constructor].
  destruct (now =? -1); [by intros [= _ <-]|].
  destruct (os_localtime_r now w1) as [tm w2] eqn:H2.
  apply (os_mono_quiet (os_localtime_r now)) in H2; [|constructor].
  assert (os_mono w w2) by (by etrans).
  destruct tm; by intros [= _ <-].
Qed.

Lemma wc_log_timestamp_eq m stamp w :
  clock (m_os m) = (stamp, w) →
  ∃ e, wc_log_timestamp WC_LOG_TIMESTAMP_SIZE m =
    Ret (match stamp with Some s => (0, s) | None => (-1, "") end)
      (set_errno e (set_os w m)).
Proof.
  unfold clock, wc_log_timestamp, os_call, put_errno, modify, mbind, M_bind, mret, M_ret.
  destruct (os_time (m_os m)) as [now w1]. case_if as Hnow; simpl.
  { intros [= <- <-]. by exists (m_errno m). }
  destruct (os_localtime_r now w1) as [[tm|e] w2]; simpl.
  - intros [= <- <-]. exists (m_errno m). by destruct (_ || _).
  - intros [= <- <-]. by exists e.
Qed.

(** The optional context of a record. *)
Lemma log_context_eq format args m :
  log_ok format args →
  ∃ (has : bool) context e,
    (match format with
     | None | Some EmptyString => mret (false, "")
     | Some format =>
       text ← from_option_ub (vformat format args);
       '(result, context) ← vsnprintf WC_LOG_MESSAGE_SIZE text;
       mret (result >? 0, context)
     end : M W (bool * string)) m = Ret (has, context) (set_errno e m) ∧
    String.append (if has then " " else "") (String.append (if has then context else "") "") =
      log_context format args.
Proof.
  intros Hok. unfold log_context.
  destruct format as [[|c f]|];
    [exists false, "", (m_errno m); by destruct m| |exists false, "", (m_errno m); by destruct m].
  destruct Hok as [text ->]. unfold vsnprintf, put_errno, modify, mbind, M_bind, mret, M_ret.
  simpl. destruct (string_zlen text >? INT_MAX) eqn:Hbig; simpl.
  - exists false, "", EOVERFLOW. split; [done|]. by destruct text.
  - exists (string_zlen text >? 0), (truncated WC_LOG_MESSAGE_SIZE text), (m_errno m).
    split; [by destruct m|]. rewrite string_app_nil_r. by destruct text.
Qed.

Lemma sys_stderr_eq line m :
  ∃ e, sys_stderr line m = Ret () (set_errno e
    (let '(error, w) := os_stderr line (m_os m) in
     set_stderr (m_stderr m ++ match error with None => [line] | Some _ => [] end) (set_os w m))).
Proof.
  unfold sys_stderr, os_call, put_errno, modify, mbind, M_bind.
  destruct (os_stderr line (m_os m)) as [[e|] w].
  - exists e. rewrite app_nil_r. by destruct m.
  - exists (m_errno m). by destruct m.
Qed.

Lemma log_effect_none m : set_stderr (m_stderr m ++ []) (set_os (m_os m) m) = m.
Proof. rewrite app_nil_r. by destruct m. Qed.

(** The whole effect of a call. *)
Lemma wc_log_v_eq level component event format args m :
  log_ok format args →
  wc_log_v level component event format args m =
    Ret () (log_effect level component event format args m).
Proof.
  intros Hok. unfold wc_log_v, log_effect, log_record.
  unfold get_errno, put_errno, gets, modify, mbind at 1 2, M_bind at 1 2. cbn beta iota.
  destruct component as [component|]; [|rewrite log_effect_none; by destruct m].
  destruct event as [event|]; [|rewrite log_effect_none; by destruct m].
  rewrite log_enabled_test.
  destruct (log_enabled level (m_log_level m)) eqn:Hen; cbn [negb];
    [|rewrite log_effect_none; by destruct m].
  destruct (log_context_eq format args m Hok) as (has & context & e1 & Hctx & Hline).
  unfold mbind at 1, M_bind at 1. rewrite Hctx.
  destruct (clock (m_os m)) as [stamp w] eqn:Hclock.
  destruct (wc_log_timestamp_eq (set_errno e1 m) stamp w Hclock) as [e Hstamp].
  unfold mbind at 1, M_bind at 1. rewrite Hstamp.
  destruct stamp as [stamp|]; simpl; [|rewrite app_nil_r; by destruct m].
  rewrite Hline. change (String "[" _) with (log_line stamp level component event format args).
  set (line := log_line _ _ _ _ _ _). unfold mbind, M_bind, from_option_ub, mret, M_ret.
  destruct (sys_stderr_eq line (set_errno e (set_os w (set_errno e1 m)))) as [e2 ->]. simpl.
  destruct (os_stderr line w) as [error w2]. by destruct m.
Qed.

Lemma wc_log_eq level component event format args m :
  log_ok format args →
  wc_log level component event format args m =
    Ret () (log_effect level component event format args m).
Proof.
  intros Hok. unfold wc_log, get_errno, put_errno, gets, modify, mbind, M_bind.
  rewrite wc_log_v_eq by done. f_equal. unfold log_effect.
  destruct (log_record _ _ _ _ _ _) as [lines w]. by destruct m.
Qed.

Lemma log_record_mono level component event format args m lines w :
  log_record level component event format args m = (lines, w) → os_mono (m_os m) w.
Proof.
  unfold log_record. destruct component as [component|]; [|by intros [= _ <-]].
  destruct event as [event|]; [|by intros [= _ <-]].
  destruct (log_enabled _ _); [|by intros [= _ <-]].
  destruct (clock (m_os m)) as [[stamp|] w1] eqn:Hc; apply clock_mono in Hc;
    [|by intros [= _ <-]].
  destruct (os_stderr _ w1) as [error w2] eqn:He.
  apply (os_mono_quiet (os_stderr _)) in He; [|constructor]. intros [= _ <-]. by etrans.
Qed.

Lemma log_effect_logged level component event format args m :
  logged m (log_effect level component event format args m).
Proof.
  unfold log_effect. destruct (log_record _ _ _ _ _ _) as [lines w] eqn:Hr.
  apply log_record_mono in Hr. by constructor.
Qed.

Lemma wp_log t level component event format args (Q : () → machine W → Prop) m :
  log_ok format args →
  (∀ m', logged m m' → Q () m') →
  wp t (wc_log level component event format args) Q m.
Proof.
  intros Hok HQ. unfold wp. rewrite wc_log_eq by done. apply HQ, log_effect_logged.
Qed.

End logging_specs.

(** ** Bounds *)

Lemma string_length_app s1 s2 :
  String.length (String.append s1 s2) = (String.length s1 + String.length s2)%nat.
Proof. induction s1 as [|c s IH]; [done|]. exact (f_equal S IH). Qed.

Lemma substring_length n s : (String.length (String.substring 0 n s) ≤ n)%nat.
Proof.
  revert n. induction s as [|c s IH]; intros [|n]; simpl; [lia..|].
  specialize (IH n). lia.
Qed.

Lemma log_context_length format args :
  (String.length (log_context format args) ≤ 2048)%nat.
Proof.
  unfold log_context. destruct format as [[|c f]|]; [simpl; lia| |simpl; lia].
  destruct (vformat (String c f) args) as [[|d text]|]; [simpl; lia| |simpl; lia].
  destruct (_ >? _); [simpl; lia|]. rewrite string_length_app. unfold truncated, WC_LOG_MESSAGE_SIZE.
  pose proof (substring_length (Z.to_nat (2048 - 1)) (String d text)).
  change (String.length " ") with 1%nat. lia.
Qed.

Lemma clock_length {W} {OS : Posix W} (w w' : W) stamp :
  clock w = (Some stamp, w') → (String.length stamp < 40)%nat.
Proof.
  unfold clock. destruct (os_time w) as [now w1]. destruct (now =? -1); [done|].
  destruct (os_localtime_r now w1) as [[tm|e] w2]; [|done].
  case_if as Hc; intros [= <- _]. unfold string_zlen, WC_LOG_TIMESTAMP_SIZE in *. lia.
Qed.

Lemma level_name_length level :
  wc_log_level_valid level = true →
  (String.length (pad5 (wc_log_level_name level)) = 5)%nat.
Proof.
  unfold wc_log_level_name. intros Hv. rewrite Hv. simpl.
  unfold wc_log_level_valid, WC_LOG_ERROR, WC_LOG_TRACE in Hv. bool_to_prop.
  assert (level = 0 ∨ level = 1 ∨ level = 2 ∨ level = 3 ∨ level = 4)
    as [->|[->|[->|[->| ->]]]] by lia; reflexivity.
Qed.

Lemma log_enabled_valid level minimum :
  log_enabled level minimum = true → wc_log_level_valid level = true.
Proof.
  unfold log_enabled, wc_log_level_valid, WC_LOG_ERROR, WC_LOG_TRACE.
  rewrite Z.geb_leb. by intros [? _]%andb_true_iff.
Qed.

(** ** Properties *)

Section properties.
Context {W : Type} {OS : Posix W}.
Implicit Types (m : machine W).

(** C38: logging is transparent. With arguments that match the format, [wc_log]
    returns and leaves errno, the heap, the descriptors and the level as they
    were. It adds exactly one record when neither the component nor the event is
    NULL, the level is valid and not above the minimum, and the clock and
    standard error work; otherwise none. The record is the time stamp in
    brackets, the padded level name, the component and the event joined by a
    colon, and the context after a space. *)
Theorem wc_log_transparent level component event format args m :
  log_ok format args →
  ∃ m', wc_log level component event format args m = Ret () m' ∧ logged m m' ∧
    m_stderr m' = m_stderr m ++
      match component, event, (clock (m_os m)).1 with
      | Some component, Some event, Some stamp =>
        let line := log_line stamp level component event format args in
        match (os_stderr line (clock (m_os m)).2).1 with
        | None => if log_enabled level (m_log_level m) then [line] else []
        | Some _ => []
        end
      | _, _, _ => []
      end.
Proof.
  intros Hok. eexists. split; [by apply wc_log_eq|]. split; [apply log_effect_logged|].
  unfold log_effect, log_record. destruct component as [component|]; [|done].
  destruct event as [event|]; [|done].
  destruct (clock (m_os m)) as [[stamp|] w]; simpl; [|by destruct (log_enabled _ _)].
  by destruct (log_enabled _ _), (os_stderr _ w) as [[e|] w2].
Qed.

(** The records are bounded: whatever the arguments are, a call adds at
    most one record, whose length exceeds those of the component and event
    names by at most 2097 characters. *)
Theorem wc_log_record_bounded level (component event : string) format args m :
  log_ok format args →
  ∃ m' lines, wc_log level component event format args m = Ret () m' ∧
    m_stderr m' = m_stderr m ++ lines ∧ (length lines ≤ 1)%nat ∧
    ∀ line, line ∈ lines →
      (String.length line ≤ String.length component + String.length event + 2097)%nat.
Proof.
  intros Hok. rewrite wc_log_eq by done. unfold log_effect.
  destruct (log_record _ _ _ _ _ _) as [lines w] eqn:Hr. eexists _, lines.
  split; [done|]. split; [done|]. unfold log_record in Hr. simpl in Hr.
  destruct (log_enabled _ _) eqn:Hen; [|injection Hr as <- _; split; [simpl; lia|];
    by intros ? ?%not_elem_of_nil].
  destruct (clock (m_os m)) as [[stamp|] w1] eqn:Hc; [|injection Hr as <- _; split; [simpl; lia|];
    by intros ? ?%not_elem_of_nil].
  destruct (os_stderr _ w1) as [[e|] w2]; injection Hr as <- _; (split; [simpl; lia|]);
    [by intros ? ?%not_elem_of_nil|].
  intros line ->%list_elem_of_singleton.
  unfold log_line. rewrite !string_length_app. simpl.
  pose proof (log_context_length format args). apply clock_length in Hc.
  rewrite level_name_length by (by eapply log_enabled_valid). lia.
Qed.

(** Setting a valid level makes it the level that is read back; an
    invalid level is ignored, so a valid level stays valid. *)
Theorem wc_log_level_roundtrip level m :
  (wc_log_set_level level ;; wc_log_get_level) m =
    Ret (if wc_log_level_valid level then level else m_log_level m)
      (if wc_log_level_valid level then set_log_level level m else m).
Proof.
  unfold wc_log_set_level, wc_log_get_level, mbind, M_bind.
  by destruct (wc_log_level_valid level).
Qed.

End properties.

(** ** Concrete runs *)

Lemma wc_log_transparent_witness :
  ∃ m', wc_log WC_LOG_INFO "server" "connect" (Some "client=fd:%d") [LInt 7]
      (boot empty_script) = Ret () m' ∧
    m_stderr m' = ["[1970-01-01 00:00:00] INFO  server:connect client=fd:7"].
Proof.
  destruct (wc_log_transparent WC_LOG_INFO "server" "connect" (Some "client=fd:%d"%string)
    [LInt 7] (boot empty_script)) as (m' & Hrun & _ & Hlines).
  - log_ok.
  - exists m'. split; [exact Hrun | rewrite Hlines; vm_compute; reflexivity].
Defined.

Lemma wc_log_record_bounded_witness :
  ∃ m' lines, wc_log WC_LOG_DEBUG "server" "poll_list_built"
      (Some "transport=uds descriptors=%lu") [LInt 3] (boot empty_script) = Ret () m' ∧
    m_stderr m' = m_stderr (boot empty_script) ++ lines ∧ (length lines ≤ 1)%nat.
Proof.
  destruct (wc_log_record_bounded WC_LOG_DEBUG "server" "poll_list_built"
    (Some "transport=uds descriptors=%lu"%string) [LInt 3] (boot empty_script))
    as (m' & lines & Hrun & Hs & Hl & _).
  - log_ok.
  - exists m', lines. split; [exact Hrun | by split].
Defined.
