(* ===== verification/Commands.v ===== *)
(** * Command execution (src/src/commands.c)

    Quoting of the argument, construction of the shell command, the child
    process and the three commands. The specification side is the part of the
    POSIX shell's token recognition the commands rely on ([sh_lex]). *)

From S2P Require Import Prelude Machine Script Buffer.

Definition WC_COMMAND_READ_SIZE : Z := 4096.

Record wc_command_result := WcCommandResult {
  cr_data : pointer;
  cr_length : Z;
}.

Definition quote_char : byte := Byte.x27.
Definition backslash : byte := Byte.x5c.

(** The C string at the start of a block. *)
Fixpoint cstring (b : block) : option (list byte) :=
  match b with
  | Some c :: b => if decide (c = NUL) then Some [] else (c ::.) <$> cstring b
  | _ => None
  end.

(** WIFEXITED and WEXITSTATUS *)
Definition WIFEXITED (status : Z) : bool := Z.land status 127 =? 0.
Definition WEXITSTATUS (status : Z) : Z := Z.shiftr (Z.land status 65280) 8.

Section commands.
Context {W : Type} {OS : Posix W}.

(** The string at a [char *]; [strlen] is its length. *)
Definition read_cstring (p : pointer) : M W (list byte) :=
  b ← from_option_ub p;
  from_option_ub (cstring b).

(** [quoted[output_index++] = c] *)
Definition store_char (quoted : pointer) (output_index : Z) (c : byte)
    : M W (pointer * Z) :=
  quoted ← write_bytes quoted output_index [c];
  mret (quoted, output_index +ₛ 1).

(** The copying loop. *)
Definition wc_command_quote_loop (argument : pointer) (argument_length : Z)
    (quoted : pointer) (output_index : Z) : M W (pointer * Z) :=
  iter (S (Z.to_nat argument_length)) (λ '(input_index, quoted, output_index),
    if input_index <? argument_length then
      c ← load_byte argument input_index;
      '(quoted, output_index) ←
        (if decide (c = quote_char) then
           '(quoted, output_index) ← store_char quoted output_index quote_char;
           '(quoted, output_index) ← store_char quoted output_index backslash;
           '(quoted, output_index) ← store_char quoted output_index quote_char;
           store_char quoted output_index quote_char
         else store_char quoted output_index c);
      mret (Continue (input_index +ₛ 1, quoted, output_index))
    else mret (Break (quoted, output_index))) (0, quoted, output_index).

Definition wc_command_quote_argument (argument : pointer) (argument_length : Z)
    : M W pointer :=
  if is_null argument || (argument_length =? 0) then put_errno EINVAL ;; mret None else
  bytes ← read_bytes argument argument_length;
  if decide (NUL ∈ bytes) then put_errno EINVAL ;; mret None else
  if argument_length >? (SIZE_MAX - 3) / 4 then put_errno EOVERFLOW ;; mret None else
  quoted ← malloc_block (argument_length *ₛ 4 +ₛ 3);
  if is_null quoted then mret None else
  '(quoted, output_index) ← store_char quoted 0 quote_char;
  '(quoted, output_index) ←
    wc_command_quote_loop argument argument_length quoted output_index;
  '(quoted, output_index) ← store_char quoted output_index quote_char;
  write_bytes quoted output_index [NUL].

Definition suffix : list byte := lit " 2>/dev/null".

Definition wc_command_build (program : list byte) (argument : pointer)
    (argument_length : Z) : M W pointer :=
  quoted_argument ← wc_command_quote_argument argument argument_length;
  if is_null quoted_argument then mret None else
  quoted ← read_cstring quoted_argument;
  let command_length :=
    zlen program +ₛ 1 +ₛ zlen quoted +ₛ (zlen suffix + 1) in
  command ← malloc_block command_length;
  if is_null command then free_block quoted_argument ;; mret None else
  let text := program ++ lit " " ++ quoted ++ suffix in
  '(_, command) ← snprintf command command_length text;
  free_block quoted_argument ;;
  mret command.

Definition sys_popen (command : list byte) : M W (option Z) :=
  r ← os_call (os_popen command);
  match r with
  | inl h => modify (add_event (EvExec command)) ;; mret (Some h)
  | inr e => modify (add_event (EvNoExec command e)) ;; put_errno e ;; mret None
  end.

(** [fread] into a chunk and the [ferror] flag afterwards. *)
Definition sys_fread (h count : Z) : M W (list byte * bool) :=
  '(bs, error) ← os_call (os_fread h count);
  modify (add_event (EvPipe h (bs, error))) ;; mret (bs, error).

Definition sys_pclose (h : Z) : M W Z :=
  r ← os_call (os_pclose h);
  status ← int_result r;
  modify (add_event (EvReap h status)) ;;
  mret status.

(** The reading loop; every round but the last appends a full chunk, so the
    size limit bounds the rounds. *)
Definition wc_command_read_loop (fuel : nat) (pipe : Z) (output : wc_buffer)
    : M W (wc_buffer * bool * Z) :=
  iter fuel (λ output,
    '(chunk, error) ← sys_fread pipe WC_COMMAND_READ_SIZE;
    let bytes_read := zlen chunk in
    '(r, output) ←
      (if bytes_read >? 0 then
         by_ref (λ p, wc_buffer_append p (Some (bytes_block chunk)) bytes_read) output
       else mret (0, output));
    if r =? -1 then
      e ← get_errno;
      mret (Break (output, true, e))
    else if bytes_read <? WC_COMMAND_READ_SIZE then
      mret (Break (if (error : bool) then (output, true, EIO) else (output, false, 0)))
    else mret (Continue output)) output.

Definition wc_command_run (command : list byte) (max_result_size : Z)
    (result : wc_command_result) : M W (Z * wc_command_result) :=
  pipe ← sys_popen command;
  match pipe with
  | None => mret (-1, result)
  | Some pipe =>
    '(r, output) ← by_ref (λ p, wc_buffer_init p max_result_size) (WcBuffer None 0 0 0);
    if r =? -1 then
      saved_errno ← get_errno;
      _ ← sys_pclose pipe;
      put_errno saved_errno ;; mret (-1, result)
    else
      '(output, command_failed, failure_errno) ←
        wc_command_read_loop
          (Z.to_nat (max_result_size / WC_COMMAND_READ_SIZE) + 2) pipe output;
      child_status ← sys_pclose pipe;
      let child_failed :=
        (child_status =? -1) || negb (WIFEXITED child_status) ||
        negb (WEXITSTATUS child_status =? 0) in
      let failure_errno :=
        if child_failed && negb command_failed then EIO else failure_errno in
      let command_failed := child_failed || command_failed in
      if command_failed then
        _ ← wc_buffer_destroy (Some output);
        put_errno failure_errno ;; mret (-1, result)
      else mret (0, WcCommandResult (buf_data output) (buf_length output))
  end.

Definition wc_command_ls (argument : pointer) (argument_length max_result_size : Z)
    (result : option wc_command_result) : M W (Z * option wc_command_result) :=
  match result with
  | None => put_errno EINVAL ;; mret (-1, None)
  | Some _ =>
    let result := WcCommandResult None 0 in
    command ← wc_command_build (lit "ls -1 --") argument argument_length;
    if is_null command then mret (-1, Some result) else
    text ← read_cstring command;
    '(run_result, result) ← wc_command_run text max_result_size result;
    free_block command ;;
    mret (run_result, Some result)
  end.

Definition wc_command_pwd (max_result_size : Z)
    (result : option wc_command_result) : M W (Z * option wc_command_result) :=
  match result with
  | None => put_errno EINVAL ;; mret (-1, None)
  | Some _ =>
    let result := WcCommandResult None 0 in
    '(run_result, result) ←
      wc_command_run (lit "pwd 2>/dev/null") max_result_size result;
    if (run_result =? 0) && (cr_length result >? 0) then
      c ← load_byte (cr_data result) (cr_length result -ₛ 1);
      if decide (c = Byte.x0a) then
        mret (run_result, Some (WcCommandResult (cr_data result) (cr_length result -ₛ 1)))
      else mret (run_result, Some result)
    else mret (run_result, Some result)
  end.

Definition wc_command_cat (argument : pointer) (argument_length max_result_size : Z)
    (result : option wc_command_result) : M W (Z * option wc_command_result) :=
  match result with
  | None => put_errno EINVAL ;; mret (-1, None)
  | Some _ =>
    let result := WcCommandResult None 0 in
    if is_null argument || (argument_length =? 0) then
      put_errno EINVAL ;; mret (-1, Some result)
    else
      c ← load_byte argument 0;
      if negb (bool_decide (c = Byte.x2f)) then
        put_errno EINVAL ;; mret (-1, Some result)
      else
        command ← wc_command_build (lit "cat --") argument argument_length;
        if is_null command then mret (-1, Some result) else
        text ← read_cstring command;
        '(run_result, result) ← wc_command_run text max_result_size result;
        free_block command ;;
        mret (run_result, Some result)
  end.

Definition wc_command_result_destroy (result : option wc_command_result)
    : M W (option wc_command_result) :=
  match result with
  | None => mret None
  | Some result => free_block (cr_data result) ;; mret (Some (WcCommandResult None 0))
  end.

End commands.

Arguments store_char : simpl never.
Arguments read_cstring : simpl never.
Arguments sys_popen : simpl never.
Arguments sys_fread : simpl never.
Arguments sys_pclose : simpl never.
Arguments wc_command_quote_loop : simpl never.
Arguments wc_command_quote_argument : simpl never.
Arguments wc_command_build : simpl never.
Arguments wc_command_read_loop : simpl never.
Arguments wc_command_run : simpl never.
Arguments wc_command_ls : simpl never.
Arguments wc_command_pwd : simpl never.
Arguments wc_command_cat : simpl never.
Arguments wc_command_result_destroy : simpl never.

(** ** The quoted word and the shell's reading of it *)

Definition quote_byte (c : byte) : list byte :=
  if decide (c = quote_char) then [quote_char; backslash; quote_char; quote_char]
  else [c].

Definition shell_quote (bs : list byte) : list byte :=
  quote_char :: (bs ≫= quote_byte) ++ [quote_char].

(** Token recognition of the POSIX shell (Shell Command Language, section
    2.3) for a simple command with one redirection of descriptor 2: blanks
    separate words, single quotes and backslash quote, and every other
    character with a meaning to the shell is refused. The result is the list
    of words and the target of the redirection. *)
Inductive sh_state := Between | Word (w : list byte) | Quoted (w : list byte).

Definition sh_blank (c : byte) : bool :=
  bool_decide (c = Byte.x20) || bool_decide (c = Byte.x09).

(** The operators, expansions, patterns and reserved characters, the double
    quote and the newline. *)
Definition sh_special (c : byte) : bool :=
  bool_decide (c ∈ lit "|&;<>()$`*?[#~=%!{}" ++ [Byte.x22; Byte.x0a]).

Definition sh_redirect : list byte := lit "2>".

Fixpoint sh_lex (st : sh_state) (input : list byte) : option (list (list byte) * list byte) :=
  match input with
  | [] => match st with
          | Between => Some ([], [])
          | Word w => Some ([w], [])
          | Quoted _ => None
          end
  | c :: rest =>
    match st with
    | Between =>
      if sh_blank c then sh_lex Between rest
      else if bool_decide (take 2 input = sh_redirect) then Some ([], drop 2 input)
      else if bool_decide (c = quote_char) then sh_lex (Quoted []) rest
      else if bool_decide (c = backslash) then
        match rest with
        | d :: rest => sh_lex (Word [d]) rest
        | [] => None
        end
      else if sh_special c then None
      else sh_lex (Word [c]) rest
    | Word w =>
      if sh_blank c then '(ws, target) ← sh_lex Between rest; Some (w :: ws, target)
      else if bool_decide (c = quote_char) then sh_lex (Quoted w) rest
      else if bool_decide (c = backslash) then
        match rest with
        | d :: rest => sh_lex (Word (w ++ [d])) rest
        | [] => None
        end
      else if sh_special c then None
      else sh_lex (Word (w ++ [c])) rest
    | Quoted w =>
      if bool_decide (c = quote_char) then sh_lex (Word w) rest
      else sh_lex (Quoted (w ++ [c])) rest
    end
  end.

(** The words and redirection target of a command. *)
Definition sh_parse (command : list byte) : option (list (list byte) * list byte) :=
  sh_lex Between command.

Example sh_parse_plain :
  sh_parse (lit "ls -1 -- 'a b' 2>/dev/null") =
    Some ([lit "ls"; lit "-1"; lit "--"; lit "a b"], lit "/dev/null").
Proof. vm_compute. reflexivity. Qed.

Example sh_parse_injection : sh_parse (lit "ls -1 -- a; rm x 2>/dev/null") = None.
Proof. vm_compute. reflexivity. Qed.

(** Reading quoted bytes appends them to the word. *)
Lemma sh_lex_quoted bs w rest :
  sh_lex (Quoted w) ((bs ≫= quote_byte) ++ quote_char :: rest) =
    sh_lex (Word (w ++ bs)) rest.
Proof.
  revert w. induction bs as [|c bs IH]; intros w; simpl.
  { by rewrite app_nil_r. }
  unfold quote_byte at 1. case_decide as Hc.
  - subst c. simpl. by rewrite IH, <-app_assoc.
  - simpl. rewrite bool_decide_false by done. by rewrite IH, <-app_assoc.
Qed.

(** The quoted argument is one word, whatever bytes it has. *)
Lemma sh_lex_shell_quote bs rest :
  sh_lex Between (shell_quote bs ++ rest) = sh_lex (Word bs) rest.
Proof.
  unfold shell_quote. rewrite <-app_comm_cons, <-app_assoc. simpl.
  by rewrite sh_lex_quoted.
Qed.

Lemma length_quote_bytes bs : (length (bs ≫= quote_byte) ≤ 4 * length bs)%nat.
Proof.
  induction bs as [|c bs IH]; [done|]. rewrite bind_cons, length_app.
  assert (length (quote_byte c) ≤ 4)%nat by (unfold quote_byte; case_decide; simpl; lia).
  simpl length. lia.
Qed.

Lemma quote_bytes_no_nul bs : (NUL ∉ bs) → NUL ∉ (bs ≫= quote_byte).
Proof.
  induction bs as [|c bs IH]; [done|].
  intros [Hc Hbs]%not_elem_of_cons. rewrite bind_cons, not_elem_of_app.
  split; [|by apply IH]. unfold quote_byte. case_decide.
  - rewrite !not_elem_of_cons. split_and!; [done..|]. apply not_elem_of_nil.
  - by rewrite list_elem_of_singleton.
Qed.

Lemma shell_quote_no_nul bs : (NUL ∉ bs) → NUL ∉ shell_quote bs.
Proof.
  intros Hb. unfold shell_quote. rewrite not_elem_of_cons, not_elem_of_app.
  split; [done|]. split; [by apply quote_bytes_no_nul|].
  rewrite list_elem_of_singleton. done.
Qed.

Lemma cstring_terminated bs (rest : block) :
  (NUL ∉ bs) → cstring (bytes_block (bs ++ [NUL]) ++ rest) = Some bs.
Proof.
  unfold bytes_block. induction bs as [|c bs IH]; [done|].
  intros [Hc Hbs]%not_elem_of_cons. rewrite <-app_comm_cons, fmap_cons. simpl.
  rewrite decide_False by done. by rewrite IH.
Qed.

(** ** Specifications *)

(** A path argument the commands accept. *)
Record arg_ok (bs : list byte) : Prop := {
  arg_nonempty : bs ≠ [];
  arg_no_nul : NUL ∉ bs;
  arg_bound : zlen bs ≤ UINT16_MAX;
}.

Definition command_text (program bs : list byte) : list byte :=
  program ++ lit " " ++ shell_quote bs ++ suffix.

Section command_specs.
Context {W : Type} {OS : Posix W}.
Implicit Types (m : machine W) (t : bool).

(** A block of [n] bytes of which the first ones have been written. *)
Definition filling (n : nat) (bs : list byte) : pointer :=
  Some (bytes_block bs ++ replicate (n - length bs) None).

Lemma wp_store_char t n bs c (Q : pointer * Z → machine W → Prop) m :
  (length bs < n)%nat → Z.of_nat n ≤ SIZE_MAX →
  Q (filling n (bs ++ [c]), zlen (bs ++ [c])) m →
  wp t (store_char (filling n bs) (zlen bs) c) Q m.
Proof.
  intros Hn Hmax HQ. unfold store_char, filling. apply wp_bind.
  eapply wp_write_bytes; [done | lia | |].
  { rewrite Nat2Z.id. apply block_write_at; [done|]. rewrite length_replicate. simpl. lia. }
  wp_go. rewrite size_add_small by lia. rewrite drop_replicate. simpl length.
  unfold filling in HQ. rewrite length_app in HQ. simpl length in HQ.
  replace (zlen bs + 1) with (Z.of_nat (length bs + 1)) by lia.
  by rewrite <-Nat.sub_add_distr.
Qed.

(** The loop has copied the quoted form of the first [i] bytes. *)
Lemma quote_byte_step t n bs c (Q : pointer * Z → machine W → Prop) m :
  (length bs + 4 ≤ n)%nat → Z.of_nat n ≤ SIZE_MAX →
  Q (filling n (bs ++ quote_byte c), zlen (bs ++ quote_byte c)) m →
  wp t (if decide (c = quote_char) then
          '(quoted, output_index) ← store_char (filling n bs) (zlen bs) quote_char;
          '(quoted, output_index) ← store_char quoted output_index backslash;
          '(quoted, output_index) ← store_char quoted output_index quote_char;
          store_char quoted output_index quote_char
        else store_char (filling n bs) (zlen bs) c) Q m.
Proof.
  intros Hn Hmax HQ. unfold quote_byte in HQ. case_decide.
  - do 3 (wp_call wp_store_char; [len_lia | done |]).
    apply wp_store_char; [len_lia | done |]. by rewrite <-!app_assoc.
  - apply wp_store_char; [len_lia | done | done].
Qed.

Lemma wp_quote_loop t p bs n (Q : pointer * Z → machine W → Prop) m :
  points_to p bs → (4 * length bs + 1 ≤ n)%nat → Z.of_nat n ≤ SIZE_MAX →
  (let all := quote_char :: (bs ≫= quote_byte) in Q (filling n all, zlen all) m) →
  wp t (wc_command_quote_loop p (zlen bs) (filling n [quote_char]) 1) Q m.
Proof.
  intros Hp Hn Hmax HQ. unfold wc_command_quote_loop. rewrite Nat2Z.id.
  pose (pre (i : Z) := quote_char :: (take (Z.to_nat i) bs ≫= quote_byte)).
  assert (∀ i, length (pre i) ≤ 4 * Nat.min (Z.to_nat i) (length bs) + 1)%nat as Hpre.
  { intros i. unfold pre. pose proof (length_quote_bytes (take (Z.to_nat i) bs)) as Hq.
    rewrite length_take in Hq. simpl length. lia. }
  apply (wp_iter _ _ (λ '(i, q, out) m1, m1 = m ∧ 0 ≤ i ≤ zlen bs ∧
     q = filling n (pre i) ∧ out = zlen (pre i))
     (λ '(i, _, _) _, length bs - Z.to_nat i)%nat);
    [|by split_and!; [|lia..| |]|intros _; lia].
  intros [[i q] out] m1 (-> & Hi & -> & ->). case_if as Hlt; wp_go.
  2:{ replace i with (zlen bs) in * by lia. unfold pre in *.
      rewrite Nat2Z.id, firstn_all in *. exact HQ. }
  assert (Z.to_nat i < length bs)%nat as Hlt' by lia.
  destruct (lookup_lt_is_Some_2 bs (Z.to_nat i) Hlt') as [c Hc].
  destruct p as [b|]; simpl in Hp; [|by subst].
  eapply wp_load_byte; [done | done | lia | done |]. cbn beta. apply wp_bind.
  pose proof (Hpre i). apply quote_byte_step; [lia | done |]. wp_go.
  rewrite size_add_small by lia.
  assert (pre (i + 1) = pre i ++ quote_byte c) as <-.
  { unfold pre. rewrite Z2Nat.inj_add by lia. change (Z.to_nat 1) with 1%nat.
    rewrite Nat.add_1_r, (take_S_r _ _ _ Hc), bind_app. simpl. by rewrite app_nil_r. }
  split; [|intros _; lia]. split_and!; [done | lia..| done | done].
Qed.

Lemma quote_argument_spec t p bs (Q : pointer → machine W → Prop) m :
  points_to p bs → zlen bs ≤ UINT16_MAX →
  (¬ arg_ok bs → Q None (set_errno EINVAL m)) →
  (arg_ok bs → ∀ q m', silent m m' → m_errno m' = m_errno m →
     m_live m' = m_live m + 1 → cstring q = Some (shell_quote bs) → Q (Some q) m') →
  (arg_ok bs → ∀ m', silent m m' → m_errno m' = ENOMEM → m_live m' = m_live m →
     Q None m') →
  wp t (wc_command_quote_argument p (zlen bs)) Q m.
Proof.
  intros Hp Hlen Hbad Hok Hmem. unfold wc_command_quote_argument, UINT16_MAX in *.
  destruct (is_null p || (zlen bs =? 0)) eqn:Hz.
  { wp_go. apply Hbad. intros [Hne _ _]. apply Hne. bool_to_prop.
    destruct Hz as [Hz|Hz]; [by destruct p|bool_to_prop; by apply zlen_nil_inv]. }
  bool_to_prop. apply wp_bind, wp_read_points_to; [done..|].
  case_decide as Hnul.
  { wp_go. apply Hbad. by intros []. }
  assert (arg_ok bs) as Harg by (constructor; [by intros -> | done..]).
  specialize (Hok Harg). specialize (Hmem Harg).
  assert ((zlen bs >? (SIZE_MAX - 3) / 4) = false) as ->.
  { rewrite Z.gtb_ltb. apply Z.ltb_ge. etrans; [exact Hlen | by vm_compute]. }
  set (n := (4 * length bs + 3)%nat).
  rewrite size_mul_small by (unfold SIZE_MAX; lia).
  rewrite size_add_small by (unfold SIZE_MAX; lia).
  apply wp_bind. replace (zlen bs * 4 + 3) with (Z.of_nat n) by lia.
  apply wp_malloc_block; intros m' Hs Hl He; simpl is_null; cbn iota; [|by wp_go; apply Hmem].
  replace (Some (replicate (Z.to_nat (Z.of_nat n)) None)) with (filling n [])
    by (unfold filling; simpl; by rewrite Nat2Z.id, Nat.sub_0_r).
  assert (Z.of_nat n ≤ SIZE_MAX) as Hn by (unfold SIZE_MAX; lia).
  pose proof (length_quote_bytes bs) as Hq.
  wp_call (wp_store_char t n []); [simpl; lia | done |]. simpl app.
  wp_call wp_quote_loop; [done | lia | done |]. cbn zeta.
  wp_call wp_store_char; [simpl; lia | done |].
  eapply wp_write_bytes; [done | lia | |].
  { rewrite Nat2Z.id. apply block_write_at; [done|]. len_lia. }
  apply Hok; [done..|]. apply (cstring_terminated (shell_quote bs)).
  by apply shell_quote_no_nul, Harg.
Qed.

Lemma wp_read_cstring t b bs (Q : list byte → machine W → Prop) m :
  cstring b = Some bs → Q bs m → wp t (read_cstring (Some b)) Q m.
Proof. intros Hb HQ. unfold read_cstring. by wp_go. Qed.

Lemma length_shell_quote bs : (length (shell_quote bs) ≤ 4 * length bs + 2)%nat.
Proof.
  unfold shell_quote. pose proof (length_quote_bytes bs). simpl. rewrite length_app.
  simpl. lia.
Qed.

Lemma build_spec t program p bs (Q : pointer → machine W → Prop) m :
  points_to p bs → zlen bs ≤ UINT16_MAX → zlen program ≤ 64 → (NUL ∉ program) →
  (¬ arg_ok bs → Q None (set_errno EINVAL m)) →
  (arg_ok bs → ∀ c m', silent m m' → m_errno m' = m_errno m →
     m_live m' = m_live m + 1 → cstring c = Some (command_text program bs) →
     Q (Some c) m') →
  (arg_ok bs → ∀ m', silent m m' → m_errno m' = ENOMEM → m_live m' = m_live m →
     Q None m') →
  wp t (wc_command_build program p (zlen bs)) Q m.
Proof.
  intros Hp Hlen Hprog Hnul Hbad Hok Hmem. unfold wc_command_build. apply wp_bind.
  apply quote_argument_spec; [done..| | |].
  { intros Hno. simpl. wp_go. by apply Hbad. }
  2:{ intros Harg m' ???. simpl. wp_go. by apply Hmem. }
  intros Harg q m1 Hs1 He1 Hl1 Hq. simpl is_null. cbn iota. apply wp_bind.
  eapply wp_read_cstring; [done|]. pose proof (length_shell_quote bs) as Hsq.
  assert (zlen suffix = 12) as Hsuf by done. unfold UINT16_MAX in Hlen.
  rewrite (size_add_small (zlen program) 1) by (unfold SIZE_MAX; lia).
  rewrite (size_add_small (zlen program + 1)) by (unfold SIZE_MAX; lia).
  rewrite size_add_small by (unfold SIZE_MAX; lia).
  set (text := command_text program bs).
  assert (zlen text = zlen program + 1 + zlen (shell_quote bs) + 12) as Htext.
  { unfold text, command_text. rewrite !zlen_app. change (zlen (lit " ")) with 1. lia. }
  replace (zlen program + 1 + zlen (shell_quote bs) + (zlen suffix + 1))
    with (zlen text + 1) by lia.
  apply wp_bind, wp_malloc_block; intros m2 Hs2 Hl2 He2; simpl is_null; cbn iota.
  2:{ apply wp_bind, wp_free_block. intros m3 ? Hl3 ?. wp_go.
      unfold owned in Hl3; simpl in Hl3. apply Hmem; side; congruence. }
  change (program ++ _) with text.
  apply wp_bind, wp_snprintf; [lia| |unfold INT_MAX; intros; lia]. intros _ rest.
  rewrite take_ge by lia. cbn beta iota.
  apply wp_bind, wp_free_block. intros m3 ? Hl3 ?. wp_go.
  unfold owned in Hl3; simpl in Hl3. apply Hok; side.
  apply cstring_terminated. unfold text, command_text. rewrite !not_elem_of_app.
  split_and!; [done | | by apply shell_quote_no_nul, Harg | ];
    by apply (bool_decide_eq_true_1 _); vm_compute.
Qed.

(** *** The child process *)

(** What running [command] on stream [h] adds to the trace: the reads from the
    stream and the status of the child. *)
Definition child_events (command : list byte) (h : Z) (reads : list (list byte * bool))
    (status : Z) : list event :=
  EvExec command :: (EvPipe h <$> reads) ++ [EvReap h status].

(** The bytes that were read. *)
Definition output_of (reads : list (list byte * bool)) : list byte := mjoin (reads.*1).

(** The reads reached the end of the stream: the last one returned less than it
    asked for, without an error, and only the last one. *)
Definition read_to_end (reads : list (list byte * bool)) : Prop :=
  ∃ full rest, reads = full ++ [(rest, false)] ∧
    Forall (λ r, zlen r.1 = WC_COMMAND_READ_SIZE) full ∧ zlen rest < WC_COMMAND_READ_SIZE.

(** The child exited, with status 0. *)
Definition child_succeeded (status : Z) : Prop :=
  status ≠ -1 ∧ WIFEXITED status = true ∧ WEXITSTATUS status = 0.

(** Why a started command fails: too much output, no memory, or a read error or
    a child that did not succeed. *)
Definition run_failed (max : Z) (reads : list (list byte * bool)) (status e : Z) : Prop :=
  (e = EMSGSIZE ∧ max < zlen (output_of reads)) ∨
  (zlen (output_of reads) ≤ max ∧
   (e = ENOMEM ∨ (e = EIO ∧ ¬ (read_to_end reads ∧ child_succeeded status)))).

(** When it succeeds. *)
Definition run_succeeded (max : Z) (reads : list (list byte * bool)) (status : Z) : Prop :=
  zlen (output_of reads) ≤ max ∧ read_to_end reads ∧ child_succeeded status.

Lemma output_of_snoc reads bs e : output_of (reads ++ [(bs, e)]) = output_of reads ++ bs.
Proof. unfold output_of. rewrite fmap_app, join_app. simpl. by rewrite app_nil_r. Qed.

Lemma read_to_end_snoc reads bs e :
  read_to_end (reads ++ [(bs, e)]) → e = false.
Proof. intros (full & rest & Heq & _). by apply app_inj_tail in Heq as [_ [= _ ->]]. Qed.

(** The frame of a command: memory other than the count of blocks, the
    descriptors and the logging level are unchanged. *)
Record cmd_frame m m' : Prop := {
  cmd_kept : kept m m';
  cmd_open : m_open m' = m_open m;
  cmd_stderr : m_stderr m' = m_stderr m;
}.

#[global] Instance cmd_frame_preorder : PreOrder cmd_frame.
Proof.
  split; [by intros m; constructor|].
  intros m1 m2 m3 [] []. constructor; try congruence. by etrans.
Qed.

Lemma silent_cmd_frame m m' : silent m m' → cmd_frame m m'.
Proof. intros Hs. constructor; [by apply silent_kept | apply Hs..]. Qed.

Lemma errno_cmd_frame m e : cmd_frame m (set_errno e m).
Proof. by repeat constructor. Qed.

Context `{!PosixLaws W}.

Lemma wp_sys_popen t command (Q : option Z → machine W → Prop) m :
  (∀ h m', cmd_frame m m' → m_live m' = m_live m →
     m_trace m' = m_trace m ++ [EvExec command] → Q (Some h) m') →
  (∀ m', cmd_frame m m' → m_live m' = m_live m →
     m_trace m' = m_trace m ++ [EvNoExec command (m_errno m')] → Q None m') →
  wp t (sys_popen command) Q m.
Proof.
  intros Hok Hfail. unfold sys_popen. apply wp_bind, wp_os_call. intros r w Hw.
  assert (os_mono (m_os m) w) as Hm by (eapply os_mono_quiet, Hw; constructor).
  destruct r; wp_go; [apply Hok | apply Hfail]; by repeat constructor.
Qed.

Lemma wp_sys_fread t h count (Q : list byte * bool → machine W → Prop) m :
  0 ≤ count →
  (∀ bs e m', zlen bs ≤ count → cmd_frame m m' → m_live m' = m_live m →
     m_trace m' = m_trace m ++ [EvPipe h (bs, e)] → Q (bs, e) m') →
  wp t (sys_fread h count) Q m.
Proof.
  intros Hc HQ. unfold sys_fread. apply wp_bind, wp_os_call. intros [bs e] w Hw.
  assert (os_mono (m_os m) w) as Hm by (eapply os_mono_quiet, Hw; constructor).
  wp_go. apply HQ; try by repeat constructor. by eapply os_fread_bound.
Qed.

Lemma wp_sys_pclose t h (Q : Z → machine W → Prop) m :
  (∀ r m', cmd_frame m m' → m_live m' = m_live m →
     m_trace m' = m_trace m ++ [EvReap h r] → Q r m') →
  wp t (sys_pclose h) Q m.
Proof.
  intros HQ. unfold sys_pclose. apply wp_bind, wp_os_call. intros r w Hw.
  assert (os_mono (m_os m) w) as Hm by (eapply os_mono_quiet, Hw; constructor).
  wp_go. apply wp_int_result; intros; wp_go; apply HQ; by repeat constructor.
Qed.

(** The chunks read so far are full and in the output buffer. *)
Definition reading (m0 : machine W) (command : list byte) (h max : Z)
    (output : wc_buffer) m : Prop :=
  ∃ reads, buffer_repr output (output_of reads) ∧ buf_max_size output = max ∧
    cmd_frame m0 m ∧ m_live m = m_live m0 + buf_owned output ∧
    m_trace m = m_trace m0 ++ EvExec command :: (EvPipe h <$> reads) ∧
    Forall (λ r, zlen r.1 = WC_COMMAND_READ_SIZE) reads.

(** How the reading loop ends. *)
Definition read_done (m0 : machine W) (command : list byte) (h max : Z)
    (r : wc_buffer * bool * Z) m : Prop :=
  let '(output, failed, e) := r in
  ∃ reads bs, buffer_repr output bs ∧ buf_max_size output = max ∧
    cmd_frame m0 m ∧ m_live m = m_live m0 + buf_owned output ∧
    m_trace m = m_trace m0 ++ EvExec command :: (EvPipe h <$> reads) ∧
    if (failed : bool) then
      (e = EMSGSIZE ∧ max < zlen (output_of reads)) ∨
      (zlen (output_of reads) ≤ max ∧ (e = ENOMEM ∨ (e = EIO ∧ ¬ read_to_end reads)))
    else bs = output_of reads ∧ zlen bs ≤ max ∧ read_to_end reads.

Lemma reading_step m0 command h max output m r m' :
  reading m0 command h max output m → cmd_frame m m' → m_live m' = m_live m →
  m_trace m' = m_trace m ++ [EvPipe h r] →
  ∃ reads, buffer_repr output (output_of reads) ∧ buf_max_size output = max ∧
    cmd_frame m0 m' ∧ m_live m' = m_live m0 + buf_owned output ∧
    m_trace m' = m_trace m0 ++ EvExec command :: (EvPipe h <$> (reads ++ [r])) ∧
    Forall (λ r, zlen r.1 = WC_COMMAND_READ_SIZE) reads.
Proof.
  intros (reads & Hb & Hmax & Hf & Hl & Ht & Hfull) Hf' Hl' Ht'. exists reads.
  split_and!; [done | done | by etrans | congruence | | done].
  rewrite Ht', Ht, fmap_app, <-app_assoc. done.
Qed.

(** A full chunk leaves room for one chunk less. *)
Lemma chunks_left_decrease max len :
  0 ≤ len → len + 4096 ≤ max →
  (Z.to_nat ((max - (len + 4096)) / 4096) < Z.to_nat ((max - len) / 4096))%nat.
Proof.
  intros Hl Hm. replace (max - (len + 4096)) with (max - len + (-1) * 4096) by lia.
  rewrite Z.div_add by lia.
  pose proof (Z.div_le_lower_bound (max - len) 4096 1 ltac:(lia) ltac:(lia)). lia.
Qed.

(** The chunk goes to the buffer, if there is one. *)
Lemma keep_chunk_spec t output bs chunk (Q : Z * wc_buffer → machine W → Prop) m :
  buffer_repr output bs →
  (zlen chunk ≤ buf_max_size output - zlen bs → ∀ b' m', silent m m' →
     m_live m' = m_live m + buf_owned b' - buf_owned output →
     buffer_repr b' (bs ++ chunk) → buf_max_size b' = buf_max_size output → Q (0, b') m') →
  (buf_max_size output - zlen bs < zlen chunk → Q (-1, output) (set_errno EMSGSIZE m)) →
  (zlen chunk ≤ buf_max_size output - zlen bs → ∀ m', silent m m' → m_errno m' = ENOMEM →
     m_live m' = m_live m → Q (-1, output) m') →
  wp t (if zlen chunk >? 0
        then by_ref (λ p, wc_buffer_append p (Some (bytes_block chunk)) (zlen chunk)) output
        else mret (0, output)) Q m.
Proof.
  intros Hb Hok Hbig Hmem. pose proof Hb as [Hsz Hlen Hfit Hcap _].
  destruct (zlen chunk >? 0) eqn:Hpos; bool_to_prop.
  - wp_go. eapply wc_buffer_append_spec; [done | apply points_to_bytes | | |].
    + intros Hle b' m' Hs He Hl Hb' Hm'. wp_go. by apply Hok.
    + intros Hlt. wp_go. by apply Hbig.
    + intros Hle m' Hs He Hl. wp_go. apply Hmem; [lia | done..].
  - assert (chunk = []) as -> by (apply zlen_nil_inv; lia). wp_go.
    apply Hok; rewrite ?app_nil_r; try done; simpl; lia.
Qed.

Lemma read_loop_spec t m0 command h max output (Q : wc_buffer * bool * Z → machine W → Prop) m :
  0 ≤ max → reading m0 command h max output m →
  (∀ r m', read_done m0 command h max r m' → Q r m') →
  wp t (wc_command_read_loop (Z.to_nat (max / WC_COMMAND_READ_SIZE) + 2) h output) Q m.
Proof.
  intros Hmax HI HQ. unfold wc_command_read_loop.
  apply (wp_iter _ _ (reading m0 command h max)
           (λ output _, Z.to_nat ((max - buf_length output) / 4096))); [|done|].
  2:{ intros _. destruct HI as (reads & Hb & <- & _).
      pose proof (br_length _ _ Hb) as ->. unfold WC_COMMAND_READ_SIZE.
      pose proof (Z.div_le_mono (buf_max_size output - zlen (output_of reads))
        (buf_max_size output) 4096). lia. }
  clear output m HI. intros output m HI. wp_call wp_sys_fread; [done|].
  intros bs e m1 Hbs Hf Hl Ht.
  destruct (reading_step _ _ _ _ _ _ _ _ HI Hf Hl Ht) as (reads & Hb & Hm & Hf1 & Hl1 & Ht1 & Hfull).
  pose proof Hb as [Hsz Hlen Hfit Hcap _]. pose proof (output_of_snoc reads bs e) as Hj.
  apply wp_bind. eapply keep_chunk_spec; [exact Hb|..].
  - intros Hle b' m2 Hs2 Hl2 Hb' Hm'. simpl. pose proof (silent_trace _ _ Hs2) as Hst.
    assert (cmd_frame m0 m2) by (etrans; [done | by apply silent_cmd_frame]).
    rewrite <-Hj in Hb'. case_if as Hlt; wp_go.
    + apply HQ. assert (zlen (output_of (reads ++ [(bs, e)])) ≤ max) by (rewrite Hj, zlen_app; lia).
      destruct e;
        [exists (reads ++ [(bs, true)]), (output_of (reads ++ [(bs, true)])) |
         exists (reads ++ [(bs, false)]), (output_of (reads ++ [(bs, false)]))];
        split_and!; try done; try congruence; try lia.
      * right. split; [done|]. right. split; [done|]. by intros ?%read_to_end_snoc.
      * by exists reads, bs.
    + assert (zlen bs = WC_COMMAND_READ_SIZE) as Hchunk by lia.
      split; [|intros _; rewrite (br_length _ _ Hb'), Hlen, Hj, zlen_app, Hchunk;
               unfold WC_COMMAND_READ_SIZE in *; apply chunks_left_decrease; lia].
      exists (reads ++ [(bs, e)]). split_and!; try done; try congruence; try lia.
      apply Forall_app. by split; [|constructor].
  - intros Hbig. simpl. wp_go. apply HQ. exists (reads ++ [(bs, e)]), (output_of reads).
    split_and!; try done; [etrans; [done | apply errno_cmd_frame]|].
    left. split; [done|]. rewrite Hj, zlen_app. lia.
  - intros Hle m2 Hs2 He2 Hl2. simpl. wp_go. apply HQ.
    exists (reads ++ [(bs, e)]), (output_of reads). pose proof (silent_trace _ _ Hs2) as Hst.
    split_and!; try done; try congruence; try lia.
    + etrans; [done | by apply silent_cmd_frame].
    + right. split; [rewrite Hj, zlen_app; lia | by left].
Qed.

(** The test on the status that pclose() returns. *)
Lemma child_status_test status :
  (status =? -1) || negb (WIFEXITED status) || negb (WEXITSTATUS status =? 0) = false ↔
  child_succeeded status.
Proof.
  unfold child_succeeded. rewrite !orb_false_iff, !negb_false_iff, Z.eqb_neq, Z.eqb_eq. tauto.
Qed.

Lemma run_spec t command max result (Q : Z * wc_command_result → machine W → Prop) m :
  is_size max →
  (∀ m', cmd_frame m m' → m_live m' = m_live m →
     m_trace m' = m_trace m ++ [EvNoExec command (m_errno m')] → Q (-1, result) m') →
  (∀ h reads status m', cmd_frame m m' → m_live m' = m_live m →
     m_trace m' = m_trace m ++ child_events command h reads status →
     run_failed max reads status (m_errno m') → Q (-1, result) m') →
  (∀ h reads status data m', cmd_frame m m' →
     m_trace m' = m_trace m ++ child_events command h reads status →
     run_succeeded max reads status → points_to data (output_of reads) →
     m_live m' = m_live m + owned data →
     Q (0, WcCommandResult data (zlen (output_of reads))) m') →
  wp t (wc_command_run command max result) Q m.
Proof.
  intros Hmax Hnone Hfail Hok. unfold wc_command_run. wp_call wp_sys_popen; [|].
  2:{ intros m1 ???. wp_go. by apply Hnone. }
  intros h m1 Hf1 Hl1 Ht1. wp_go.
  apply wc_buffer_init_spec; [done|]. intros output Hb Hbm Hbo. wp_go. simpl.
  apply wp_bind. eapply (read_loop_spec _ m command h max); [apply Hmax| |].
  { exists []. split_and!; try done; lia. }
  intros [[out failed] e] m2 (reads & bs & Hb2 & Hm2 & Hf2 & Hl2 & Ht2 & Hend).
  wp_call wp_sys_pclose. intros status m3 Hf3 Hl3 Ht3.
  assert (cmd_frame m m3) as Hf by (by etrans).
  assert (m_trace m3 = m_trace m ++ child_events command h reads status) as Ht.
  { rewrite Ht3, Ht2, <-app_assoc. done. }
  pose proof (child_status_test status) as Htest. set (bad := (status =? -1) || _ || _) in *.
  destruct (bad || failed) eqn:Hbad.
  - apply wp_bind, wc_buffer_destroy_spec. intros m4 Hs4 He4 Hl4. wp_go.
    pose proof (silent_trace _ _ Hs4) as Hst.
    eapply Hfail.
    + etrans; [done|]. etrans; [by apply silent_cmd_frame | apply errno_cmd_frame].
    + simpl. lia.
    + simpl. by rewrite Hst.
    + simpl. destruct failed; [rewrite andb_false_r; unfold run_failed; naive_solver|].
      rewrite orb_false_r in Hbad. rewrite Hbad. simpl. right. destruct Hend as (-> & ? & ?).
      split; [done|]. right. split; [done|]. intros [_ Hc]. apply Htest in Hc. congruence.
  - apply orb_false_iff in Hbad as [Hgood ->]. wp_go. destruct Hend as (-> & Hle & Heof).
    rewrite (br_length _ _ Hb2). eapply Hok; try done.
    + split_and!; [done | done | by apply Htest].
    + unfold points_to. pose proof Hb2 as [_ _ Hfit _ Hd]. destruct (buf_data out) as [blk|].
      * by destruct Hd as (_ & _ & ?).
      * apply zlen_nil_inv. lia.
    + unfold buf_owned in *. lia.
Qed.

(** A command fails with [e]: EINVAL and no child for an argument that is not
    [valid]; for a valid one, ENOMEM before a child is started, the error of
    popen(), or the failure of the child. *)
Definition cmd_failed (valid : Prop) (command : list byte) (max : Z) (tr : list event)
    (e : Z) (tr' : list event) : Prop :=
  (¬ valid ∧ tr' = tr ∧ e = EINVAL) ∨
  (valid ∧ ((tr' = tr ∧ e = ENOMEM) ∨ tr' = tr ++ [EvNoExec command e] ∨
     ∃ h reads status, tr' = tr ++ child_events command h reads status ∧
       run_failed max reads status e)).

(** The outcome of a command: either -1 and an empty result, or 0 and an owned
    block with the whole output of a child that succeeded, after [trim]. *)
Definition cmd_post (valid : Prop) (command : list byte) (max : Z)
    (trim : list byte → list byte) m (res : Z * option wc_command_result) m' : Prop :=
  cmd_frame m m' ∧
  ((res = (-1, Some (WcCommandResult None 0)) ∧ m_live m' = m_live m ∧
    cmd_failed valid command max (m_trace m) (m_errno m') (m_trace m')) ∨
   (valid ∧ ∃ h reads status data,
      res = (0, Some (WcCommandResult data (zlen (trim (output_of reads))))) ∧
      m_trace m' = m_trace m ++ child_events command h reads status ∧
      run_succeeded max reads status ∧ points_to data (trim (output_of reads)) ∧
      m_live m' = m_live m + owned data)).

(** The part [ls] and [cat] share: build, run, free. *)
Lemma build_run_spec t (valid : Prop) program p bs max
    (Q : Z * option wc_command_result → machine W → Prop) m :
  points_to p bs → zlen bs ≤ UINT16_MAX → is_size max →
  zlen program ≤ 64 → (NUL ∉ program) → (valid ↔ arg_ok bs) →
  (∀ res m', cmd_post valid (command_text program bs) max id m res m' → Q res m') →
  wp t (command ← wc_command_build program p (zlen bs);
        if is_null command then mret (-1, Some (WcCommandResult None 0)) else
        text ← read_cstring command;
        '(run_result, result) ← wc_command_run text max (WcCommandResult None 0);
        free_block command ;;
        mret (run_result, Some result)) Q m.
Proof.
  intros Hp Hlen Hmax Hprog Hnul Hvalid HQ. apply wp_bind.
  apply build_spec; [done..| | |].
  { intros Hno. simpl. wp_go. apply HQ. split; [apply errno_cmd_frame|]. left.
    split_and!; [done..|]. left. naive_solver. }
  2:{ intros Harg m1 Hs1 He1 Hl1. simpl. wp_go. apply HQ.
      split; [by apply silent_cmd_frame|]. left. split_and!; [done..|]. right.
      split; [by apply Hvalid|]. left. split; [apply Hs1 | done]. }
  intros Harg c m1 Hs1 He1 Hl1 Hc. simpl. apply wp_bind.
  eapply wp_read_cstring; [done|]. apply wp_bind.
  pose proof (silent_trace _ _ Hs1) as Ht1. apply silent_cmd_frame in Hs1.
  apply Hvalid in Harg as Hval.
  apply run_spec; [done|..].
  - intros m2 Hf2 Hl2 Ht2. wp_go. apply wp_free_block. intros m3 Hs3 Hl3 He3. wp_go.
    apply HQ. split; [etrans; [done|]; etrans; [done | by apply silent_cmd_frame]|].
    left. unfold owned in Hl3; simpl in Hl3. pose proof (silent_trace _ _ Hs3).
    split_and!; [done | lia |]. right. split; [done|]. right. left. congruence.
  - intros h reads status m2 Hf2 Hl2 Ht2 Hbad. wp_go. apply wp_free_block.
    intros m3 Hs3 Hl3 He3. wp_go.
    apply HQ. split; [etrans; [done|]; etrans; [done | by apply silent_cmd_frame]|].
    left. unfold owned in Hl3; simpl in Hl3. pose proof (silent_trace _ _ Hs3).
    split_and!; [done | lia |]. right. split; [done|]. right. right.
    exists h, reads, status. rewrite He3. split; [congruence | done].
  - intros h reads status data m2 Hf2 Ht2 Hgood Hd Hl2. wp_go. apply wp_free_block.
    intros m3 Hs3 Hl3 He3. wp_go.
    apply HQ. split; [etrans; [done|]; etrans; [done | by apply silent_cmd_frame]|].
    right. split; [done|]. exists h, reads, status, data.
    unfold owned in Hl3; simpl in Hl3. pose proof (silent_trace _ _ Hs3).
    split_and!; [done | congruence | done | done | unfold owned in *; lia].
Qed.

Lemma ls_spec t p bs max result (Q : Z * option wc_command_result → machine W → Prop) m :
  points_to p bs → zlen bs ≤ UINT16_MAX → is_size max →
  (∀ res m', cmd_post (arg_ok bs) (command_text (lit "ls -1 --") bs) max id m res m' →
     Q res m') →
  wp t (wc_command_ls p (zlen bs) max (Some result)) Q m.
Proof.
  intros Hp Hlen Hmax HQ. unfold wc_command_ls.
  by apply (build_run_spec _ (arg_ok bs) _ _ _ _ _ _ Hp);
    [..|by apply (bool_decide_eq_true_1 _); vm_compute| |].
Qed.

(** The argument of [cat] is an absolute path. *)
Definition cat_ok (bs : list byte) : Prop := arg_ok bs ∧ head bs = Some Byte.x2f.

Lemma cat_spec t p bs max result (Q : Z * option wc_command_result → machine W → Prop) m :
  points_to p bs → zlen bs ≤ UINT16_MAX → is_size max →
  (∀ res m', cmd_post (cat_ok bs) (command_text (lit "cat --") bs) max id m res m' →
     Q res m') →
  wp t (wc_command_cat p (zlen bs) max (Some result)) Q m.
Proof.
  intros Hp Hlen Hmax HQ. unfold wc_command_cat.
  assert (∀ Q', (¬ cat_ok bs → Q' (-1, Some (WcCommandResult None 0)) (set_errno EINVAL m)) →
    ¬ cat_ok bs → wp t (put_errno EINVAL ;; mret (-1, Some (WcCommandResult None 0))) Q' m)
    as Hinval by (intros Q' HQ' Hno; wp_go; by apply HQ').
  assert (¬ cat_ok bs → Q (-1, Some (WcCommandResult None 0)) (set_errno EINVAL m)) as Hbad.
  { intros Hno. apply HQ. split; [apply errno_cmd_frame|]. left. split_and!; [done..|]. by left. }
  destruct (is_null p || (zlen bs =? 0)) eqn:Hz.
  { apply Hinval; [done|]. intros [[Hne _ _] _]. apply Hne. bool_to_prop.
    destruct Hz as [Hz|Hz]; [by destruct p|bool_to_prop; by apply zlen_nil_inv]. }
  bool_to_prop. destruct p as [b|]; [|done]. destruct bs as [|c bs]; [done|].
  apply wp_bind. eapply wp_load_byte; [done | exact Hp | lia | done |].
  case_bool_decide as Hc; simpl negb; cbn iota.
  - apply (build_run_spec _ (cat_ok (c :: bs)) _ _ _ _ _ _ Hp); try done.
    + by apply (bool_decide_eq_true_1 _); vm_compute.
    + unfold cat_ok. simpl. naive_solver.
  - apply Hinval; [done|]. intros [_ Hh]. simpl in Hh. naive_solver.
Qed.

(** One trailing newline is dropped. *)
Definition trim_newline (bs : list byte) : list byte :=
  if decide (last bs = Some Byte.x0a) then take (length bs - 1) bs else bs.

Lemma pwd_spec t max result (Q : Z * option wc_command_result → machine W → Prop) m :
  is_size max →
  (∀ res m', cmd_post True (lit "pwd 2>/dev/null") max trim_newline m res m' →
     Q res m') →
  wp t (wc_command_pwd max (Some result)) Q m.
Proof.
  intros Hmax HQ. unfold wc_command_pwd. apply wp_bind. apply run_spec; [done|..].
  - intros m1 Hf Hl Ht. simpl. wp_go. apply HQ. split; [done|]. left.
    split_and!; [done..|]. right. auto.
  - intros h reads status m1 Hf Hl Ht Hbad. simpl. wp_go. apply HQ. split; [done|]. left.
    split_and!; [done..|]. right. split; [done|]. right. right. eauto.
  - intros h reads status data m1 Hf Ht Hgood Hd Hl. unfold is_size in Hmax.
    pose proof Hgood as [Hle _].
    assert (∀ out, out = trim_newline (output_of reads) → points_to data out →
      Q (0, Some (WcCommandResult data (zlen out))) m1) as Hdone.
    { intros out -> Hout. apply HQ. split; [done|]. right. split; [done|]. eauto 10. }
    unfold trim_newline in Hdone. set (out := output_of reads) in *. simpl.
    case_if as Hpos; [|wp_go; apply Hdone; [|done]].
    2:{ assert (out = []) as -> by (apply zlen_nil_inv; lia). done. }
    apply wp_bind. rewrite size_sub_small by lia.
    destruct (last out) as [c|] eqn:Hlast; [|apply last_None in Hlast; by rewrite Hlast in Hpos].
    rewrite last_lookup in Hlast.
    destruct data as [b|]; [|simpl in Hd; by rewrite Hd in Hpos].
    eapply wp_load_byte; [done | exact Hd | lia | |].
    { replace (Z.to_nat (zlen out - 1)) with (pred (length out)) by lia. exact Hlast. }
    destruct (decide (c = Byte.x0a)) as [Hc|Hc]; wp_go.
    + replace (zlen out - 1) with (zlen (take (length out - 1) out)) by len_lia.
      apply Hdone; [by rewrite decide_True by congruence|].
      eapply points_to_app_l. by rewrite (take_drop (length out - 1) out).
    + apply Hdone; [by rewrite decide_False by congruence | done].
Qed.

Lemma result_destroy_spec t result (Q : option wc_command_result → machine W → Prop) m :
  (∀ m', silent m m' → m_errno m' = m_errno m →
     m_live m' = m_live m - owned (cr_data result) →
     Q (Some (WcCommandResult None 0)) m') →
  wp t (wc_command_result_destroy (Some result)) Q m.
Proof.
  intros HQ. unfold wc_command_result_destroy. apply wp_bind, wp_free_block.
  intros m' ???. wp_go. by apply HQ.
Qed.

End command_specs.

(** ** Properties *)

(** The two programs and the words the shell sees for them. *)
Definition programs : list (list byte * list (list byte)) :=
  [(lit "ls -1 --", [lit "ls"; lit "-1"; lit "--"]);
   (lit "cat --", [lit "cat"; lit "--"])].

Lemma program_words program words bs :
  (program, words) ∈ programs →
  sh_parse (command_text program bs) = Some (words ++ [bs], lit "/dev/null") ∧
  zlen program ≤ 64 ∧ NUL ∉ program.
Proof.
  intros Hin. unfold programs in Hin. unfold sh_parse, command_text.
  assert (sh_lex (Word bs) suffix = Some ([bs], lit "/dev/null")) as Hsuf by reflexivity.
  rewrite <-sh_lex_shell_quote in Hsuf. revert Hsuf.
  generalize (shell_quote bs ++ suffix) as rest. intros rest Hrest.
  apply elem_of_cons in Hin as [[= -> ->]|[= -> ->]%list_elem_of_singleton];
    (split; [simpl; by rewrite Hrest|]);
    (split; [done | by apply (bool_decide_eq_true_1 _); vm_compute]).
Qed.

Section properties.
Context {W : Type} {OS : Posix W}.
Implicit Types (m : machine W).

(** C12: no argument can inject shell syntax. For every byte string a client can
    send, [wc_command_build] either refuses it with EINVAL (empty, or with a
    NUL byte), runs out of memory, or returns a command line that a POSIX
    shell splits into exactly the program's own words followed by the argument
    as one word, byte for byte, with standard error sent to /dev/null. It
    writes only inside the blocks it allocated and leaves one of them live. *)
Theorem wc_command_build_one_word program words p bs m :
  (program, words) ∈ programs → points_to p bs → zlen bs ≤ UINT16_MAX →
  ∃ c m', wc_command_build program p (zlen bs) m = Ret c m' ∧ silent m m' ∧
    m_live m' = m_live m + owned c ∧
    match c with
    | Some c => bs ≠ [] ∧ (NUL ∉ bs) ∧ ∃ text, cstring c = Some text ∧
        sh_parse text = Some (words ++ [bs], lit "/dev/null")
    | None => m_errno m' = if decide (bs = [] ∨ NUL ∈ bs) then EINVAL else ENOMEM
    end.
Proof.
  intros Hin Hp Hlen. destruct (program_words _ _ bs Hin) as (Hparse & Hprog & Hnul).
  assert (wp true (wc_command_build program p (zlen bs)) (λ c m', silent m m' ∧
    m_live m' = m_live m + owned c ∧
    match c with
    | Some c => bs ≠ [] ∧ (NUL ∉ bs) ∧ ∃ text, cstring c = Some text ∧
        sh_parse text = Some (words ++ [bs], lit "/dev/null")
    | None => m_errno m' = if decide (bs = [] ∨ NUL ∈ bs) then EINVAL else ENOMEM
    end) m) as Hwp.
  { apply build_spec; [done..| | |].
    - intros Hno. unfold owned; simpl. split; [silent_tac|]. split; [lia|].
      rewrite decide_True; [done|]. destruct (decide (bs = [])); [by left|].
      destruct (decide (NUL ∈ bs)); [by right|]. by destruct Hno.
    - intros [] c m' Hs He Hl Hc. unfold owned; simpl. eauto 10.
    - intros [] m' Hs He Hl. unfold owned; simpl. split; [done|]. split; [lia|].
      rewrite decide_False; naive_solver. }
  apply wp_total_inv in Hwp as (c & m' & Hrun & Hpost). by exists c, m'.
Qed.

(** C27: a command yields the whole output of a child that succeeded, within the
    limit, or fails for a definite reason and leaves nothing behind. Whatever the
    child prints and however it ends, [wc_command_run] returns and reaps the
    child it started exactly once. It returns 0 only when it has read up to the
    end of the stream without a read error, the child exited with status 0, and
    the output is within the limit; the result is then one block with exactly
    the bytes read. Otherwise it returns -1 with the heap as it was and errno
    tells why: the error of popen(), EMSGSIZE for more output than the limit,
    ENOMEM, or EIO for a read error or a child that did not succeed. *)
Theorem wc_command_run_bounded `{!PosixLaws W} command max result m :
  is_size max →
  ∃ r res m', wc_command_run command max result m = Ret (r, res) m' ∧ cmd_frame m m' ∧
    ((r = -1 ∧ res = result ∧ m_live m' = m_live m ∧
      m_trace m' = m_trace m ++ [EvNoExec command (m_errno m')]) ∨
     ∃ h reads status, m_trace m' = m_trace m ++ child_events command h reads status ∧
       ((r = -1 ∧ res = result ∧ m_live m' = m_live m ∧
         run_failed max reads status (m_errno m')) ∨
        (r = 0 ∧ run_succeeded max reads status ∧
         cr_length res = zlen (output_of reads) ∧ points_to (cr_data res) (output_of reads) ∧
         m_live m' = m_live m + owned (cr_data res)))).
Proof.
  intros Hmax.
  assert (wp true (wc_command_run command max result) (λ '(r, res) m', cmd_frame m m' ∧
    ((r = -1 ∧ res = result ∧ m_live m' = m_live m ∧
      m_trace m' = m_trace m ++ [EvNoExec command (m_errno m')]) ∨
     ∃ h reads status, m_trace m' = m_trace m ++ child_events command h reads status ∧
       ((r = -1 ∧ res = result ∧ m_live m' = m_live m ∧
         run_failed max reads status (m_errno m')) ∨
        (r = 0 ∧ run_succeeded max reads status ∧
         cr_length res = zlen (output_of reads) ∧ points_to (cr_data res) (output_of reads) ∧
         m_live m' = m_live m + owned (cr_data res))))) m) as Hwp.
  { apply run_spec; [done|..].
    - intros m' ???. split; [done|]. by left.
    - intros h reads status m' ????. split; [done|]. right. exists h, reads, status.
      split; [done|]. by left.
    - intros h reads status data m' ?????. split; [done|]. right. exists h, reads, status.
      split; [done|]. by right. }
  apply wp_total_inv in Hwp as ([r res] & m' & Hrun & Hpost). by exists r, res, m'.
Qed.

(** C28: a path that is not absolute, is empty or contains a NUL byte never
    reaches the shell: [wc_command_cat] fails with EINVAL, starts no child and
    allocates nothing. *)
Theorem wc_command_cat_rejects `{!PosixLaws W} p bs max result m :
  points_to p bs → zlen bs ≤ UINT16_MAX → is_size max → ¬ cat_ok bs →
  ∃ m', wc_command_cat p (zlen bs) max (Some result) m =
      Ret (-1, Some (WcCommandResult None 0)) m' ∧
    m_errno m' = EINVAL ∧ m_live m' = m_live m ∧ m_trace m' = m_trace m.
Proof.
  intros Hp Hlen Hmax Hno.
  assert (wp true (wc_command_cat p (zlen bs) max (Some result)) (λ res m',
    res = (-1, Some (WcCommandResult None 0)) ∧
    m_errno m' = EINVAL ∧ m_live m' = m_live m ∧ m_trace m' = m_trace m) m) as Hwp.
  { apply cat_spec; [done..|]. intros res m' (_ & Hpost). unfold cmd_failed in Hpost. naive_solver. }
  apply wp_total_inv in Hwp as (res & m' & Hrun & -> & ?). by exists m'.
Qed.

End properties.

(** ** Concrete runs *)

(** A path that tries to end the quoting and run another command. *)
Definition hostile_path : list byte := lit "/tmp/x'; rm -rf '$HOME".

Lemma wc_command_build_one_word_witness :
  ∃ c m' text, wc_command_build (lit "cat --") (Some (bytes_block hostile_path))
      (zlen hostile_path) (boot empty_script) = Ret (Some c) m' ∧
    cstring c = Some text ∧
    sh_parse text = Some ([lit "cat"; lit "--"; hostile_path], lit "/dev/null").
Proof.
  destruct (wc_command_build_one_word (lit "cat --") [lit "cat"; lit "--"]
    (Some (bytes_block hostile_path)) hostile_path (boot empty_script))
    as ([c|] & m' & Hrun & _ & _ & Hc).
  - unfold programs. right. left.
  - apply points_to_bytes.
  - vm_compute. discriminate.
  - destruct Hc as (_ & _ & text & Htext & Hparse). exists c, m', text.
    split; [exact Hrun|]. split; [exact Htext | exact Hparse].
  - exfalso. vm_compute in Hrun. discriminate Hrun.
Defined.

(** A child that prints a directory name and exits with status 0. *)
Definition pwd_child : script :=
  Script [] [] [] [] [] [] [(lit "/srv" ++ [Byte.x0a], 0)] [] 0 [] [].

Lemma wc_command_run_bounded_witness :
  ∃ res m', wc_command_run (lit "pwd") 100 (WcCommandResult None 0) (boot pwd_child) =
    Ret (0, res) m' ∧ points_to (cr_data res) (lit "/srv" ++ [Byte.x0a]) ∧
    m_trace m' = child_events (lit "pwd") 0 [(lit "/srv" ++ [Byte.x0a], false)] 0.
Proof.
  destruct (wc_command_run_bounded (lit "pwd") 100 (WcCommandResult None 0)
    (boot pwd_child)) as (r & res & m' & Hrun & _ & Hpost).
  - unfold is_size, SIZE_MAX. lia.
  - vm_compute in Hrun. injection Hrun as <- <- <-.
    destruct Hpost as [(? & _)|(h & reads & status & Ht & [(? & _)|(_ & _ & _ & Hp & _)])];
      [discriminate..|].
    eexists _, _. split; [vm_compute; reflexivity|]. split; [reflexivity | reflexivity].
Defined.

Lemma wc_command_cat_rejects_witness :
  ∃ m', wc_command_cat (Some (bytes_block (lit "etc/passwd"))) 10 100
      (Some (WcCommandResult None 0)) (boot pwd_child) =
      Ret (-1, Some (WcCommandResult None 0)) m' ∧ m_errno m' = EINVAL.
Proof.
  destruct (wc_command_cat_rejects (Some (bytes_block (lit "etc/passwd")))
    (lit "etc/passwd") 100 (WcCommandResult None 0) (boot pwd_child))
    as (m' & Hrun & He & _).
  - apply points_to_bytes.
  - vm_compute. discriminate.
  - unfold is_size, SIZE_MAX. lia.
  - intros [_ Hh]. vm_compute in Hh. discriminate Hh.
  - exists m'. split; [exact Hrun | exact He].
Defined.
