(* ===== verification/Respond.v ===== *)
(** * Answering a request

    The part the three servers share: the dispatch of a request to its command
    and the encoding of the answer into an empty output buffer. The servers
    differ only in the log records around it. *)

From S2P Require Import Prelude Machine Script Buffer Protocol Queue SocketUtils Logging Commands.

Section respond.
Context {W : Type} {OS : Posix W}.

(** The [switch] over the request type. *)
Definition dispatch_command (type : Z) (argument : pointer) (argument_length : Z)
    (result : wc_command_result) : M W (Z * wc_command_result) :=
  if type =? WC_REQUEST_LS then
    by_ref (wc_command_ls argument argument_length UINT16_MAX) result
  else if type =? WC_REQUEST_PWD then
    if negb (argument_length =? 0) then
      put_errno EINVAL ;; mret (-1, result)
    else by_ref (wc_command_pwd UINT16_MAX) result
  else if type =? WC_REQUEST_CAT then
    by_ref (wc_command_cat argument argument_length UINT16_MAX) result
  else put_errno EINVAL ;; mret (-1, result).

(** Encode the result of [run], or the text of its error after [log_failure]. *)
Definition encode_outcome (run : wc_command_result → M W (Z * wc_command_result))
    (log_failure : Z → M W ()) (output : wc_buffer) : M W (Z * wc_buffer) :=
  '(r, result) ← run (WcCommandResult None 0);
  if r =? 0 then
    '(encode_result, output) ← by_ref (λ p, wc_protocol_encode_response p
        (cr_data result) (cr_length result)) output;
    _ ← wc_command_result_destroy (Some result);
    mret (encode_result, output)
  else
    command_errno ← get_errno;
    log_failure command_errno ;;
    '(text_length, error_text) ← snprintf (Some (replicate 256 None)) 256
        (lit "ERROR: " ++ os_strerror command_errno);
    if text_length <? 0 then put_errno EIO ;; mret (-1, output) else
    let text_length := if text_length >=? 256 then 256 - 1 else text_length in
    by_ref (λ p, wc_protocol_encode_response p error_text text_length) output.

End respond.

Arguments dispatch_command : simpl never.
Arguments encode_outcome : simpl never.

(** ** Frames *)

(** What every operation of the server keeps. *)
Record world {W} {OS : Posix W} (m m' : machine W) : Prop := {
  wd_level : m_log_level m' = m_log_level m;
  wd_os : os_mono (m_os m) (m_os m');
}.

#[global] Instance world_preorder {W} {OS : Posix W} : PreOrder world.
Proof.
  split; [by intros m; constructor|].
  intros m1 m2 m3 [] []. constructor; [congruence | by etrans].
Qed.

Section worlds.
Context {W : Type} {OS : Posix W}.
Implicit Types m : machine W.

Lemma kept_world m m' : kept m m' → world m m'.
Proof. by intros []. Qed.
Lemma silent_world m m' : silent m m' → world m m'.
Proof. intros H. by apply kept_world, silent_kept. Qed.
Lemma logged_world m m' : logged m m' → world m m'.
Proof. by intros []. Qed.
Lemma heap_only_world m m' : heap_only m m' → world m m'.
Proof. intros H. constructor; [apply H | by apply heap_only_mono]. Qed.
Lemma call_frame_world m m' : call_frame m m' → world m m'.
Proof. intros []. by apply kept_world. Qed.
Lemma call_frame0_world m m' : call_frame0 m m' → world m m'.
Proof. intros []. by apply call_frame_world. Qed.
Lemma errno_world m e : world m (set_errno e m).
Proof. by constructor. Qed.

End worlds.

#[export] Hint Resolve kept_world silent_world logged_world heap_only_world
  call_frame_world call_frame0_world errno_world : wc.

(** Chains of steps that keep the world. *)
Ltac world_tac :=
  solve [ reflexivity | eassumption | eauto with wc
        | etrans; [eassumption|]; world_tac
        | etrans; [solve [eauto with wc]|]; world_tac ].

(** A request that came out of the decoder. *)
Definition qreq_ok (r : qreq) : Prop := request_ok (qq_type r) (qq_arg r).


(** ** Specifications *)

Section respond_specs.
Context {W : Type} {OS : Posix W} `{!PosixLaws W}.
Implicit Types (m : machine W) (t : bool).

(** Which requests run a command, which one, and what is kept of its output. *)
Definition request_valid (r : qreq) : Prop :=
  (qq_type r = WC_REQUEST_LS ∧ arg_ok (qq_arg r)) ∨
  (qq_type r = WC_REQUEST_PWD ∧ qq_arg r = []) ∨
  (qq_type r = WC_REQUEST_CAT ∧ cat_ok (qq_arg r)).

Definition request_text (r : qreq) : list byte :=
  if qq_type r =? WC_REQUEST_LS then command_text (lit "ls -1 --") (qq_arg r)
  else if qq_type r =? WC_REQUEST_PWD then lit "pwd 2>/dev/null"
  else command_text (lit "cat --") (qq_arg r).

Definition request_trim (r : qreq) : list byte → list byte :=
  if qq_type r =? WC_REQUEST_PWD then trim_newline else id.

Lemma cmd_post_iff (valid valid' : Prop) command max trim m res m' :
  (valid ↔ valid') → cmd_post valid command max trim m res m' →
  cmd_post valid' command max trim m res m'.
Proof. unfold cmd_post, cmd_failed. naive_solver. Qed.

Lemma wp_by_ref_cmd t (f : option wc_command_result → M W (Z * option wc_command_result))
    valid command max trim result (Q : Z * wc_command_result → machine W → Prop) m :
  (∀ Q', (∀ res m', cmd_post valid command max trim m res m' → Q' res m') →
     wp t (f (Some result)) Q' m) →
  (∀ r res m', cmd_post valid command max trim m (r, Some res) m' → Q (r, res) m') →
  wp t (by_ref f result) Q m.
Proof.
  intros Hf HQ. apply wp_by_ref. apply Hf. intros [r res] m' Hpost.
  assert (∃ res', res = Some res') as [res' ->] by (destruct Hpost; naive_solver).
  by apply HQ.
Qed.

(** What the servers promise about the command of a request [r]. *)
Definition runs_request t (r : qreq) (c : M W (Z * wc_command_result)) m : Prop :=
  ∀ Q : Z * wc_command_result → machine W → Prop,
    (∀ v res m1 m', logged m m1 →
       cmd_post (request_valid r) (request_text r) UINT16_MAX (request_trim r)
         m1 (v, Some res) m' → Q (v, res) m') →
    wp t c Q m.

(** A dispatch after a log record runs the request. *)
Lemma dispatch_command_spec t p r m1 m :
  points_to p (qq_arg r) → qreq_ok r → logged m m1 → ∀ Q,
  (∀ v res m', cmd_post (request_valid r) (request_text r) UINT16_MAX (request_trim r)
       m1 (v, Some res) m' → Q (v, res) m') →
  wp t (dispatch_command (qq_type r) p (zlen (qq_arg r)) (WcCommandResult None 0)) Q m1.
Proof.
  intros Hpt [Hty Harg] Hlg Q HQ. unfold dispatch_command.
  assert (is_size UINT16_MAX) as Hsz by done.
  assert (zlen (qq_arg r) ≤ UINT16_MAX) as Hlen by (unfold UINT16_MAX; lia).
  unfold request_text, request_trim, request_valid in HQ.
  apply type_valid_range in Hty.
  destruct (qq_type r =? WC_REQUEST_LS) eqn:H1;
    [|destruct (qq_type r =? WC_REQUEST_PWD) eqn:H2;
    [|destruct (qq_type r =? WC_REQUEST_CAT) eqn:H3]]; bool_to_prop;
    unfold WC_REQUEST_LS, WC_REQUEST_PWD, WC_REQUEST_CAT in *; try lia.
  - rewrite H1 in HQ. eapply wp_by_ref_cmd; [intros Q' HQ'; by apply ls_spec|].
    intros v res m2 Hp. apply HQ. simpl.
    eapply cmd_post_iff; [|exact Hp]. naive_solver lia.
  - destruct (negb (zlen (qq_arg r) =? 0)) eqn:Hz; bool_to_prop.
    + wp_go. apply HQ. split; [apply errno_cmd_frame|]. left.
      split_and!; [done..|]. left. split_and!; [|done..].
      intros [[? _]|[[_ Hnil]|[? _]]]; [lia | by rewrite Hnil in Hz | lia].
    + apply zlen_nil_inv in Hz. eapply wp_by_ref_cmd; [intros Q' HQ'; by apply pwd_spec|].
      intros v res m2 Hp. apply HQ. eapply cmd_post_iff; [|exact Hp]. naive_solver lia.
  - eapply wp_by_ref_cmd; [intros Q' HQ'; by apply cat_spec|].
    intros v res m2 Hp. apply HQ. eapply cmd_post_iff; [|exact Hp]. naive_solver lia.
Qed.

(** The trace of an executed request, if a child was started or asked for. *)
Definition ran (r : qreq) (tr tr' : list event) : Prop :=
  tr' = tr ∨
  (request_valid r ∧ ((∃ e, tr' = tr ++ [EvNoExec (request_text r) e]) ∨
     ∃ h reads status, tr' = tr ++ child_events (request_text r) h reads status)).

(** The command of [r] failed with [e]. *)
Definition failed (r : qreq) : list event → Z → list event → Prop :=
  cmd_failed (request_valid r) (request_text r) UINT16_MAX.

(** The text for an error, and the part of it that is answered. *)
Definition error_message (e : Z) : list byte := lit "ERROR: " ++ os_strerror e.
Definition error_text (e : Z) : list byte := take 255 (error_message e).

(** [body] answers request [r]: the whole output of its command, which succeeded,
    or the text of the error it failed with. *)
Definition answered (r : qreq) (tr : list event) (body : list byte) (tr' : list event) : Prop :=
  (request_valid r ∧ ∃ h reads status,
     tr' = tr ++ child_events (request_text r) h reads status ∧
     run_succeeded UINT16_MAX reads status ∧ body = request_trim r (output_of reads)) ∨
  (∃ e, failed r tr e tr' ∧ body = error_text e).

(** [r] gets no answer, with errno [e]: there is no memory for it, or its error
    text is too long to be formatted. *)
Definition unanswered (r : qreq) (tr : list event) (e : Z) (tr' : list event) : Prop :=
  ran r tr tr' ∧
  (e = ENOMEM ∨
   (e = EIO ∧ ∃ e', failed r tr e' tr' ∧ INT_MAX < zlen (error_message e'))).

Lemma failed_ran r tr e tr' : failed r tr e tr' → ran r tr tr'.
Proof. unfold failed, cmd_failed, ran. naive_solver. Qed.

Lemma answered_ran r tr body tr' : answered r tr body tr' → ran r tr tr'.
Proof. unfold answered. intros [?|(e & ? & _)]; [unfold ran; naive_solver | by eapply failed_ran]. Qed.

(** The events of a command. *)
Definition command_event (e : event) : Prop :=
  match e with
  | EvNoExec _ _ | EvExec _ | EvPipe _ _ | EvReap _ _ => True
  | _ => False
  end.

Lemma child_command_events command h reads status :
  Forall command_event (child_events command h reads status).
Proof.
  constructor; [done|]. apply Forall_app. split; [|by repeat constructor].
  apply Forall_fmap, Forall_true. done.
Qed.

(** What running a request adds does not depend on what happened before. *)
Lemma ran_shift r tr tr' :
  ran r tr tr' →
  ∃ more, tr' = tr ++ more ∧ Forall command_event more ∧ ∀ tr2, ran r tr2 (tr2 ++ more).
Proof.
  intros [->|(Hv & [(e & ->)|(h & reads & status & ->)])].
  - exists []. rewrite app_nil_r. split_and!; [done..|]. intros tr2. rewrite app_nil_r. by left.
  - exists [EvNoExec (request_text r) e]. split_and!; [done | by repeat constructor|].
    intros tr2. right. eauto.
  - eexists. split_and!; [done | apply child_command_events|]. intros tr2. right. eauto 10.
Qed.

Lemma failed_shift r tr e tr' :
  failed r tr e tr' → ∃ more, tr' = tr ++ more ∧ ∀ tr2, failed r tr2 e (tr2 ++ more).
Proof.
  unfold failed, cmd_failed.
  intros [(? & -> & ?)|(? & [(-> & ?)|[->|(h & reads & status & -> & ?)]])].
  - exists []. rewrite app_nil_r. split; [done|]. intros tr2. rewrite app_nil_r. auto.
  - exists []. rewrite app_nil_r. split; [done|]. intros tr2. rewrite app_nil_r. auto.
  - eexists. split; [done|]. auto.
  - eexists. split; [done|]. intros tr2. right. split; [done|]. eauto 10.
Qed.

Lemma answered_shift r tr body tr' :
  answered r tr body tr' →
  ∃ more, tr' = tr ++ more ∧ ∀ tr2, answered r tr2 body (tr2 ++ more).
Proof.
  intros [(Hv & h & reads & status & -> & Hb)|(e & Hf & Hb)].
  - eexists. split; [done|]. intros tr2. left. eauto 10.
  - apply failed_shift in Hf as (more & -> & Hf). exists more. split; [done|].
    intros tr2. right. eauto.
Qed.

Lemma zlen_error_text e : zlen (error_text e) ≤ 255.
Proof. unfold error_text. rewrite length_take. lia. Qed.

Lemma zlen_trim r bs : zlen (request_trim r bs) ≤ zlen bs.
Proof.
  unfold request_trim, trim_newline. destruct (_ =? _); [|done].
  case_decide; [rewrite length_take|]; lia.
Qed.

(** What answering a request leaves unchanged. *)
Record answering (b : wc_buffer) m (b' : wc_buffer) m' : Prop := {
  an_world : world m m';
  an_heap : m_heap m' = m_heap m;
  an_next : m_next_loc m' = m_next_loc m;
  an_open : m_open m' = m_open m;
  an_live : m_live m' - buf_owned b' = m_live m - buf_owned b;
  an_max : buf_max_size b' = buf_max_size b;
}.

(** A record, a command, a record, the encoder. *)
Lemma answering_intro b m m1 m2 m3 m4 b' :
  logged m m1 → cmd_frame m1 m2 → logged m2 m3 → silent m3 m4 →
  m_live m4 - buf_owned b' = m_live m - buf_owned b →
  buf_max_size b' = buf_max_size b → answering b m b' m4.
Proof.
  intros [] [[] ? ?] [] Hs Hl. pose proof (silent_world _ _ Hs) as [? ?].
  destruct Hs. constructor; try done; try congruence.
  constructor; [congruence|]. etrans; [done|]. etrans; [done|]. by etrans.
Qed.

(** The largest response. *)
Definition RESPONSE_ROOM : Z := UINT16_MAX + WC_PROTOCOL_RESPONSE_HEADER_SIZE.

(** The response goes to an empty output buffer, so only memory can run out. *)
Lemma encode_body_spec t b p body (Q : Z * option wc_buffer → machine W → Prop) m :
  buffer_repr b [] → buf_max_size b = RESPONSE_ROOM →
  points_to p body → zlen body ≤ UINT16_MAX →
  (∀ b' m', silent m m' → m_live m' - buf_owned b' = m_live m - buf_owned b →
     buf_max_size b' = buf_max_size b →
     buffer_repr b' (response_frame body) → Q (0, Some b') m') →
  (∀ b' m', silent m m' → m_live m' - buf_owned b' = m_live m - buf_owned b →
     buf_max_size b' = buf_max_size b →
     m_errno m' = ENOMEM → buffer_repr b' [] → Q (-1, Some b') m') →
  wp t (wc_protocol_encode_response (Some b) p (zlen body)) Q m.
Proof.
  intros Hb Hbm Hp Hlen Hok Hfail.
  unfold RESPONSE_ROOM, UINT16_MAX, WC_PROTOCOL_RESPONSE_HEADER_SIZE in *.
  eapply encode_response_spec; [exact Hb | exact Hp |..].
  - intros _ _ b' m' Hs He Hl Hb' Hm'. by apply Hok.
  - intros e b' m' He Hiff Hs Hee Hl Hb' Hm'. apply Hfail; try done.
    rewrite Hee. apply elem_of_cons in He as [->|He%list_elem_of_singleton]; [|done].
    exfalso. rewrite Hbm in Hiff. simpl in Hiff. unfold UINT16_MAX in Hiff. lia.
Qed.

(** The error text in its array. *)
Lemma encode_error_spec t b e (Q : Z * wc_buffer → machine W → Prop) m :
  buffer_repr b [] → buf_max_size b = RESPONSE_ROOM →
  (∀ b' m', silent m m' → m_live m' - buf_owned b' = m_live m - buf_owned b →
     buf_max_size b' = buf_max_size b →
     buffer_repr b' (response_frame (error_text e)) → Q (0, b') m') →
  (∀ b' m', silent m m' → m_live m' - buf_owned b' = m_live m - buf_owned b →
     buf_max_size b' = buf_max_size b →
     m_errno m' = ENOMEM ∨ (m_errno m' = EIO ∧ INT_MAX < zlen (error_message e)) →
     buffer_repr b' [] → Q (-1, b') m') →
  wp t ('(text_length, error_text) ← snprintf (Some (replicate 256 None)) 256
          (lit "ERROR: " ++ os_strerror e);
        if text_length <? 0 then put_errno EIO ;; mret (-1, b) else
        let text_length := if text_length >=? 256 then 256 - 1 else text_length in
        by_ref (λ p, wc_protocol_encode_response p error_text text_length) b) Q m.
Proof.
  intros Hb Hbm Hok Hfail. apply wp_bind. change (lit "ERROR: " ++ os_strerror e) with (error_message e).
  apply (wp_snprintf _ 256); [done| |].
  - intros Hlen rest. cbn beta iota zeta. rewrite (proj2 (Z.ltb_ge _ 0)) by lia.
    pose proof (zlen_error_text e) as Hel.
    assert ((if zlen (error_message e) >=? 256 then 256 - 1 else zlen (error_message e)) =
      zlen (error_text e)) as ->
      by (unfold error_text; rewrite length_take; case_if; lia).
    apply wp_by_ref. eapply encode_body_spec; [done | done | | unfold UINT16_MAX; lia |..].
    + unfold points_to. change (take (Z.to_nat (256 - 1)) (error_message e)) with (error_text e).
      apply block_prefix_Some. unfold bytes_block. rewrite fmap_app, <-app_assoc. eauto.
    + intros b' m' Hs Hl Hm Hr. by apply Hok.
    + intros b' m' Hs Hl Hm He Hr. apply Hfail; auto.
  - intros Hbig. simpl. wp_go. apply Hfail; simpl; auto; silent_tac.
Qed.

Lemma encode_outcome_spec t run log b r (Q : Z * wc_buffer → machine W → Prop) m :
  buffer_repr b [] → buf_max_size b = RESPONSE_ROOM →
  runs_request t r (run (WcCommandResult None 0)) m →
  (∀ e m1 (Q1 : () → machine W → Prop), (∀ m2, logged m1 m2 → Q1 () m2) → wp t (log e) Q1 m1) →
  (∀ body b' m', answering b m b' m' → answered r (m_trace m) body (m_trace m') →
     zlen body ≤ UINT16_MAX → buffer_repr b' (response_frame body) → Q (0, b') m') →
  (∀ b' m', answering b m b' m' → unanswered r (m_trace m) (m_errno m') (m_trace m') →
     buffer_repr b' [] → Q (-1, b') m') →
  wp t (encode_outcome run log b) Q m.
Proof.
  intros Hb Hbm Hrun Hlog Hok Hfail. unfold encode_outcome. apply wp_bind, Hrun.
  intros v res m1 m2 Hlg (Hcf & Hpost).
  pose proof (lg_trace _ _ Hlg) as Ht1. pose proof (lg_live _ _ Hlg) as Hl1.
  destruct Hpost as [(Heq & Hl2 & Htr)|
    (Hval & h & reads & status & data & Heq & Ht2 & Hgood & Hpt & Hl2)];
    simplify_eq; simpl; wp_go.
  - apply Hlog. intros m3 Hlg3. cbn beta. set (e := m_errno m2) in *.
    pose proof (lg_live _ _ Hlg3) as Hl3. pose proof (lg_trace _ _ Hlg3) as Ht3.
    assert (failed r (m_trace m) e (m_trace m3)) as Hf.
    { rewrite Ht3, <-Ht1. exact Htr. }
    apply encode_error_spec; [done | done | |].
    + intros b' m4 Hs4 Hl4 Hm4 Hc4. pose proof (zlen_error_text e).
      apply (Hok (error_text e)); [| |unfold UINT16_MAX; lia|done].
      * eapply (answering_intro _ m m1 m2 m3); [done..| |done]. lia.
      * right. exists e. by rewrite (silent_trace _ _ Hs4).
    + intros b' m4 Hs4 Hl4 Hm4 He4 Hc4. rewrite <-(silent_trace _ _ Hs4) in Hf.
      apply Hfail; [|split; [by eapply failed_ran | naive_solver] | done].
      eapply (answering_intro _ m m1 m2 m3); [done..| |done]. lia.
  - pose proof (zlen_trim r (output_of reads)) as Htrim. pose proof Hgood as [Hlen _].
    set (out := request_trim r (output_of reads)) in *.
    assert (∀ m5, silent m2 m5 →
      m_trace m5 = m_trace m ++ child_events (request_text r) h reads status)
      as Ht5 by (intros m5 Hs5; rewrite (silent_trace _ _ Hs5); congruence).
    eapply (encode_body_spec _ _ _ out); [done | done | done | lia |..].
    + intros b' m4 Hs4 Hl4 Hm4 Hc4. cbn beta iota. wp_go.
      apply result_destroy_spec. intros m5 Hs5 He5 Hl5. wp_go. simpl in Hl5.
      eapply (Hok out); [| |lia|done].
      * eapply (answering_intro _ m m1 m2 m2); [done..|by etrans| |done]. lia.
      * left. split; [done|]. exists h, reads, status. split; [by apply Ht5; etrans | done].
    + intros b' m4 Hs4 Hl4 Hm4 He4 Hc4. cbn beta iota. wp_go.
      apply result_destroy_spec. intros m5 Hs5 He5 Hl5. wp_go. simpl in Hl5.
      eapply Hfail; [| |done].
      * eapply (answering_intro _ m m1 m2 m2); [done..|by etrans| |done]. lia.
      * split; [|left; congruence]. right. split; [done|]. right.
        exists h, reads, status. by apply Ht5; etrans.
Qed.

End respond_specs.

