(* ===== verification/Listener.v ===== *)
(** * Listening sockets

    The open_listener functions of the three servers. The two UDS servers
    share one text up to the log record; the TCP server has its own. *)

From S2P Require Import Prelude Machine Script SocketUtils Logging.

(** The backlog: the three servers allow 64 clients. *)
Definition MAX_CLIENTS : Z := 64.

(** sizeof(address.sun_path) *)
Definition SUN_PATH_SIZE : Z := 108.

(** A path as a printf argument. *)
Definition LPath (path : list byte) : log_arg := LStr (String.string_of_list_byte path).

Section listener.
Context {W : Type} {OS : Posix W}.

(** Close a descriptor on an error path, keeping [errno]. *)
Definition close_keeping_errno (fd : Z) : M W () :=
  saved_errno ← get_errno;
  _ ← sys_close fd;
  put_errno saved_errno.

Definition open_unix_listener (tag : string) (fuel : nat) (socket_path : option (list byte))
    : M W Z :=
  match socket_path with
  | None => put_errno ENAMETOOLONG ;; mret (-1)
  | Some path =>
    if (zlen path =? 0) || (zlen path >=? SUN_PATH_SIZE) then
      put_errno ENAMETOOLONG ;; mret (-1)
    else
      listener_fd ← sys_socket;
      if listener_fd =? -1 then mret (-1) else
      r ← wc_socket_set_nonblocking fuel listener_fd;
      if r =? -1 then close_keeping_errno listener_fd ;; mret (-1) else
      r ← sys_unlink path;
      e ← get_errno;
      if (r =? -1) && negb (e =? ENOENT) then
        close_keeping_errno listener_fd ;; mret (-1)
      else
        r ← os_call (os_bind listener_fd);
        r ← status_result r;
        r ← (if r =? -1 then mret (-1) else
             r ← os_call (os_listen listener_fd MAX_CLIENTS);
             status_result r);
        if r =? -1 then
          saved_errno ← get_errno;
          _ ← sys_close listener_fd;
          _ ← sys_unlink path;
          put_errno saved_errno ;; mret (-1)
        else
          wc_log WC_LOG_DEBUG "server" "listener_ready"
            (Some (tag ++ "listener=fd:%d socket=%s")%string)
            [LInt listener_fd; LPath path] ;;
          mret listener_fd
  end.

Definition wc_tcp_open_listener (fuel : nat) (bind_address : option (list byte)) (port : Z)
    : M W Z :=
  match bind_address with
  | None => put_errno EINVAL ;; mret (-1)
  | Some address =>
    if (zlen address =? 0) || (port =? 0) then put_errno EINVAL ;; mret (-1) else
    '(address_result, e) ← os_call (os_inet_pton address);
    if negb (address_result =? 1) then
      put_errno (if address_result =? 0 then EINVAL else e) ;; mret (-1)
    else
      listener_fd ← sys_socket;
      if listener_fd =? -1 then mret (-1) else
      r ← os_call (os_setsockopt_reuseaddr listener_fd);
      r ← status_result r;
      r ← (if r =? -1 then mret (-1) else wc_socket_set_nonblocking fuel listener_fd);
      r ← (if r =? -1 then mret (-1) else
           r ← os_call (os_bind listener_fd);
           status_result r);
      r ← (if r =? -1 then mret (-1) else
           r ← os_call (os_listen listener_fd MAX_CLIENTS);
           status_result r);
      if r =? -1 then close_keeping_errno listener_fd ;; mret (-1)
      else
        wc_log WC_LOG_DEBUG "server" "listener_ready"
          (Some "transport=tcp listener=fd:%d bind=%s port=%u"%string)
          [LInt listener_fd; LPath address; LInt port] ;;
        mret listener_fd
  end.

End listener.

Arguments close_keeping_errno : simpl never.
Arguments open_unix_listener : simpl never.
Arguments wc_tcp_open_listener : simpl never.

(** Traces that grew by events which transfer nothing. *)
Definition no_traffic (e : event) : Prop :=
  match e with EvSetfl _ _ | EvClose _ => True | _ => False end.

Definition quietly (tr tr' : list event) : Prop :=
  ∃ new, tr' = tr ++ new ∧ Forall no_traffic new.

#[global] Instance quietly_preorder : PreOrder quietly.
Proof.
  split; [by exists []; rewrite app_nil_r|]. intros tr _ _ (new & -> & Hn) (new' & -> & Hn').
  exists (new ++ new'). rewrite app_assoc. split; [done | by apply Forall_app].
Qed.

Lemma quietly_close fd tr : quietly tr (tr ++ [EvClose fd]).
Proof. exists [EvClose fd]. split; [done | by repeat constructor]. Qed.

Lemma nonblocking_quietly fd tr tr' : nonblocking_set fd tr tr' → quietly tr tr'.
Proof.
  intros [->|(fl & _ & ->)]; [done|]. exists [EvSetfl fd fl]. split; [done | by repeat constructor].
Qed.

Section listener_specs.
Context {W : Type} {OS : Posix W} `{!PosixLaws W}.
Implicit Types (m : machine W) (t : bool).

Lemma close_keeping_errno_spec t fd (Q : () → machine W → Prop) m :
  (fd ∈ m_open m) →
  (∀ m', call_frame m m' → m_open m' = m_open m ∖ {[fd]} → m_errno m' = m_errno m →
     m_trace m' = m_trace m ++ [EvClose fd] → Q () m') →
  wp t (close_keeping_errno fd) Q m.
Proof.
  intros Hin HQ. unfold close_keeping_errno. wp_go. wp_call wp_sys_close; [done|].
  intros r m1 Hf Ho Ht. wp_go. apply HQ; simpl; try done.
  etrans; [done|]. auto with wc.
Qed.

(** A call that reports a status and changes nothing the process can see. *)
Lemma wp_quiet_status t (f : W → option Z * W) (Q : Z → machine W → Prop) m :
  quiet_call f → (∀ v m', v = 0 ∨ v = -1 → call_frame0 m m' → Q v m') →
  wp t (r ← os_call f; status_result r) Q m.
Proof.
  intros Hf HQ. wp_call wp_quiet_call; [done|]. intros r m1 Hf1 _.
  apply wp_status_result; intros; apply HQ; auto. etrans; [done | auto with wc].
Qed.

Lemma wp_quiet_status_bind t {A} (f : W → option Z * W) (k : Z → M W A) Q m :
  quiet_call f → (∀ v m', v = 0 ∨ v = -1 → call_frame0 m m' → wp t (k v) Q m') →
  wp t (r ← os_call f; v ← status_result r; k v) Q m.
Proof.
  intros Hf HQ. wp_call wp_quiet_call; [done|]. intros r m1 Hf1 _. apply wp_bind.
  apply wp_status_result; intros; apply HQ; auto. etrans; [done | auto with wc].
Qed.

(** [a || b] over statuses: the second call is made if the first succeeded. *)
Lemma wp_or_else t r (c : M W Z) (P : machine W → Prop) (Q : Z → machine W → Prop) m :
  (r = 0 ∨ r = -1) → P m →
  (P m → wp t c (λ v m', (v = 0 ∨ v = -1) ∧ P m') m) →
  (∀ v m', v = 0 ∨ v = -1 → P m' → Q v m') →
  wp t (if r =? -1 then mret (-1) else c) Q m.
Proof.
  intros Hr HP Hc HQ. case_if; [wp_go; by apply HQ; [right|]|].
  eapply wp_mono; [by apply Hc|]. intros v m' []. by apply HQ.
Qed.

(** [opened m fd m']: since [m] only the descriptor [fd] was opened. *)
Record opened m (fd : Z) m' : Prop := {
  op_frame : call_frame m m';
  op_open : m_open m' = {[fd]} ∪ m_open m;
  op_trace : quietly (m_trace m) (m_trace m');
}.

Lemma opened_call m fd m1 m2 :
  opened m fd m1 → call_frame m1 m2 → m_open m2 = m_open m1 →
  quietly (m_trace m1) (m_trace m2) → opened m fd m2.
Proof. intros [] ???. constructor; [by etrans | congruence | by etrans]. Qed.

Lemma opened_call0 m fd m1 m2 : opened m fd m1 → call_frame0 m1 m2 → opened m fd m2.
Proof. intros ? [? ? Ht]. eapply opened_call; [done..|]. by rewrite Ht. Qed.

Lemma opened_nonblocking m fd m1 m2 :
  opened m fd m1 → call_frame m1 m2 → m_open m2 = m_open m1 →
  nonblocking_set fd (m_trace m1) (m_trace m2) → opened m fd m2.
Proof. intros ? ? ? ?%nonblocking_quietly. by eapply opened_call. Qed.

(** Giving the descriptor back undoes everything. *)
Lemma close_opened_spec t fd (Q : () → machine W → Prop) m m1 :
  opened m fd m1 → (fd ∉ m_open m) →
  (∀ m', call_frame m m' → m_open m' = m_open m → quietly (m_trace m) (m_trace m') → Q () m') →
  wp t (close_keeping_errno fd) Q m1.
Proof.
  intros [Hf Ho Ht] Hfresh HQ. apply close_keeping_errno_spec; [rewrite Ho; set_solver|].
  intros m2 Hf2 Ho2 _ Ht2. apply HQ; [by etrans| |].
  - rewrite Ho2, Ho. set_solver.
  - etrans; [exact Ht|]. rewrite Ht2. apply quietly_close.
Qed.

(** What a server may assume about the function that opens its listener;
    [named]: it was given a path or an address. *)
Definition opens_listener t (named : Prop) (c : M W Z) m : Prop :=
  ∀ Q : Z → machine W → Prop,
    (∀ m', kept m m' → m_open m' = m_open m → m_live m' = m_live m →
       quietly (m_trace m) (m_trace m') → Q (-1) m') →
    (∀ fd m', named → 0 ≤ fd → (fd ∉ m_open m) → kept m m' →
       m_open m' = {[fd]} ∪ m_open m → m_live m' = m_live m →
       quietly (m_trace m) (m_trace m') → Q fd m') →
    wp t c Q m.

Lemma open_unix_listener_spec t tag fuel path m :
  (∀ fd p, log_ok (Some (tag ++ "listener=fd:%d socket=%s")%string) [LInt fd; LPath p]) →
  enough t fuel (m_os m) → opens_listener t (is_Some path) (open_unix_listener tag fuel path) m.
Proof.
  intros Hlog Hfuel Q Hfail Hok. unfold open_unix_listener.
  destruct path as [path|]; [|by wp_go; apply Hfail].
  case_if; [by wp_go; apply Hfail|].
  wp_call wp_sys_socket; cycle 1.
  { intros m1 [[Hk ? ?] ? Ht1]. simpl. wp_go. apply Hfail; [done..|]. by rewrite Ht1. }
  intros fd m1 Hpos Hfresh Hf1 Ho1 Ht1. rewrite (proj2 (Z.eqb_neq fd (-1))) by lia.
  assert (∀ m', call_frame m m' → m_open m' = m_open m → quietly (m_trace m) (m_trace m') →
    Q (-1) m') as Hundo by (intros m' Hf Ho Ht; apply Hfail; [apply Hf | done | apply Hf | done]).
  assert (opened m fd m1) as Hop1 by (constructor; [done | done | by rewrite Ht1]).
  wp_go. apply wc_socket_set_nonblocking_spec.
  { eapply enough_mono; [done | apply Hf1 | done]. }
  2:{ intros m2 Hf2. simpl. wp_go. eapply close_opened_spec; [by eapply opened_call0 | done |].
      intros m3 Hf3 Ho3 Ht3. wp_go. by apply Hundo. }
  intros m2 Hf2 Ho2 Hnb. simpl. wp_call wp_sys_unlink. intros r m3 Hf3. wp_go.
  assert (opened m fd m3) as Hop3 by (eapply opened_call0, Hf3; by eapply opened_nonblocking).
  case_if.
  { wp_go. eapply close_opened_spec; [done..|]. intros m4 Hf4 Ho4 Ht4. wp_go. by apply Hundo. }
  apply wp_quiet_status_bind; [constructor|]. intros v m4 Hv Hf4.
  apply wp_bind, (wp_or_else _ _ _ (opened m fd)); [done | by eapply opened_call0 |..].
  { intros Hop. apply wp_quiet_status; [constructor|]. intros. split; [done|].
    by eapply opened_call0. }
  intros v6 m6 Hv6 Hop6. case_if.
  - wp_go. wp_call wp_sys_close; [rewrite (op_open _ _ _ Hop6); set_solver|].
    intros r7 m7 Hf7 Ho7 Ht7. wp_call wp_sys_unlink. intros r8 m8 [Hf8 Ho8 Ht8]. wp_go.
    apply Hundo; [|simpl; rewrite Ho8, Ho7, (op_open _ _ _ Hop6); set_solver|simpl].
    + etrans; [apply Hop6|]. etrans; [done|]. etrans; [done|]. auto with wc.
    + etrans; [apply Hop6|]. rewrite Ht8, Ht7. apply quietly_close.
  - wp_go. apply wp_log; [apply Hlog|]. intros m7 Hlg. wp_go. destruct Hop6 as [Hf6 Ho6 Ht6].
    apply Hok; [by eexists | done..| | | |].
    + etrans; [apply Hf6 | by apply logged_kept].
    + rewrite (lg_open _ _ Hlg). congruence.
    + rewrite (lg_live _ _ Hlg). apply Hf6.
    + by rewrite (lg_trace _ _ Hlg).
Qed.

Lemma tcp_open_listener_spec t fuel address port m :
  enough t fuel (m_os m) → opens_listener t (is_Some address) (wc_tcp_open_listener fuel address port) m.
Proof.
  intros Hfuel Q Hfail Hok. unfold wc_tcp_open_listener.
  destruct address as [address|]; [|by wp_go; apply Hfail].
  case_if; [by wp_go; apply Hfail|].
  wp_call wp_quiet_call; [constructor|]. intros [v e] m1 Hf1 _. cbn beta iota.
  assert (∀ m', call_frame m m' → m_open m' = m_open m → quietly (m_trace m) (m_trace m') →
    Q (-1) m') as Hundo by (intros m' Hf Ho Ht; apply Hfail; [apply Hf | done | apply Hf | done]).
  case_if.
  { wp_go. apply Hundo; [|apply Hf1|simpl; by rewrite (cf0_trace _ _ Hf1)]. etrans; [apply Hf1 | auto with wc]. }
  wp_call wp_sys_socket; cycle 1.
  { intros m2 Hf2. simpl. wp_go. assert (call_frame0 m m2) as [? ? Ht2] by (by etrans). apply Hundo; [done..|]. by rewrite Ht2. }
  intros fd m2 Hpos Hfresh Hf2 Ho2 Ht2. rewrite (proj2 (Z.eqb_neq fd (-1))) by lia.
  rewrite (cf0_open _ _ Hf1) in Hfresh, Ho2.
  assert (opened m fd m2) as Hop2 
    by (constructor; [etrans; [apply Hf1 | done] | done | by rewrite Ht2, (cf0_trace _ _ Hf1)]).
  apply wp_quiet_status_bind; [constructor|]. intros v3 m3 Hv3 Hf3.
  apply wp_bind, (wp_or_else _ _ _ (opened m fd)); [done | by eapply opened_call0 |..].
  { intros Hop. apply wc_socket_set_nonblocking_spec.
    - eapply enough_mono; [done | | done]. etrans; [apply Hop2 | apply Hf3].
    - intros m4 Hf4 Ho4 Hnb. split; [by left | by eapply opened_nonblocking].
    - intros m4 Hf4. split; [by right | by eapply opened_call0]. }
  intros v4 m4 Hv4 Hop4. apply wp_bind, (wp_or_else _ _ _ (opened m fd)); [done..| |].
  { intros Hop. apply wp_quiet_status; [constructor|]. intros. split; [done|].
    by eapply opened_call0. }
  intros v5 m5 Hv5 Hop5. apply wp_bind, (wp_or_else _ _ _ (opened m fd)); [done..| |].
  { intros Hop. apply wp_quiet_status; [constructor|]. intros. split; [done|].
    by eapply opened_call0. }
  intros v6 m6 Hv6 Hop6. case_if.
  { wp_go. eapply close_opened_spec; [done..|]. intros m7 Hf7 Ho7 Ht7. wp_go. by apply Hundo. }
  wp_go. apply wp_log; [log_ok|]. intros m7 Hlg. wp_go. destruct Hop6 as [Hf6 Ho6 Ht6].
  apply Hok; [by eexists | done..| | | |].
  - etrans; [apply Hf6 | by apply logged_kept].
  - rewrite (lg_open _ _ Hlg). congruence.
  - rewrite (lg_live _ _ Hlg). apply Hf6.
  - by rewrite (lg_trace _ _ Hlg).
Qed.

End listener_specs.
