(* ===== verification/Options.v ===== *)
(** * Command-line arguments

    The parsing helpers of main_client.c and of the three server programs:
    ports, log levels and command names, with the functions of the C library
    they use ([strtoul], [strcasecmp], [perror], [fprintf] to standard error).
    An argument is a C string: its bytes before the terminator. *)

From S2P Require Import Prelude Machine Script Protocol SocketUtils Logging Listener.
From stdpp Require Import pretty.

#[local] Open Scope Z_scope.

(** ** The C library *)

Definition ERANGE : Z := 34.
Definition ULONG_MAX : Z := 2 ^ 64 - 1.

(** isspace() and isdigit() in the C locale *)
Definition is_space (c : byte) : bool :=
  (byte_val c =? 32) || (9 <=? byte_val c) && (byte_val c <=? 13).
Definition is_digit (c : byte) : bool := (48 <=? byte_val c) && (byte_val c <=? 57).

Fixpoint skip_spaces (text : list byte) : list byte :=
  match text with
  | c :: rest => if is_space c then skip_spaces rest else text
  | [] => []
  end.

(** The longest prefix of digits, after the digits already read. *)
Fixpoint read_digits (acc : Z) (text : list byte) : Z * list byte :=
  match text with
  | c :: rest =>
    if is_digit c then read_digits (acc * 10 + (byte_val c - 48)) rest else (acc, text)
  | [] => (acc, [])
  end.

Definition read_sign (text : list byte) : bool * list byte :=
  match text with
  | Byte.x2d :: rest => (true, rest)
  | Byte.x2b :: rest => (false, rest)
  | _ => (false, text)
  end.

(** [strtoul(text, &end, 10)]: the value, the text at [end] and whether
    [errno] is set to ERANGE. A minus sign negates in [unsigned long]; without
    digits [end] is [text]. *)
Definition strtoul (text : list byte) : Z * list byte * bool :=
  let '(negative, digits) := read_sign (skip_spaces text) in
  match digits with
  | c :: _ =>
    if is_digit c then
      let '(value, rest) := read_digits 0 digits in
      if value >? ULONG_MAX then (ULONG_MAX, rest, true)
      else ((if negative then to_size (- value) else value), rest, false)
    else (0, text, false)
  | [] => (0, text, false)
  end.

Definition to_lower (c : byte) : byte :=
  if (65 <=? byte_val c) && (byte_val c <=? 90) then byte_of (byte_val c + 32) else c.

(** [strcasecmp(a, b) == 0] and [strcmp(a, b) == 0] *)
Definition strcaseeq (a b : list byte) : bool := bool_decide (to_lower <$> a = to_lower <$> b).
Definition streq (a b : list byte) : bool := bool_decide (a = b).

Section options.
Context {W : Type} {OS : Posix W}.

(** [fprintf(stderr, format, ...)] *)
Definition print_error (format : string) (args : list log_arg) : M W () :=
  text ← from_option_ub (vformat format args);
  sys_stderr text.

Definition perror (s : string) : M W () :=
  e ← get_errno;
  print_error "%s: %s" [LStr s; LPath (os_strerror e)].

(** ** Ports *)

(** The body of the two parse_port functions, without the client's log record. *)
Definition wc_tcp_parse_port (text : list byte) (port : Z) : M W (Z * Z) :=
  put_errno 0 ;;
  let '(value, rest, range) := strtoul text in
  (if (range : bool) then put_errno ERANGE else mret ()) ;;
  e ← get_errno;
  if negb (e =? 0) || (zlen text =? 0) || negb (zlen rest =? 0) || (value =? 0)
     || (value >? UINT16_MAX) then
    put_errno EINVAL ;; mret (-1, port)
  else mret (0, to_u16 value).

Definition wc_client_parse_port (text : list byte) (port : Z) : M W (Z * Z) :=
  put_errno 0 ;;
  let '(value, rest, range) := strtoul text in
  (if (range : bool) then put_errno ERANGE else mret ()) ;;
  e ← get_errno;
  if negb (e =? 0) || (zlen text =? 0) || negb (zlen rest =? 0) || (value =? 0)
     || (value >? UINT16_MAX) then
    put_errno EINVAL ;; mret (-1, port)
  else
    let port := to_u16 value in
    wc_log WC_LOG_TRACE "client" "port_parsed" (Some "port=%u"%string) [LInt port] ;;
    mret (0, port).

(** ** Log levels *)

(** The copies of the four programs. *)
Definition wc_parse_log_level (text : list byte) (level : Z) : M W (Z * Z) :=
  let names := ["error"; "warn"; "info"; "debug"; "trace"]%string in
  Machine.iter (S (length names)) (λ index,
    match names !! index with
    | Some name =>
      if strcaseeq text (lit name) then
        mret (Break (0, Z.of_nat index))
      else mret (Continue (S index))
    | None => put_errno EINVAL ;; mret (Break (-1, level))
    end) 0%nat.

Definition wc_threaded_parse_log_level (text : list byte) (level : Z) : M W (Z * Z) :=
  let names := ["error"; "warn"; "info"; "debug"; "trace"]%string in
  Machine.iter (S (length names)) (λ index,
    match names !! index with
    | Some name =>
      if strcaseeq text (lit name) then
        mret (Break (0, Z.of_nat index))
      else mret (Continue (S index))
    | None => put_errno EINVAL ;; mret (Break (-1, level))
    end) 0%nat.

Definition wc_tcp_parse_log_level (text : list byte) (level : Z) : M W (Z * Z) :=
  let names := ["error"; "warn"; "info"; "debug"; "trace"]%string in
  Machine.iter (S (length names)) (λ index,
    match names !! index with
    | Some name =>
      if strcaseeq text (lit name) then
        mret (Break (0, Z.of_nat index))
      else mret (Continue (S index))
    | None => put_errno EINVAL ;; mret (Break (-1, level))
    end) 0%nat.

Definition wc_client_parse_log_level (text : list byte) (level : Z) : M W (Z * Z) :=
  let names := ["error"; "warn"; "info"; "debug"; "trace"]%string in
  Machine.iter (S (length names)) (λ index,
    match names !! index with
    | Some name =>
      if strcaseeq text (lit name) then
        wc_log WC_LOG_TRACE "client" "log_level_parsed" (Some "level=%s"%string) [LStr name] ;;
        mret (Break (0, Z.of_nat index))
      else mret (Continue (S index))
    | None => put_errno EINVAL ;; mret (Break (-1, level))
    end) 0%nat.

(** ** Commands *)

Definition wc_client_parse_command (name : list byte) (type : Z) : M W (Z * Z) :=
  let found :=
    if streq name (lit "LS") then Some WC_REQUEST_LS
    else if streq name (lit "PWD") then Some WC_REQUEST_PWD
    else if streq name (lit "CAT") then Some WC_REQUEST_CAT
    else None in
  match found with
  | Some type =>
    wc_log WC_LOG_DEBUG "client" "command_parsed" (Some "type=%u"%string) [LInt type] ;;
    mret (0, type)
  | None => put_errno EINVAL ;; mret (-1, type)
  end.

(** ** Signals *)

(** The handlers set the stop flag of the process, which the servers read as
    [os_stop_requested]. *)
Definition wc_install_stop_handler (signal_number : Z) : M W Z :=
  r ← os_call os_sigemptyset;
  r ← status_result r;
  if r =? -1 then mret (-1) else
  r ← os_call (os_sigaction signal_number);
  status_result r.

Definition wc_threaded_install_stop_handler (signal_number : Z) : M W Z :=
  r ← os_call os_sigemptyset;
  r ← status_result r;
  if r =? -1 then mret (-1) else
  r ← os_call (os_sigaction signal_number);
  status_result r.

Definition wc_tcp_install_stop_handler (signal_number : Z) : M W Z :=
  r ← os_call os_sigemptyset;
  r ← status_result r;
  if r =? -1 then mret (-1) else
  r ← os_call (os_sigaction signal_number);
  status_result r.

End options.

Arguments print_error : simpl never.
Arguments perror : simpl never.
Arguments wc_tcp_parse_port : simpl never.
Arguments wc_client_parse_port : simpl never.
Arguments wc_parse_log_level : simpl never.
Arguments wc_threaded_parse_log_level : simpl never.
Arguments wc_tcp_parse_log_level : simpl never.
Arguments wc_client_parse_log_level : simpl never.
Arguments wc_client_parse_command : simpl never.
Arguments wc_install_stop_handler : simpl never.
Arguments wc_threaded_install_stop_handler : simpl never.
Arguments wc_tcp_install_stop_handler : simpl never.

(** ** Decimal numbers *)

Definition is_digits (ds : list byte) : Prop := ds ≠ [] ∧ Forall (λ c, is_digit c = true) ds.

(** The number a string of digits denotes. *)
Definition decimal (ds : list byte) : Z := foldl (λ acc c, acc * 10 + (byte_val c - 48)) 0 ds.

Lemma decimal_from_nonneg acc ds :
  0 ≤ acc → Forall (λ c, is_digit c = true) ds →
  0 ≤ foldl (λ acc c, acc * 10 + (byte_val c - 48)) acc ds.
Proof.
  intros Hacc Hds. revert acc Hacc. induction Hds as [|c ds Hc _ IH]; intros acc Hacc; [done|].
  simpl. apply IH. unfold is_digit in Hc. bool_to_prop. lia.
Qed.

(** The digits read are the longest prefix of digits. *)
Lemma read_digits_spec acc text :
  ∃ ds rest, text = ds ++ rest ∧ Forall (λ c, is_digit c = true) ds ∧
    (∀ c, head rest = Some c → is_digit c = false) ∧
    read_digits acc text = (foldl (λ acc c, acc * 10 + (byte_val c - 48)) acc ds, rest).
Proof.
  revert acc. induction text as [|c text IH]; intros acc; simpl; [by exists [], []|].
  destruct (is_digit c) eqn:Hc.
  - destruct (IH (acc * 10 + (byte_val c - 48))) as (ds & rest & -> & Hds & Hrest & Hr).
    exists (c :: ds), rest. split_and!; [done | by constructor | done | exact Hr].
  - exists [], (c :: text). split_and!; [done | done | by intros ? [= <-] | done].
Qed.

Lemma read_digits_app acc ds rest :
  Forall (λ c, is_digit c = true) ds →
  read_digits acc (ds ++ rest) =
    read_digits (foldl (λ acc c, acc * 10 + (byte_val c - 48)) acc ds) rest.
Proof.
  intros Hds. revert acc. induction Hds as [|c ds Hc _ IH]; intros acc; [done|].
  simpl. by rewrite Hc.
Qed.

Lemma skip_spaces_spec text :
  ∃ ws, text = ws ++ skip_spaces text ∧ Forall (λ c, is_space c = true) ws.
Proof.
  induction text as [|c text (ws & Ht & Hws)]; simpl; [by exists []|].
  destruct (is_space c) eqn:Hc; [|by exists []].
  exists (c :: ws). split; [simpl; by rewrite <-Ht | by constructor].
Qed.

Lemma skip_spaces_app ws c rest :
  Forall (λ c, is_space c = true) ws → is_space c = false →
  skip_spaces (ws ++ c :: rest) = c :: rest.
Proof. intros Hws Hc. induction Hws as [|w ws Hw _ IH]; simpl; [by rewrite Hc | by rewrite Hw]. Qed.

(** A text the port parser takes: white space, a sign, digits. With a minus
    sign the number is taken modulo 2^64. *)
Definition port_text (text : list byte) (p : Z) : Prop :=
  1 ≤ p ≤ UINT16_MAX ∧ ∃ ws sign ds,
    text = ws ++ sign ++ ds ∧ Forall (λ c, is_space c = true) ws ∧ is_digits ds ∧
    ((sign = [] ∨ sign = lit "+") ∧ decimal ds = p ∨
     sign = lit "-" ∧ decimal ds = 2 ^ 64 - p).

Definition port_accepts (text : list byte) : option Z :=
  let '(value, rest, range) := strtoul text in
  if (range : bool) || (zlen text =? 0) || negb (zlen rest =? 0) || (value =? 0)
     || (value >? UINT16_MAX) then None else Some value.

Lemma read_sign_spec text neg rest :
  read_sign text = (neg, rest) →
  (neg = true ∧ text = Byte.x2d :: rest) ∨ (neg = false ∧ text = Byte.x2b :: rest) ∨
  (neg = false ∧ text = rest).
Proof.
  destruct text as [|c text]; simpl; [by intros [= <- <-]; auto|].
  destruct c; intros [= <- <-]; auto.
Qed.

Lemma to_size_opp v : 0 < v ≤ ULONG_MAX → to_size (- v) = 2 ^ 64 - v.
Proof.
  unfold to_size, ULONG_MAX. intros Hv.
  rewrite <-(Z.mod_small (2 ^ 64 - v) (2 ^ 64)) by lia.
  rewrite <-(Z_mod_plus_full (- v) 1 (2 ^ 64)). f_equal. lia.
Qed.

Lemma port_accepts_sound text p : port_accepts text = Some p → port_text text p.
Proof.
  unfold port_accepts, strtoul. destruct (skip_spaces_spec text) as (ws & Htext & Hws).
  destruct (read_sign (skip_spaces text)) as [neg digits] eqn:Hs.
  assert (∀ b, (if b || (zlen text =? 0) || negb (zlen text =? 0) || (0 =? 0) || (0 >? UINT16_MAX)
    then None else Some 0) ≠ Some p) as Hnone.
  { intros b H. destruct b; [discriminate H|]. destruct (zlen text =? 0); discriminate H. }
  destruct digits as [|c digits]; [by intros ?%Hnone|].
  destruct (is_digit c) eqn:Hc; [|by intros ?%Hnone].
  destruct (read_digits_spec 0 (c :: digits)) as (ds & rest & Hd & Hds & Hhd & ->).
  fold (decimal ds). pose proof (decimal_from_nonneg 0 ds ltac:(lia) Hds) as Hnn. fold (decimal ds) in Hnn.
  destruct (decimal ds >? ULONG_MAX) eqn:Hbig; [done|]. bool_to_prop. cbn [orb].
  set (v := if neg then _ else _). case_if as Hrej; [done|]. bool_to_prop. intros [= <-].
  assert (rest = []) as -> by (by apply zlen_nil_inv). rewrite app_nil_r in Hd.
  assert (is_digits ds) as Hok by (split; [by rewrite <-Hd | done]).
  rewrite Hd in Hs.
  destruct (read_sign_spec _ _ _ Hs) as [[-> Hsk]|[[-> Hsk]|[-> Hsk]]]; rewrite Hsk in Htext; subst v.
  - assert (decimal ds ≠ 0) as Hz by (intros Hz; rewrite Hz in *; done).
    rewrite to_size_opp in * by lia. unfold ULONG_MAX in *. split; [lia|].
    exists ws, (lit "-"), ds. split_and!; [done | done | done | right]. split; [done | lia].
  - split; [lia|]. exists ws, (lit "+"), ds. split_and!; auto.
  - split; [lia|]. exists ws, [], ds. split_and!; auto.
Qed.

Lemma digit_not_space c : is_digit c = true → is_space c = false.
Proof.
  unfold is_digit, is_space. intros Hc. bool_to_prop.
  apply orb_false_iff. split; [lia|]. apply andb_false_iff. right. lia.
Qed.

Lemma digit_no_sign c rest : is_digit c = true → read_sign (c :: rest) = (false, c :: rest).
Proof. by destruct c. Qed.

Lemma strtoul_digits ws sign ds :
  Forall (λ c, is_space c = true) ws → is_digits ds → sign ∈ [[]; lit "+"; lit "-"] →
  strtoul (ws ++ sign ++ ds) =
    if decimal ds >? ULONG_MAX then (ULONG_MAX, [], true)
    else ((if bool_decide (sign = lit "-") then to_size (- decimal ds) else decimal ds), [], false).
Proof.
  intros Hws [Hne Hds] Hsign. unfold strtoul.
  pose proof (read_digits_app 0 ds [] Hds) as Hread. rewrite app_nil_r in Hread. simpl in Hread.
  destruct ds as [|c ds]; [done|]. pose proof Hds as [Hc _]%Forall_cons.
  assert (read_sign (skip_spaces (ws ++ sign ++ c :: ds)) =
    (bool_decide (sign = lit "-"), c :: ds)) as ->.
  { rewrite !elem_of_cons in Hsign. destruct Hsign as [->|[->|[->|[]%not_elem_of_nil]]]; simpl;
      rewrite skip_spaces_app by (first [done | by apply digit_not_space]); [|done..].
    by apply digit_no_sign. }
  rewrite Hc, Hread. fold (decimal (c :: ds)). by case_if.
Qed.

Lemma port_accepts_complete text p : port_text text p → port_accepts text = Some p.
Proof.
  intros (Hp & ws & sign & ds & -> & Hws & Hds & Hval). unfold port_accepts, UINT16_MAX in *.
  rewrite strtoul_digits; [|done|done|].
  2:{ destruct Hval as [[[->| ->] _]|[-> _]]; list_in. }
  assert (zlen (ws ++ sign ++ ds) ≠ 0) as Hlen.
  { rewrite !zlen_app. destruct Hds as [Hne _]. destruct ds; [done|]. simpl. lia. }
  assert (decimal ds ≤ ULONG_MAX) as Hmax by (unfold ULONG_MAX; destruct Hval as [[_ ?]|[_ ?]]; lia).
  assert ((if bool_decide (sign = lit "-") then to_size (- decimal ds) else decimal ds) = p) as ->.
  { destruct Hval as [[[->| ->] ?]|[-> ?]]; [done | done |].
    rewrite bool_decide_eq_true_2, to_size_opp by (first [done | lia]). lia. }
  destruct (decimal ds >? ULONG_MAX) eqn:Hbig; bool_to_prop; [lia|]. cbn [orb].
  rewrite (proj2 (Z.eqb_neq _ 0) Hlen), (proj2 (Z.eqb_neq p 0)) by lia. simpl.
  by rewrite Z.gtb_ltb, (proj2 (Z.ltb_ge 65535 p)) by lia.
Qed.

Lemma port_text_inj text p q : port_text text p → port_text text q → p = q.
Proof. intros ?%port_accepts_complete ?%port_accepts_complete. congruence. Qed.

(** ** Log levels, without their effects *)

Definition log_level_names : list string := ["error"; "warn"; "info"; "debug"; "trace"]%string.

(** The first name that matches, with its index. *)
Fixpoint find_level (text : list byte) (index : Z) (names : list string) : option (Z * string) :=
  match names with
  | [] => None
  | name :: names =>
    if strcaseeq text (lit name) then Some (index, name) else find_level text (index + 1) names
  end.
Arguments find_level : simpl never.

Lemma find_level_valid text i name :
  find_level text 0 log_level_names = Some (i, name) → wc_log_level_valid i = true.
Proof.
  unfold find_level, log_level_names. repeat (case_match; [by intros [= <- _]|]). done.
Qed.

(** A printed number is read back. *)
Lemma pretty_char_digit d s : (d < 10)%N →
  ∃ c, lit (String (pretty_N_char d) s) = c :: lit s ∧ is_digit c = true ∧
    byte_val c - 48 = Z.of_N d.
Proof.
  intros Hd.
  assert (d = 0 ∨ d = 1 ∨ d = 2 ∨ d = 3 ∨ d = 4 ∨ d = 5 ∨ d = 6 ∨ d = 7 ∨ d = 8 ∨ d = 9)%N
    as Hcases by lia.
  repeat destruct Hcases as [->|Hcases]; try subst d; by eexists.
Qed.

Lemma pretty_go_digits x s :
  ∃ ds, lit (pretty_N_go x s) = ds ++ lit s ∧ Forall (λ c, is_digit c = true) ds ∧
    decimal ds = Z.of_N x ∧ ((0 < x)%N → ds ≠ []).
Proof.
  revert s. induction (N.lt_wf_0 x) as [x _ IH]; intros s.
  destruct (decide (0 < x)%N) as [Hx|Hx].
  - rewrite pretty_N_go_step by done.
    destruct (IH (x / 10)%N (N.div_lt x 10 Hx eq_refl)
      (String (pretty_N_char (x mod 10)) s)) as (ds & -> & Hds & Hval & _).
    destruct (pretty_char_digit (x mod 10) s) as (c & -> & Hc & Hv); [by apply N.mod_lt|].
    exists (ds ++ [c]). split_and!.
    + by rewrite <-app_assoc.
    + apply Forall_app. by split; [|constructor].
    + unfold decimal in *. rewrite foldl_app, Hval. simpl. rewrite Hv.
      pose proof (N.div_mod x 10 ltac:(done)). lia.
    + intros _. by destruct ds.
  - assert (x = 0%N) as -> by lia. exists []. by split_and!.
Qed.

Lemma port_text_pretty p : 1 ≤ p ≤ UINT16_MAX → port_text (lit (pretty p)) p.
Proof.
  intros Hp. split; [done|]. destruct p as [|p|p]; [lia| |lia].
  destruct (pretty_go_digits (N.pos p) "") as (ds & Hds & Hall & Hval & Hne).
  exists [], [], ds. split_and!; [|done|by split; [apply Hne|]|by left; auto].
  simpl. rewrite <-(app_nil_r ds). exact Hds.
Qed.

(** ** Specifications *)

Section options_specs.
Context {W : Type} {OS : Posix W}.
Implicit Types (m : machine W) (t : bool).

(** What a function of the command line does to the process: it may set
    [errno] and write to standard error. *)
Record noted m m' : Prop := {
  nt_live : m_live m' = m_live m;
  nt_heap : m_heap m' = m_heap m;
  nt_next : m_next_loc m' = m_next_loc m;
  nt_open : m_open m' = m_open m;
  nt_trace : m_trace m' = m_trace m;
  nt_os : os_mono (m_os m) (m_os m');
}.

#[global] Instance noted_preorder : PreOrder noted.
Proof.
  split; [by intros m; constructor|].
  intros m1 m2 m3 [] []. constructor; try congruence. by etrans.
Qed.

Lemma logged_noted m m' : logged m m' → noted m m'.
Proof. by intros []. Qed.
Lemma call0_noted m m' : call_frame0 m m' → noted m m'.
Proof. by intros [[[] ? ?] ? ?]. Qed.
Lemma errno_noted e m : noted m (set_errno e m).
Proof. by constructor. Qed.
Lemma level_noted l m : noted m (set_log_level l m).
Proof. by constructor. Qed.

(** What fprintf(stderr) does: it may fail and set [errno]. *)
Record printed m m' : Prop := {
  pr_kept : kept m m';
  pr_live : m_live m' = m_live m;
  pr_open : m_open m' = m_open m;
  pr_trace : m_trace m' = m_trace m;
}.

Lemma printed_noted m m' : printed m m' → noted m m'.
Proof. by intros [[] ? ? ?]. Qed.

Lemma print_error_spec t format args (Q : () → machine W → Prop) m :
  log_ok (Some format) args → (∀ m', printed m m' → Q () m') →
  wp t (print_error format args) Q m.
Proof.
  intros [text Htext] HQ. unfold print_error. wp_go.
  apply wp_sys_stderr; intros; apply HQ; by repeat constructor.
Qed.

Lemma perror_spec t s (Q : () → machine W → Prop) m :
  (∀ m', printed m m' → Q () m') → wp t (perror s) Q m.
Proof. intros HQ. unfold perror. wp_go. by apply print_error_spec; [log_ok|]. Qed.

(** The parsers of log levels: the loop over each table finds the first match. *)
Lemma server_levels_eq text level m :
  let r := match find_level text 0 log_level_names with
           | Some (i, _) => Ret (0, i) m
           | None => Ret (-1, level) (set_errno EINVAL m)
           end in
  wc_parse_log_level text level m = r ∧ wc_threaded_parse_log_level text level m = r ∧
  wc_tcp_parse_log_level text level m = r.
Proof.
  unfold wc_parse_log_level, wc_threaded_parse_log_level, wc_tcp_parse_log_level.
  unfold find_level, log_level_names. generalize (strcaseeq text). intros f. simpl Machine.iter.
  cbv [mbind M_bind mret M_ret put_errno modify].
  do 5 (cbn [lookup list_lookup]; cbn beta iota; destruct (f (lit _)); [done|]). done.
Qed.

Lemma client_level_eq text level m :
  wc_client_parse_log_level text level m =
    match find_level text 0 log_level_names with
    | Some (i, name) =>
      (wc_log WC_LOG_TRACE "client" "log_level_parsed" (Some "level=%s"%string) [LStr name] ;;
       mret (0, i)) m
    | None => Ret (-1, level) (set_errno EINVAL m)
    end.
Proof.
  unfold wc_client_parse_log_level, find_level, log_level_names.
  generalize (strcaseeq text). intros f. simpl Machine.iter.
  cbv [mbind M_bind mret M_ret put_errno modify].
  do 5 (cbn [lookup list_lookup]; cbn beta iota; destruct (f (lit _));
    [by destruct (wc_log _ _ _ _ _ m)|]). done.
Qed.

Lemma client_level_spec t text level (Q : Z * Z → machine W → Prop) m :
  (∀ i name m', find_level text 0 log_level_names = Some (i, name) → logged m m' →
     Q (0, i) m') →
  (find_level text 0 log_level_names = None → Q (-1, level) (set_errno EINVAL m)) →
  wp t (wc_client_parse_log_level text level) Q m.
Proof.
  intros Hok Hbad. unfold wp. rewrite client_level_eq.
  destruct (find_level text 0 log_level_names) as [[i name]|]; [|by apply Hbad].
  apply (wp_bind t); apply wp_log; [log_ok|]. intros m' Hlg. wp_go. by eapply Hok.
Qed.

(** The test of the two port parsers. *)
Lemma port_test text (e : Z) :
  let '(value, rest, range) := strtoul text in
  (e = if (range : bool) then ERANGE else 0) →
  (if negb (e =? 0) || (zlen text =? 0) || negb (zlen rest =? 0) || (value =? 0)
     || (value >? UINT16_MAX) then None else Some value) = port_accepts text.
Proof.
  unfold port_accepts. destruct (strtoul text) as [[value rest] range]. intros ->.
  by destruct range.
Qed.

Lemma wc_tcp_parse_port_eq text port m :
  ∃ e, wc_tcp_parse_port text port m =
    Ret (match port_accepts text with Some p => (0, p) | None => (-1, port) end) (set_errno e m) ∧
    e = (match port_accepts text with Some _ => 0 | None => EINVAL end).
Proof.
  unfold wc_tcp_parse_port, put_errno, get_errno, gets, modify, mbind, M_bind, mret, M_ret.
  pose proof (port_test text) as Htest. pose proof (port_accepts_sound text) as Hok.
  destruct (strtoul text) as [[value rest] range].
  rewrite <-(Htest (if range then ERANGE else 0)) in * by done. clear Htest.
  destruct range; simpl in *; [by eexists|].
  set (b := (zlen text =? 0) || _ || _ || _) in *. destruct b; [by eexists|].
  destruct (Hok value eq_refl) as [Hp _]. rewrite to_u16_small by lia. by eexists.
Qed.

Lemma wc_client_parse_port_spec t text port (Q : Z * Z → machine W → Prop) m :
  (∀ p m', port_text text p → logged (set_errno 0 m) m' → Q (0, p) m') →
  ((∀ p, ¬ port_text text p) → Q (-1, port) (set_errno EINVAL m)) →
  wp t (wc_client_parse_port text port) Q m.
Proof.
  intros Hok Hbad. unfold wc_client_parse_port. wp_go.
  pose proof (port_test text) as Htest. pose proof (port_accepts_sound text) as Hs.
  pose proof (λ p, port_accepts_complete text p) as Hc.
  destruct (strtoul text) as [[value rest] range].
  rewrite <-(Htest (if range then ERANGE else 0)) in * by done. clear Htest.
  destruct range; wp_go; simpl in *; [apply Hbad; intros p ?%Hc; done|].
  set (b := (zlen text =? 0) || _ || _ || _) in *. destruct b; wp_go.
  { apply Hbad. intros p ?%Hc. done. }
  destruct (Hs value eq_refl) as [Hp Hpt]. rewrite to_u16_small by lia.
  apply wp_log; [log_ok|]. intros m' Hlg. wp_go. by apply Hok; [split|].
Qed.

End options_specs.

(** ** Properties *)

Section options_properties.
Context {W : Type} {OS : Posix W}.
Implicit Types (m : machine W).

(** C34: the client's port parser takes exactly the texts of the port grammar
    (white space, an optional sign, decimal digits) whose value, negated modulo
    2^64 after a minus sign, is between 1 and 65535, and reports that value; any
    other text is refused with EINVAL and the port is left alone. *)
Theorem wc_client_parse_port_correct text port m :
  ∃ r port' m', wc_client_parse_port text port m = Ret (r, port') m' ∧ noted m m' ∧
    ((r = 0 ∧ port_text text port') ∨
     (r = -1 ∧ port' = port ∧ m_errno m' = EINVAL ∧ ∀ p, ¬ port_text text p)).
Proof.
  assert (wp true (wc_client_parse_port text port) (λ r m', noted m m' ∧
    ((r.1 = 0 ∧ port_text text r.2) ∨
     (r.1 = -1 ∧ r.2 = port ∧ m_errno m' = EINVAL ∧ ∀ p, ¬ port_text text p))) m) as Hwp.
  { apply wc_client_parse_port_spec.
    - intros p m' Hp Hlg. split; [|by left]. etrans; [apply errno_noted | by apply logged_noted].
    - intros Hno. split; [apply errno_noted|]. right. by split_and!. }
  apply wp_total_inv in Hwp as ([r port'] & m' & Hrun & Hpost). by exists r, port', m'.
Qed.

(** C35: the programs read ports and log levels alike. On every text, the port
    parsers of the client and the TCP server, and the log-level parsers of the
    client and the three servers, each with its own loop and its own table, give
    the same result, the same value and the same errno. *)
Theorem option_parsers_agree text port level m :
  (∃ r m1 m2, wc_client_parse_port text port m = Ret r m1 ∧
     wc_tcp_parse_port text port m = Ret r m2 ∧ m_errno m1 = m_errno m2) ∧
  (∃ r m1 m2, wc_client_parse_log_level text level m = Ret r m1 ∧
     wc_parse_log_level text level m = Ret r m2 ∧
     wc_threaded_parse_log_level text level m = Ret r m2 ∧
     wc_tcp_parse_log_level text level m = Ret r m2 ∧ m_errno m1 = m_errno m2).
Proof.
  split.
  - destruct (wc_tcp_parse_port_eq text port m) as (e & Heq & He).
    assert (wp true (wc_client_parse_port text port) (λ r m1,
      r = (match port_accepts text with Some p => (0, p) | None => (-1, port) end) ∧
      m_errno m1 = e) m) as Hwp.
    { apply wc_client_parse_port_spec.
      - intros p m' Hp%port_accepts_complete Hlg. rewrite Hp in *. subst e.
        by rewrite (lg_errno _ _ Hlg).
      - intros Hno. destruct (port_accepts text) eqn:Hp; [|by subst].
        by apply port_accepts_sound, Hno in Hp. }
    apply wp_total_inv in Hwp as (r & m1 & Hrun & -> & Hm1).
    eexists _, m1, _. by split_and!.
  - destruct (server_levels_eq text level m) as (-> & -> & ->).
    assert (wp true (wc_client_parse_log_level text level) (λ r m1,
      match find_level text 0 log_level_names with
      | Some (i, _) => Ret (0, i) m
      | None => Ret (-1, level) (set_errno EINVAL m)
      end = Ret r (set_errno (m_errno m1) m)) m) as Hwp.
    { apply client_level_spec; [|by intros ->].
      intros i name m' -> Hlg. rewrite (lg_errno _ _ Hlg). by destruct m. }
    apply wp_total_inv in Hwp as (r & m1 & Hrun & ->). by eexists r, m1, _.
Qed.

(** C36: a port or a log level that is printed is read back: the decimal text
    of every port, and the name the log prints for every level in any letter
    case. *)
Theorem option_roundtrip p level text port m :
  (1 ≤ p ≤ UINT16_MAX → ∃ m',
     wc_tcp_parse_port (lit (pretty p)) port m = Ret (0, p) m') ∧
  (wc_log_level_valid level = true →
   to_lower <$> text = to_lower <$> lit (wc_log_level_name level) →
   ∃ m', wc_parse_log_level text port m = Ret (0, level) m').
Proof.
  split.
  - intros Hp. destruct (wc_tcp_parse_port_eq (lit (pretty p)) port m) as (e & -> & _).
    rewrite (port_accepts_complete _ p) by (by apply port_text_pretty). by eexists.
  - intros Hl Ht. unfold wc_log_level_valid, WC_LOG_ERROR, WC_LOG_TRACE in Hl. bool_to_prop.
    exists m. destruct (server_levels_eq text port m) as (-> & _).
    assert (find_level text 0 log_level_names = Some (level,
      nth (Z.to_nat level) log_level_names "")) as ->; [|done].
    assert (level = 0 ∨ level = 1 ∨ level = 2 ∨ level = 3 ∨ level = 4) as Hcases by lia.
    unfold find_level, strcaseeq, log_level_names. rewrite Ht. clear Ht.
    repeat destruct Hcases as [->|Hcases]; try subst level; vm_compute; reflexivity.
Qed.

End options_properties.

(** ** Concrete runs *)

Example port_9090 : port_accepts (lit "9090") = Some 9090.
Proof. reflexivity. Qed.
Example port_65536 : port_accepts (lit "65536") = None.
Proof. reflexivity. Qed.
(** The sign and the wrap-around of [strtoul]. *)
Example port_negative : port_accepts (lit " -18446744073709551615") = Some 1.
Proof. reflexivity. Qed.

Lemma option_roundtrip_witness :
  (∃ m', wc_tcp_parse_port (lit "9090") 0 (boot empty_script) = Ret (0, 9090) m') ∧
  (∃ m', wc_parse_log_level (lit "Debug") 0 (boot empty_script) = Ret (0, 3) m').
Proof.
  destruct (option_roundtrip 9090 3 (lit "Debug") 0 (boot empty_script)) as [H1 H2]. split.
  - apply H1. unfold UINT16_MAX. lia.
  - apply H2; vm_compute; reflexivity.
Defined.
