(* ===== verification/Client.v ===== *)
(** * The command-line client (src/src/main_client.c)

    Option parsing, the two ways to connect, the loop that reads one response
    and [main], with its exit codes. *)

From S2P Require Import Prelude Machine Script Buffer Protocol SocketUtils Logging Listener Options.

Definition STDOUT_FILENO : Z := 1.

(** The local variables of [main] the options set. *)
Record client_options := ClientOptions {
  co_socket_path : list byte;
  co_tcp_host : list byte;
  co_tcp_port : Z;
  co_log_level : Z;
  co_socket_option_seen : bool;
  co_use_tcp : bool;
}.

Definition client_defaults : client_options :=
  ClientOptions (lit "/tmp/wirecommand.sock") (lit "127.0.0.1") 9090 WC_LOG_INFO false false.

Definition usage_format : string :=
"Usage:
  %s [--socket PATH] [--log-level LEVEL] PWD
  %s [--socket PATH] [--log-level LEVEL] LS DIRECTORY
  %s [--socket PATH] [--log-level LEVEL] CAT /ABSOLUTE/FILE
  %s --host IPv4 [--port 1-65535] [--log-level LEVEL] PWD|LS|CAT [ARGUMENT]
".

Section client.
Context {W : Type} {OS : Posix W}.

Definition wc_client_print_usage (program : list byte) : M W () :=
  wc_log WC_LOG_DEBUG "client" "usage_printed" None [] ;;
  print_error usage_format [LPath program; LPath program; LPath program; LPath program].

Definition wc_client_connect_uds (socket_path : list byte) : M W Z :=
  wc_log WC_LOG_DEBUG "client" "connect_started" (Some "transport=uds"%string) [] ;;
  if (zlen socket_path =? 0) || (zlen socket_path >=? SUN_PATH_SIZE) then
    put_errno ENAMETOOLONG ;; mret (-1)
  else
    socket_fd ← sys_socket;
    if socket_fd =? -1 then mret (-1) else
    r ← os_call (os_connect socket_fd);
    r ← status_result r;
    if r =? -1 then close_keeping_errno socket_fd ;; mret (-1) else
    wc_log WC_LOG_DEBUG "client" "connect_complete"
      (Some "transport=uds socket=fd:%d"%string) [LInt socket_fd] ;;
    mret socket_fd.

Definition wc_client_connect_tcp (host : list byte) (port : Z) : M W Z :=
  wc_log WC_LOG_DEBUG "client" "connect_started" (Some "transport=tcp port=%u"%string)
    [LInt port] ;;
  '(address_result, e) ← os_call (os_inet_pton host);
  if negb (address_result =? 1) then
    put_errno (if address_result =? 0 then EINVAL else e) ;; mret (-1)
  else
    socket_fd ← sys_socket;
    if socket_fd =? -1 then mret (-1) else
    r ← os_call (os_connect socket_fd);
    r ← status_result r;
    if r =? -1 then close_keeping_errno socket_fd ;; mret (-1) else
    wc_log WC_LOG_DEBUG "client" "connect_complete"
      (Some "transport=tcp socket=fd:%d port=%u"%string) [LInt socket_fd; LInt port] ;;
    mret socket_fd.

(** One read of the response loop: whether to go on, and the buffer. *)
Definition receive_more (socket_fd : Z) (input : wc_buffer)
    : M W (wc_buffer + Z * wc_buffer) :=
  let available := buf_max_size input -ₛ buf_length input in
  let read_size := if available <? 4096 then available else 4096 in
  '(bytes_read, bytes) ← sys_read socket_fd read_size;
  if bytes_read >? 0 then
    '(r, input) ← by_ref (λ p, wc_buffer_append p (Some (bytes_block bytes)) bytes_read) input;
    if r =? -1 then mret (Break (-1, input)) else
    wc_log WC_LOG_DEBUG "client" "read_complete"
      (Some "socket=fd:%d bytes=%zu input_pending=%zu"%string)
      [LInt socket_fd; LInt bytes_read; LInt (buf_length input)] ;;
    mret (Continue input)
  else
    e ← get_errno;
    if (bytes_read =? -1) && (e =? EINTR) then mret (Continue input) else
    (if bytes_read =? 0 then put_errno EPIPE else mret ()) ;;
    mret (Break (-1, input)).

(** [fuel] bounds the iterations, [write_fuel] those of the write loop. *)
Definition wc_client_receive_response (fuel write_fuel : nat) (socket_fd : Z) : M W Z :=
  '(r, input) ← by_ref (λ p, wc_buffer_init p
    (UINT16_MAX + WC_PROTOCOL_RESPONSE_HEADER_SIZE)) (WcBuffer None 0 0 0);
  if r =? -1 then mret (-1) else
  wc_log WC_LOG_DEBUG "client" "response_waiting" (Some "socket=fd:%d"%string)
    [LInt socket_fd] ;;
  '(result, input) ← iter fuel (λ input,
    '(parse_result, response, _) ←
      wc_protocol_parse_response (buf_data input) (buf_length input)
        (Some (WcResponse 0 0 0)) (Some 0);
    response ← from_option_ub response;
    if decide (parse_result = WC_PARSE_COMPLETE) then
      wc_log WC_LOG_DEBUG "client" "response_complete"
        (Some "socket=fd:%d message_length=%zu data_length=%zu"%string)
        [LInt socket_fd; LInt (rp_message_length response); LInt (rp_data_length response)] ;;
      r ← wc_socket_write_all write_fuel STDOUT_FILENO
            (ptr_add (buf_data input) (rp_data response)) (rp_data_length response);
      mret (Break (r, input))
    else if bool_decide (parse_result = WC_PARSE_INVALID)
            || (buf_length input =? buf_max_size input) then
      put_errno EPROTO ;; mret (Break (-1, input))
    else receive_more socket_fd input) input;
  _ ← wc_buffer_destroy (Some input);
  wc_log WC_LOG_TRACE "client" "response_buffer_destroyed" (Some "socket=fd:%d"%string)
    [LInt socket_fd] ;;
  mret result.

(** The option loop over the arguments from [argument_index]: the arguments
    left, or [None] after a usage error. *)
Fixpoint client_option_loop (program : list byte) (arguments : list (list byte))
    (o : client_options) : M W (option (client_options * list (list byte))) :=
  match arguments with
  | option :: value :: rest =>
    if streq option (lit "--socket") && negb (co_use_tcp o) then
      client_option_loop program rest
        (ClientOptions value (co_tcp_host o) (co_tcp_port o) (co_log_level o) true (co_use_tcp o))
    else if streq option (lit "--host") && negb (co_socket_option_seen o) then
      client_option_loop program rest
        (ClientOptions (co_socket_path o) value (co_tcp_port o) (co_log_level o)
           (co_socket_option_seen o) true)
    else if streq option (lit "--port") && negb (co_socket_option_seen o) then
      '(r, port) ← wc_client_parse_port value (co_tcp_port o);
      if r =? -1 then wc_client_print_usage program ;; mret None else
      client_option_loop program rest
        (ClientOptions (co_socket_path o) (co_tcp_host o) port (co_log_level o)
           (co_socket_option_seen o) true)
    else if streq option (lit "--log-level") then
      '(r, level) ← wc_client_parse_log_level value (co_log_level o);
      if r =? -1 then wc_client_print_usage program ;; mret None else
      client_option_loop program rest
        (ClientOptions (co_socket_path o) (co_tcp_host o) (co_tcp_port o) level
           (co_socket_option_seen o) (co_use_tcp o))
    else mret (Some (o, arguments))
  | _ => mret (Some (o, arguments))
  end.

(** The command and its argument: the request type and the argument pointer
    with its length, or [None] after a usage error. *)
Definition client_command (program : list byte) (arguments : list (list byte))
    : M W (option (Z * pointer * Z)) :=
  match arguments with
  | [] => wc_client_print_usage program ;; mret None
  | command_name :: rest =>
    '(r, type) ← wc_client_parse_command command_name 0;
    if r =? -1 then wc_client_print_usage program ;; mret None else
    if type =? WC_REQUEST_PWD then
      match rest with
      | [] => mret (Some (type, None, 0))
      | _ => wc_client_print_usage program ;; mret None
      end
    else
      match rest with
      | [argument] => mret (Some (type, Some (bytes_block argument), zlen argument))
      | _ => wc_client_print_usage program ;; mret None
      end
  end.

(** Send the request and print the response: the exit code. *)
Definition client_exchange (fuel write_fuel : nat) (socket_fd : Z) (request : wc_buffer)
    : M W Z :=
  r ← wc_socket_write_all write_fuel socket_fd (buf_data request) (buf_length request);
  if r =? -1 then perror "wirecommand: send request" ;; mret 1 else
  wc_log WC_LOG_DEBUG "client" "request_sent" (Some "socket=fd:%d bytes=%zu"%string)
    [LInt socket_fd; LInt (buf_length request)] ;;
  r ← wc_client_receive_response fuel write_fuel socket_fd;
  if r =? -1 then perror "wirecommand: receive response" ;; mret 1 else mret 0.

(** [main] from the encoding of the request. *)
Definition client_request (fuel write_fuel : nat) (o : client_options) (type : Z)
    (argument : pointer) (argument_length : Z) : M W Z :=
  '(r, request) ← by_ref (λ p, wc_buffer_init p UINT16_MAX) (WcBuffer None 0 0 0);
  if r =? -1 then perror "wirecommand: encode request" ;; mret 1 else
  '(r, request) ← by_ref (λ p, wc_protocol_encode_request p type argument argument_length) request;
  if r =? -1 then
    perror "wirecommand: encode request" ;;
    _ ← wc_buffer_destroy (Some request);
    mret 1
  else
    wc_log WC_LOG_DEBUG "client" "request_encoded"
      (Some "type=%u argument_length=%zu message_length=%zu"%string)
      [LInt type; LInt argument_length; LInt (buf_length request)] ;;
    r ← wc_socket_ignore_sigpipe;
    if r =? -1 then
      perror "wirecommand: SIGPIPE setup" ;;
      _ ← wc_buffer_destroy (Some request);
      mret 1
    else
      socket_fd ← (if co_use_tcp o then wc_client_connect_tcp (co_tcp_host o) (co_tcp_port o)
                   else wc_client_connect_uds (co_socket_path o));
      if socket_fd =? -1 then
        perror "wirecommand: connect" ;;
        _ ← wc_buffer_destroy (Some request);
        mret 1
      else
        result ← client_exchange fuel write_fuel socket_fd request;
        r ← sys_close socket_fd;
        result ← (if (r =? -1) && (result =? 0) then perror "wirecommand: close" ;; mret 1
                  else mret result);
        _ ← wc_buffer_destroy (Some request);
        wc_log WC_LOG_DEBUG "client" "stop" (Some "result=%d"%string) [LInt result] ;;
        mret result.

(** [main], over the arguments of the program. *)
Definition client_main (fuel write_fuel : nat) (arguments : list (list byte)) : M W Z :=
  program ← from_option_ub (head arguments);
  options ← client_option_loop program (tail arguments) client_defaults;
  match options with
  | None => mret 2
  | Some (o, rest) =>
    wc_log_set_level (co_log_level o) ;;
    wc_log WC_LOG_DEBUG "client" "options_parsed" (Some "transport=%s"%string)
      [LStr (if co_use_tcp o then "tcp" else "uds")] ;;
    command ← client_command program rest;
    match command with
    | None => mret 2
    | Some (type, argument, argument_length) =>
      client_request fuel write_fuel o type argument argument_length
    end
  end.

End client.

Arguments wc_client_print_usage : simpl never.
Arguments wc_client_connect_uds : simpl never.
Arguments wc_client_connect_tcp : simpl never.
Arguments receive_more : simpl never.
Arguments wc_client_receive_response : simpl never.
Arguments client_command : simpl never.
Arguments client_exchange : simpl never.
Arguments client_request : simpl never.

(** ** The command line, without its effects *)

Fixpoint scan_options (arguments : list (list byte)) (o : client_options)
    : option (client_options * list (list byte)) :=
  match arguments with
  | option :: value :: rest =>
    if streq option (lit "--socket") && negb (co_use_tcp o) then
      scan_options rest
        (ClientOptions value (co_tcp_host o) (co_tcp_port o) (co_log_level o) true (co_use_tcp o))
    else if streq option (lit "--host") && negb (co_socket_option_seen o) then
      scan_options rest
        (ClientOptions (co_socket_path o) value (co_tcp_port o) (co_log_level o)
           (co_socket_option_seen o) true)
    else if streq option (lit "--port") && negb (co_socket_option_seen o) then
      port ← port_accepts value;
      scan_options rest
        (ClientOptions (co_socket_path o) (co_tcp_host o) port (co_log_level o)
           (co_socket_option_seen o) true)
    else if streq option (lit "--log-level") then
      level ← find_level value 0 log_level_names;
      scan_options rest
        (ClientOptions (co_socket_path o) (co_tcp_host o) (co_tcp_port o) level.1
           (co_socket_option_seen o) (co_use_tcp o))
    else Some (o, arguments)
  | _ => Some (o, arguments)
  end.

(** The request a command line asks for. *)
Definition scan_command (arguments : list (list byte)) : option (Z * list byte) :=
  match arguments with
  | [name] => if streq name (lit "PWD") then Some (WC_REQUEST_PWD, []) else None
  | [name; argument] =>
    if streq name (lit "LS") then Some (WC_REQUEST_LS, argument)
    else if streq name (lit "CAT") then Some (WC_REQUEST_CAT, argument) else None
  | _ => None
  end.

Definition scan_arguments (arguments : list (list byte))
    : option (client_options * (Z * list byte)) :=
  '(o, rest) ← scan_options (tail arguments) client_defaults;
  request ← scan_command rest;
  Some (o, request).

(** ** Specifications *)

Section client_specs.
Context {W : Type} {OS : Posix W} `{!PosixLaws W}.
Implicit Types (m : machine W) (t : bool).

Lemma usage_spec t {A} program (a : A) (Q : A → machine W → Prop) m :
  (∀ m', noted m m' → Q a m') → wp t (wc_client_print_usage program ;; mret a) Q m.
Proof.
  intros HQ. unfold wc_client_print_usage. wp_go. apply wp_log; [log_ok|]. intros m1 Hlg. wp_go.
  apply print_error_spec; [log_ok|]. intros m2 Hp. wp_go. apply HQ.
  etrans; [by apply logged_noted | by apply printed_noted].
Qed.

Lemma parse_log_level_spec t text level (Q : Z * Z → machine W → Prop) m :
  (∀ i name m', find_level text 0 log_level_names = Some (i, name) → noted m m' → Q (0, i) m') →
  (∀ m', find_level text 0 log_level_names = None → noted m m' → Q (-1, level) m') →
  wp t (wc_client_parse_log_level text level) Q m.
Proof.
  intros Hok Hbad. apply client_level_spec.
  - intros i name m' Hf Hlg. by eapply Hok, logged_noted.
  - intros Hf. apply Hbad; [done | apply errno_noted].
Qed.

Lemma client_option_loop_spec t program arguments o
    (Q : option (client_options * list (list byte)) → machine W → Prop) m :
  (∀ m', noted m m' → Q (scan_options arguments o) m') →
  wp t (client_option_loop program arguments o) Q m.
Proof.
  revert o m. induction arguments as [|option|option value rest IH] using pairs_ind; intros o m HQ.
  1, 2: by simpl; wp_go; apply HQ.
  cbn [client_option_loop scan_options] in *. destruct (streq option (lit "--socket") && _); [by apply IH|].
  destruct (streq option (lit "--host") && _); [by apply IH|].
  destruct (streq option (lit "--port") && _).
  { apply wp_bind, wc_client_parse_port_spec.
    - intros p m' Hp%port_accepts_complete Hlg. simpl. apply IH. intros m2 Hn.
      rewrite Hp in HQ. apply HQ. etrans; [apply (errno_noted 0)|].
      etrans; [by apply logged_noted | done].
    - intros Hno. simpl. apply usage_spec. intros m2 Hn.
      destruct (port_accepts value) eqn:Hp; [by apply port_accepts_sound, Hno in Hp|].
      apply HQ. etrans; [apply errno_noted | done]. }
  destruct (streq option (lit "--log-level")); [|by wp_go; apply HQ].
  apply wp_bind, parse_log_level_spec.
  - intros i name m' Hf Hn. simpl. apply IH. intros m2 Hn2. rewrite Hf in HQ. apply HQ. by etrans.
  - intros m' Hf Hn. simpl. apply usage_spec. intros m2 Hn2. rewrite Hf in HQ. apply HQ. by etrans.
Qed.

Lemma client_command_spec t program arguments
    (Q : option (Z * pointer * Z) → machine W → Prop) m :
  (∀ m', noted m m' → scan_command arguments = None → Q None m') →
  (∀ type arg p m', noted m m' → scan_command arguments = Some (type, arg) →
     points_to p arg → Q (Some (type, p, zlen arg)) m') →
  wp t (client_command program arguments) Q m.
Proof.
  intros Hbad Hok. unfold client_command.
  destruct arguments as [|name rest]; [by apply usage_spec; intros; apply Hbad|].
  unfold wc_client_parse_command. simpl in Hbad, Hok.
  destruct (streq name (lit "LS")) eqn:HLS; [|destruct (streq name (lit "PWD")) eqn:HPWD;
    [|destruct (streq name (lit "CAT")) eqn:HCAT]]; cbn [mbind option_bind].
  4:{ wp_go. simpl. apply usage_spec. intros m1 Hn. apply Hbad.
      - etrans; [apply errno_noted | done].
      - by destruct rest as [|? [|? ?]]. }
  all: wp_go; (apply wp_log; [log_ok|]); intros m1 Hlg; apply logged_noted in Hlg; wp_go; simpl.
  - assert (streq name (lit "PWD") = false) as HPWD.
    { unfold streq in *. case_bool_decide; [|done]. by subst. }
    rewrite HPWD in *. destruct rest as [|arg [|? ?]];
      [by apply usage_spec; intros m2 Hn; apply Hbad; [etrans|]
      |wp_go; apply Hok; [done | done | apply points_to_bytes]
      |by apply usage_spec; intros m2 Hn; apply Hbad; [etrans|]].
  - destruct rest as [|arg rest]; [by wp_go; apply (Hok _ [] None)|].
    apply usage_spec. intros m2 Hn. apply Hbad; [by etrans|].
    assert (streq name (lit "CAT") = false) as HCAT.
    { unfold streq in *. case_bool_decide; [|done]. by subst. }
    destruct rest; [by rewrite HCAT|done].
  - destruct rest as [|arg [|? ?]];
      [by apply usage_spec; intros m2 Hn; apply Hbad; [etrans|]
      |wp_go; apply Hok; [done | done | apply points_to_bytes]
      |by apply usage_spec; intros m2 Hn; apply Hbad; [etrans|]].
Qed.

End client_specs.
