(* ===== verification/ClientProps.v ===== *)
(** * The command-line client: specifications and properties

    What the client puts on its connection and on standard output, and that it
    gives back everything it opened. *)

From S2P Require Import Prelude Machine Script Buffer Protocol SocketUtils Logging Listener Options Client.

(** ** Events *)

Lemma written_bytes_app fd tr tr' :
  written_bytes fd (tr ++ tr') = written_bytes fd tr ++ written_bytes fd tr'.
Proof. unfold written_bytes. by rewrite fmap_app, join_app. Qed.
Lemma received_bytes_app fd tr tr' :
  received_bytes fd (tr ++ tr') = received_bytes fd tr ++ received_bytes fd tr'.
Proof. unfold received_bytes. by rewrite fmap_app, join_app. Qed.

Definition is_close (e : event) : Prop := ∃ fd, e = EvClose fd.
Definition is_write (fd : Z) (e : event) : Prop := ∃ b, e = EvWrite fd b.
Definition is_recv (fd : Z) (e : event) : Prop := ∃ b, e = EvRecv fd b.

Lemma closes_transfer_nothing fd tr :
  Forall is_close tr → written_bytes fd tr = [] ∧ received_bytes fd tr = [].
Proof. by induction 1 as [|e tr [fd' ->] _ [IH1 IH2]]. Qed.

Lemma writes_receive_nothing fd fd' tr : Forall (is_write fd') tr → received_bytes fd tr = [].
Proof. by induction 1 as [|e tr [b ->] _ IH]. Qed.

Lemma writes_elsewhere fd fd' tr :
  Forall (is_write fd') tr → fd ≠ fd' → written_bytes fd tr = [].
Proof.
  intros Ht Hne. induction Ht as [|e tr [b ->] _ IH]; [done|].
  unfold written_bytes in *. simpl. by rewrite decide_False.
Qed.

Lemma recvs_write_nothing fd fd' tr : Forall (is_recv fd') tr → written_bytes fd tr = [].
Proof. by induction 1 as [|e tr [b ->] _ IH]. Qed.

Section client_props.
Context {W : Type} {OS : Posix W} `{!PosixLaws W}.
Implicit Types (m : machine W) (t : bool).

(** [ran_with m new m']: the events [new] were added; descriptors and queue
    nodes are as before. *)
Record ran_with m (new : list event) m' : Prop := {
  rw_kept : kept m m';
  rw_open : m_open m' = m_open m;
  rw_trace : m_trace m' = m_trace m ++ new;
}.

Lemma ran_with_trans m1 new m2 more m3 :
  ran_with m1 new m2 → ran_with m2 more m3 → ran_with m1 (new ++ more) m3.
Proof.
  intros [Hk Ho Ht] [Hk2 Ho2 Ht2]. constructor; [by etrans | congruence|].
  by rewrite Ht2, Ht, app_assoc.
Qed.

Lemma ran_with_quiet m1 new m2 m3 :
  ran_with m1 new m2 → ran_with m2 [] m3 → ran_with m1 new m3.
Proof. intros H1 H2. rewrite <-(app_nil_r new). by eapply ran_with_trans. Qed.

Lemma ran_with_refl m : ran_with m [] m.
Proof. constructor; [reflexivity | done | by rewrite app_nil_r]. Qed.
Lemma printed_ran m m' : printed m m' → ran_with m [] m'.
Proof. intros []. constructor; [done | done | by rewrite app_nil_r]. Qed.

Lemma logged_ran m m' : logged m m' → ran_with m [] m'.
Proof. intros []. constructor; [by constructor | done | by rewrite app_nil_r]. Qed.
Lemma silent_ran m m' : silent m m' → ran_with m [] m'.
Proof.
  intros Hs. pose proof (silent_kept _ _ Hs). destruct Hs.
  constructor; [done | done | by rewrite app_nil_r].
Qed.
Lemma call0_ran m m' : call_frame0 m m' → ran_with m [] m'.
Proof. intros [[] ??]. constructor; [done | done | by rewrite app_nil_r]. Qed.

(** ** Connecting *)

(** A call that connects and adds one descriptor, or fails and leaves none. *)
Definition connects t (c : M W Z) m : Prop :=
  ∀ Q : Z → machine W → Prop,
    (∀ new m', ran_with m new m' → m_live m' = m_live m → Forall is_close new → Q (-1) m') →
    (∀ fd m', 0 ≤ fd → (fd ∉ m_open m) → kept m m' → m_open m' = {[fd]} ∪ m_open m →
       m_live m' = m_live m → m_trace m' = m_trace m → Q fd m') →
    wp t c Q m.

(** The part the two functions share, with the last log record. *)
Lemma socket_connect_spec t (fin : Z → M W ()) m :
  (∀ fd m (Q : () → machine W → Prop), (∀ m', logged m m' → Q () m') → wp t (fin fd) Q m) →
  connects t (socket_fd ← sys_socket;
    if socket_fd =? -1 then mret (-1) else
    r ← os_call (os_connect socket_fd);
    r ← status_result r;
    if r =? -1 then close_keeping_errno socket_fd ;; mret (-1) else
    fin socket_fd ;; mret socket_fd) m.
Proof.
  intros Hfin Q Hfail Hok. wp_call wp_sys_socket; cycle 1.
  { intros m1 Hf. simpl. wp_go. apply (Hfail []); [by apply call0_ran | apply Hf | done]. }
  intros fd m1 Hpos Hfresh Hf1 Ho1 Ht1. rewrite (proj2 (Z.eqb_neq fd (-1))) by lia.
  apply wp_quiet_status_bind; [constructor|]. intros v m2 Hv [Hf2 Ho2 Ht2].
  assert (call_frame m m2) as Hf by (by etrans). case_if.
  - wp_go. unfold close_keeping_errno. wp_go.
    wp_call wp_sys_close; [rewrite Ho2, Ho1; set_solver|]. intros r m3 Hf3 Ho3 Ht3. wp_go.
    apply (Hfail [EvClose fd]).
    + constructor; [etrans; [apply Hf|]; destruct Hf3 as [[] _ _]; by constructor | |]; simpl.
      * rewrite Ho3, Ho2, Ho1. set_solver.
      * by rewrite Ht3, Ht2, Ht1.
    + simpl. rewrite (cf_live _ _ Hf3). apply Hf.
    + constructor; [by eexists | done].
  - apply wp_bind, Hfin. intros m3 Hlg. wp_go. apply Hok; [done | done | | | |].
    + etrans; [apply Hf | by apply logged_kept].
    + by rewrite (lg_open _ _ Hlg), Ho2.
    + rewrite (lg_live _ _ Hlg). apply Hf.
    + by rewrite (lg_trace _ _ Hlg), Ht2.
Qed.

(** The same from an earlier state. *)
Lemma connects_mono t (c : M W Z) (Q : Z → machine W → Prop) m m1 :
  connects t c m1 → ran_with m [] m1 → m_live m1 = m_live m →
  (∀ new m', ran_with m new m' → m_live m' = m_live m → Forall is_close new → Q (-1) m') →
  (∀ fd m', 0 ≤ fd → (fd ∉ m_open m) → kept m m' → m_open m' = {[fd]} ∪ m_open m →
     m_live m' = m_live m → m_trace m' = m_trace m → Q fd m') →
  wp t c Q m1.
Proof.
  intros Hc Hr Hl Hfail Hok. pose proof Hr as [Hk Ho Ht]. rewrite app_nil_r in Ht. apply Hc.
  - intros new m' Hrw Hl' Hcl. apply (Hfail new); [|congruence|done].
    exact (ran_with_trans _ [] _ new _ Hr Hrw).
  - intros fd m' Hpos Hfr Hk' Ho' Hl' Ht'. rewrite Ho in Hfr, Ho'.
    apply Hok; [done | done | by etrans | done | congruence | congruence].
Qed.

Lemma connect_uds_spec t path m : connects t (wc_client_connect_uds path) m.
Proof.
  intros Q Hfail Hok. unfold wc_client_connect_uds.
  apply wp_bind, wp_log; [log_ok|]. intros m1 Hlg. apply logged_ran in Hlg as Hr.
  case_if.
  { wp_go. apply (Hfail []); [|apply Hlg|done].
    eapply ran_with_quiet; [exact Hr|]. by apply call0_ran, call_frame0_errno. }
  eapply connects_mono; [|exact Hr | apply Hlg | exact Hfail | exact Hok].
  apply socket_connect_spec. intros. by apply wp_log; [log_ok|].
Qed.

Lemma connect_tcp_spec t host port m : connects t (wc_client_connect_tcp host port) m.
Proof.
  intros Q Hfail Hok. unfold wc_client_connect_tcp.
  apply wp_bind, wp_log; [log_ok|]. intros m1 Hlg. apply logged_ran in Hlg as Hr.
  wp_call wp_quiet_call; [constructor|]. intros [v e] m2 Hf2 _. cbn beta iota.
  assert (ran_with m [] m2) as Hr2 by (eapply ran_with_quiet; [done | by apply call0_ran]).
  assert (m_live m2 = m_live m) as Hl2.
  { destruct Hf2 as [[_ -> _] _ _]. apply Hlg. }
  case_if.
  { wp_go. apply (Hfail []); [|done|done].
    eapply ran_with_quiet; [exact Hr2|]. by apply call0_ran, call_frame0_errno. }
  eapply connects_mono; [|exact Hr2 | exact Hl2 | exact Hfail | exact Hok].
  apply socket_connect_spec. intros. by apply wp_log; [log_ok|].
Qed.

(** ** The response *)

Definition RESPONSE_LIMIT : Z := UINT16_MAX + WC_PROTOCOL_RESPONSE_HEADER_SIZE.

(** The state of the response loop: the bytes received so far are buffered. *)
Record receiving (fd : Z) m0 (input : wc_buffer) m : Prop := {
  rc_bytes : ∃ new, ran_with m0 new m ∧ Forall (is_recv fd) new ∧
    buffer_repr input (received_bytes fd new);
  rc_max : buf_max_size input = RESPONSE_LIMIT;
  rc_live : m_live m - buf_owned input = m_live m0;
}.

Lemma receiving_quiet fd m0 input m m' :
  receiving fd m0 input m → ran_with m [] m' → m_live m' = m_live m → receiving fd m0 input m'.
Proof.
  intros [(new & Hr & Hall & Hb) Hm Hl] Hq Hl'. constructor; [|done|lia].
  exists new. split_and!; [by eapply ran_with_quiet | done | done].
Qed.

Lemma recv_snoc fd new b :
  Forall (is_recv fd) new → Forall (is_recv fd) (new ++ [EvRecv fd b]) ∧
  received_bytes fd (new ++ [EvRecv fd b]) = received_bytes fd new ++ b.
Proof.
  intros Hall. split; [apply Forall_app; split; [done|]; constructor; [by eexists | done]|].
  rewrite received_bytes_app. unfold received_bytes at 2. simpl.
  by rewrite decide_True, app_nil_r.
Qed.

(** A read that fails for good leaves the state of the loop. *)
Definition gave_up (fd : Z) m0 (input : wc_buffer) m : Prop :=
  m_live m - buf_owned input = m_live m0 ∧
  ∃ new, ran_with m0 new m ∧ Forall (is_recv fd) new.

Lemma receiving_gave_up fd m0 input m : receiving fd m0 input m → gave_up fd m0 input m.
Proof. intros [(new & Hr & Hall & _) _ Hl]. split; [done|]. by exists new. Qed.

Lemma receive_more_spec t fd m0 input (Q : wc_buffer + Z * wc_buffer → machine W → Prop) m :
  receiving fd m0 input m → buf_length input < RESPONSE_LIMIT →
  (∀ input' m', receiving fd m0 input' m' → os_spent (m_os m) (m_os m') → Q (inl input') m') →
  (∀ input' m', gave_up fd m0 input' m' → Q (inr (-1, input')) m') →
  wp t (receive_more fd input) Q m.
Proof.
  intros Hrc Hroom Hgo Hstop. pose proof Hrc as [(new & Hr & Hall & Hb) Hmax Hl].
  unfold receive_more. pose proof (br_length _ _ Hb) as Hlen.
  unfold RESPONSE_LIMIT, UINT16_MAX, WC_PROTOCOL_RESPONSE_HEADER_SIZE in *.
  rewrite Hmax, size_sub_small by (unfold SIZE_MAX; lia).
  set (n := if _ <? _ then _ else _).
  assert (0 < n ≤ 65535 + 2 - buf_length input) as Hn by (unfold n; case_if; lia).
  wp_call wp_sys_read; [lia|..].
  2:{ intros m1 Hf Hintr. simpl. wp_go.
      assert (receiving fd m0 input m1) as Hrc1
        by (eapply receiving_quiet; [exact Hrc | by apply call0_ran | apply Hf]).
      case_if; wp_go; [by apply Hgo; auto | by apply Hstop, receiving_gave_up]. }
  intros bs m1 Hbs Hf Ho1 Ht1 Hsp.
  assert (ran_with m0 (new ++ [EvRecv fd bs]) m1) as Hr1.
  { eapply ran_with_trans; [exact Hr|]. constructor; [apply Hf | done | done]. }
  destruct (recv_snoc fd new bs Hall) as [Hall1 Hrecv].
  destruct bs as [|c bs].
  { simpl. wp_go. simpl. wp_go. apply Hstop. split; [simpl; rewrite (cf_live _ _ Hf); lia|].
    eexists. split; [|exact Hall1]. eapply ran_with_quiet; [exact Hr1|].
    by apply call0_ran, call_frame0_errno. }
  rewrite (proj2 (Z.gtb_lt _ _)) by (simpl; lia). wp_go.
  eapply wc_buffer_append_spec; [exact Hb | apply points_to_bytes |..].
  - intros _ b' m2 Hs2 He2 Hl2 Hb' Hm'. cbn beta iota. simpl. wp_go.
    apply wp_log; [log_ok|]. intros m3 Hlg. wp_go. apply Hgo.
    + constructor; [|by rewrite Hm'|rewrite (lg_live _ _ Hlg), Hl2, (cf_live _ _ Hf); lia].
      eexists. split; [|split; [exact Hall1 | by rewrite Hrecv]].
      eapply ran_with_quiet; [eapply ran_with_quiet; [exact Hr1|]|];
        [by apply silent_ran | by apply logged_ran].
    + eapply os_spent_mono; [by apply Hsp|].
      etrans; [apply (silent_kept _ _ Hs2) | apply Hlg].
  - lia.
  - intros _ m2 Hs2 He2 Hl2. cbn beta iota. simpl. wp_go. apply Hstop.
    split; [rewrite Hl2, (cf_live _ _ Hf); lia|]. eexists. split; [|exact Hall1].
    eapply ran_with_quiet; [exact Hr1 | by apply silent_ran].
Qed.

(** What the client printed of what it received. *)
Definition printed (fd : Z) (r : Z) (new : list event) : Prop :=
  (∃ data rest, zlen data ≤ UINT16_MAX ∧ received_bytes fd new = response_frame data ++ rest ∧
     ((r = 0 ∧ written_bytes STDOUT_FILENO new = data) ∨
      (r = -1 ∧ written_bytes STDOUT_FILENO new `prefix_of` data))) ∨
  (r = -1 ∧ written_bytes STDOUT_FILENO new = []).

(** The end of the response loop. *)
Definition response_done (fd : Z) m0 (r : Z) (input : wc_buffer) m : Prop :=
  (r = 0 ∨ r = -1) ∧ m_live m - buf_owned input = m_live m0 ∧
  ∃ new, ran_with m0 new m ∧ printed fd r new ∧ written_bytes fd new = [].

Lemma gave_up_done fd m0 input m :
  gave_up fd m0 input m → response_done fd m0 (-1) input m.
Proof.
  intros [Hl (new & Hr & Hall)]. split; [by right|]. split; [done|]. exists new.
  split_and!; [done | right | by eapply recvs_write_nothing].
  split; [done | by eapply recvs_write_nothing].
Qed.

(** The complete response is printed. *)
Lemma print_response_spec t wfuel fd m0 input data rest new (Q : Z → machine W → Prop) m :
  fd ≠ STDOUT_FILENO → ran_with m0 new m → Forall (is_recv fd) new →
  received_bytes fd new = response_frame data ++ rest → zlen data ≤ UINT16_MAX →
  buffer_repr input (response_frame data ++ rest) → m_live m - buf_owned input = m_live m0 →
  enough t (wfuel - Z.to_nat UINT16_MAX) (m_os m) →
  (∀ r m', response_done fd m0 r input m' → Q r m') →
  wp t (wc_socket_write_all wfuel STDOUT_FILENO (ptr_add (buf_data input) 2) (zlen data)) Q m.
Proof.
  intros Hne Hr Hall Hrecv Hlen Hb Hl Hfuel HQ.
  assert (∀ r k m', r = 0 ∧ k = length data ∨ r = -1 → call_frame m m' → m_open m' = m_open m →
    wrote STDOUT_FILENO (take k data) (m_trace m) (m_trace m') → Q r m') as Hdone.
  { intros r k m' Hrk Hf Ho (evs & Htr & Hw & Hbs). apply HQ.
    split; [naive_solver|]. split; [rewrite (cf_live _ _ Hf); lia|].
    exists (new ++ evs). split; [eapply ran_with_trans; [exact Hr | by constructor; [apply Hf|..]]|].
    rewrite (written_bytes_app fd), (recvs_write_nothing fd fd new), (writes_elsewhere fd _ evs) by done.
    split; [|done]. left. exists data, rest. rewrite received_bytes_app, written_bytes_app.
    rewrite (writes_receive_nothing fd _ evs Hw), app_nil_r, (recvs_write_nothing _ fd new) by done.
    do 2 (split; [done|]). rewrite Hbs. simpl. destruct Hrk as [[-> ->]| ->].
    - left. by rewrite firstn_all.
    - right. split; [done|]. apply prefix_take. }
  apply wc_socket_write_all_spec.
  - apply buffer_repr_points_to in Hb. unfold response_frame in Hb. rewrite <-app_assoc in Hb.
    eapply points_to_app_l. by apply (points_to_app_r _ (u16_bytes (zlen data))) in Hb.
  - unfold SIZE_MAX, UINT16_MAX in *. lia.
  - eapply enough_mono; [exact Hfuel | reflexivity |]. unfold UINT16_MAX in *. lia.
  - intros m' Hf Ho Hw. apply (Hdone 0 (length data)); [by left | done | done |]. by rewrite firstn_all.
  - intros m' k _ Hf Ho Hw _. by apply (Hdone (-1) k); [right|..].
Qed.

Lemma receive_response_spec t fuel wfuel fd (Q : Z → machine W → Prop) m :
  fd ≠ STDOUT_FILENO → enough t fuel (m_os m) →
  enough t (wfuel - Z.to_nat UINT16_MAX) (m_os m) →
  (∀ r new m', r = 0 ∨ r = -1 → ran_with m new m' → m_live m' = m_live m →
     printed fd r new → written_bytes fd new = [] → Q r m') →
  wp t (wc_client_receive_response fuel wfuel fd) Q m.
Proof.
  intros Hne Hfuel Hwfuel HQ. unfold wc_client_receive_response.
  wp_go. apply wc_buffer_init_spec; [done|]. intros input Hb Hmax Hown. cbn beta iota. simpl.
  wp_go. apply wp_log; [log_ok|]. intros m1 Hlg. wp_go.
  assert (receiving fd m input m1) as Hrc.
  { constructor; [exists []|done|rewrite (lg_live _ _ Hlg); lia].
    by split_and!; [apply logged_ran|..]. }
  apply (wp_iter_enough _ _ (receiving fd m) (λ _, 0%nat)); [|done|].
  2:{ rewrite Nat.sub_0_r. eapply enough_mono; [exact Hfuel | apply Hlg | done]. }
  clear input Hb Hmax Hown Hrc. intros input m2 Hrc. pose proof Hrc as [(new & Hr & Hall & Hb) Hmax Hl].
  rewrite (br_length _ _ Hb). apply wp_bind.
  assert (∀ r input' m', response_done fd m r input' m' →
    wp t (_ ← wc_buffer_destroy (Some input');
      wc_log WC_LOG_TRACE "client" "response_buffer_destroyed" (Some "socket=fd:%d"%string)
        [LInt fd] ;; mret r) Q m') as Hend.
  { intros r input' m' (Hrr & Hl' & new' & Hr' & Hp & Hw). wp_go.
    apply wc_buffer_destroy_spec. intros m3 Hs3 _ Hl3. wp_go.
    apply wp_log; [log_ok|]. intros m4 Hlg4. wp_go. apply (HQ r new'); try done.
    - eapply ran_with_quiet; [eapply ran_with_quiet; [exact Hr' | by apply silent_ran]|].
      by apply logged_ran.
    - rewrite (lg_live _ _ Hlg4). lia. }
  apply (parse_response_spec _ _ (received_bytes fd new)); [by apply buffer_repr_points_to|].
  destruct (spec_parse_response (received_bytes fd new)) as [data| |] eqn:Hp; cycle 1.
  - apply spec_parse_response_need_more_short in Hp. simpl. wp_go. rewrite Hmax.
    unfold RESPONSE_LIMIT, WC_PROTOCOL_RESPONSE_HEADER_SIZE.
    rewrite (proj2 (Z.eqb_neq _ _)) by (unfold UINT16_MAX in *; lia). simpl.
    eapply receive_more_spec; [exact Hrc | | |].
    + rewrite (br_length _ _ Hb). unfold RESPONSE_LIMIT, WC_PROTOCOL_RESPONSE_HEADER_SIZE. lia.
    + intros input' m' Hrc' Hsp. by split; [|right].
    + intros input' m' Hg. by apply Hend, gave_up_done.
  - by apply spec_parse_response_valid in Hp.
  - pose proof (spec_parse_response_inv _ _ Hp) as (Hlen & rest & Heq). simpl. wp_go.
    apply wp_log; [log_ok|]. intros m3 Hlg3. wp_go. rewrite Heq in Hb.
    eapply print_response_spec; [done | | exact Hall | exact Heq | done | exact Hb | |..].
    + eapply ran_with_quiet; [exact Hr | by apply logged_ran].
    + rewrite (lg_live _ _ Hlg3). lia.
    + eapply enough_mono; [exact Hwfuel | | done].
      etrans; [apply (rw_kept _ _ _ Hr) | apply Hlg3].
    + intros r m' Hd. apply wp_ret. cbn beta iota. by apply Hend.
Qed.

(** ** The exchange *)

(** One request and its response on [fd]: everything, or a prefix. *)
Definition exchanged (fd : Z) (request : list byte) (r : Z) (new : list event) : Prop :=
  (r = 0 ∧ written_bytes fd new = request ∧
   ∃ data rest, zlen data ≤ UINT16_MAX ∧ received_bytes fd new = response_frame data ++ rest ∧
     written_bytes STDOUT_FILENO new = data) ∨
  (r = 1 ∧ written_bytes fd new `prefix_of` request).

Lemma client_exchange_spec t fuel wfuel fd request bs (Q : Z → machine W → Prop) m :
  fd ≠ STDOUT_FILENO → buffer_repr request bs → zlen bs ≤ UINT16_MAX →
  enough t fuel (m_os m) → enough t (wfuel - Z.to_nat UINT16_MAX) (m_os m) →
  (∀ r new m', ran_with m new m' → m_live m' = m_live m → exchanged fd bs r new → Q r m') →
  wp t (client_exchange fuel wfuel fd request) Q m.
Proof.
  intros Hne Hb Hlen Hfuel Hwfuel HQ. unfold client_exchange. rewrite (br_length _ _ Hb).
  apply wp_bind, wc_socket_write_all_spec.
  - by apply buffer_repr_points_to.
  - unfold SIZE_MAX, UINT16_MAX in *. lia.
  - eapply enough_mono; [exact Hwfuel | reflexivity |]. unfold UINT16_MAX in *. lia.
  - intros m1 Hf1 Ho1 (evs & Htr & Hw & Hbs). simpl. wp_go. apply wp_log; [log_ok|].
    intros m2 Hlg. wp_go.
    assert (ran_with m evs m2) as Hr2.
    { eapply ran_with_quiet; [by constructor; [apply Hf1|..] | by apply logged_ran]. }
    assert (os_mono (m_os m) (m_os m2)) as Hos by apply Hr2.
    apply receive_response_spec; [done | eapply enough_mono; [exact Hfuel | exact Hos | done]
      | eapply enough_mono; [exact Hwfuel | exact Hos | done] |].
    intros r new m3 Hr Hr3 Hl3 Hp Hw3.
    assert (m_live m3 = m_live m) as Hl.
    { rewrite Hl3, (lg_live _ _ Hlg). apply Hf1. }
    assert (ran_with m (evs ++ new) m3) as Hr13 by (by eapply ran_with_trans).
    assert (written_bytes fd (evs ++ new) = bs) as Hwfd by (by rewrite written_bytes_app, Hw3, app_nil_r).
    case_if.
    + wp_go. apply perror_spec. intros m4 Hlg4. wp_go. eapply HQ.
      * eapply ran_with_quiet; [exact Hr13 | by apply printed_ran].
      * by rewrite (pr_live _ _ Hlg4).
      * right. by rewrite Hwfd.
    + wp_go. eapply HQ; [exact Hr13 | done|]. left. split_and!; [done | done|].
      destruct Hp as [(data & rest & Hdl & Hrec & [[_ Hout]|[? _]])|[? _]]; [|done..].
      exists data, rest. rewrite received_bytes_app, written_bytes_app.
      by rewrite (writes_receive_nothing fd fd evs), (writes_elsewhere _ fd evs).
  - intros m1 k Hk Hf1 Ho1 (evs & Htr & Hw & Hbs) _. simpl. wp_go. apply perror_spec.
    intros m2 Hlg. wp_go. apply (HQ _ evs).
    + eapply ran_with_quiet; [by constructor; [apply Hf1|..] | by apply printed_ran].
    + rewrite (pr_live _ _ Hlg). apply Hf1.
    + right. rewrite Hbs. split; [done | apply prefix_take].
Qed.

(** The end of the program after the command line was read: the exit code, the
    events, and what a success means. *)
Record client_done m (type : Z) (arg : list byte) (r : Z) m' : Prop := {
  cd_code : r = 0 ∨ r = 1;
  cd_live : m_live m' = m_live m;
  cd_events : ∃ new, ran_with m new m' ∧
    (r = 0 → ∃ fd data rest, (fd ∉ m_open m) ∧ request_ok type arg ∧ zlen data ≤ UINT16_MAX ∧
       written_bytes fd new = request_frame type arg ∧
       received_bytes fd new = response_frame data ++ rest ∧
       written_bytes STDOUT_FILENO new = data);
}.

Lemma client_failed m type arg new m' :
  ran_with m new m' → m_live m' = m_live m → client_done m type arg 1 m'.
Proof. intros Hr Hl. constructor; [by right | done|]. by exists new. Qed.

(** The request buffer is freed on every way out. *)
Lemma fail_free_spec t s b m0 new type arg (Q : Z → machine W → Prop) m :
  ran_with m0 new m → m_live m - buf_owned b = m_live m0 →
  (∀ m', client_done m0 type arg 1 m' → Q 1 m') →
  wp t (perror s ;; _ ← wc_buffer_destroy (Some b); mret 1) Q m.
Proof.
  intros Hr Hl HQ. apply wp_bind, perror_spec. intros m1 Hlg. wp_go.
  apply wc_buffer_destroy_spec. intros m2 Hs _ Hl2. wp_go. apply HQ.
  eapply client_failed.
  - eapply ran_with_quiet; [eapply ran_with_quiet; [exact Hr|]|];
      [by apply printed_ran | by apply silent_ran].
  - rewrite Hl2, (pr_live _ _ Hlg). lia.
Qed.

(** From the connection to the end. *)
Lemma client_finish_spec t fuel wfuel fd request type arg m0 (Q : Z → machine W → Prop) m :
  (STDOUT_FILENO ∈ m_open m0) → (fd ∉ m_open m0) → kept m0 m →
  m_open m = {[fd]} ∪ m_open m0 → m_trace m = m_trace m0 →
  m_live m - buf_owned request = m_live m0 →
  request_ok type arg → buffer_repr request (request_frame type arg) →
  enough t fuel (m_os m) → enough t (wfuel - Z.to_nat UINT16_MAX) (m_os m) →
  (∀ r m', client_done m0 type arg r m' → Q r m') →
  wp t (result ← client_exchange fuel wfuel fd request;
    r ← sys_close fd;
    result ← (if (r =? -1) && (result =? 0) then perror "wirecommand: close" ;; mret 1
              else mret result);
    _ ← wc_buffer_destroy (Some request);
    wc_log WC_LOG_DEBUG "client" "stop" (Some "result=%d"%string) [LInt result] ;;
    mret result) Q m.
Proof.
  intros Hout Hfresh Hk Ho Ht Hl Hreq Hb Hfuel Hwfuel HQ.
  assert (zlen (request_frame type arg) ≤ UINT16_MAX) as Hlen.
  { rewrite zlen_request_frame. destruct Hreq. unfold UINT16_MAX. lia. }
  apply wp_bind. eapply client_exchange_spec; [set_solver | exact Hb | done..|].
  intros r new m1 Hr1 Hl1 Hex. wp_call wp_sys_close.
  { rewrite (rw_open _ _ _ Hr1), Ho. set_solver. }
  intros v m2 Hf2 Ho2 Ht2.
  assert (ran_with m0 (new ++ [EvClose fd]) m2) as Hr2.
  { constructor.
    - etrans; [exact Hk|]. etrans; [apply Hr1 | apply Hf2].
    - rewrite Ho2, (rw_open _ _ _ Hr1), Ho. set_solver.
    - by rewrite Ht2, (rw_trace _ _ _ Hr1), Ht, app_assoc. }
  assert (m_live m2 - buf_owned request = m_live m0) as Hl2 by (rewrite (cf_live _ _ Hf2); lia).
  assert (r = 0 ∨ r = 1) as Hcode by (destruct Hex as [(? & _)|(? & _)]; auto).
  assert (∀ r' m3, r' = r ∨ r' = 1 → ran_with m2 [] m3 → m_live m3 = m_live m2 →
    wp t (_ ← wc_buffer_destroy (Some request);
      wc_log WC_LOG_DEBUG "client" "stop" (Some "result=%d"%string) [LInt r'] ;; mret r') Q m3)
    as Hend.
  { intros r' m3 Hr' Hq3 Hl3. wp_go. apply wc_buffer_destroy_spec. intros m4 Hs4 _ Hl4. wp_go.
    apply wp_log; [log_ok|]. intros m5 Hlg5. wp_go. apply HQ.
    constructor; [naive_solver | rewrite (lg_live _ _ Hlg5); lia|].
    exists (new ++ [EvClose fd]). split.
    - eapply ran_with_quiet; [eapply ran_with_quiet; [eapply ran_with_quiet; [exact Hr2 | exact Hq3]|]|];
        [by apply silent_ran | by apply logged_ran].
    - intros ->. destruct Hr' as [<-|]; [|done].
      destruct Hex as [(_ & Hw & data & rest & Hdl & Hrec & Hprint)|[? _]]; [|done].
      exists fd, data, rest. rewrite !written_bytes_app, received_bytes_app.
      by rewrite !app_nil_r. }
  case_if; apply wp_bind; [apply wp_bind, perror_spec; intros m3 Hlg3; apply wp_ret | apply wp_ret].
  - apply Hend; [by right | by apply printed_ran | apply Hlg3].
  - apply Hend; [by left | apply ran_with_refl | done].
Qed.

Lemma client_request_spec t fuel wfuel o type p arg (Q : Z → machine W → Prop) m :
  (STDOUT_FILENO ∈ m_open m) → points_to p arg →
  enough t fuel (m_os m) → enough t (wfuel - Z.to_nat UINT16_MAX) (m_os m) →
  (∀ r m', client_done m type arg r m' → Q r m') →
  wp t (client_request fuel wfuel o type p (zlen arg)) Q m.
Proof.
  intros Hout Hp Hfuel Hwfuel HQ. unfold client_request. wp_go.
  apply wc_buffer_init_spec; [done|]. intros b Hb Hmax Hown. cbn beta iota. simpl. wp_go.
  eapply encode_request_spec; [exact Hb | exact Hp |..].
  2:{ intros e b' m1 _ _ _ _ Hs1 _ Hl1 _ _. cbn beta iota. simpl.
      eapply fail_free_spec; [by apply silent_ran | lia | by intros; apply HQ]. }
  intros Hreq _ b' m1 Hs1 _ Hl1 Hb' _. cbn beta iota. simpl. wp_go.
  apply wp_log; [log_ok|]. intros m2 Hlg2. wp_go. apply wc_socket_ignore_sigpipe_spec.
  intros r m3 _ Hf3. cbn beta.
  assert (ran_with m [] m3) as Hr3.
  { eapply ran_with_quiet; [eapply ran_with_quiet; [by apply silent_ran|]|];
      [by apply logged_ran | by apply call0_ran]. }
  assert (m_live m3 - buf_owned b' = m_live m) as Hl3.
  { destruct Hf3 as [[_ -> _] _ _]. rewrite (lg_live _ _ Hlg2). lia. }
  case_if; [eapply fail_free_spec; [exact Hr3 | done | by intros; apply HQ]|].
  assert (connects t (if co_use_tcp o then wc_client_connect_tcp (co_tcp_host o) (co_tcp_port o)
    else wc_client_connect_uds (co_socket_path o)) m3) as Hconn
    by (destruct (co_use_tcp o); [apply connect_tcp_spec | apply connect_uds_spec]).
  apply wp_bind, Hconn.
  - intros new m4 Hr4 Hl4 _. simpl.
    eapply fail_free_spec; [eapply ran_with_trans; [exact Hr3 | exact Hr4] | lia | by intros; apply HQ].
  - intros fd m4 Hpos Hfresh Hk4 Ho4 Hl4 Ht4. rewrite (proj2 (Z.eqb_neq fd (-1))) by lia.
    destruct Hr3 as [Hk3 Ho3 Ht3]. rewrite app_nil_r in Ht3. rewrite Ho3 in Hfresh, Ho4.
    assert (kept m m4) as Hk by (by etrans).
    eapply client_finish_spec; [done | done | done | done | congruence | lia | done | done | | |exact HQ].
    + eapply enough_mono; [exact Hfuel | apply Hk | done].
    + eapply enough_mono; [exact Hwfuel | apply Hk | done].
Qed.

End client_props.

(** ** Properties *)

Section client_theorems.
Context {W : Type} {OS : Posix W} `{!PosixLaws W, !PosixFair W}.
Implicit Types (m : machine W).

(** How a run of the client ends. *)
Record client_run (arguments : list (list byte)) m (r : Z) m' : Prop := {
  cr_open : m_open m' = m_open m;
  cr_live : m_live m' = m_live m;
  cr_usage : r = 2 ↔ scan_arguments arguments = None;
  cr_code : r = 0 ∨ r = 1 ∨ r = 2;
  cr_events : ∃ new, m_trace m' = m_trace m ++ new ∧ (r = 2 → new = []) ∧
    (r = 0 → ∃ o type arg fd data rest,
       scan_arguments arguments = Some (o, (type, arg)) ∧ (fd ∉ m_open m) ∧
       request_ok type arg ∧ zlen data ≤ UINT16_MAX ∧
       written_bytes fd new = request_frame type arg ∧
       received_bytes fd new = response_frame data ++ rest ∧
       written_bytes STDOUT_FILENO new = data);
}.

Lemma client_main_run fuel wfuel arguments m :
  arguments ≠ [] → (STDOUT_FILENO ∈ m_open m) →
  (os_budget (m_os m) < fuel)%nat → (os_budget (m_os m) + Z.to_nat UINT16_MAX < wfuel)%nat →
  ∃ r m', client_main fuel wfuel arguments m = Ret r m' ∧ client_run arguments m r m'.
Proof.
  intros Hargs Hout Hfuel Hwfuel.
  assert (enough true fuel (m_os m)) as He by (by apply enough_budget).
  assert (enough true (wfuel - Z.to_nat UINT16_MAX) (m_os m)) as Hwe by (apply enough_budget; lia).
  apply (wp_total_inv (client_main fuel wfuel arguments) (client_run arguments m)).
  destruct arguments as [|program arguments]; [done|]. unfold client_main. simpl. wp_go.
  apply client_option_loop_spec. intros m1 Hn1. simpl.
  destruct (scan_options arguments client_defaults) as [[o rest]|] eqn:Hscan.
  2:{ wp_go. constructor; try apply Hn1; [|auto|].
      - unfold scan_arguments. simpl. by rewrite Hscan.
      - exists []. rewrite app_nil_r. split_and!; [apply Hn1 | done | done]. }
  assert (∀ m2, noted m1 m2 → wp true (command ← client_command program rest;
    match command with
    | None => mret 2
    | Some (type, argument, argument_length) =>
      client_request fuel wfuel o type argument argument_length
    end) (client_run (program :: arguments) m) m2) as Hgo; cycle 1.
  { apply wp_bind. unfold wc_log_set_level. case_if; wp_go;
      (apply wp_log; [log_ok|]); intros m2 Hlg; apply Hgo;
      (etrans; [|by apply logged_noted]); [apply level_noted | reflexivity]. }
  intros m2 Hn2. assert (noted m m2) as Hn by (by etrans). apply wp_bind, client_command_spec.
  - intros m3 Hn3 Hc. assert (noted m m3) as Hn' by (by etrans).
    wp_go. constructor; try apply Hn'; [|auto|].
    + unfold scan_arguments. simpl. rewrite Hscan. simpl. by rewrite Hc.
    + exists []. rewrite app_nil_r. split_and!; [apply Hn' | done | done].
  - intros type arg p m3 Hn3 Hc Hp. assert (noted m m3) as Hn' by (by etrans).
    apply client_request_spec; [by rewrite (nt_open _ _ Hn') | done |..].
    { eapply enough_mono; [exact He | apply Hn' | done]. }
    { eapply enough_mono; [exact Hwe | apply Hn' | done]. }
    intros r m4 [Hcode Hl4 (new & [Hk4 Ho4 Ht4] & Hok)].
    assert (scan_arguments (program :: arguments) = Some (o, (type, arg))) as Hsa.
    { unfold scan_arguments. simpl. rewrite Hscan. simpl. by rewrite Hc. }
    constructor.
    + by rewrite Ho4, (nt_open _ _ Hn').
    + by rewrite Hl4, (nt_live _ _ Hn').
    + rewrite Hsa. split; [intros ->; by destruct Hcode | done].
    + naive_solver.
    + exists new. rewrite Ht4, (nt_trace _ _ Hn'). split_and!; [done | intros ->; by destruct Hcode|].
      intros Hr0. destruct (Hok Hr0) as (fd & data & rest' & Hfr & Hrest).
      rewrite (nt_open _ _ Hn') in Hfr. by exists o, type, arg, fd, data, rest'.
Qed.

(** The options fit the types of the variables they are stored in, name a log
    level there is, and choose one transport. *)
Record options_ok (o : client_options) : Prop := {
  oo_port : 1 ≤ co_tcp_port o ≤ UINT16_MAX;
  oo_level : wc_log_level_valid (co_log_level o) = true;
  oo_transport : ¬ (co_socket_option_seen o ∧ co_use_tcp o);
}.

Lemma scan_options_ok arguments o o' rest :
  scan_options arguments o = Some (o', rest) → options_ok o →
  options_ok o' ∧ rest `suffix_of` arguments.
Proof.
  revert o. induction arguments as [|option|option value rest' IH] using pairs_ind; intros o.
  1, 2: by intros [= <- <-].
  cbn [scan_options]. intros Hscan Ho.
  assert (∀ o1, options_ok o1 → scan_options rest' o1 = Some (o', rest) →
    options_ok o' ∧ rest `suffix_of` option :: value :: rest') as Hrec.
  { intros o1 Ho1 H1. destruct (IH _ H1 Ho1). split; [done|]. by do 2 apply suffix_cons_r. }
  clear IH. pose proof Ho as [Hp Hl Ht].
  destruct (streq option (lit "--socket") && negb (co_use_tcp o)) eqn:H1; bool_to_prop.
  { eapply Hrec; [|exact Hscan]. constructor; try done. simpl. intros [_ Htcp]. by destruct (co_use_tcp o). }
  destruct (streq option (lit "--host") && _) eqn:H2; bool_to_prop.
  { eapply Hrec; [|exact Hscan]. constructor; try done. simpl. intros [Hs _]. by destruct (co_socket_option_seen o). }
  destruct (streq option (lit "--port") && _) eqn:H3; bool_to_prop.
  { destruct (port_accepts value) as [p|] eqn:Hv; [|done]. apply port_accepts_sound in Hv as [Hpv _].
    eapply Hrec; [|exact Hscan]. constructor; try done. simpl. intros [Hs _]. by destruct (co_socket_option_seen o). }
  destruct (streq option (lit "--log-level")); [|by injection Hscan as <- <-].
  destruct (find_level value 0 log_level_names) as [[i name]|] eqn:Hv; [|done].
  eapply Hrec; [|exact Hscan]. constructor; try done. simpl.
  by eapply find_level_valid.
Qed.

(** C33: the options the client's option loop accepts are always well formed:
    the port is a nonzero 16-bit number, the log level is one of the five, and
    never both a UDS path and a TCP address were given; what is left of the
    command line is a suffix of it, and parsing changes nothing but [errno] and
    the log. *)
Theorem client_option_loop_typed program arguments m :
  ∃ r m', client_option_loop program arguments client_defaults m = Ret r m' ∧ noted m m' ∧
    match r with
    | Some (o, rest) => options_ok o ∧ rest `suffix_of` arguments
    | None => True
    end.
Proof.
  assert (wp true (client_option_loop program arguments client_defaults)
    (λ r m', noted m m' ∧ match r with
      | Some (o, rest) => options_ok o ∧ rest `suffix_of` arguments
      | None => True
      end) m) as Hwp.
  { apply client_option_loop_spec. intros m' Hn. split; [done|].
    destruct (scan_options arguments client_defaults) as [[o rest]|] eqn:Hs; [|done].
    apply scan_options_ok in Hs; [done|]. by constructor; [|reflexivity|intros [[] _]]. }
  by apply wp_total_inv in Hwp as (r & m' & Hrun & Hpost); exists r, m'.
Qed.

(** C19: the client always ends, with exit code 0, 1 or 2, and gives back every
    descriptor and every heap block. The code is 2 exactly for a command line
    that is not of the documented form, and then nothing was sent, received or
    printed. *)
Theorem client_main_exits fuel wfuel arguments m :
  arguments ≠ [] → (STDOUT_FILENO ∈ m_open m) →
  (os_budget (m_os m) < fuel)%nat → (os_budget (m_os m) + Z.to_nat UINT16_MAX < wfuel)%nat →
  ∃ r m', client_main fuel wfuel arguments m = Ret r m' ∧
    (r = 0 ∨ r = 1 ∨ r = 2) ∧ m_open m' = m_open m ∧ m_live m' = m_live m ∧
    (r = 2 ↔ scan_arguments arguments = None) ∧ (r = 2 → m_trace m' = m_trace m).
Proof.
  intros Hargs Hout Hfuel Hwfuel.
  destruct (client_main_run fuel wfuel arguments m Hargs Hout Hfuel Hwfuel)
    as (r & m' & Hrun & [Ho Hl Hu Hc (new & Ht & Hnew & _)]).
  exists r, m'. split_and!; try done; try apply Hu.
  intros Hr. rewrite Ht, (Hnew Hr). apply app_nil_r.
Qed.

(** C18: a client that reports success sent exactly the request of its command
    line, received a complete response to it, and printed exactly the data of
    that response on standard output. *)
Theorem client_main_success fuel wfuel arguments m m' :
  arguments ≠ [] → (STDOUT_FILENO ∈ m_open m) →
  (os_budget (m_os m) < fuel)%nat → (os_budget (m_os m) + Z.to_nat UINT16_MAX < wfuel)%nat →
  client_main fuel wfuel arguments m = Ret 0 m' →
  ∃ o type arg fd data rest new, scan_arguments arguments = Some (o, (type, arg)) ∧
    m_trace m' = m_trace m ++ new ∧ request_ok type arg ∧ zlen data ≤ UINT16_MAX ∧
    written_bytes fd new = request_frame type arg ∧
    received_bytes fd new = response_frame data ++ rest ∧
    written_bytes STDOUT_FILENO new = data.
Proof.
  intros Hargs Hout Hfuel Hwfuel Hrun.
  destruct (client_main_run fuel wfuel arguments m Hargs Hout Hfuel Hwfuel)
    as (r & m2 & Hrun2 & [_ _ _ _ (new & Ht & _ & Hok)]).
  rewrite Hrun in Hrun2. injection Hrun2 as <- <-.
  destruct (Hok eq_refl) as (o & type & arg & fd & data & rest & Hs & _ & Hrest).
  by exists o, type, arg, fd, data, rest, new.
Qed.

End client_theorems.

(** ** Concrete runs *)

(** The server answers a PWD request in two pieces. *)
Definition answering_server : script :=
  Script [] [inl (take 3 (response_frame (lit "/srv"))); inr EINTR;
             inl (drop 3 (response_frame (lit "/srv")))] [inl 2] [] [] [] [] [] 0 [] [].

Definition pwd_arguments : list (list byte) := [lit "wirecommand"; lit "--port"; lit "80"; lit "PWD"].
Definition write_steps : nat := Z.to_nat 70000.

Example client_prints_answer :
  match client_main 10 write_steps pwd_arguments (boot answering_server) with
  | Ret r m' => (r, written_bytes 3 (m_trace m'), written_bytes 1 (m_trace m'))
  | _ => (-1, [], [])
  end = (0, request_frame WC_REQUEST_PWD [], lit "/srv").
Proof. vm_compute. reflexivity. Qed.

Example client_usage_error :
  match client_main 10 write_steps [lit "wirecommand"; lit "--socket"; lit "/s"; lit "--port"; lit "80"; lit "PWD"]
    (boot answering_server) with
  | Ret r m' => (r, m_trace m')
  | _ => (-1, [])
  end = (2, []).
Proof. vm_compute. reflexivity. Qed.

Lemma client_main_exits_witness :
  ∃ r m', client_main 10 write_steps pwd_arguments (boot answering_server) = Ret r m' ∧
    m_open m' = {[0; 1; 2]}.
Proof.
  destruct (client_main_exits 10 write_steps pwd_arguments (boot answering_server))
    as (r & m' & Hrun & _ & Ho & _).
  - discriminate.
  - apply (bool_decide_unpack _). vm_compute. exact I.
  - simpl. unfold script_budget. simpl. lia.
  - unfold write_steps, UINT16_MAX. simpl. unfold script_budget. simpl. lia.
  - exists r, m'. split; [exact Hrun | exact Ho].
Defined.

Lemma client_main_success_witness :
  ∃ m' type arg fd, client_main 10 write_steps pwd_arguments (boot answering_server) = Ret 0 m' ∧
    written_bytes fd (m_trace m') = request_frame type arg.
Proof.
  destruct (client_main 10 write_steps pwd_arguments (boot answering_server)) as [r m'| |] eqn:Hrun;
    [|vm_compute in Hrun; discriminate Hrun..].
  assert (r = 0) as -> by (vm_compute in Hrun; congruence).
  destruct (client_main_success 10 write_steps pwd_arguments (boot answering_server) m')
    as (o & type & arg & fd & data & rest & new & _ & Ht & _ & _ & Hw & _).
  - discriminate.
  - apply (bool_decide_unpack _). vm_compute. exact I.
  - simpl. unfold script_budget. simpl. lia.
  - unfold write_steps, UINT16_MAX. simpl. unfold script_budget. simpl. lia.
  - exact Hrun.
  - exists m', type, arg, fd. rewrite Ht. split; [reflexivity | exact Hw].
Defined.
