(* ===== verification/ServerUds.v ===== *)
(** * The single-threaded server (src/src/server_uds.c)

    The client table, the event loop and its handlers. [struct wc_uds_client *]
    parameters are the element of the table they point to, passed in and
    returned; [clients] and [queue] are threaded through as the locals of
    [wc_server_uds_run] they are. *)

From S2P Require Import Prelude Machine Script Buffer Protocol Queue SocketUtils Logging Commands Respond Listener.

Definition WC_UDS_MAX_CLIENTS : Z := 64.
Definition WC_UDS_MAX_QUEUED_REQUESTS : Z := 256.
Definition WC_UDS_READ_SIZE : Z := 4096.
Definition WC_UDS_INPUT_LIMIT : Z := UINT16_MAX.
Definition WC_UDS_OUTPUT_LIMIT : Z := UINT16_MAX + WC_PROTOCOL_RESPONSE_HEADER_SIZE.

Record wc_uds_client := WcUdsClient {
  uc_fd : Z;
  uc_input : wc_buffer;
  uc_output : wc_buffer;
}.

Definition set_fd (c : wc_uds_client) (fd : Z) : wc_uds_client :=
  WcUdsClient fd (uc_input c) (uc_output c).
Definition set_input (c : wc_uds_client) (b : wc_buffer) : wc_uds_client :=
  WcUdsClient (uc_fd c) b (uc_output c).
Definition set_output (c : wc_uds_client) (b : wc_buffer) : wc_uds_client :=
  WcUdsClient (uc_fd c) (uc_input c) b.

Section server_uds.
Context {W : Type} {OS : Posix W}.

Definition wc_uds_clients_init (clients : list wc_uds_client)
    : M W (list wc_uds_client) :=
  let clients := (λ c, set_fd c (-1)) <$> clients in
  wc_log WC_LOG_DEBUG "server" "client_table_initialized"
    (Some "transport=uds slots=%d"%string) [LInt WC_UDS_MAX_CLIENTS] ;;
  mret clients.

(** The index of the client with a descriptor. *)
Definition wc_uds_find_client (clients : list wc_uds_client) (client_fd : Z)
    : M W (option nat) :=
  wc_log WC_LOG_TRACE "server" "client_lookup"
    (Some "transport=uds client=fd:%d"%string) [LInt client_fd] ;;
  mret (fst <$> list_find (λ c, uc_fd c = client_fd) clients).

Definition wc_uds_has_free_client_slot (clients : list wc_uds_client) : bool :=
  existsb (λ c, uc_fd c =? -1) clients.

Definition wc_uds_add_client (clients : list wc_uds_client) (client_fd : Z)
    : M W (Z * list wc_uds_client) :=
  match list_find (λ c, uc_fd c = -1) clients with
  | None => put_errno EMFILE ;; mret (-1, clients)
  | Some (index, client) =>
    '(r, input) ← by_ref (λ p, wc_buffer_init p WC_UDS_INPUT_LIMIT) (uc_input client);
    let client := set_input client input in
    if r =? -1 then mret (-1, <[index := client]> clients) else
    '(r, output) ← by_ref (λ p, wc_buffer_init p WC_UDS_OUTPUT_LIMIT) (uc_output client);
    let client := set_output client output in
    if r =? -1 then
      input ← wc_buffer_destroy (Some (uc_input client));
      input ← from_option_ub input;
      mret (-1, <[index := set_input client input]> clients)
    else
      let client := set_fd client client_fd in
      wc_log WC_LOG_DEBUG "server" "client_added"
        (Some "transport=uds client=fd:%d slot=%zu"%string)
        [LInt client_fd; LInt (Z.of_nat index)] ;;
      mret (0, <[index := client]> clients)
  end.

Definition wc_uds_remove_client (client : option wc_uds_client)
    (queue : wc_request_queue) : M W (option wc_uds_client * wc_request_queue) :=
  match client with
  | None => mret (None, queue)
  | Some client =>
    if uc_fd client =? -1 then mret (Some client, queue) else
    let client_fd := uc_fd client in
    '(_, queue) ← by_ref (λ p, wc_request_queue_discard_client p client_fd) queue;
    input ← wc_buffer_destroy (Some (uc_input client));
    input ← from_option_ub input;
    output ← wc_buffer_destroy (Some (uc_output client));
    output ← from_option_ub output;
    let client := WcUdsClient (-1) input output in
    r ← sys_close client_fd;
    (if r =? -1 then
       e ← get_errno;
       wc_log WC_LOG_WARN "server" "close_failed"
         (Some "client=fd:%d errno=%d"%string) [LInt client_fd; LInt e]
     else mret ()) ;;
    wc_log WC_LOG_INFO "server" "disconnect"
      (Some "client=fd:%d"%string) [LInt client_fd] ;;
    mret (Some client, queue)
  end.

Definition wc_uds_open_listener := open_unix_listener (W:=W) "transport=uds ".

Definition wc_uds_accept_clients (fuel : nat) (listener_fd : Z)
    (clients : list wc_uds_client) : M W (list wc_uds_client) :=
  iter fuel (λ clients,
    if negb (wc_uds_has_free_client_slot clients) then mret (Break clients) else
    client_fd ← sys_accept listener_fd;
    if client_fd =? -1 then
      e ← get_errno;
      if e =? EINTR then mret (Continue clients) else
      (if negb (e =? EAGAIN) && negb (e =? EWOULDBLOCK) then
         wc_log WC_LOG_ERROR "server" "accept_failed" (Some "errno=%d"%string) [LInt e]
       else mret ()) ;;
      mret (Break clients)
    else
      r ← wc_socket_set_nonblocking fuel client_fd;
      '(r, clients) ← (if r =? -1 then mret (-1, clients)
                       else wc_uds_add_client clients client_fd);
      if r =? -1 then
        saved_errno ← get_errno;
        _ ← sys_close client_fd;
        wc_log WC_LOG_WARN "server" "client_rejected" (Some "errno=%d"%string)
          [LInt saved_errno] ;;
        mret (Continue clients)
      else
        wc_log WC_LOG_INFO "server" "connect" (Some "client=fd:%d"%string)
          [LInt client_fd] ;;
        mret (Continue clients)) clients.

(** Every round consumes a frame of at least six bytes. *)
(** A complete request moves from the input to the queue. *)
Definition wc_uds_enqueue_request (client : wc_uds_client) (queue : wc_request_queue)
    (request : wc_request) (consumed : Z)
    : M W ((wc_uds_client * wc_request_queue) + (Z * wc_uds_client * wc_request_queue)) :=
  if q_length queue >=? WC_UDS_MAX_QUEUED_REQUESTS then
    put_errno ENOBUFS ;;
    wc_log WC_LOG_WARN "server" "request_queue_full"
      (Some "client=fd:%d limit=%d"%string)
      [LInt (uc_fd client); LInt WC_UDS_MAX_QUEUED_REQUESTS] ;;
    mret (Break (-1, client, queue))
  else
    '(r, queue) ← by_ref (λ p, wc_request_queue_enqueue p (uc_fd client) (rq_type request)
        (ptr_add (buf_data (uc_input client)) (rq_argument request))
        (rq_argument_length request)) queue;
    if r =? -1 then mret (Break (-1, client, queue)) else
    wc_log WC_LOG_DEBUG "protocol" "request_complete"
      (Some "client=fd:%d type=%u message_length=%zu"%string)
      [LInt (uc_fd client); LInt (rq_type request); LInt (rq_message_length request)] ;;
    '(r, input) ← by_ref (λ p, wc_buffer_consume p consumed) (uc_input client);
    let client := set_input client input in
    if r =? -1 then mret (Break (-1, client, queue)) else
    mret (Continue (client, queue)).

Definition wc_uds_enqueue_complete_requests (client : wc_uds_client)
    (queue : wc_request_queue) : M W (Z * wc_uds_client * wc_request_queue) :=
  iter (S (Z.to_nat (buf_length (uc_input client)))) (λ '(client, queue),
    '(parse_result, request, consumed) ←
      wc_protocol_parse_request (buf_data (uc_input client))
        (buf_length (uc_input client)) (Some (WcRequest 0 0 0 0)) (Some 0);
    request ← from_option_ub request;
    consumed ← from_option_ub consumed;
    if decide (parse_result = WC_PARSE_NEED_MORE) then mret (Break (0, client, queue))
    else if decide (parse_result = WC_PARSE_INVALID) then
      put_errno EPROTO ;;
      wc_log WC_LOG_WARN "protocol" "request_rejected"
        (Some "client=fd:%d reason=invalid_message"%string) [LInt (uc_fd client)] ;;
      mret (Break (-1, client, queue))
    else wc_uds_enqueue_request client queue request consumed) (client, queue).

(** The bytes of one read are kept and decoded. *)
Definition wc_uds_store_bytes (client : wc_uds_client) (queue : wc_request_queue)
    (bytes_read : Z) (bytes : list byte) : M W (Z * wc_uds_client * wc_request_queue) :=
  '(r, input) ← by_ref (λ p, wc_buffer_append p (Some (bytes_block bytes)) bytes_read)
                  (uc_input client);
  let client := set_input client input in
  if r =? -1 then mret (-1, client, queue)
  else wc_uds_enqueue_complete_requests client queue.

Definition wc_uds_read_client (fuel : nat) (client : wc_uds_client)
    (queue : wc_request_queue) : M W (Z * wc_uds_client * wc_request_queue) :=
  iter fuel (λ '(client, queue),
    let available := buf_max_size (uc_input client) -ₛ buf_length (uc_input client) in
    let read_size := if available <? WC_UDS_READ_SIZE then available else WC_UDS_READ_SIZE in
    if read_size =? 0 then put_errno EMSGSIZE ;; mret (Break (-1, client, queue)) else
    '(bytes_read, bytes) ← sys_read (uc_fd client) read_size;
    if bytes_read >? 0 then
      '(r, client, queue) ← wc_uds_store_bytes client queue bytes_read bytes;
      if r =? -1 then mret (Break (-1, client, queue)) else
      wc_log WC_LOG_DEBUG "server" "read_complete"
        (Some "client=fd:%d bytes=%zu input_pending=%zu"%string)
        [LInt (uc_fd client); LInt bytes_read; LInt (buf_length (uc_input client))] ;;
      mret (Continue (client, queue))
    else if bytes_read =? 0 then mret (Break (-1, client, queue))
    else
      e ← get_errno;
      if e =? EINTR then mret (Continue (client, queue))
      else if (e =? EAGAIN) || (e =? EWOULDBLOCK) then mret (Break (0, client, queue))
      else mret (Break (-1, client, queue))) (client, queue).

Definition wc_uds_write_client (fuel : nat) (client : wc_uds_client)
    : M W (Z * wc_uds_client) :=
  iter fuel (λ client,
    if buf_length (uc_output client) >? 0 then
      bytes ← read_bytes (buf_data (uc_output client)) (buf_length (uc_output client));
      bytes_written ← sys_send (uc_fd client) bytes;
      e ← get_errno;
      if bytes_written >? 0 then
        '(r, output) ← by_ref (λ p, wc_buffer_consume p bytes_written) (uc_output client);
        let client := set_output client output in
        if r =? -1 then mret (Break (-1, client)) else
        wc_log WC_LOG_DEBUG "server" "write_complete"
          (Some "client=fd:%d bytes=%zu output_pending=%zu"%string)
          [LInt (uc_fd client); LInt bytes_written; LInt (buf_length (uc_output client))] ;;
        mret (Continue client)
      else if (bytes_written =? -1) && (e =? EINTR) then mret (Continue client)
      else if (bytes_written =? -1) && ((e =? EAGAIN) || (e =? EWOULDBLOCK)) then
        mret (Break (0, client))
      else mret (Break (-1, client))
    else mret (Break (0, client))) client.

Definition wc_uds_run_command (request : wc_queued_request) (result : wc_command_result)
    : M W (Z * wc_command_result) :=
  wc_log WC_LOG_DEBUG "commands" "command_dispatch"
    (Some "transport=uds client=fd:%d type=%u argument_length=%zu"%string)
    [LInt (qr_client_fd request); LInt (qr_type request);
     LInt (qr_argument_length request)] ;;
  dispatch_command (qr_type request) (Some (qr_argument request))
    (qr_argument_length request) result.

Definition wc_uds_encode_command_response (client : wc_uds_client)
    (request : wc_queued_request) : M W (Z * wc_uds_client) :=
  '(r, output) ← encode_outcome (wc_uds_run_command request)
    (λ command_errno, wc_log WC_LOG_ERROR "commands" "command_failed"
      (Some "client=fd:%d type=%u errno=%d"%string)
      [LInt (uc_fd client); LInt (qr_type request); LInt command_errno])
    (uc_output client);
  mret (r, set_output client output).

(** Every round dequeues a request or stops. *)
Definition wc_uds_process_queue (clients : list wc_uds_client) (queue : wc_request_queue)
    : M W (list wc_uds_client * wc_request_queue) :=
  iter (S (Z.to_nat (q_length queue))) (λ '(clients, queue),
    match wc_request_queue_peek (Some queue) with
    | None => mret (Break (clients, queue))
    | Some first =>
      n ← load_node first;
      found ← wc_uds_find_client clients (qr_client_fd n);
      match found with
      | None =>
        '(r, queue, request) ← wc_request_queue_dequeue (Some queue) (Some None);
        queue ← from_option_ub queue;
        request ← from_option_ub request;
        (if r =? 0 then wc_queued_request_destroy request else mret ()) ;;
        mret (Continue (clients, queue))
      | Some index =>
        client ← from_option_ub (clients !! index);
        if negb (buf_length (uc_output client) =? 0) then mret (Break (clients, queue)) else
        '(r, queue, request) ← wc_request_queue_dequeue (Some queue) (Some None);
        queue ← from_option_ub queue;
        request ← from_option_ub request;
        if r =? -1 then mret (Break (clients, queue)) else
        node ← from_option_ub request;
        n ← load_node node;
        '(r, client) ← wc_uds_encode_command_response client n;
        let clients := <[index := client]> clients in
        if r =? -1 then
          e ← get_errno;
          wc_log WC_LOG_ERROR "server" "response_failed"
            (Some "client=fd:%d errno=%d"%string) [LInt (uc_fd client); LInt e] ;;
          wc_queued_request_destroy request ;;
          '(client, queue) ← wc_uds_remove_client (Some client) queue;
          client ← from_option_ub client;
          mret (Continue (<[index := client]> clients, queue))
        else
          wc_log WC_LOG_DEBUG "server" "response_queued"
            (Some "client=fd:%d type=%u output_pending=%zu"%string)
            [LInt (uc_fd client); LInt (qr_type n); LInt (buf_length (uc_output client))] ;;
          wc_queued_request_destroy request ;;
          mret (Continue (clients, queue))
      end
    end) (clients, queue).

(** The slots in use, with their positions. *)
Definition used_slots (clients : list wc_uds_client) : list (nat * wc_uds_client) :=
  filter (λ '(_, c), uc_fd c ≠ -1) (imap pair clients).

(** The poll descriptors (listener first) and, for the others, the client
    indexes. *)
Definition wc_uds_build_poll_list (listener_fd : Z) (clients : list wc_uds_client)
    : M W (list (Z * Z) * list nat) :=
  let descriptors :=
    (listener_fd, if wc_uds_has_free_client_slot clients then POLLIN else 0) ::
    ((λ '(_, c), (uc_fd c,
        if buf_length (uc_output c) >? 0 then Z.lor POLLIN POLLOUT else POLLIN))
       <$> used_slots clients) in
  let client_indexes := fst <$> used_slots clients in
  wc_log WC_LOG_TRACE "server" "poll_list_built"
    (Some "transport=uds descriptors=%lu"%string) [LInt (zlen descriptors)] ;;
  mret (descriptors, client_indexes).

Fixpoint wc_uds_close_loop (clients : list wc_uds_client) (queue : wc_request_queue)
    : M W (list wc_uds_client * wc_request_queue) :=
  match clients with
  | [] => mret ([], queue)
  | client :: clients =>
    '(client, queue) ← wc_uds_remove_client (Some client) queue;
    client ← from_option_ub client;
    '(clients, queue) ← wc_uds_close_loop clients queue;
    mret (client :: clients, queue)
  end.

Definition wc_uds_close_all_clients (clients : list wc_uds_client)
    (queue : wc_request_queue) : M W (list wc_uds_client * wc_request_queue) :=
  wc_log WC_LOG_DEBUG "server" "clients_close_all" (Some "transport=uds"%string) [] ;;
  wc_uds_close_loop clients queue.

(** The body of the loop over the polled clients. *)
Definition wc_uds_handle_events (fuel : nat) (client : wc_uds_client) (events : Z)
    (queue : wc_request_queue) : M W (wc_uds_client * wc_request_queue) :=
  if uc_fd client =? -1 then mret (client, queue) else
  '(r, client, queue) ←
    (if has_event events POLLIN then wc_uds_read_client fuel client queue
     else mret (0, client, queue));
  if r =? -1 then
    '(client, queue) ← wc_uds_remove_client (Some client) queue;
    client ← from_option_ub client;
    mret (client, queue)
  else
    '(r, client) ←
      (if has_event events POLLOUT then wc_uds_write_client fuel client
       else mret (0, client));
    if r =? -1 then
      '(client, queue) ← wc_uds_remove_client (Some client) queue;
      client ← from_option_ub client;
      mret (client, queue)
    else if has_event events (Z.lor POLLERR (Z.lor POLLHUP POLLNVAL)) then
      '(client, queue) ← wc_uds_remove_client (Some client) queue;
      client ← from_option_ub client;
      mret (client, queue)
    else mret (client, queue).

Fixpoint wc_uds_poll_loop (fuel : nat) (ready : list (nat * Z))
    (clients : list wc_uds_client) (queue : wc_request_queue)
    : M W (list wc_uds_client * wc_request_queue) :=
  match ready with
  | [] => mret (clients, queue)
  | (index, events) :: ready =>
    client ← from_option_ub (clients !! index);
    '(client, queue) ← wc_uds_handle_events fuel client events queue;
    wc_uds_poll_loop fuel ready (<[index := client]> clients) queue
  end.

(** One round of the event loop: [Continue] to go on, [Break result] to leave. *)
Definition wc_uds_round (fuel : nat) (listener_fd : Z) (clients : list wc_uds_client)
    (queue : wc_request_queue)
    : M W ((list wc_uds_client * wc_request_queue) +
           (Z * list wc_uds_client * wc_request_queue)) :=
  stop ← os_call os_stop_requested;
  if (stop : bool) then mret (Break (0, clients, queue)) else
  '(clients, queue) ← wc_uds_process_queue clients queue;
  '(descriptors, client_indexes) ← wc_uds_build_poll_list listener_fd clients;
  '(poll_result, revents) ← sys_poll descriptors (-1);
  if poll_result =? -1 then
    e ← get_errno;
    if e =? EINTR then mret (Continue (clients, queue))
    else mret (Break (-1, clients, queue))
  else
    listener_events ← from_option_ub (head revents);
    if has_event listener_events (Z.lor POLLERR (Z.lor POLLHUP POLLNVAL)) then
      put_errno EIO ;; mret (Break (-1, clients, queue))
    else
      '(clients, queue) ←
        wc_uds_poll_loop fuel (zip client_indexes (tail revents)) clients queue;
      clients ← (if has_event listener_events POLLIN
                 then wc_uds_accept_clients fuel listener_fd clients
                 else mret clients);
      mret (Continue (clients, queue)).

(** The cleanup after the loop. *)
Definition wc_uds_shutdown (socket_path : list byte) (listener_fd result : Z)
    (clients : list wc_uds_client) (queue : wc_request_queue) : M W Z :=
  saved_errno ← get_errno;
  '(clients, queue) ← wc_uds_close_all_clients clients queue;
  _ ← wc_request_queue_clear (Some queue);
  r ← sys_close listener_fd;
  e ← get_errno;
  let '(saved_errno, result) :=
    if (r =? -1) && (result =? 0) then (e, -1) else (saved_errno, result) in
  r ← sys_unlink socket_path;
  e ← get_errno;
  let '(saved_errno, result) :=
    if (r =? -1) && negb (e =? ENOENT) && (result =? 0) then (e, -1)
    else (saved_errno, result) in
  wc_log WC_LOG_INFO "server" "shutdown" (Some "transport=uds"%string) [] ;;
  put_errno saved_errno ;;
  mret result.

(** [clients0] is the uninitialised table; [stop_requested] is NULL or the
    flag the signal handlers set. *)
Definition wc_server_uds_run (fuel : nat) (clients0 : list wc_uds_client)
    (socket_path : option (list byte)) (stop_requested : option ()) : M W Z :=
  match stop_requested with
  | None => put_errno EINVAL ;; mret (-1)
  | Some _ =>
    clients ← wc_uds_clients_init clients0;
    '(r, queue) ← by_ref wc_request_queue_init (WcRequestQueue None None 0);
    if r =? -1 then mret (-1) else
    listener_fd ← wc_uds_open_listener fuel socket_path;
    if listener_fd =? -1 then mret (-1) else
    path ← from_option_ub socket_path;
    wc_log WC_LOG_INFO "server" "start" (Some "transport=uds socket=%s"%string)
      [LPath path] ;;
    '(result, clients, queue) ←
      iter fuel (λ '(clients, queue), wc_uds_round fuel listener_fd clients queue)
        (clients, queue);
    wc_uds_shutdown path listener_fd result clients queue
  end.

End server_uds.

Arguments wc_uds_clients_init : simpl never.
Arguments wc_uds_find_client : simpl never.
Arguments wc_uds_add_client : simpl never.
Arguments wc_uds_remove_client : simpl never.
Arguments wc_uds_open_listener : simpl never.
Arguments wc_uds_accept_clients : simpl never.
Arguments wc_uds_enqueue_complete_requests : simpl never.
Arguments wc_uds_read_client : simpl never.
Arguments wc_uds_write_client : simpl never.
Arguments wc_uds_run_command : simpl never.
Arguments wc_uds_encode_command_response : simpl never.
Arguments wc_uds_process_queue : simpl never.
Arguments wc_uds_build_poll_list : simpl never.
Arguments wc_uds_close_all_clients : simpl never.
Arguments wc_uds_handle_events : simpl never.
Arguments wc_uds_round : simpl never.
Arguments wc_uds_shutdown : simpl never.
Arguments wc_server_uds_run : simpl never.
