(* ===== verification/ServerUdsClient.v ===== *)
(** * The single-threaded server: one client

    Specifications of the handlers of server_uds.c that work on one client:
    decoding requests into the queue, reading, writing, running a command and
    removing the client. *)

From S2P Require Import Prelude Machine Script Buffer Protocol Queue SocketUtils Logging Commands Respond Listener ServerUds.

(** ** Frames and representation *)

(** A connected client with undecoded input [inb] and unsent output [outb]. *)
Record client_repr (c : wc_uds_client) (inb outb : list byte) : Prop := {
  cl_fd : 0 ≤ uc_fd c;
  cl_input : buffer_repr (uc_input c) inb;
  cl_input_max : buf_max_size (uc_input c) = WC_UDS_INPUT_LIMIT;
  cl_output : buffer_repr (uc_output c) outb;
  cl_output_max : buf_max_size (uc_output c) = WC_UDS_OUTPUT_LIMIT;
}.

Lemma set_input_id c : set_input c (uc_input c) = c.
Proof. by destruct c. Qed.
Lemma set_output_id c : set_output c (uc_output c) = c.
Proof. by destruct c. Qed.

(** Heap blocks owned by a client's buffers. *)
Definition bufs_owned (c : wc_uds_client) : Z :=
  buf_owned (uc_input c) + buf_owned (uc_output c).

Definition to_qreq (fd : Z) (x : Z * list byte) : qreq := QReq fd x.1 x.2.

Definition queue_at {W} (m : machine W) (q : wc_request_queue) (rs : list qreq) : Prop :=
  queue_repr (m_heap m) (m_next_loc m) q rs.

Lemma queue_at_same {W} (m m' : machine W) q rs :
  queue_at m q rs → m_heap m' = m_heap m → m_next_loc m' = m_next_loc m →
  queue_at m' q rs.
Proof. unfold queue_at. by intros ? -> ->. Qed.

Section client_specs.
Context {W : Type} {OS : Posix W} `{!PosixLaws W}.
Implicit Types (m : machine W) (t : bool).

(** ** Decoding *)

(** The client received [chunks], and the requests [ds] moved from its input
    to the queue. *)
Record decoded (c : wc_uds_client) (rs : list qreq) m (chunks : list (list byte))
    (ds : list (Z * list byte)) (c' : wc_uds_client) (q' : wc_request_queue) m' : Prop := {
  dc_world : world m m';
  dc_open : m_open m' = m_open m;
  dc_trace : m_trace m' = m_trace m ++ (EvRecv (uc_fd c) <$> chunks);
  dc_fd : uc_fd c' = uc_fd c;
  dc_output : uc_output c' = uc_output c;
  dc_queue : queue_at m' q' (rs ++ (to_qreq (uc_fd c) <$> ds));
  dc_bound : zlen rs + zlen ds ≤ WC_UDS_MAX_QUEUED_REQUESTS;
  dc_live : m_live m' - bufs_owned c' - zlen ds = m_live m - bufs_owned c;
}.

Lemma decoded_refl c rs m q :
  queue_at m q rs → zlen rs ≤ WC_UDS_MAX_QUEUED_REQUESTS → decoded c rs m [] [] c q m.
Proof.
  intros Hq Hb. constructor; simpl; rewrite ?app_nil_r; try done; lia.
Qed.

(** What is decoded later comes after what was decoded before. *)
Lemma decoded_trans c rs m chunks1 ds1 c1 q1 m1 chunks2 ds2 c2 q2 m2 :
  decoded c rs m chunks1 ds1 c1 q1 m1 →
  decoded c1 (rs ++ (to_qreq (uc_fd c) <$> ds1)) m1 chunks2 ds2 c2 q2 m2 →
  decoded c rs m (chunks1 ++ chunks2) (ds1 ++ ds2) c2 q2 m2.
Proof.
  intros Hd1 Hd2. pose proof (dc_fd _ _ _ _ _ _ _ _ Hd1) as Hfd.
  destruct Hd1 as [? ? Ht1 ? ? ? ? ?], Hd2 as [? ? Ht2 ? ? Hq2 Hb2 ?]. constructor; try congruence.
  - by etrans.
  - by rewrite Ht2, Ht1, fmap_app, app_assoc, Hfd.
  - rewrite fmap_app, app_assoc. by rewrite Hfd in Hq2.
  - rewrite !zlen_app, ?length_fmap in *. lia.
  - rewrite ?zlen_app in *. lia.
Qed.

(** The same for steps that receive nothing. *)
Lemma decoded_more {c rs m chunks ds1 c1 q1 m1 ds2 c2 q2 m2} :
  decoded c rs m chunks ds1 c1 q1 m1 →
  decoded c1 (rs ++ (to_qreq (uc_fd c) <$> ds1)) m1 [] ds2 c2 q2 m2 →
  decoded c rs m chunks (ds1 ++ ds2) c2 q2 m2.
Proof. intros Hd1 Hd2. rewrite <-(app_nil_r chunks). by eapply decoded_trans. Qed.

Lemma decoded_bound c rs m chunks ds c1 q1 m1 :
  decoded c rs m chunks ds c1 q1 m1 →
  zlen (rs ++ (to_qreq (uc_fd c) <$> ds)) ≤ WC_UDS_MAX_QUEUED_REQUESTS.
Proof. intros Hd. rewrite zlen_app, length_fmap. by eapply dc_bound. Qed.

(** An error exit after [ds] leaves everything as decoded so far. *)
Lemma decoded_stop c rs m chunks ds c1 q1 m1 m2 :
  decoded c rs m chunks ds c1 q1 m1 → world m1 m2 → m_open m2 = m_open m1 →
  m_trace m2 = m_trace m1 → m_heap m2 = m_heap m1 → m_next_loc m2 = m_next_loc m1 →
  m_live m2 = m_live m1 → decoded c rs m chunks ds c1 q1 m2.
Proof.
  intros []. intros. constructor; try congruence; try done.
  - by etrans.
  - by eapply queue_at_same.
Qed.

Lemma request_type_valid_eq type :
  wc_request_type_valid type = wc_protocol_request_type_valid type.
Proof. done. Qed.

Lemma queue_at_length m q rs : queue_at m q rs → q_length q = zlen rs.
Proof. intros [ls Hsh]. by rewrite (qs_length _ _ _ _ _ Hsh). Qed.

Lemma enqueue_request_spec t c q type arg tl outb rs
    (Q : (wc_uds_client * wc_request_queue) + (Z * wc_uds_client * wc_request_queue) →
         machine W → Prop) m :
  client_repr c (request_frame type arg ++ tl) outb → request_ok type arg →
  queue_at m q rs → zlen rs ≤ WC_UDS_MAX_QUEUED_REQUESTS →
  (∀ c' q' m', decoded c rs m [] [(type, arg)] c' q' m' → client_repr c' tl outb →
     Q (Continue (c', q')) m') →
  (∀ m', decoded c rs m [] [] c q m' → Q (Break (-1, c, q)) m') →
  wp t (wc_uds_enqueue_request c q (WcRequest type 6 (zlen arg) (6 + zlen arg)) (6 + zlen arg)) Q m.
Proof.
  intros Hc Hrq Hq Hbound Hok Hfail. pose proof Hc as [Hfd Hin Hinm Hout Houtm].
  pose proof (decoded_refl c rs m q Hq Hbound) as Hd0.
  unfold wc_uds_enqueue_request. rewrite (queue_at_length _ _ _ Hq).
  unfold WC_UDS_MAX_QUEUED_REQUESTS in *. case_if as Hfull.
  { wp_go. apply wp_log; [log_ok|]. intros m2 Hlg. wp_go. apply Hfail.
    eapply decoded_stop; [done|..]; try apply Hlg. world_tac. }
  wp_go. simpl. eapply enqueue_spec; [exact Hq|..].
  { eapply points_to_app_l, frame_view. by apply buffer_repr_points_to. }
  { done. }
  { apply Hrq. }
  { unfold SIZE_MAX. lia. }
  { destruct Hrq. unfold SIZE_MAX, SIZEOF_QUEUED_REQUEST. lia. }
  2:{ intros m2 Hs2 Hl2 He2. wp_go. simpl. wp_go. apply Hfail.
      eapply decoded_stop; [done|..]; try apply Hs2; [world_tac | done]. }
  intros q2 m2 Hh2 He2 Hl2 Hq2. wp_go. simpl. wp_go.
  apply wp_log; [log_ok|]. intros m3 Hlg. wp_go.
  pose proof (zlen_request_frame type arg) as Hfl.
  eapply wc_buffer_consume_spec; [exact Hin | lia | |]; cycle 1.
  { rewrite zlen_app. lia. }
  intros _ b' Hb' Hm' Ho'. cbn beta iota. wp_go. simpl. wp_go.
  replace (Z.to_nat (6 + zlen arg)) with (6 + length arg)%nat in * by lia.
  rewrite drop_request_frame in *.
  apply Hok; [constructor; simpl; try done; try lia | by constructor; simpl; rewrite ?Hm'].
  - etrans; [by apply heap_only_world | by apply logged_world].
  - rewrite (lg_open _ _ Hlg). apply Hh2.
  - rewrite (lg_trace _ _ Hlg), app_nil_r. apply Hh2.
  - eapply queue_at_same; [exact Hq2 | apply Hlg..].
  - unfold WC_UDS_MAX_QUEUED_REQUESTS. lia.
  - rewrite (lg_live _ _ Hlg). unfold bufs_owned. simpl. lia.
Qed.

Lemma enqueue_complete_spec t c q inb outb rs
    (Q : Z * wc_uds_client * wc_request_queue → machine W → Prop) m :
  client_repr c inb outb → queue_at m q rs → zlen rs ≤ WC_UDS_MAX_QUEUED_REQUESTS →
  (∀ ds rest c' q' m', decoded c rs m [] ds c' q' m' → client_repr c' rest outb →
     spec_frames inb = (ds, rest) → spec_parse_request rest = PNeedMore →
     Q (0, c', q') m') →
  (∀ ds more rest c' q' m', decoded c rs m [] ds c' q' m' → client_repr c' more outb →
     spec_frames inb = (ds ++ (spec_frames more).1, rest) →
     Q (-1, c', q') m') →
  wp t (wc_uds_enqueue_complete_requests c q) Q m.
Proof.
  intros Hc Hq Hbound Hok Hfail. apply wp_partial.
  unfold wc_uds_enqueue_complete_requests.
  apply (wp_iter _ _ (λ '(c1, q1) m1, ∃ ds rest, decoded c rs m [] ds c1 q1 m1 ∧
    client_repr c1 rest outb ∧
    spec_frames inb = (ds ++ (spec_frames rest).1, (spec_frames rest).2))
    (λ '(c1, _) _, Z.to_nat (buf_length (uc_input c1)))); [|..|lia].
  2:{ exists [], inb. split; [by apply decoded_refl|].
      split; [done | by destruct (spec_frames inb)]. }
  intros [c1 q1] m1 (ds & rest & Hd & Hc1 & Hsf).
  pose proof (cl_input _ _ _ Hc1) as Hin.
  rewrite (br_length _ _ Hin). apply wp_bind.
  apply (parse_request_spec _ _ rest); [by apply buffer_repr_points_to|].
  destruct (spec_parse_request rest) as [[type arg]| |] eqn:Hp; simpl request_result; cbn beta iota; wp_go.
  - rewrite decide_False, decide_False by done.
    apply spec_parse_request_inv in Hp as (Hrq & tl & ->).
    eapply enqueue_request_spec;
      [exact Hc1 | done | by eapply dc_queue | by eapply decoded_bound |..].
    + intros c2 q2 m2 Hd2 Hc2. split.
      * exists (ds ++ [(type, arg)]), tl. split_and!; [by apply (decoded_more Hd) | done |].
        rewrite Hsf, spec_frames_frame by done. destruct (spec_frames tl). simpl.
        by rewrite <-app_assoc.
      * intros _. pose proof (zlen_request_frame type arg).
        rewrite (br_length _ _ (cl_input _ _ _ Hc2)), zlen_app. lia.
    + intros m2 Hd2. eapply (Hfail (ds ++ [])); [|exact Hc1|by rewrite app_nil_r].
      by apply (decoded_more Hd).
  - rewrite decide_True by done. wp_go. eapply Hok; [done..| |done].
    rewrite Hsf, spec_frames_stop by (intros x; by rewrite Hp). simpl. by rewrite app_nil_r.
  - rewrite decide_False, decide_True by done. wp_go.
    apply wp_log; [log_ok|]. intros m2 Hlg. wp_go.
    eapply Hfail; [|done|done].
    eapply decoded_stop; [done|..]; try apply Hlg. world_tac.
Qed.

(** ** Reading *)

(** A chunk arrives. *)
Lemma decoded_recv c rs m q bs m2 :
  queue_at m q rs → zlen rs ≤ WC_UDS_MAX_QUEUED_REQUESTS → call_frame m m2 →
  m_open m2 = m_open m → m_trace m2 = m_trace m ++ [EvRecv (uc_fd c) bs] →
  decoded c rs m [bs] [] c q m2.
Proof.
  intros Hq Hb Hf Ho Ht. constructor; simpl; rewrite ?app_nil_r; try done; try lia.
  - by apply call_frame_world.
  - eapply queue_at_same; [done | apply Hf..].
  - rewrite (cf_live _ _ Hf). lia.
Qed.

(** Reading further chunks decodes further requests. *)
Lemma spec_frames_more inb chunks ds rest bs :
  spec_frames (inb ++ mjoin chunks) = (ds, rest) →
  spec_frames (inb ++ mjoin (chunks ++ [bs])) =
    (ds ++ (spec_frames (rest ++ bs)).1, (spec_frames (rest ++ bs)).2).
Proof.
  intros Hsf. rewrite join_app. simpl. rewrite app_nil_r, app_assoc, spec_frames_app, Hsf.
  by destruct (spec_frames (rest ++ bs)).
Qed.

(** The chunk size requested from the kernel. *)
Lemma read_size_bounds len :
  0 ≤ len < UINT16_MAX →
  let available := WC_UDS_INPUT_LIMIT -ₛ len in
  let size := if available <? WC_UDS_READ_SIZE then available else WC_UDS_READ_SIZE in
  0 < size ∧ size ≤ WC_UDS_INPUT_LIMIT - len.
Proof.
  unfold WC_UDS_INPUT_LIMIT, WC_UDS_READ_SIZE, UINT16_MAX. intros Hlen.
  rewrite size_sub_small by (unfold SIZE_MAX; lia). simpl. case_if; lia.
Qed.

Lemma store_bytes_spec t c q inb bs outb rs
    (Q : Z * wc_uds_client * wc_request_queue → machine W → Prop) m :
  client_repr c inb outb → queue_at m q rs → zlen rs ≤ WC_UDS_MAX_QUEUED_REQUESTS →
  zlen bs ≤ WC_UDS_INPUT_LIMIT - zlen inb →
  (∀ ds rest c' q' m', decoded c rs m [] ds c' q' m' → client_repr c' rest outb →
     spec_frames (inb ++ bs) = (ds, rest) → spec_parse_request rest = PNeedMore →
     Q (0, c', q') m') →
  (∀ ds later more c' q' m', decoded c rs m [] ds c' q' m' → client_repr c' more outb →
     (spec_frames (inb ++ bs)).1 = ds ++ later → Q (-1, c', q') m') →
  wp t (wc_uds_store_bytes c q (zlen bs) bs) Q m.
Proof.
  intros Hc Hq Hb Hfit Hok Hfail. pose proof Hc as [Hfd Hin Hinm Hout Houtm].
  pose proof (decoded_refl c rs m q Hq Hb) as Hd0. unfold wc_uds_store_bytes. wp_go.
  eapply wc_buffer_append_spec; [exact Hin | apply points_to_bytes |..].
  2:{ rewrite Hinm. lia. }
  2:{ intros _ m2 Hs He Hl. cbn beta iota. wp_go. simpl. wp_go. rewrite set_input_id.
      eapply (Hfail []); [|exact Hc|done].
      eapply decoded_stop; [done|..]; try apply Hs; [by apply silent_world | done]. }
  intros _ b' m2 Hs He Hl Hb' Hm'. cbn beta iota. wp_go. simpl. wp_go.
  set (c1 := set_input c b').
  assert (decoded c rs m [] [] c1 q m2) as Hd1.
  { constructor; simpl; rewrite ?app_nil_r; try done; try apply Hs; [by apply silent_world | | |].
    - eapply queue_at_same; [done | apply Hs..].
    - lia.
    - unfold bufs_owned. simpl. lia. }
  pose proof (dc_queue _ _ _ _ _ _ _ _ Hd1) as Hq1.
  eapply enqueue_complete_spec; [|exact Hq1 | by rewrite app_nil_r |..].
  - by constructor; simpl; rewrite ?Hm'.
  - intros ds rest c' q' m' Hd. by apply Hok, (decoded_more Hd1 Hd).
  - intros ds more rest c' q' m' Hd Hc' Hsf.
    eapply Hfail; [by apply (decoded_more Hd1 Hd) | done|].
    by rewrite Hsf.
Qed.

Lemma read_client_spec t fuel c q inb outb rs
    (Q : Z * wc_uds_client * wc_request_queue → machine W → Prop) m :
  client_repr c inb outb → spec_parse_request inb = PNeedMore →
  queue_at m q rs → zlen rs ≤ WC_UDS_MAX_QUEUED_REQUESTS →
  enough t fuel (m_os m) →
  (∀ chunks ds rest c' q' m', decoded c rs m chunks ds c' q' m' →
     client_repr c' rest outb → spec_frames (inb ++ mjoin chunks) = (ds, rest) →
     spec_parse_request rest = PNeedMore → Q (0, c', q') m') →
  (∀ chunks ds later more c' q' m', decoded c rs m chunks ds c' q' m' →
     client_repr c' more outb → (spec_frames (inb ++ mjoin chunks)).1 = ds ++ later →
     Q (-1, c', q') m') →
  wp t (wc_uds_read_client fuel c q) Q m.
Proof.
  intros Hc Hneed Hq Hbound Hfuel Hok Hfail. unfold wc_uds_read_client.
  apply (wp_iter_enough _ _ (λ '(c1, q1) m1, ∃ chunks ds rest,
    decoded c rs m chunks ds c1 q1 m1 ∧ client_repr c1 rest outb ∧
    spec_frames (inb ++ mjoin chunks) = (ds, rest) ∧
    spec_parse_request rest = PNeedMore) (λ _, 0%nat)); [| |by rewrite Nat.sub_0_r].
  2:{ exists [], [], inb. simpl. rewrite app_nil_r.
      split_and!; [by apply decoded_refl | done | | done].
      apply spec_frames_stop. intros x. by rewrite Hneed. }
  intros [c1 q1] m1 (chunks & ds & rest & Hd & Hc1 & Hsf & Hneed1).
  pose proof (spec_parse_request_need_more_short _ Hneed1) as Hshort.
  pose proof (read_size_bounds (zlen rest) ltac:(lia)) as [Hpos Hle].
  rewrite (cl_input_max _ _ _ Hc1), (br_length _ _ (cl_input _ _ _ Hc1)). cbn zeta in Hpos, Hle.
  set (size := if (WC_UDS_INPUT_LIMIT -ₛ zlen rest <? WC_UDS_READ_SIZE) then _ else _) in *.
  rewrite (proj2 (Z.eqb_neq size 0)) by lia.
  wp_call wp_sys_read; [lia|..].
  - intros bs m2 Hbs Hf2 Ho2 Ht2 Hspent.
    pose proof (decoded_recv c1 _ _ _ _ _ (dc_queue _ _ _ _ _ _ _ _ Hd)
      (decoded_bound _ _ _ _ _ _ _ _ Hd) Hf2 Ho2 Ht2) as Hd2.
    apply (decoded_trans _ _ _ _ _ _ _ _ _ _ _ _ _ Hd) in Hd2. rewrite app_nil_r in Hd2.
    apply (spec_frames_more _ _ _ _ bs) in Hsf as Hsf'.
    destruct (zlen bs >? 0) eqn:Hz; bool_to_prop; cycle 1.
    { assert (bs = []) as -> by (apply zlen_nil_inv; lia). simpl. wp_go.
      eapply Hfail; [exact Hd2 | exact Hc1 | by rewrite Hsf']. }
    wp_go. eapply store_bytes_spec; [exact Hc1 | by eapply dc_queue | by eapply decoded_bound | lia |..].
    + intros ds2 rest2 c3 q3 m4 Hd4 Hc4 Hsf4 Hneed4. cbn beta iota. wp_go. simpl. wp_go.
      apply wp_log; [log_ok|]. intros m5 Hlg. wp_go.
      split; [|right; split; [|lia]].
      * exists (chunks ++ [bs]), (ds ++ ds2), rest2.
        split_and!; [|done | by rewrite Hsf', Hsf4 | done].
        eapply decoded_stop; [by apply (decoded_more Hd2)|..]; try apply Hlg. by apply logged_world.
      * eapply os_spent_mono; [apply Hspent; by intros ->|].
        etrans; [apply Hd4 | apply Hlg].
    + intros ds2 later more c3 q3 m4 Hd4 Hc4 Hsf4. cbn beta iota. wp_go. simpl. wp_go.
      eapply Hfail; [exact (decoded_more Hd2 Hd4) | done |].
      rewrite Hsf'. simpl. rewrite Hsf4. by rewrite app_assoc.
  - intros m2 Hf2 Hintr. simpl. wp_go. destruct Hf2 as [Hf2 Ho2 Ht2].
    assert (decoded c rs m chunks ds c1 q1 m2) as Hd2.
    { eapply decoded_stop; [exact Hd|..]; try done; try apply Hf2.
      by apply call_frame_world. }
    case_if as Hi; wp_go.
    { split; [|right; split; [auto | lia]]. by exists chunks, ds, rest. }
    case_if as Ha; wp_go; [by eapply Hok|].
    eapply (Hfail chunks ds []); [done..|]. by rewrite Hsf, app_nil_r.
Qed.

(** ** Writing *)

(** The client was sent [chunks]. *)
Record sent (c : wc_uds_client) m (chunks : list (list byte)) (c' : wc_uds_client) m' : Prop := {
  st_kept : kept m m';
  st_open : m_open m' = m_open m;
  st_trace : m_trace m' = m_trace m ++ (EvSend (uc_fd c) <$> chunks);
  st_fd : uc_fd c' = uc_fd c;
  st_input : uc_input c' = uc_input c;
  st_live : m_live m' - bufs_owned c' = m_live m - bufs_owned c;
}.

Lemma sent_refl c m : sent c m [] c m.
Proof. constructor; simpl; rewrite ?app_nil_r; done. Qed.

Lemma sent_stop c m chunks c1 m1 m2 :
  sent c m chunks c1 m1 → call_frame0 m1 m2 → sent c m chunks c1 m2.
Proof.
  intros [] [Hf Ho Ht]. constructor; try congruence.
  - etrans; [done | apply Hf].
  - by rewrite (cf_live _ _ Hf).
Qed.

(** One more chunk is sent. *)
Lemma sent_step c m chunks c1 m1 chunk m2 c2 m3 :
  sent c m chunks c1 m1 → call_frame m1 m2 → m_open m2 = m_open m1 →
  m_trace m2 = m_trace m1 ++ [EvSend (uc_fd c1) chunk] →
  kept m2 m3 → m_open m3 = m_open m2 → m_trace m3 = m_trace m2 → m_live m3 = m_live m2 →
  uc_fd c2 = uc_fd c1 → uc_input c2 = uc_input c1 → bufs_owned c2 = bufs_owned c1 →
  sent c m (chunks ++ [chunk]) c2 m3.
Proof.
  intros Hs Hf2 Ho2 Ht2 Hk3 Ho3 Ht3 Hl3 ???. pose proof (st_fd _ _ _ _ _ Hs) as Hfd1.
  pose proof (cf_live _ _ Hf2). destruct Hs as [? ? Ht ? ? ?]. constructor; try congruence; try lia.
  - etrans; [done|]. etrans; [apply Hf2 | done].
  - rewrite Ht3, Ht2, Ht, fmap_app, <-app_assoc. by rewrite Hfd1.
Qed.

Lemma write_client_spec t fuel c inb outb (Q : Z * wc_uds_client → machine W → Prop) m :
  client_repr c inb outb → enough t (fuel - length outb) (m_os m) →
  (∀ r chunks rest c' m', (r = 0 ∨ r = -1) → sent c m chunks c' m' →
     client_repr c' inb rest → outb = mjoin chunks ++ rest → Q (r, c') m') →
  wp t (wc_uds_write_client fuel c) Q m.
Proof.
  intros Hc Hfuel HQ. unfold wc_uds_write_client.
  apply (wp_iter_enough _ _ (λ c1 m1, ∃ chunks rest, sent c m chunks c1 m1 ∧
    client_repr c1 inb rest ∧ outb = mjoin chunks ++ rest)
    (λ c1, Z.to_nat (buf_length (uc_output c1)))).
  2:{ exists [], outb. by split; [apply sent_refl|]. }
  2:{ by rewrite (br_length _ _ (cl_output _ _ _ Hc)), Nat2Z.id. }
  intros c1 m1 (chunks & rest & Hs & Hc1 & Hout).
  pose proof Hc1 as [Hfd Hin Hinm Ho Hom]. rewrite (br_length _ _ Ho).
  case_if as Hpos; [|wp_go; eapply HQ; eauto].
  apply wp_bind, wp_read_points_to; [by apply buffer_repr_points_to | lia |].
  wp_call wp_sys_send.
  2:{ intros m2 Hf2 Hintr. simpl. wp_go. simpl.
      pose proof (sent_stop _ _ _ _ _ _ Hs Hf2) as Hs2.
      case_if as Hi; wp_go.
      { split; [by exists chunks, rest | right; split; [auto | rewrite (br_length _ _ Ho); lia]]. }
      case_if as Ha; wp_go; eapply HQ; eauto. }
  intros n m2 Hn Hf2 Ho2 Ht2. wp_go.
  set (chunk := take (Z.to_nat n) rest) in *.
  pose proof (λ c2 m3, sent_step _ _ _ _ _ _ _ c2 m3 Hs Hf2 Ho2 Ht2) as Hsent.
  assert (outb = mjoin (chunks ++ [chunk]) ++ drop (Z.to_nat n) rest) as Hout'.
  { rewrite join_app. simpl. rewrite app_nil_r, <-app_assoc. unfold chunk.
    by rewrite take_drop. }
  destruct (n >? 0) eqn:Hnp; bool_to_prop; cycle 1.
  { assert (n = 0) as -> by lia. simpl. wp_go. eapply HQ; [by right | |exact Hc1|].
    - by apply Hsent.
    - rewrite Hout' at 1. done. }
  wp_go. eapply wc_buffer_consume_spec; [exact Ho | lia | |]; cycle 1; [lia|].
  intros _ b' Hb' Hm' Hbo. cbn beta iota. wp_go. simpl. wp_go.
  apply wp_log; [log_ok|]. intros m3 Hlg. wp_go.
  split.
  - exists (chunks ++ [chunk]), (drop (Z.to_nat n) rest). split; [|split; [|done]].
    + apply Hsent; try apply Hlg; try done; [by apply logged_kept|].
      unfold bufs_owned. simpl. lia.
    + by constructor; simpl; rewrite ?Hm'.
  - left. split; [|simpl; rewrite (br_length _ _ Hb'); len_lia].
    etrans; [apply Hf2 | apply Hlg].
Qed.

(** ** Commands and responses *)

Lemma run_command_spec t n r m :
  node_repr n r → qreq_ok r →
  runs_request t r (wc_uds_run_command n (WcCommandResult None 0)) m.
Proof.
  intros (Hnfd & Hnty & Hnlen & Hnarg) Hr Q HQ. unfold wc_uds_run_command.
  apply wp_bind, wp_log; [log_ok|]. intros m1 Hlg. rewrite Hnty, Hnlen.
  eapply dispatch_command_spec; [|done..|by eauto].
  rewrite Hnarg. apply points_to_bytes.
Qed.

(** What encoding a response leaves unchanged. *)
Record responded (c : wc_uds_client) m (c' : wc_uds_client) m' : Prop := {
  rs_world : world m m';
  rs_heap : m_heap m' = m_heap m;
  rs_next : m_next_loc m' = m_next_loc m;
  rs_open : m_open m' = m_open m;
  rs_fd : uc_fd c' = uc_fd c;
  rs_input : uc_input c' = uc_input c;
  rs_live : m_live m' - bufs_owned c' = m_live m - bufs_owned c;
}.

Lemma responded_intro c m b' m' :
  answering (uc_output c) m b' m' → responded c m (set_output c b') m'.
Proof. intros []. constructor; try done. unfold bufs_owned. simpl. lia. Qed.

Lemma encode_command_response_spec t c inb n r (Q : Z * wc_uds_client → machine W → Prop) m :
  client_repr c inb [] → node_repr n r → qreq_ok r →
  (∀ body c' m', responded c m c' m' → answered r (m_trace m) body (m_trace m') →
     zlen body ≤ UINT16_MAX → client_repr c' inb (response_frame body) → Q (0, c') m') →
  (∀ c' m', responded c m c' m' → unanswered r (m_trace m) (m_errno m') (m_trace m') →
     client_repr c' inb [] → Q (-1, c') m') →
  wp t (wc_uds_encode_command_response c n) Q m.
Proof.
  intros [Hfd Hin Hinm Ho Hom] Hn Hr Hok Hfail. unfold wc_uds_encode_command_response.
  apply wp_bind. eapply encode_outcome_spec; [exact Ho | exact Hom |..].
  - by apply run_command_spec.
  - intros e m1 Q1 HQ1. apply wp_log; [log_ok | exact HQ1].
  - intros body b' m' Ha Hans Hlen Hb'. wp_go.
    apply (Hok body); [by apply responded_intro | done | done |].
    constructor; try done. simpl. by rewrite (an_max _ _ _ _ Ha).
  - intros b' m' Ha Hun Hb'. wp_go.
    apply Hfail; [by apply responded_intro | done |].
    constructor; try done. simpl. by rewrite (an_max _ _ _ _ Ha).
Qed.

(** ** Removing a client *)

(** The client is gone: its descriptor is closed, its requests are out of the
    queue and its buffers are freed. *)
Lemma remove_client_spec t c q inb outb rs
    (Q : option wc_uds_client * wc_request_queue → machine W → Prop) m :
  client_repr c inb outb → queue_at m q rs → zlen rs ≤ SIZE_MAX → (uc_fd c ∈ m_open m) →
  (∀ c' q' m', world m m' → uc_fd c' = -1 →
     m_open m' = m_open m ∖ {[uc_fd c]} → m_trace m' = m_trace m ++ [EvClose (uc_fd c)] →
     queue_at m' q' (filter (other_client (uc_fd c)) rs) →
     m_live m' = m_live m - bufs_owned c -
       (zlen rs - zlen (filter (other_client (uc_fd c)) rs)) →
     Q (Some c', q') m') →
  wp t (wc_uds_remove_client (Some c) q) Q m.
Proof.
  intros [Hfd Hin Hinm Ho Hom] Hq Hlen Hopen HQ. apply wp_partial.
  unfold wc_uds_remove_client. rewrite (proj2 (Z.eqb_neq (uc_fd c) (-1))) by lia.
  wp_go. eapply discard_client_spec; [exact Hq | done |].
  intros q' m1 Hh1 He1 rest Hl1 Hq1. cbn beta iota. wp_go.
  apply wc_buffer_destroy_spec. intros m2 Hs2 He2 Hl2. wp_go.
  apply wc_buffer_destroy_spec. intros m3 Hs3 He3 Hl3. wp_go.
  assert (silent m1 m3) as Hs13 by (by etrans).
  wp_call wp_sys_close.
  { rewrite (silent_open _ _ Hs13), (ho_open _ _ Hh1). done. }
  intros v m4 Hf4 Ho4 Ht4.
  assert (∀ m6, logged m4 m6 → Q (Some (WcUdsClient (-1) (WcBuffer None 0 0 0)
    (WcBuffer None 0 0 0)), q') m6) as Hend.
  { intros m6 Hlg.
    pose proof (silent_trace _ _ Hs13) as Ht13. pose proof (ho_trace _ _ Hh1) as Ht1.
    pose proof (silent_open _ _ Hs13) as Ho13. pose proof (ho_open _ _ Hh1) as Ho1.
    pose proof (cf_kept _ _ Hf4) as Hk4. pose proof (cf_live _ _ Hf4) as Hl4.
    apply HQ; try done.
    - etrans; [by apply heap_only_world|]. etrans; [by apply silent_world|].
      etrans; [by apply call_frame_world | by apply logged_world].
    - rewrite (lg_open _ _ Hlg). congruence.
    - rewrite (lg_trace _ _ Hlg). congruence.
    - eapply queue_at_same; [exact Hq1|..].
      + rewrite (lg_heap _ _ Hlg), (kept_heap _ _ Hk4). apply Hs13.
      + rewrite (lg_next _ _ Hlg), (kept_next _ _ Hk4). apply Hs13.
    - rewrite (lg_live _ _ Hlg). unfold bufs_owned. subst rest. lia. }
  case_if; wp_go; apply wp_log; try log_ok; intros m5 Hlg5; wp_go; [|by apply Hend].
  apply wp_log; [log_ok|]. intros m6 Hlg6. wp_go. apply Hend. by etrans.
Qed.

End client_specs.
