(* ===== verification/ServerUdsTable.v ===== *)
(** * The single-threaded server: the client table and the invariant

    The abstract server ([uds]): the connections with their undecoded input and
    unsent output, the pending requests and the trace. The invariant of the
    event loop ([server_inv]) says how table, queue and heap represent its
    state, and that this state came about by its steps. *)

From S2P Require Import Prelude Machine Script Buffer Protocol Queue SocketUtils Logging Commands Respond Listener ServerUds ServerUdsClient.

(** ** The client table *)

(** Descriptors of the connected clients. *)
Definition active_fds (clients : list wc_uds_client) : list Z :=
  filter (λ fd, fd ≠ -1) (uc_fd <$> clients).

(** A slot is free, or its client has no complete request left undecoded. *)
Definition client_ok (c : wc_uds_client) : Prop :=
  uc_fd c = -1 ∨
  ∃ inb outb, client_repr c inb outb ∧ spec_parse_request inb = PNeedMore.

Definition slot_owned (c : wc_uds_client) : Z :=
  if uc_fd c =? -1 then 0 else bufs_owned c.

Definition table_owned (clients : list wc_uds_client) : Z :=
  foldr (λ c s, slot_owned c + s) 0 clients.

Section tables.
Implicit Types clients : list wc_uds_client.

Lemma slot_split clients i c :
  clients !! i = Some c →
  ∃ l1 l2, clients = l1 ++ c :: l2 ∧ ∀ c', <[i := c']> clients = l1 ++ c' :: l2.
Proof.
  intros Hi. exists (take i clients), (drop (S i) clients). split.
  - by rewrite take_drop_middle.
  - intros c'. apply insert_take_drop. by apply lookup_lt_Some in Hi.
Qed.

Lemma active_fds_app l1 l2 : active_fds (l1 ++ l2) = active_fds l1 ++ active_fds l2.
Proof. unfold active_fds. by rewrite fmap_app, filter_app. Qed.

Lemma active_fds_cons c l :
  active_fds (c :: l) = if decide (uc_fd c = -1) then active_fds l else uc_fd c :: active_fds l.
Proof.
  unfold active_fds. rewrite fmap_cons, filter_cons.
  by repeat case_decide; try done.
Qed.

Lemma active_fds_in clients fd :
  fd ∈ active_fds clients ↔ fd ≠ -1 ∧ ∃ c, c ∈ clients ∧ uc_fd c = fd.
Proof.
  unfold active_fds. rewrite list_elem_of_filter, list_elem_of_fmap. naive_solver.
Qed.

Lemma active_fds_same clients i c c' :
  clients !! i = Some c → uc_fd c' = uc_fd c →
  active_fds (<[i := c']> clients) = active_fds clients.
Proof.
  intros (l1 & l2 & -> & ->)%slot_split Hfd.
  by rewrite !active_fds_app, !active_fds_cons, Hfd.
Qed.

Lemma active_fds_free clients i c c' :
  clients !! i = Some c → uc_fd c ≠ -1 → uc_fd c' = -1 →
  active_fds clients ≡ₚ uc_fd c :: active_fds (<[i := c']> clients).
Proof.
  intros (l1 & l2 & -> & ->)%slot_split Hfd Hfd'.
  rewrite !active_fds_app, !active_fds_cons, Hfd'.
  rewrite (decide_False (P := uc_fd c = -1)), decide_True by done.
  by rewrite Permutation_middle.
Qed.

Lemma active_fds_take clients i c c' :
  clients !! i = Some c → uc_fd c = -1 → uc_fd c' ≠ -1 →
  active_fds (<[i := c']> clients) ≡ₚ uc_fd c' :: active_fds clients.
Proof.
  intros (l1 & l2 & -> & ->)%slot_split Hfd Hfd'.
  rewrite !active_fds_app, !active_fds_cons, Hfd.
  rewrite (decide_False (P := uc_fd c' = -1)), decide_True by done.
  by rewrite Permutation_middle.
Qed.

Lemma table_owned_insert clients i c c' :
  clients !! i = Some c →
  table_owned (<[i := c']> clients) = table_owned clients - slot_owned c + slot_owned c'.
Proof.
  intros (l1 & l2 & -> & ->)%slot_split. unfold table_owned. rewrite !foldr_app. simpl.
  induction l1 as [|x l1 IH]; simpl; lia.
Qed.

(** *** The connections of a table *)

(** The undecoded input and the unsent output of a client. *)
Definition client_io (c : wc_uds_client) : list byte * list byte :=
  (buffer_contents (uc_input c), buffer_contents (uc_output c)).

Fixpoint conns_of (clients : list wc_uds_client) : gmap Z (list byte * list byte) :=
  match clients with
  | [] => ∅
  | c :: l => if decide (uc_fd c = -1) then conns_of l else <[uc_fd c := client_io c]> (conns_of l)
  end.

Lemma client_repr_io c inb outb : client_repr c inb outb → client_io c = (inb, outb).
Proof.
  intros []. unfold client_io. f_equal; by apply buffer_repr_contents.
Qed.

Lemma conns_of_other clients fd : (fd ∉ active_fds clients) → conns_of clients !! fd = None.
Proof.
  induction clients as [|c l IH]; [done|]. simpl. rewrite active_fds_cons. case_decide; [done|].
  intros [Hne Hn]%not_elem_of_cons. rewrite lookup_insert_ne by done. by apply IH.
Qed.

Lemma conns_of_middle l1 c l2 :
  (uc_fd c ∉ active_fds l1) →
  conns_of (l1 ++ c :: l2) =
    if decide (uc_fd c = -1) then conns_of (l1 ++ l2)
    else <[uc_fd c := client_io c]> (conns_of (l1 ++ l2)).
Proof.
  induction l1 as [|d l1 IH]; simpl; [done|]. rewrite active_fds_cons.
  destruct (decide (uc_fd d = -1)); [done|]. intros [Hne Hn]%not_elem_of_cons.
  rewrite IH by done. destruct (decide (uc_fd c = -1)); [done|]. by apply insert_insert_ne.
Qed.

(** One slot and the others. *)
Lemma conns_of_slot clients i c :
  clients !! i = Some c → NoDup (active_fds clients) → ∃ others : gmap Z (list byte * list byte),
    (uc_fd c ≠ -1 → others !! uc_fd c = None) ∧
    (∀ c', uc_fd c' = -1 → conns_of (<[i := c']> clients) = others) ∧
    (∀ c', uc_fd c' ≠ -1 → uc_fd c' = uc_fd c ∨ (uc_fd c' ∉ active_fds clients) →
       conns_of (<[i := c']> clients) = <[uc_fd c' := client_io c']> others).
Proof.
  intros (l1 & l2 & -> & Hins)%slot_split Hnd. exists (conns_of (l1 ++ l2)).
  rewrite active_fds_app, active_fds_cons in Hnd.
  assert (uc_fd c ≠ -1 → uc_fd c ∉ active_fds (l1 ++ l2)) as Hc.
  { intros Hne. rewrite decide_False in Hnd by done. rewrite <-Permutation_middle in Hnd.
    apply NoDup_cons in Hnd as [Hn _]. by rewrite active_fds_app. }
  split; [intros Hne; by apply conns_of_other, Hc|].
  assert (∀ fd, (fd ∈ active_fds l1) → fd ≠ -1) as Hm1 by (by intros fd [? _]%active_fds_in).
  split; intros c' Hfd.
  - rewrite Hins, conns_of_middle; [by rewrite decide_True|]. rewrite Hfd. by intros ?%Hm1.
  - intros Hor. rewrite Hins, conns_of_middle; [by rewrite decide_False|].
    destruct Hor as [Heq|Hn].
    + rewrite Heq in *. specialize (Hc Hfd). rewrite active_fds_app in Hc. set_solver.
    + rewrite active_fds_app in Hn. set_solver.
Qed.

Lemma conns_of_same clients i c c' :
  clients !! i = Some c → NoDup (active_fds clients) → uc_fd c ≠ -1 → uc_fd c' = uc_fd c →
  conns_of (<[i := c']> clients) = <[uc_fd c := client_io c']> (conns_of clients).
Proof.
  intros Hi Hnd Hne Hfd. destruct (conns_of_slot _ _ _ Hi Hnd) as (others & _ & _ & Hput).
  rewrite <-(list_insert_id clients i c Hi) at 2.
  rewrite (Hput c'), (Hput c) by (first [by left | congruence]). by rewrite Hfd, insert_insert_eq.
Qed.

Lemma conns_of_free clients i c c' :
  clients !! i = Some c → NoDup (active_fds clients) → uc_fd c ≠ -1 → uc_fd c' = -1 →
  conns_of (<[i := c']> clients) = delete (uc_fd c) (conns_of clients).
Proof.
  intros Hi Hnd Hne Hfd. destruct (conns_of_slot _ _ _ Hi Hnd) as (others & Hno & Hdel & Hput).
  rewrite <-(list_insert_id clients i c Hi) at 2. rewrite (Hdel c'), (Hput c) by auto.
  rewrite delete_insert_id; auto.
Qed.

Lemma conns_of_take clients i c c' :
  clients !! i = Some c → NoDup (active_fds clients) → uc_fd c = -1 → uc_fd c' ≠ -1 →
  (uc_fd c' ∉ active_fds clients) →
  conns_of (<[i := c']> clients) = <[uc_fd c' := client_io c']> (conns_of clients).
Proof.
  intros Hi Hnd Hfree Hne Hn. destruct (conns_of_slot _ _ _ Hi Hnd) as (others & _ & Hdel & Hput).
  rewrite <-(list_insert_id clients i c Hi) at 2. by rewrite (Hdel c), (Hput c') by auto.
Qed.

Lemma conns_of_lookup clients i c :
  clients !! i = Some c → NoDup (active_fds clients) → uc_fd c ≠ -1 →
  conns_of clients !! uc_fd c = Some (client_io c).
Proof.
  intros Hi Hnd Hne. rewrite <-(list_insert_id clients i c Hi).
  rewrite (conns_of_same _ _ c) by done. apply lookup_insert_eq.
Qed.

Lemma client_ok_repr c :
  client_ok c → uc_fd c ≠ -1 →
  ∃ inb outb, client_repr c inb outb ∧ spec_parse_request inb = PNeedMore.
Proof. by intros [?|?]. Qed.

End tables.

(** ** The abstract server

    The connections (undecoded input, unsent output), the pending requests in
    the order of their arrival, and the trace. *)

Section abstract_server.
Context {W : Type} {OS : Posix W}.

Abbreviation ustate := (gmap Z (list byte * list byte) * list qreq * list event)%type.

(** The oldest request is answered when its client has no unsent output; a
    client whose response cannot be stored is dropped with all its requests. *)
Inductive serve : relation ustate :=
| serve_answer cs r rs tr inb body tr' :
    cs !! qq_fd r = Some (inb, []) → answered r tr body tr' →
    serve (cs, r :: rs, tr) (<[qq_fd r := (inb, response_frame body)]> cs, rs, tr')
| serve_drop cs r rs tr inb e tr' :
    cs !! qq_fd r = Some (inb, []) → unanswered r tr e tr' →
    serve (cs, r :: rs, tr)
      (delete (qq_fd r) cs, filter (other_client (qq_fd r)) rs, tr' ++ [EvClose (qq_fd r)]).

Inductive uds : relation ustate :=
| uds_serve s s' : serve s s' → uds s s'
| uds_accept cs rs tr fd :
    cs !! fd = None → uds (cs, rs, tr) (<[fd := ([], [])]> cs, rs, tr ++ [EvAccept fd])
| uds_setfl cs rs tr fd fl : uds (cs, rs, tr) (cs, rs, tr ++ [EvSetfl fd fl])
| uds_recv cs rs tr fd inb outb bs :
    cs !! fd = Some (inb, outb) →
    uds (cs, rs, tr) (<[fd := (inb ++ bs, outb)]> cs, rs, tr ++ [EvRecv fd bs])
| uds_decode cs rs tr fd type arg rest outb :
    cs !! fd = Some (request_frame type arg ++ rest, outb) → request_ok type arg →
    uds (cs, rs, tr) (<[fd := (rest, outb)]> cs, rs ++ [QReq fd type arg], tr)
| uds_send cs rs tr fd inb bs rest :
    cs !! fd = Some (inb, bs ++ rest) →
    uds (cs, rs, tr) (<[fd := (inb, rest)]> cs, rs, tr ++ [EvSend fd bs])
| uds_close cs rs tr fd io :
    cs !! fd = Some io →
    uds (cs, rs, tr) (delete fd cs, filter (other_client fd) rs, tr ++ [EvClose fd]).

(** The first of several frames. *)
Lemma spec_frames_cons bs type arg ds rest :
  spec_frames bs = ((type, arg) :: ds, rest) →
  request_ok type arg ∧ ∃ tl, bs = request_frame type arg ++ tl ∧ spec_frames tl = (ds, rest).
Proof.
  intros Hsf. destruct (spec_parse_request bs) as [[type' arg']| |] eqn:Hp;
    [|by rewrite spec_frames_stop in Hsf by (by rewrite Hp)..].
  apply spec_parse_request_inv in Hp as (Hok & tl & ->). rewrite spec_frames_frame in Hsf by done.
  destruct (spec_frames tl) as [ds' rest'] eqn:Htl. injection Hsf as <- <- <- <-. split; [done|].
  by exists tl.
Qed.

(** Without a frame nothing is consumed. *)
Lemma spec_frames_none bs rest : spec_frames bs = ([], rest) → bs = rest.
Proof.
  destruct (spec_parse_request bs) as [[type arg]| |] eqn:Hp;
    [|by rewrite spec_frames_stop by (by rewrite Hp); intros [= ->]..].
  apply spec_parse_request_inv in Hp as (Hok & tl & ->). rewrite spec_frames_frame by done.
  by destruct (spec_frames tl).
Qed.

Context (tr0 : list event).

(** What the server can have done since [tr0]. *)
Definition past (cs : gmap Z (list byte * list byte)) (rs : list qreq) (tr : list event) : Prop :=
  rtc uds (∅, [], tr0) (cs, rs, tr).

Lemma past_step cs rs tr cs' rs' tr' :
  past cs rs tr → uds (cs, rs, tr) (cs', rs', tr') → past cs' rs' tr'.
Proof. apply rtc_r. Qed.

Lemma past_recv cs rs tr fd inb outb chunks :
  past (<[fd := (inb, outb)]> cs) rs tr →
  past (<[fd := (inb ++ mjoin chunks, outb)]> cs) rs (tr ++ (EvRecv fd <$> chunks)).
Proof.
  revert inb tr. induction chunks as [|bs chunks IH]; intros inb tr Hp; simpl.
  { by rewrite !app_nil_r. }
  rewrite (app_assoc inb), cons_middle, (app_assoc tr). apply IH.
  eapply past_step; [exact Hp|]. rewrite <-(insert_insert_eq cs fd (inb ++ bs, outb) (inb, outb)).
  apply uds_recv, lookup_insert_eq.
Qed.

Lemma past_decode cs rs tr fd bs outb ds later rest :
  past (<[fd := (bs, outb)]> cs) rs tr → spec_frames bs = (ds ++ later, rest) →
  ∃ more, past (<[fd := (more, outb)]> cs) (rs ++ (to_qreq fd <$> ds)) tr ∧
    spec_frames more = (later, rest).
Proof.
  revert rs bs. induction ds as [|[type arg] ds IH]; intros rs bs Hp Hsf.
  { exists bs. simpl. by rewrite app_nil_r. }
  apply spec_frames_cons in Hsf as (Hok & tl & -> & Hsf).
  destruct (IH (rs ++ [QReq fd type arg]) tl) as (more & Hm & Hl); [|done|].
  { eapply past_step; [exact Hp|]. rewrite <-(insert_insert_eq cs fd (tl, outb) (request_frame type arg ++ tl, outb)).
    by apply uds_decode; [apply lookup_insert_eq|]. }
  exists more. by rewrite <-app_assoc in Hm.
Qed.

Lemma past_send cs rs tr fd inb chunks rest :
  past (<[fd := (inb, mjoin chunks ++ rest)]> cs) rs tr →
  past (<[fd := (inb, rest)]> cs) rs (tr ++ (EvSend fd <$> chunks)).
Proof.
  revert tr. induction chunks as [|bs chunks IH]; intros tr Hp; simpl in *.
  { by rewrite app_nil_r. }
  rewrite cons_middle, (app_assoc tr). apply IH. eapply past_step; [exact Hp|].
  rewrite <-(insert_insert_eq cs fd (inb, mjoin chunks ++ rest) (inb, (bs ++ mjoin chunks) ++ rest)).
  apply uds_send. rewrite lookup_insert_eq. by rewrite <-app_assoc.
Qed.

Lemma past_close cs rs tr fd io :
  past (<[fd := io]> cs) rs tr →
  past (delete fd cs) (filter (other_client fd) rs) (tr ++ [EvClose fd]).
Proof.
  intros Hp. eapply past_step; [exact Hp|]. rewrite <-(delete_insert_eq cs fd io).
  eapply uds_close, lookup_insert_eq.
Qed.

Lemma past_nonblocking cs rs tr tr' fd :
  past cs rs tr → nonblocking_set fd tr tr' → past cs rs tr'.
Proof. intros Hp [->|(fl & _ & ->)]; [done|]. eapply past_step; [exact Hp | apply uds_setfl]. Qed.

End abstract_server.

(** ** The invariant *)

Section invariant.
Context {W : Type} {OS : Posix W} `{!PosixLaws W}.
Implicit Types (m : machine W) (t : bool).
(** The descriptors and blocks of the rest of the process. *)
Context (base : gset Z) (live0 : Z).
(** The trace before the loop. *)
Context (tr0 : list event).

(** Every descriptor of the server is open and belongs to exactly one owner,
    every buffer is well formed and holds no complete request, the queue is
    bounded and holds only well-formed requests of connected clients, the heap
    blocks are exactly those of the buffers and the queue, and the connections,
    requests and events are those of a run of the abstract server. *)
Record server_inv (listener : Z) (clients : list wc_uds_client)
    (queue : wc_request_queue) (rs : list qreq) m : Prop := {
  si_slots : zlen clients = WC_UDS_MAX_CLIENTS;
  si_clients : Forall client_ok clients;
  si_nodup : NoDup (listener :: active_fds clients);
  si_fresh : ∀ fd, fd ∈ listener :: active_fds clients → fd ∉ base;
  si_open : m_open m = list_to_set (listener :: active_fds clients) ∪ base;
  si_queue : queue_at m queue rs;
  si_bound : zlen rs ≤ WC_UDS_MAX_QUEUED_REQUESTS;
  si_reqs : Forall (λ r, qq_fd r ∈ active_fds clients ∧ qreq_ok r) rs;
  si_live : m_live m = live0 + table_owned clients + zlen rs;
  si_past : past tr0 (conns_of clients) rs (m_trace m);
}.

(** Work on the connected client of one slot, in progress. *)
Record slot_step (clients : list wc_uds_client) (c : wc_uds_client) (rs : list qreq) m
    (c1 : wc_uds_client) (queue1 : wc_request_queue) (rs1 : list qreq) m1 : Prop := {
  ss_world : world m m1;
  ss_fd : uc_fd c1 = uc_fd c;
  ss_repr : ∃ inb outb, client_repr c1 inb outb;
  ss_open : m_open m1 = m_open m;
  ss_queue : queue_at m1 queue1 rs1;
  ss_bound : zlen rs1 ≤ WC_UDS_MAX_QUEUED_REQUESTS;
  ss_reqs : Forall (λ r, qq_fd r ∈ active_fds clients ∧ qreq_ok r) rs1;
  ss_live : m_live m1 - bufs_owned c1 - zlen rs1 = m_live m - bufs_owned c - zlen rs;
}.

Lemma slot_step_refl listener clients queue rs m i c :
  server_inv listener clients queue rs m → clients !! i = Some c → uc_fd c ≠ -1 →
  slot_step clients c rs m c queue rs m.
Proof.
  intros [] Hi Hne. constructor; try done.
  destruct (client_ok_repr c) as (inb & outb & Hc & _); [by eapply Forall_lookup_1 | done |].
  by exists inb, outb.
Qed.

(** Work done that leaves no complete request undecoded. *)
Lemma inv_update listener clients queue rs m i c c1 queue1 rs1 m1 :
  server_inv listener clients queue rs m → clients !! i = Some c → uc_fd c ≠ -1 →
  slot_step clients c rs m c1 queue1 rs1 m1 → client_ok c1 →
  past tr0 (<[uc_fd c := client_io c1]> (conns_of clients)) rs1 (m_trace m1) →
  server_inv listener (<[i := c1]> clients) queue1 rs1 m1.
Proof.
  intros [] Hi Hne [] Hok Hpast.
  pose proof (active_fds_same clients i c c1 Hi ss_fd0) as Ha.
  constructor; rewrite ?Ha, ?length_insert; try done.
  - by apply Forall_insert.
  - congruence.
  - rewrite (table_owned_insert _ _ _ _ Hi). unfold slot_owned. rewrite ss_fd0.
    rewrite (proj2 (Z.eqb_neq (uc_fd c) (-1))) by done. lia.
  - by rewrite (conns_of_same _ _ c) by (first [done | by apply (NoDup_cons listener)]).
Qed.

(** A disconnected client. *)
Lemma inv_remove listener clients queue rs m i c c1 queue1 rs1 m1 c' queue' m' :
  server_inv listener clients queue rs m → clients !! i = Some c → uc_fd c ≠ -1 →
  slot_step clients c rs m c1 queue1 rs1 m1 →
  uc_fd c' = -1 → m_open m' = m_open m1 ∖ {[uc_fd c]} →
  queue_at m' queue' (filter (other_client (uc_fd c)) rs1) →
  m_live m' = m_live m1 - bufs_owned c1 -
    (zlen rs1 - zlen (filter (other_client (uc_fd c)) rs1)) →
  past tr0 (delete (uc_fd c) (conns_of clients)) (filter (other_client (uc_fd c)) rs1)
    (m_trace m') →
  server_inv listener (<[i := c']> clients) queue'
    (filter (other_client (uc_fd c)) rs1) m'.
Proof.
  intros [] Hi Hne [] Hfd Ho Hq Hl Hpast.
  pose proof (active_fds_free clients i c c' Hi Hne Hfd) as Ha.
  set (fds := active_fds (<[i := c']> clients)) in *.
  assert (NoDup (listener :: uc_fd c :: fds)) as Hnd by (by rewrite <-Ha).
  apply NoDup_cons in Hnd as [Hni1 Hnd]. apply NoDup_cons in Hnd as [Hni2 Hnd].
  rewrite not_elem_of_cons in Hni1. destruct Hni1 as [Hne1 Hni1].
  assert (∀ fd, fd ∈ fds → fd ∈ active_fds clients) as Hsub
    by (intros fd Hin; rewrite Ha; by right).
  assert (uc_fd c ∉ base) as Hcb by (apply si_fresh0; right; rewrite Ha; left).
  constructor.
  - by rewrite length_insert.
  - apply Forall_insert; [done | by left].
  - by apply NoDup_cons.
  - intros fd [->|Hin]%elem_of_cons; apply si_fresh0; [left | right; auto].
  - rewrite Ho, ss_open0, si_open0, !list_to_set_cons.
    rewrite (list_to_set_perm_L _ _ Ha), list_to_set_cons.
    apply set_eq. intros x. fold fds. rewrite !elem_of_difference, !elem_of_union,
      !elem_of_singleton, !elem_of_list_to_set. naive_solver.
  - done.
  - etrans; [|exact ss_bound0]. apply inj_le, length_filter.
  - apply Forall_forall. intros r [Hoc Hin]%list_elem_of_filter.
    rewrite Forall_forall in ss_reqs0. destruct (ss_reqs0 r Hin) as [Hfdr Hrok].
    split; [|done]. rewrite Ha in Hfdr. apply elem_of_cons in Hfdr as [Heq|]; [|done].
    by destruct Hoc.
  - rewrite (table_owned_insert _ _ _ _ Hi). unfold slot_owned. rewrite Hfd. simpl.
    rewrite (proj2 (Z.eqb_neq (uc_fd c) (-1))) by done. lia.
  - by rewrite (conns_of_free _ _ c) by (first [done | by apply (NoDup_cons listener)]).
Qed.

(** A connection just accepted takes a free slot. *)
Lemma inv_add listener clients queue rs m0 m i c c' m' fd :
  server_inv listener clients queue rs m0 → clients !! i = Some c → uc_fd c = -1 →
  uc_fd c' = fd → 0 ≤ fd → (fd ∉ m_open m0) → client_ok c' → bufs_owned c' = 0 →
  m_open m = {[fd]} ∪ m_open m0 →
  m_open m' = m_open m → queue_at m' queue rs → m_live m' = m_live m0 →
  past tr0 (<[fd := client_io c']> (conns_of clients)) rs (m_trace m') →
  server_inv listener (<[i := c']> clients) queue rs m'.
Proof.
  intros [] Hi Hfree Hfd Hpos Hfresh Hok Hown Ho Ho' Hq Hl Hpast. subst fd.
  assert (uc_fd c' ≠ -1) as Hne by lia.
  pose proof (active_fds_take clients i c c' Hi Hfree Hne) as Ha.
  set (fds := active_fds (<[i := c']> clients)) in *.
  rewrite si_open0 in Hfresh. rewrite not_elem_of_union, elem_of_list_to_set in Hfresh.
  destruct Hfresh as [Hfr1 Hfr2]. apply not_elem_of_cons in Hfr1 as [Hfr0 Hfr1].
  apply NoDup_cons in si_nodup0 as [Hni Hnd].
  constructor.
  - by rewrite length_insert.
  - by apply Forall_insert.
  - fold fds. rewrite Ha. apply NoDup_cons. rewrite not_elem_of_cons.
    split; [by split|]. by apply NoDup_cons.
  - intros fd. fold fds. rewrite Ha, !elem_of_cons. intros [->|[->|Hin]]; [|done|].
    + apply si_fresh0. left.
    + apply si_fresh0. by right.
  - fold fds. rewrite Ho', Ho, si_open0, !list_to_set_cons.
    rewrite (list_to_set_perm_L _ _ Ha), list_to_set_cons. set_solver.
  - done.
  - done.
  - eapply Forall_impl; [done|]. intros r [Hin Hr]. split; [|done]. fold fds. rewrite Ha. by right.
  - rewrite (table_owned_insert _ _ _ _ Hi), Hl. unfold slot_owned. rewrite Hfree. simpl.
    rewrite (proj2 (Z.eqb_neq (uc_fd c') (-1))) by done. lia.
  - by rewrite (conns_of_take _ _ c) by done.
Qed.

(** A descriptor that is not open is not connected. *)
Lemma inv_unconnected listener clients queue rs m fd :
  server_inv listener clients queue rs m → (fd ∉ m_open m) →
  conns_of clients !! fd = None ∧ filter (other_client fd) rs = rs.
Proof.
  intros [] Hfresh. assert (fd ∉ active_fds clients) as Hn.
  { intros Hin. apply Hfresh. rewrite si_open0. apply elem_of_union_l, elem_of_list_to_set. by right. }
  split; [by apply conns_of_other|]. clear si_queue0 si_bound0 si_live0 si_past0.
  induction si_reqs0 as [|r rs [Hin _] _ IH]; [done|]. rewrite filter_cons, IH.
  rewrite decide_True; [done|]. intros Heq. by rewrite Heq in Hin.
Qed.

Lemma inv_same listener clients queue rs m m' :
  server_inv listener clients queue rs m → m_open m' = m_open m →
  m_heap m' = m_heap m → m_next_loc m' = m_next_loc m → m_live m' = m_live m →
  past tr0 (conns_of clients) rs (m_trace m') →
  server_inv listener clients queue rs m'.
Proof.
  intros [] Ho Hh Hn Hl Hpast. constructor; try done; try congruence.
  by eapply queue_at_same.
Qed.

Lemma inv_logged listener clients queue rs m m' :
  server_inv listener clients queue rs m → logged m m' →
  server_inv listener clients queue rs m'.
Proof. intros HI [? ? ? ? ? Ht]. eapply inv_same; [done..|]. rewrite Ht. apply HI. Qed.

Lemma inv_call0 listener clients queue rs m m' :
  server_inv listener clients queue rs m → call_frame0 m m' →
  server_inv listener clients queue rs m'.
Proof. intros HI [[[] ? ?] ? Ht]. eapply inv_same; [done..|]. rewrite Ht. apply HI. Qed.

(** The client of a pending request is connected. *)
Lemma inv_find listener clients queue rs m fd :
  server_inv listener clients queue rs m → fd ∈ active_fds clients →
  ∃ i c, list_find (λ c, uc_fd c = fd) clients = Some (i, c) ∧
    clients !! i = Some c ∧ uc_fd c = fd ∧ fd ≠ -1 ∧ client_ok c.
Proof.
  intros HI (Hne & c0 & Hin & Hfd)%active_fds_in.
  destruct (list_find_elem_of (λ c, uc_fd c = fd) clients c0 Hin Hfd) as [[i c] Hf].
  exists i, c. apply list_find_Some in Hf as Hf'. destruct Hf' as (Hi & Hc & _).
  split_and!; try done. eapply Forall_lookup_1; [apply HI | done].
Qed.

End invariant.
