(* ===== verification/ServerUdsLoop.v ===== *)
(** * The single-threaded server: the event loop

    Every step of the event loop preserves the invariant of [ServerUdsTable],
    from removing a client to the whole run of [wc_server_uds_run]. *)

From S2P Require Import Prelude Machine Script Buffer Protocol Queue SocketUtils Logging Commands Respond Listener ServerUds ServerUdsClient ServerUdsTable.

Section loop.
Context {W : Type} {OS : Posix W} `{!PosixLaws W}.
Implicit Types (m : machine W) (t : bool).
Context (base : gset Z) (live0 : Z) (tr0 : list event).

Abbreviation server_inv := (server_inv base live0 tr0).

Lemma inv_nodup listener clients queue rs m :
  server_inv listener clients queue rs m → NoDup (active_fds clients).
Proof. intros HI. by apply (NoDup_cons listener), (si_nodup _ _ _ _ _ _ _ _ HI). Qed.

(** ** Removing a client *)

Lemma remove_slot_spec t listener clients queue rs i c c1 queue1 rs1
    (Q : option wc_uds_client * wc_request_queue → machine W → Prop) m m1 :
  server_inv listener clients queue rs m → clients !! i = Some c → uc_fd c ≠ -1 →
  slot_step clients c rs m c1 queue1 rs1 m1 →
  past tr0 (delete (uc_fd c) (conns_of clients)) (filter (other_client (uc_fd c)) rs1)
    (m_trace m1 ++ [EvClose (uc_fd c)]) →
  (∀ c' queue' m', world m m' → uc_fd c' = -1 →
     m_trace m' = m_trace m1 ++ [EvClose (uc_fd c)] →
     server_inv listener (<[i := c']> clients) queue'
       (filter (other_client (uc_fd c)) rs1) m' →
     Q (Some c', queue') m') →
  wp t (wc_uds_remove_client (Some c1) queue1) Q m1.
Proof.
  intros HI Hi Hne Hss Hpast HQ. pose proof Hss as [Hw1 Hfd1 (inb & outb & Hc1) Ho1 Hq1 Hb1 _ _].
  eapply remove_client_spec; [exact Hc1 | exact Hq1 | ..].
  - unfold WC_UDS_MAX_QUEUED_REQUESTS, SIZE_MAX in *. lia.
  - rewrite Hfd1, Ho1, (si_open _ _ _ _ _ _ _ _ HI).
    apply elem_of_union_l, elem_of_list_to_set. right.
    apply active_fds_in. split; [done|]. exists c. split; [|done]. by eapply list_elem_of_lookup_2.
  - rewrite Hfd1. intros c' q' m' Hw Hfd Ho Ht Hq Hl. apply HQ; try done; [by etrans|].
    eapply inv_remove; [done..|]. by rewrite Ht.
Qed.

(** ** Processing the queue *)

Lemma peek_spec m q rs :
  queue_at m q rs →
  match rs with
  | [] => q_head q = None
  | r :: _ => ∃ l n, q_head q = Some l ∧ m_heap m !! l = Some n ∧ node_repr n r
  end.
Proof.
  intros [ls [Hseg _ _ _ _ _]]. destruct ls as [|l ls], rs as [|r rs]; try done.
  destruct Hseg as (-> & n & ? & ? & _). by exists l, n.
Qed.

(** The dequeued request has been answered and freed. *)
Lemma slot_step_answered listener clients queue r rs m i c l n h q' c2 m2 m3 :
  server_inv listener clients queue (r :: rs) m → clients !! i = Some c →
  h !! l = None → queue_repr h (m_next_loc m) q' rs →
  responded c (set_heap (<[l:=n]> h) m) c2 m2 → logged m2 m3 →
  (∃ inb outb, client_repr c2 inb outb) →
  slot_step clients c (r :: rs) m c2 q' rs
    (set_live (m_live m3 - 1) (set_heap (delete l (m_heap m3)) m3)).
Proof.
  intros HI Hi Hl Hq [Hrw Hrh Hrn Hro Hrf Hri Hrl] Hlg Hrepr.
  pose proof (proj1 (Forall_cons _ _ _) (si_reqs _ _ _ _ _ _ _ _ HI)) as [_ Hreqs].
  pose proof (si_bound _ _ _ _ _ _ _ _ HI) as Hbound.
  pose proof (lg_heap _ _ Hlg) as Hh3. pose proof (lg_next _ _ Hlg) as Hn3.
  pose proof (lg_live _ _ Hlg) as Hl3. pose proof (lg_open _ _ Hlg) as Ho3.
  simpl in *. constructor; simpl; try done; try congruence; try lia.
  - assert (world m m3) as [] by (etrans; [|by apply logged_world]; by destruct Hrw).
    by constructor.
  - unfold queue_at. simpl. rewrite Hh3, Hrh, Hn3, Hrn. by rewrite delete_insert_id.
Qed.

(** Processing stops when the queue is empty or the client whose turn it is
    has not yet taken its previous response. *)
Definition stalled (clients : list wc_uds_client) (rs : list qreq) : Prop :=
  match rs with
  | [] => True
  | r :: _ => ∃ c, c ∈ clients ∧ uc_fd c = qq_fd r ∧ buf_length (uc_output c) ≠ 0
  end.

Lemma find_client_spec t clients fd (Q : option nat → machine W → Prop) m :
  (∀ m', logged m m' → Q (fst <$> list_find (λ c, uc_fd c = fd) clients) m') →
  wp t (wc_uds_find_client clients fd) Q m.
Proof.
  intros HQ. unfold wc_uds_find_client. apply wp_bind, wp_log; [log_ok|].
  intros m' Hlg. wp_go. by apply HQ.
Qed.

(** Answering the oldest request [r] of the client in slot [i], which has been
    taken from the queue, is a step of the abstract server. *)
Lemma answer_slot_spec t listener clients queue r rs i c inb l n h q'
    (Q : (list wc_uds_client * wc_request_queue) + (list wc_uds_client * wc_request_queue) →
         machine W → Prop) m :
  server_inv listener clients queue (r :: rs) m → clients !! i = Some c →
  uc_fd c = qq_fd r → uc_fd c ≠ -1 →
  client_repr c inb [] → spec_parse_request inb = PNeedMore → qreq_ok r →
  node_repr n r → h !! l = None → queue_repr h (m_next_loc m) q' rs →
  (∀ clients' queue' rs' m', world m m' → (length rs' ≤ length rs)%nat →
     serve (conns_of clients, r :: rs, m_trace m) (conns_of clients', rs', m_trace m') →
     server_inv listener clients' queue' rs' m' → Q (Continue (clients', queue')) m') →
  wp t ('(r, client) ← wc_uds_encode_command_response c n;
        let clients := <[i := client]> clients in
        if r =? -1 then
          e ← get_errno;
          wc_log WC_LOG_ERROR "server" "response_failed"
            (Some "client=fd:%d errno=%d"%string) [LInt (uc_fd client); LInt e] ;;
          wc_queued_request_destroy (Some l) ;;
          '(client, queue) ← wc_uds_remove_client (Some client) q';
          client ← from_option_ub client;
          mret (Continue (<[i := client]> clients, queue))
        else
          wc_log WC_LOG_DEBUG "server" "response_queued"
            (Some "client=fd:%d type=%u output_pending=%zu"%string)
            [LInt (uc_fd client); LInt (qr_type n); LInt (buf_length (uc_output client))] ;;
          wc_queued_request_destroy (Some l) ;;
          mret (Continue (clients, q'))) Q (set_heap (<[l:=n]> h) m).
Proof.
  intros HI Hi Hfd Hne Hc Hneed Hrok Hn Hl Hq' HQ. apply wp_bind.
  pose proof (conns_of_lookup _ _ _ Hi (inv_nodup _ _ _ _ _ HI) Hne) as Hio.
  rewrite (client_repr_io _ _ _ Hc) in Hio.
  eapply encode_command_response_spec; [exact Hc | exact Hn | exact Hrok | |].
  - intros body c2 m3 Hresp Hans Hlen Hc2. cbn beta iota zeta. simpl. wp_go.
    apply wp_log; [log_ok|]. intros m4 Hlg4. wp_go.
    pose proof (slot_step_answered _ _ _ _ _ _ _ _ _ _ _ _ _ _ _ HI Hi Hl Hq' Hresp Hlg4
      ltac:(by eauto)) as Hss.
    unfold wc_queued_request_destroy. apply wp_free_node.
    { rewrite (lg_heap _ _ Hlg4), (rs_heap _ _ _ _ Hresp). simpl. by rewrite lookup_insert_eq. }
    wp_go. pose proof (conns_of_same _ _ _ c2 Hi (inv_nodup _ _ _ _ _ HI) Hne (rs_fd _ _ _ _ Hresp)) as Hcs.
    rewrite (client_repr_io _ _ _ Hc2) in Hcs.
    assert (serve (conns_of clients, r :: rs, m_trace m)
      (<[uc_fd c := (inb, response_frame body)]> (conns_of clients), rs, m_trace m4)) as Hstep.
    { rewrite Hfd, (lg_trace _ _ Hlg4). rewrite Hfd in Hio. by constructor. }
    eapply HQ; [apply Hss | done | by rewrite Hcs |].
    eapply inv_update; [exact HI | done | done | exact Hss | right; eauto |].
    rewrite (client_repr_io _ _ _ Hc2). eapply past_step; [apply HI | by apply uds_serve].
  - intros c2 m3 Hresp Hun Hc2. cbn beta iota zeta. simpl. wp_go.
    apply wp_log; [log_ok|]. intros m4 Hlg4. wp_go.
    pose proof (slot_step_answered _ _ _ _ _ _ _ _ _ _ _ _ _ _ _ HI Hi Hl Hq' Hresp Hlg4
      ltac:(by eauto)) as Hss.
    unfold wc_queued_request_destroy. apply wp_free_node.
    { rewrite (lg_heap _ _ Hlg4), (rs_heap _ _ _ _ Hresp). simpl. by rewrite lookup_insert_eq. }
    assert (serve (conns_of clients, r :: rs, m_trace m) (delete (uc_fd c) (conns_of clients),
      filter (other_client (uc_fd c)) rs, m_trace m4 ++ [EvClose (uc_fd c)])) as Hstep.
    { rewrite Hfd, (lg_trace _ _ Hlg4). rewrite Hfd in Hio. by econstructor. }
    wp_go. eapply remove_slot_spec; [exact HI | done | done | exact Hss | |].
    { eapply past_step; [apply HI | by apply uds_serve]. }
    intros c3 q3 m5 Hw5 Hfd5 Ht5 HI5. wp_go. simpl in Ht5. rewrite list_insert_insert_eq.
    eapply (HQ _ _ (filter (other_client (uc_fd c)) rs)); [done | apply length_filter | | done].
    by rewrite (conns_of_free _ _ _ _ Hi (inv_nodup _ _ _ _ _ HI) Hne Hfd5), Ht5.
Qed.

Lemma process_queue_spec t listener clients queue rs
    (Q : list wc_uds_client * wc_request_queue → machine W → Prop) m :
  server_inv listener clients queue rs m →
  (∀ clients' queue' rs' m', world m m' →
     rtc serve (conns_of clients, rs, m_trace m) (conns_of clients', rs', m_trace m') →
     stalled clients' rs' →
     server_inv listener clients' queue' rs' m' → Q (clients', queue') m') →
  wp t (wc_uds_process_queue clients queue) Q m.
Proof.
  intros HI HQ. apply wp_partial. unfold wc_uds_process_queue.
  apply (wp_iter_ix _ _ (λ k '(clients1, queue1) m1, ∃ rs1, k = length rs1 ∧ world m m1 ∧
    rtc serve (conns_of clients, rs, m_trace m) (conns_of clients1, rs1, m_trace m1) ∧
    server_inv listener clients1 queue1 rs1 m1) _ _ (length rs)); cycle 1.
  { by exists rs. }
  { intros _. destruct (si_queue _ _ _ _ _ _ _ _ HI) as [ls Hsh].
    rewrite (qs_length _ _ _ _ _ Hsh). lia. }
  intros k [clients1 queue1] m1 (rs1 & -> & Hw1 & Hserve & HI1).
  pose proof (si_queue _ _ _ _ _ _ _ _ HI1) as Hq1. pose proof (si_bound _ _ _ _ _ _ _ _ HI1) as Hb1.
  pose proof (peek_spec _ _ _ Hq1) as Hpeek. simpl.
  destruct rs1 as [|r rs1].
  { rewrite Hpeek. wp_go. by eapply HQ. }
  destruct Hpeek as (l0 & n0 & -> & Hl0 & Hn0). wp_go.
  eapply wp_load_node; [done|]. wp_go. apply find_client_spec. intros m2 Hlg2.
  apply (inv_logged _ _ _ _ _ _ _ _ _ HI1) in Hlg2 as HI2.
  pose proof (lg_trace _ _ Hlg2) as Ht2. rewrite <-Ht2 in Hserve.
  assert (world m m2) as Hw2 by (etrans; [exact Hw1 | by apply logged_world]).
  pose proof (proj1 (Forall_cons _ _ _) (si_reqs _ _ _ _ _ _ _ _ HI2)) as [[Hrfd Hrok] _].
  destruct (inv_find _ _ _ _ _ _ _ _ _ HI2 Hrfd) as (i & c & Hfind & Hi & Hcfd & Hne & Hcok).
  pose proof Hn0 as (Hnfd & _). rewrite Hnfd, Hfind. simpl. rewrite Hi. wp_go.
  rewrite <-Hcfd in Hne.
  destruct (client_ok_repr c Hcok Hne) as (inb & outb & Hc & Hneed).
  case_if as Hout; wp_go.
  { eapply HQ; [done..| |done].
    exists c. split_and!; [by eapply list_elem_of_lookup_2 | done | done]. }
  assert (outb = []) as ->.
  { apply zlen_nil_inv. by rewrite <-(br_length _ _ (cl_output _ _ _ Hc)). }
  eapply dequeue_spec; [apply HI2 | | done |].
  { unfold WC_UDS_MAX_QUEUED_REQUESTS, SIZE_MAX in *. lia. }
  intros r' rs' l n q' h [= <- <-] Hn Hnn Hl Hq'. wp_go. simpl. wp_go.
  eapply wp_load_node; [apply lookup_insert_eq|].
  eapply answer_slot_spec; [exact HI2 | exact Hi | done | done | exact Hc | done | exact Hrok | exact Hn
    | exact Hl | exact Hq' |].
  intros clients3 queue3 rs3 m3 Hw3 Hlen Hstep HI3.
  exists (length rs3). split; [simpl; lia|]. exists rs3.
  split_and!; [done | by etrans | by eapply rtc_r | done].
Qed.

(** ** Events of one client *)

(** Fuel left for retries after the longest response. *)
Definition OUTPUT_ROOM : nat := Z.to_nat WC_UDS_OUTPUT_LIMIT.

Lemma enough_less t fuel k (w : W) : enough t (fuel - k) w → enough t fuel w.
Proof. intros He. eapply enough_mono; [done | reflexivity | lia]. Qed.

Lemma decoded_slot_step listener clients queue rs m i c chunks ds c' q' m' more outb :
  server_inv listener clients queue rs m → clients !! i = Some c → uc_fd c ≠ -1 →
  decoded c rs m chunks ds c' q' m' → client_repr c' more outb →
  Forall (λ x, request_ok x.1 x.2) ds →
  slot_step clients c rs m c' q' (rs ++ (to_qreq (uc_fd c) <$> ds)) m'.
Proof.
  intros HI Hi Hne [] Hc Hds. constructor; try done.
  - by exists more, outb.
  - rewrite zlen_app, length_fmap. lia.
  - apply Forall_app. split; [apply HI|]. apply Forall_fmap.
    eapply Forall_impl; [done|]. intros [ty arg] Hok. split; [|done]. simpl.
    apply active_fds_in. split; [done|]. exists c. split; [|done].
    by eapply list_elem_of_lookup_2.
  - rewrite zlen_app, length_fmap. lia.
Qed.

(** What was received and decoded, and what was sent, in the abstract server. *)
Lemma decoded_past listener clients queue rs m i c chunks ds c' q' m' inb outb later rest :
  server_inv listener clients queue rs m → clients !! i = Some c → uc_fd c ≠ -1 →
  client_repr c inb outb → decoded c rs m chunks ds c' q' m' →
  spec_frames (inb ++ mjoin chunks) = (ds ++ later, rest) →
  ∃ more, spec_frames more = (later, rest) ∧
    past tr0 (<[uc_fd c := (more, outb)]> (conns_of clients))
      (rs ++ (to_qreq (uc_fd c) <$> ds)) (m_trace m').
Proof.
  intros HI Hi Hne Hc Hd Hsf. rewrite (dc_trace _ _ _ _ _ _ _ _ Hd).
  pose proof (conns_of_lookup _ _ _ Hi (inv_nodup _ _ _ _ _ HI) Hne) as Hio.
  rewrite (client_repr_io _ _ _ Hc) in Hio.
  pose proof (si_past _ _ _ _ _ _ _ _ HI) as Hp. rewrite <-(insert_id _ _ _ Hio) in Hp.
  apply (past_recv _ _ _ _ _ _ _ chunks) in Hp. by apply (past_decode _ _ _ _ _ _ _ ds later rest) in Hp as (more & ? & ?);
    [exists more|].
Qed.

Lemma slot_step_sent listener clients queue rs m i c c1 q1 rs1 m1 chunks c2 m2 inb outb :
  server_inv listener clients queue rs m → clients !! i = Some c →
  slot_step clients c rs m c1 q1 rs1 m1 → sent c1 m1 chunks c2 m2 →
  client_repr c2 inb outb → slot_step clients c rs m c2 q1 rs1 m2.
Proof.
  intros HI Hi [] [Hk Ho Ht Hf Hin Hl] Hc. constructor; try done; try congruence; try lia.
  - etrans; [done | by apply kept_world].
  - by exists inb, outb.
  - eapply queue_at_same; [done | apply Hk..].
Qed.

(** The part of the handler after reading. *)
Lemma handle_rest_spec t fuel listener clients queue rs i c c1 q1 rs1 inb outb events
    (Q : wc_uds_client * wc_request_queue → machine W → Prop) m m1 :
  server_inv listener clients queue rs m → clients !! i = Some c → uc_fd c ≠ -1 →
  slot_step clients c rs m c1 q1 rs1 m1 → client_repr c1 inb outb →
  spec_parse_request inb = PNeedMore →
  past tr0 (<[uc_fd c := (inb, outb)]> (conns_of clients)) rs1 (m_trace m1) →
  enough t (fuel - OUTPUT_ROOM) (m_os m1) →
  (∀ c' queue' rs' m', world m m' →
     server_inv listener (<[i := c']> clients) queue' rs' m' → Q (c', queue') m') →
  wp t ('(r, client) ←
          (if has_event events POLLOUT then wc_uds_write_client fuel c1
           else mret (0, c1));
        if r =? -1 then
          '(client, queue) ← wc_uds_remove_client (Some client) q1;
          client ← from_option_ub client;
          mret (client, queue)
        else if has_event events (Z.lor POLLERR (Z.lor POLLHUP POLLNVAL)) then
          '(client, queue) ← wc_uds_remove_client (Some client) q1;
          client ← from_option_ub client;
          mret (client, queue)
        else mret (client, q1)) Q m1.
Proof.
  intros HI Hi Hne Hss Hc1 Hneed Hpast Hfuel HQ.
  assert (∀ r c2 m2 outb2, (r = 0 ∨ r = -1) → slot_step clients c rs m c2 q1 rs1 m2 →
    client_repr c2 inb outb2 →
    past tr0 (<[uc_fd c := (inb, outb2)]> (conns_of clients)) rs1 (m_trace m2) → wp t
      (if r =? -1 then
        '(client, queue) ← wc_uds_remove_client (Some c2) q1;
        client ← from_option_ub client;
        mret (client, queue)
       else if has_event events (Z.lor POLLERR (Z.lor POLLHUP POLLNVAL)) then
        '(client, queue) ← wc_uds_remove_client (Some c2) q1;
        client ← from_option_ub client;
        mret (client, queue)
       else mret (c2, q1)) Q m2) as Hrest.
  { intros r c2 m2 outb2 Hr Hss2 Hc2 Hpast2.
    assert (wp t ('(client, queue) ← wc_uds_remove_client (Some c2) q1;
      client ← from_option_ub client; mret (client, queue)) Q m2) as Hremove.
    { apply wp_bind. eapply remove_slot_spec; [done..| by eapply past_close |].
      intros c' q' m' Hw _ _ HI'. wp_go. by eapply HQ. }
    case_if; [done|]. case_if; [done|]. wp_go. eapply HQ; [apply Hss2|].
    eapply inv_update; [done..| |]; [right; eauto|]. by rewrite (client_repr_io _ _ _ Hc2). }
  destruct (has_event events POLLOUT); apply wp_bind.
  - eapply write_client_spec; [exact Hc1 | |].
    + eapply enough_mono; [exact Hfuel | reflexivity |].
      pose proof (br_fits _ _ (cl_output _ _ _ Hc1)).
      pose proof (br_capacity _ _ (cl_output _ _ _ Hc1)).
      pose proof (cl_output_max _ _ _ Hc1). unfold OUTPUT_ROOM. lia.
    + intros r chunks rest c2 m2 Hr Hsent Hc2 ->. cbn beta iota.
      eapply Hrest; [done | by eapply slot_step_sent | done |].
      rewrite (st_trace _ _ _ _ _ Hsent), (ss_fd _ _ _ _ _ _ _ _ Hss). by apply past_send.
  - wp_go. by eapply (Hrest 0); [left|..].
Qed.

Lemma handle_events_spec t fuel listener clients queue rs i c events
    (Q : wc_uds_client * wc_request_queue → machine W → Prop) m :
  server_inv listener clients queue rs m → clients !! i = Some c →
  enough t (fuel - OUTPUT_ROOM) (m_os m) →
  (∀ c' queue' rs' m', world m m' →
     server_inv listener (<[i := c']> clients) queue' rs' m' → Q (c', queue') m') →
  wp t (wc_uds_handle_events fuel c events queue) Q m.
Proof.
  intros HI Hi Hfuel HQ. unfold wc_uds_handle_events. case_if as Hne; wp_go.
  { eapply HQ; [reflexivity|]. by rewrite list_insert_id. }
  assert (client_ok c) as Hok by (eapply Forall_lookup_1; [apply HI | done]).
  destruct (client_ok_repr c Hok Hne) as (inb & outb & Hc & Hneed).
  destruct (has_event events POLLIN).
  - eapply read_client_spec; [exact Hc | done | apply HI | apply HI | by eapply enough_less |..].
    + intros chunks ds rest c' q' m' Hd Hc' Hsf Hneed'. cbn beta iota. simpl.
      eapply handle_rest_spec; [exact HI | done | done | | exact Hc' | done | | | done].
      * eapply decoded_slot_step; [done..|]. by eapply spec_frames_ok.
      * destruct (decoded_past _ _ _ _ _ _ _ _ _ _ _ _ _ _ [] rest HI Hi Hne Hc Hd) as (more & Hm & Hp);
          [by rewrite app_nil_r|].
        by apply spec_frames_none in Hm as ->.
      * eapply enough_mono; [done | apply Hd | done].
    + intros chunks ds later more c' q' m' Hd Hc' Hsf. cbn beta iota. simpl.
      destruct (spec_frames (inb ++ mjoin chunks)) as [all rest] eqn:Hall. simpl in Hsf.
      rewrite Hsf in Hall. pose proof (spec_frames_ok _ _ _ Hall) as [Hds _]%Forall_app.
      wp_go. eapply remove_slot_spec; [exact HI | done | done | | |].
      * by eapply decoded_slot_step.
      * edestruct decoded_past as (more' & _ & Hp); [exact HI | exact Hi | exact Hne | exact Hc
          | exact Hd | exact Hall |]. by eapply past_close.
      * intros c2 q2 m2 Hw2 _ _ HI2. wp_go. by eapply HQ.
  - wp_go. eapply handle_rest_spec; [exact HI | done | done | | exact Hc | done | | done | done].
    + by eapply slot_step_refl.
    + rewrite insert_id; [apply HI|]. rewrite <-(client_repr_io _ _ _ Hc).
      eapply conns_of_lookup; [done | by eapply inv_nodup | done].
Qed.

Lemma poll_loop_spec t fuel listener ready clients queue rs
    (Q : list wc_uds_client * wc_request_queue → machine W → Prop) m :
  server_inv listener clients queue rs m →
  Forall (λ x : nat * Z, (x.1 < length clients)%nat) ready →
  enough t (fuel - OUTPUT_ROOM) (m_os m) →
  (∀ clients' queue' rs' m', world m m' →
     server_inv listener clients' queue' rs' m' → Q (clients', queue') m') →
  wp t (wc_uds_poll_loop fuel ready clients queue) Q m.
Proof.
  revert clients queue rs m.
  induction ready as [|[i events] ready IH]; intros clients queue rs m HI Hlt Hfuel HQ; simpl.
  { wp_go. by eapply HQ. }
  apply Forall_cons in Hlt as [Hi Hlt]. simpl in Hi.
  destruct (lookup_lt_is_Some_2 clients i Hi) as [c Hc]. wp_go.
  eapply handle_events_spec; [exact HI | done | done |].
  intros c' queue' rs' m' Hw HI'. cbn beta iota.
  eapply IH; [exact HI' | by rewrite length_insert | |].
  - eapply enough_mono; [done | apply Hw | done].
  - intros clients2 queue2 rs2 m2 Hw2 HI2. eapply HQ; [by etrans | done].
Qed.

(** ** Accepting connections *)

Lemma free_slot_find clients :
  wc_uds_has_free_client_slot clients = true →
  ∃ i c, list_find (λ c, uc_fd c = -1) clients = Some (i, c) ∧ clients !! i = Some c ∧
    uc_fd c = -1.
Proof.
  unfold wc_uds_has_free_client_slot. rewrite existsb_exists.
  intros (c0 & Hin%list_elem_of_In & Hc0%Z.eqb_eq).
  destruct (list_find_elem_of (λ c, uc_fd c = -1) clients c0 Hin Hc0) as [[i c] Hf].
  exists i, c. apply list_find_Some in Hf as Hf'. naive_solver.
Qed.

Lemma add_client_spec t listener clients queue rs m0 m fd
    (Q : Z * list wc_uds_client → machine W → Prop) :
  server_inv listener clients queue rs m0 → wc_uds_has_free_client_slot clients = true →
  0 ≤ fd → (fd ∉ m_open m0) → m_open m = {[fd]} ∪ m_open m0 →
  queue_at m queue rs → m_live m = m_live m0 →
  past tr0 (<[fd := ([], [])]> (conns_of clients)) rs (m_trace m) →
  (∀ clients' m', logged m m' → server_inv listener clients' queue rs m' →
     Q (0, clients') m') →
  wp t (wc_uds_add_client clients fd) Q m.
Proof.
  intros HI Hfree Hpos Hfresh Ho Hq Hl Hpast HQ. unfold wc_uds_add_client.
  destruct (free_slot_find _ Hfree) as (i & c & -> & Hi & Hc). wp_go.
  apply wc_buffer_init_spec; [done|]. intros bin Hbin Hbm Hbo. cbn beta iota. simpl. wp_go.
  apply wc_buffer_init_spec; [done|]. intros bout Hbout Hbm' Hbo'. cbn beta iota. simpl. wp_go.
  apply wp_log; [log_ok|]. intros m' Hlg. wp_go. apply HQ; [done|].
  eapply (inv_add _ _ _ _ _ _ _ m0 m); [done..| | |done| | | |]; simpl.
  - right. exists [], []. by split.
  - unfold bufs_owned. simpl. lia.
  - apply Hlg.
  - eapply queue_at_same; [done | apply Hlg..].
  - rewrite (lg_live _ _ Hlg). done.
  - rewrite (lg_trace _ _ Hlg). unfold client_io. simpl.
    by rewrite (buffer_repr_contents _ _ Hbin), (buffer_repr_contents _ _ Hbout).
Qed.

(** A rejected connection leaves no trace in the table. *)
Lemma reject_spec t listener clients queue rs m0 m fd e
    (Q : list wc_uds_client + list wc_uds_client → machine W → Prop) :
  server_inv listener clients queue rs m0 → (fd ∉ m_open m0) →
  m_open m = {[fd]} ∪ m_open m0 → kept m0 m → m_live m = m_live m0 →
  m_trace m = m_trace m0 ++ [EvAccept fd] →
  (∀ m', world m m' → server_inv listener clients queue rs m' → Q (Continue clients) m') →
  wp t (_ ← sys_close fd;
        wc_log WC_LOG_WARN "server" "client_rejected" (Some "errno=%d"%string) [LInt e] ;;
        mret (Continue clients)) Q m.
Proof.
  intros HI Hfresh Ho Hk Hl Ht HQ. wp_call wp_sys_close; [set_solver|].
  intros r m1 Hf1 Ho1 Ht1. wp_go. apply wp_log; [log_ok|]. intros m2 Hlg. wp_go.
  pose proof (cf_kept _ _ Hf1) as Hk1. apply HQ.
  - etrans; [by apply kept_world | by apply logged_world].
  - eapply inv_same; [exact HI|..].
    + rewrite (lg_open _ _ Hlg), Ho1, Ho. set_solver.
    + rewrite (lg_heap _ _ Hlg), (kept_heap _ _ Hk1). apply Hk.
    + rewrite (lg_next _ _ Hlg), (kept_next _ _ Hk1). apply Hk.
    + rewrite (lg_live _ _ Hlg), (cf_live _ _ Hf1). done.
    + destruct (inv_unconnected _ _ _ _ _ _ _ _ _ HI Hfresh) as [Hno Hreqs].
      rewrite (lg_trace _ _ Hlg), Ht1, Ht. rewrite <-(delete_id _ _ Hno), <-Hreqs.
      eapply past_close, past_step; [apply HI | by apply uds_accept].
Qed.

Lemma accept_clients_spec t fuel listener clients queue rs
    (Q : list wc_uds_client → machine W → Prop) m :
  server_inv listener clients queue rs m → enough t fuel (m_os m) →
  (∀ clients' m', world m m' → server_inv listener clients' queue rs m' → Q clients' m') →
  wp t (wc_uds_accept_clients fuel listener clients) Q m.
Proof.
  intros HI Hfuel HQ. unfold wc_uds_accept_clients.
  apply (wp_iter_enough _ _ (λ clients1 m1, world m m1 ∧
    server_inv listener clients1 queue rs m1) (λ _, 0%nat));
    [|by split|by rewrite Nat.sub_0_r].
  intros clients1 m1 [Hw1 HI1].
  destruct (wc_uds_has_free_client_slot clients1) eqn:Hfree; simpl; [|wp_go; by eapply HQ].
  wp_call wp_sys_accept.
  2:{ intros m2 Hf2 Hintr. simpl. wp_go. apply (inv_call0 _ _ _ _ _ _ _ _ _ HI1) in Hf2 as HI2.
      assert (world m m2) by (etrans; [done | by apply call_frame0_world]).
      case_if as He; wp_go; [by split; [|right; auto]|].
      case_if; wp_go; [|by eapply HQ].
      apply wp_log; [log_ok|]. intros m3 Hlg. wp_go. eapply HQ; [|by eapply inv_logged].
      etrans; [done | by apply logged_world]. }
  intros fd m2 Hpos Hfresh Hf2 Ho2 Ht2 Hspent.
  rewrite (proj2 (Z.eqb_neq fd (-1))) by lia.
  pose proof (cf_kept _ _ Hf2) as Hk2. pose proof (cf_live _ _ Hf2) as Hl2.
  wp_go. apply wc_socket_set_nonblocking_spec; [by eapply enough_mono; [exact Hfuel | |]; [etrans; [apply Hw1 | apply Hk2]|]|..].
  - intros m3 Hf3 Ho3 Hnb. simpl. wp_go.
    pose proof (cf_kept _ _ Hf3) as Hk3. pose proof (cf_live _ _ Hf3) as Hl3.
    assert (kept m1 m3) as Hk13 by (by etrans).
    eapply add_client_spec; [exact HI1 | done | done | done | congruence | | congruence | |].
    { eapply queue_at_same; [apply HI1 | apply Hk13..]. }
    { rewrite Ht2 in Hnb. eapply past_nonblocking, Hnb. eapply past_step; [apply HI1|].
      by apply uds_accept, (inv_unconnected _ _ _ _ _ _ _ _ _ HI1). }
    intros clients4 m4 Hlg4 HI4. cbn beta iota. simpl. wp_go.
    apply wp_log; [log_ok|]. intros m5 Hlg5. wp_go.
    assert (logged m3 m5) as Hlg by (by etrans).
    split; [split; [|by eapply inv_logged]|right; split; [|lia]].
    + etrans; [exact Hw1|]. etrans; [by apply kept_world | by apply logged_world].
    + eapply os_spent_mono; [exact Hspent|]. etrans; [apply Hk3 | apply Hlg].
  - intros m3 [Hf3 Ho3 Ht3]. simpl. wp_go. simpl. apply wp_bind, wp_gets.
    pose proof (cf_kept _ _ Hf3) as Hk3. pose proof (cf_live _ _ Hf3) as Hl3.
    assert (kept m1 m3) as Hk13 by (by etrans).
    eapply reject_spec; [exact HI1 | done | congruence | done | congruence | congruence |].
    intros m4 Hw4 HI4. split; [split; [|done]|right; split; [|lia]].
    + etrans; [exact Hw1|]. etrans; [by apply kept_world | done].
    + eapply os_spent_mono; [exact Hspent|]. etrans; [apply Hk3 | apply Hw4].
Qed.

(** ** One round of the event loop *)

Lemma used_slots_bound clients :
  Forall (λ x : nat * wc_uds_client, (x.1 < length clients)%nat) (used_slots clients).
Proof.
  unfold used_slots. apply Forall_forall. intros [i c] [_ Hin]%list_elem_of_filter.
  apply elem_of_lookup_imap in Hin as (j & x & [= -> ->] & Hx). simpl.
  by apply lookup_lt_Some in Hx.
Qed.

Lemma zip_bound {A} (ixs : list nat) (es : list A) n :
  Forall (λ i, (i < n)%nat) ixs → Forall (λ x, (x.1 < n)%nat) (zip ixs es).
Proof.
  revert es. induction ixs as [|i ixs IH]; intros [|e es]; simpl; try done.
  intros [Hi His]%Forall_cons. constructor; [done | by apply IH].
Qed.

Lemma build_poll_list_spec t listener clients
    (Q : list (Z * Z) * list nat → machine W → Prop) m :
  (∀ ds ixs m', logged m m' → ds ≠ [] → length ds = S (length ixs) →
     Forall (λ i, (i < length clients)%nat) ixs → Q (ds, ixs) m') →
  wp t (wc_uds_build_poll_list listener clients) Q m.
Proof.
  intros HQ. unfold wc_uds_build_poll_list. apply wp_bind, wp_log; [log_ok|].
  intros m' Hlg. wp_go. apply HQ; try done.
  - simpl. by rewrite !length_fmap.
  - apply Forall_fmap. apply used_slots_bound.
Qed.

Lemma round_spec t fuel listener clients queue rs
    (Q : (list wc_uds_client * wc_request_queue) +
         (Z * list wc_uds_client * wc_request_queue) → machine W → Prop) m :
  server_inv listener clients queue rs m → enough t (fuel - OUTPUT_ROOM) (m_os m) →
  (∀ clients' queue' rs' m', world m m' → os_spent (m_os m) (m_os m') →
     server_inv listener clients' queue' rs' m' → Q (Continue (clients', queue')) m') →
  (∀ r clients' queue' rs' m', (r = 0 ∨ r = -1) → world m m' →
     server_inv listener clients' queue' rs' m' → Q (Break (r, clients', queue')) m') →
  wp t (wc_uds_round fuel listener clients queue) Q m.
Proof.
  intros HI Hfuel Hcont Hbreak. unfold wc_uds_round.
  wp_call wp_stop_requested. intros stop m1 Hf1 _ Hspent.
  apply (inv_call0 _ _ _ _ _ _ _ _ _ HI) in Hf1 as HI1. apply call_frame0_world in Hf1 as Hw1.
  destruct stop; [wp_go; eapply Hbreak; eauto|]. specialize (Hspent eq_refl).
  wp_go. eapply process_queue_spec; [exact HI1|].
  intros clients2 queue2 rs2 m2 Hw2 _ _ HI2. cbn beta iota. wp_go.
  apply build_poll_list_spec. intros ds ixs m3 Hlg3 Hds Hlen His. cbn beta iota.
  apply (inv_logged _ _ _ _ _ _ _ _ _ HI2) in Hlg3 as HI3.
  wp_call wp_sys_poll. intros k revents m4 Hrev Hf4.
  apply (inv_call0 _ _ _ _ _ _ _ _ _ HI3) in Hf4 as HI4.
  assert (world m1 m4) as Hw14.
  { etrans; [done|]. etrans; [by apply logged_world | by apply call_frame0_world]. }
  assert (world m m4) as Hw4 by (by etrans).
  assert (∀ m', world m4 m' → os_spent (m_os m) (m_os m')) as Hsp.
  { intros m' Hw'. eapply os_spent_mono; [done|]. etrans; [apply Hw14 | apply Hw']. }
  cbn beta iota. case_if as Hk.
  { wp_go. case_if; wp_go; [eapply Hcont; eauto; by apply Hsp | eapply Hbreak; eauto]. }
  destruct revents as [|lev revents]; [simpl in Hrev; lia|]. simpl. wp_go.
  case_if as Herr.
  { wp_go. eapply Hbreak; [by right | |by eapply inv_same; [..|apply HI4]].
    etrans; [done | apply errno_world]. }
  wp_go. eapply poll_loop_spec; [exact HI4 | by apply zip_bound | |].
  { eapply enough_mono; [exact Hfuel | apply Hw4 | done]. }
  intros clients5 queue5 rs5 m5 Hw5 HI5. cbn beta iota.
  destruct (has_event lev POLLIN); wp_go.
  - eapply accept_clients_spec; [exact HI5 | |].
    + eapply enough_mono; [by eapply enough_less; exact Hfuel | | done].
      etrans; [apply Hw4 | apply Hw5].
    + intros clients6 m6 Hw6 HI6. wp_go. eapply Hcont; [| |done].
      * etrans; [done|]. by etrans.
      * apply Hsp. by etrans.
  - eapply Hcont; [by etrans | by apply Hsp | done].
Qed.

(** ** Shutdown *)

Lemma close_loop_spec t listener queue done rest rs
    (Q : list wc_uds_client * wc_request_queue → machine W → Prop) m :
  server_inv listener (done ++ rest) queue rs m →
  (∀ rest' queue' rs' m', world m m' → Forall (λ c, uc_fd c = -1) rest' →
     server_inv listener (done ++ rest') queue' rs' m' → Q (rest', queue') m') →
  wp t (wc_uds_close_loop rest queue) Q m.
Proof.
  revert queue done rs Q m.
  induction rest as [|c rest IH]; intros queue done rs Q m HI HQ; simpl.
  { wp_go. by eapply HQ. }
  assert ((done ++ c :: rest) !! length done = Some c) as Hi by (by apply list_lookup_middle).
  assert (∀ c' q' rs' m', world m m' → uc_fd c' = -1 →
    server_inv listener (done ++ c' :: rest) q' rs' m' →
    wp t ('(clients, queue) ← wc_uds_close_loop rest q'; mret (c' :: clients, queue)) Q m') as Hnext.
  { intros c' q' rs' m' Hw Hc' HI'. apply wp_bind.
    eapply (IH _ (done ++ [c'])); [rewrite <-app_assoc; exact HI'|].
    intros rest2 q2 rs2 m2 Hw2 Hfree2 HI2. wp_go. eapply HQ; [by etrans | by constructor |].
    by rewrite <-app_assoc in HI2. }
  destruct (decide (uc_fd c = -1)) as [Hfree|Hne].
  - apply wp_bind. unfold wc_uds_remove_client. rewrite Hfree. simpl.
    apply wp_ret. apply wp_bind, wp_ret. by eapply Hnext.
  - apply wp_bind. eapply remove_slot_spec; [exact HI | exact Hi | done | by eapply slot_step_refl | |].
    { eapply (past_close _ _ _ _ _ (client_io c)). rewrite insert_id; [apply HI|].
      eapply conns_of_lookup; [exact Hi | by eapply inv_nodup | done]. }
    intros c' q' m' Hw Hfd _ HI'. rewrite insert_app_r_alt, Nat.sub_diag in HI' by lia.
    apply wp_bind, wp_ret. by eapply Hnext.
Qed.

Lemma all_free clients :
  Forall (λ c, uc_fd c = -1) clients →
  active_fds clients = [] ∧ table_owned clients = 0 ∧ conns_of clients = ∅.
Proof.
  induction 1 as [|c l Hc _ (IH1 & IH2 & IH3)]; [done|]. rewrite active_fds_cons, decide_True by done.
  split_and!; [done| |simpl; by rewrite decide_True].
  change (slot_owned c + table_owned l = 0). unfold slot_owned. by rewrite Hc, IH2.
Qed.

(** Everything the server acquired has been released. *)
Record released m : Prop := {
  rl_open : m_open m = base;
  rl_live : m_live m = live0;
  rl_heap : m_heap m = ∅;
}.

Lemma shutdown_spec t path listener result clients queue rs (Q : Z → machine W → Prop) m :
  server_inv listener clients queue rs m → (result = 0 ∨ result = -1) →
  (∀ r m', world m m' → released m' → (r = 0 ∨ r = -1) →
     (∃ tr, past tr0 ∅ [] tr ∧ m_trace m' = tr ++ [EvClose listener]) → (result = -1 → r = -1) →
     (r = -1 → result = -1 → m_errno m' = m_errno m) → Q r m') →
  wp t (wc_uds_shutdown path listener result clients queue) Q m.
Proof.
  intros HI Hres HQ. unfold wc_uds_shutdown, wc_uds_close_all_clients. wp_go.
  apply wp_log; [log_ok|]. intros m1 Hlg1. apply (inv_logged _ _ _ _ _ _ _ _ _ HI) in Hlg1 as HI1.
  eapply (close_loop_spec _ _ _ [] clients); [exact HI1|].
  intros clients2 queue2 rs2 m2 Hw2 Hfree HI2. simpl in HI2. cbn beta iota.
  destruct (all_free _ Hfree) as (Hfds & Hown & Hcs).
  assert (rs2 = []) as ->.
  { pose proof (si_reqs _ _ _ _ _ _ _ _ HI2) as Hr. destruct rs2 as [|r rs2]; [done|].
    apply Forall_cons in Hr as [[Hin _] _]. rewrite Hfds in Hin. by apply not_elem_of_nil in Hin. }
  wp_go. apply wp_partial. eapply clear_spec; [apply HI2 | done |].
  intros m3 Hh3 He3 Hl3 Hheap3. simpl in Hl3.
  pose proof (si_open _ _ _ _ _ _ _ _ HI2) as Ho2. rewrite Hfds in Ho2. simpl in Ho2.
  pose proof (si_fresh _ _ _ _ _ _ _ _ HI2 listener ltac:(left)) as Hlb.
  wp_call wp_sys_close; [rewrite (ho_open _ _ Hh3), Ho2; set_solver|].
  intros r4 m4 Hf4 Ho4 Ht4. wp_go.
  destruct (if (r4 =? -1) && (result =? 0) then _ else _) as [e4 res4] eqn:H4.
  assert ((res4 = 0 ∨ res4 = -1) ∧ (result = -1 → res4 = -1 ∧ e4 = m_errno m)) as [Hr4 Hk4].
  { revert H4. case_if; intros [= <- <-]; [|done]. split; [by right|lia]. }
  wp_call wp_sys_unlink. intros r5 m5 Hf5. wp_go.
  destruct (if (r5 =? -1) && _ && (res4 =? 0) then _ else _) as [e5 res5] eqn:H5.
  assert ((res5 = 0 ∨ res5 = -1) ∧ (res4 = -1 → res5 = -1 ∧ e5 = e4)) as [Hr5 Hk5].
  { revert H5. case_if; intros [= <- <-]; [|done]. split; [by right|lia]. }
  wp_go. apply wp_log; [log_ok|]. intros m6 Hlg6. wp_go.
  pose proof (cf_kept _ _ Hf4) as Hk. pose proof (cf0_frame _ _ Hf5) as [Hk0 Hl5 _].
  apply HQ; simpl.
  - etrans; [by apply logged_world|]. etrans; [done|]. etrans; [by apply heap_only_world|].
    etrans; [by apply call_frame_world|]. etrans; [by apply call_frame0_world|].
    etrans; [by apply logged_world | apply errno_world].
  - constructor; simpl.
    + rewrite (lg_open _ _ Hlg6), (cf0_open _ _ Hf5), Ho4, (ho_open _ _ Hh3), Ho2. set_solver.
    + rewrite (lg_live _ _ Hlg6), Hl5, (cf_live _ _ Hf4), Hl3.
      rewrite (si_live _ _ _ _ _ _ _ _ HI2), Hown. simpl. lia.
    + rewrite (lg_heap _ _ Hlg6), (kept_heap _ _ Hk0), (kept_heap _ _ Hk). done.
  - done.
  - exists (m_trace m2). split; [rewrite <-Hcs; apply HI2|].
    by rewrite (lg_trace _ _ Hlg6), (cf0_trace _ _ Hf5), Ht4, (ho_trace _ _ Hh3).
  - naive_solver.
  - naive_solver.
Qed.

(** ** The whole server *)

Lemma run_loop_spec t fuel listener clients queue rs
    (Q : Z * list wc_uds_client * wc_request_queue → machine W → Prop) m :
  server_inv listener clients queue rs m → enough t (fuel - OUTPUT_ROOM) (m_os m) →
  (∀ r clients' queue' rs' m', (r = 0 ∨ r = -1) → world m m' →
     server_inv listener clients' queue' rs' m' → Q (r, clients', queue') m') →
  wp t (iter fuel (λ '(clients, queue), wc_uds_round fuel listener clients queue)
          (clients, queue)) Q m.
Proof.
  intros HI Hfuel HQ.
  apply (wp_iter_enough _ _ (λ '(clients1, queue1) m1, ∃ rs1, world m m1 ∧
    server_inv listener clients1 queue1 rs1 m1) (λ _, 0%nat));
    [|by exists rs | rewrite Nat.sub_0_r; by eapply enough_less].
  intros [clients1 queue1] m1 (rs1 & Hw1 & HI1).
  eapply round_spec; [exact HI1 | by eapply enough_mono; [| apply Hw1|] | |].
  - intros clients2 queue2 rs2 m2 Hw2 Hsp HI2. split; [|by right].
    exists rs2. split; [by etrans | done].
  - intros r clients2 queue2 rs2 m2 Hr Hw2 HI2. eapply HQ; [done | by etrans | done].
Qed.

End loop.

(** ** Opening the listener and the whole run *)

Section run.
Context {W : Type} {OS : Posix W} `{!PosixLaws W}.
Implicit Types (m : machine W) (t : bool).

Lemma init_inv clients listener m0 m :
  zlen clients = WC_UDS_MAX_CLIENTS → Forall (λ c, uc_fd c = -1) clients →
  (listener ∉ m_open m0) → m_open m = {[listener]} ∪ m_open m0 →
  m_heap m = ∅ → m_live m = m_live m0 →
  server_inv (m_open m0) (m_live m0) (m_trace m) listener clients (WcRequestQueue None None 0) [] m.
Proof.
  intros Hlen Hfree Hfresh Ho Hh Hl. destruct (all_free _ Hfree) as (Hfds & Hown & Hcs).
  constructor; rewrite ?Hfds, ?Hown, ?Hcs; try done.
  - eapply Forall_impl; [done|]. intros c Hc. by left.
  - apply NoDup_singleton.
  - by intros fd ->%list_elem_of_singleton.
  - rewrite Ho. simpl. set_solver.
  - unfold queue_at. rewrite Hh. apply queue_empty_repr.
  - simpl. lia.
  - apply rtc_refl.
Qed.

(** The events of a whole run: those of a run of the abstract server from no
    connection to no connection, between events that transfer nothing. *)
Definition uds_run (tr tr' : list event) : Prop :=
  ∃ tr1 tr2, quietly tr tr1 ∧ past tr1 ∅ [] tr2 ∧ quietly tr2 tr'.

Lemma uds_run_quietly tr tr' : quietly tr tr' → uds_run tr tr'.
Proof. intros Hq. exists tr', tr'. split_and!; [done | apply rtc_refl | done]. Qed.

Lemma server_uds_run_spec t fuel clients0 path stop (Q : Z → machine W → Prop) m :
  zlen clients0 = WC_UDS_MAX_CLIENTS → m_heap m = ∅ →
  enough t (fuel - OUTPUT_ROOM) (m_os m) →
  (∀ r m', world m m' → released (m_open m) (m_live m) m' → (r = 0 ∨ r = -1) →
     uds_run (m_trace m) (m_trace m') → Q r m') →
  wp t (wc_server_uds_run fuel clients0 path stop) Q m.
Proof.
  intros Hlen Hheap Hfuel HQ. unfold wc_server_uds_run.
  destruct stop; [|wp_go; apply HQ; [apply errno_world | by constructor | by right | by apply uds_run_quietly]].
  unfold wc_uds_clients_init. wp_go. apply wp_log; [log_ok|]. intros m1 Hlg1. wp_go.
  unfold wc_request_queue_init. wp_go. simpl. wp_go.
  set (clients := (λ c, set_fd c (-1)) <$> clients0).
  assert (Forall (λ c, uc_fd c = -1) clients) as Hfree
    by (apply Forall_fmap, Forall_true; done).
  assert (zlen clients = WC_UDS_MAX_CLIENTS) as Hlen' by (unfold clients; by rewrite length_fmap).
  apply open_unix_listener_spec; [by intros; log_ok|..].
  { eapply enough_mono; [by eapply enough_less | apply Hlg1 | done]. }
  { intros m2 Hk2 Ho2 Hl2 Hq2. simpl. wp_go.
    apply HQ; [|constructor|by right|apply uds_run_quietly; by rewrite <-(lg_trace _ _ Hlg1)].
    - etrans; [by apply logged_world | by apply kept_world].
    - rewrite Ho2. apply Hlg1.
    - rewrite Hl2. apply Hlg1.
    - rewrite (kept_heap _ _ Hk2), (lg_heap _ _ Hlg1). done. }
  intros fd m2 [p ->] Hpos Hfresh Hk2 Ho2 Hl2 Hq2.
  rewrite (proj2 (Z.eqb_neq fd (-1))) by lia. wp_go.
  apply wp_log; [log_ok|]. intros m3 Hlg3. wp_go.
  assert (world m m3) as Hw3.
  { etrans; [by apply logged_world|]. etrans; [by apply kept_world | by apply logged_world]. }
  assert (server_inv (m_open m) (m_live m) (m_trace m3) fd clients (WcRequestQueue None None 0) [] m3) as HI.
  { apply init_inv; try done.
    - by rewrite <-(lg_open _ _ Hlg1).
    - rewrite (lg_open _ _ Hlg3), Ho2. by rewrite (lg_open _ _ Hlg1).
    - rewrite (lg_heap _ _ Hlg3), (kept_heap _ _ Hk2), (lg_heap _ _ Hlg1). done.
    - rewrite (lg_live _ _ Hlg3), Hl2. apply Hlg1. }
  eapply run_loop_spec; [exact HI | |].
  { eapply enough_mono; [done | apply Hw3 | done]. }
  intros r clients4 queue4 rs4 m4 Hr Hw4 HI4. cbn beta iota.
  eapply shutdown_spec; [exact HI4 | done |].
  intros r5 m5 Hw5 Hrel Hr5 (tr & Hpast & Htr) _ _. apply HQ; [etrans; [done|]; by etrans | done | done |].
  exists (m_trace m3), tr. split_and!; [|done|rewrite Htr; apply quietly_close].
  by rewrite (lg_trace _ _ Hlg3), <-(lg_trace _ _ Hlg1).
Qed.

End run.
