(* ===== verification/ServerUdsProps.v ===== *)
(** * The single-threaded server: properties

    What the handlers and the event loop of server_uds.c guarantee, stated on
    their results, and concrete runs against the scripted operating system. *)

From S2P Require Import Prelude Machine Script Buffer Protocol Queue SocketUtils Logging Commands Respond Listener ServerUds ServerUdsClient ServerUdsTable ServerUdsLoop.

Section properties.
Context {W : Type} {OS : Posix W} `{!PosixLaws W, !PosixFair W}.
Implicit Types (m : machine W).

(** C11: once a stop is requested, [wc_server_uds_run] returns, and whatever
    happened in between (clients that connect, send garbage, stall or vanish,
    interrupted and failing calls, allocation failures, children that fail)
    it gives everything back: the open descriptors are those from before the
    call, every heap block it allocated has been freed, and no access outside
    a block was made on the way. *)
Theorem wc_server_uds_run_releases fuel clients0 path stop m :
  zlen clients0 = WC_UDS_MAX_CLIENTS → m_heap m = ∅ →
  (os_budget (m_os m) + OUTPUT_ROOM < fuel)%nat →
  ∃ r m', wc_server_uds_run fuel clients0 path stop m = Ret r m' ∧
    (r = 0 ∨ r = -1) ∧ m_open m' = m_open m ∧ m_live m' = m_live m ∧ m_heap m' = ∅.
Proof.
  intros Hlen Hheap Hfuel.
  assert (wp true (wc_server_uds_run fuel clients0 path stop) (λ r m',
    (r = 0 ∨ r = -1) ∧ m_open m' = m_open m ∧ m_live m' = m_live m ∧ m_heap m' = ∅) m) as Hwp.
  { apply server_uds_run_spec; [done | done | apply enough_budget; lia |].
    intros r m' _ [] Hr _. by split_and!. }
  by apply wp_total_inv in Hwp as (r & m' & Hrun & Hpost); exists r, m'.
Qed.

(** C9: the whole run of the single-threaded server is a run of the abstract
    server. Between the events of opening and closing the listener, everything
    the process does (connections accepted and closed, bytes received and sent,
    children run) is a sequence of steps of [uds] that starts and ends without
    connections and pending requests: bytes are decoded into requests in the
    order they arrive, the oldest request is answered first and only when its
    client has taken its previous response, and what is sent is what is next of
    the responses. *)
Theorem wc_server_uds_run_refines fuel clients0 path stop m :
  zlen clients0 = WC_UDS_MAX_CLIENTS → m_heap m = ∅ →
  (os_budget (m_os m) + OUTPUT_ROOM < fuel)%nat →
  ∃ r m' tr1 tr2, wc_server_uds_run fuel clients0 path stop m = Ret r m' ∧
    quietly (m_trace m) tr1 ∧ rtc uds (∅, [], tr1) (∅, [], tr2) ∧ quietly tr2 (m_trace m').
Proof.
  intros Hlen Hheap Hfuel.
  assert (wp true (wc_server_uds_run fuel clients0 path stop) (λ _ m',
    uds_run (m_trace m) (m_trace m')) m) as Hwp.
  { apply server_uds_run_spec; [done | done | apply enough_budget; lia | done]. }
  apply wp_total_inv in Hwp as (r & m' & Hrun & tr1 & tr2 & Hpost). by exists r, m', tr1, tr2.
Qed.

(** C14: every round of the event loop, whatever poll() reports, returns and
    preserves the server's invariant: at most 64 clients, each with its own
    open descriptor and well-formed buffers that hold no complete request, at
    most 256 queued requests, all of them well formed and sent by a client
    that is still connected, and exactly the descriptors and heap blocks that
    this state accounts for. *)
Theorem wc_uds_round_keeps_invariant base live0 tr0 fuel listener clients queue rs m :
  server_inv base live0 tr0 listener clients queue rs m →
  (os_budget (m_os m) + OUTPUT_ROOM < fuel)%nat →
  ∃ out m', wc_uds_round fuel listener clients queue m = Ret out m' ∧
    match out with
    | Continue (clients', queue') | Break (_, clients', queue') =>
      ∃ rs', server_inv base live0 tr0 listener clients' queue' rs' m'
    end.
Proof.
  intros HI Hfuel.
  assert (wp true (wc_uds_round fuel listener clients queue) (λ out m',
    match out with
    | Continue (clients', queue') | Break (_, clients', queue') =>
      ∃ rs', server_inv base live0 tr0 listener clients' queue' rs' m'
    end) m) as Hwp.
  { eapply round_spec; [exact HI | apply enough_budget; lia | |]; eauto. }
  by apply wp_total_inv in Hwp as (out & m' & Hrun & Hpost); exists out, m'.
Qed.

(** C13: reading decodes exactly the byte stream. However the kernel splits the
    bytes, after a successful [wc_uds_read_client] the requests added to the
    queue are the frames of the undecoded input followed by everything
    received, in order and with this client's descriptor, and the input buffer
    holds the incomplete rest, so the buffer never fills up. When the client
    must be dropped, the requests added are a prefix of those frames. *)
Theorem wc_uds_read_client_decodes fuel c q inb outb rs m :
  client_repr c inb outb → spec_parse_request inb = PNeedMore → queue_at m q rs →
  zlen rs ≤ WC_UDS_MAX_QUEUED_REQUESTS → (os_budget (m_os m) < fuel)%nat →
  ∃ r c' q' m' chunks ds, wc_uds_read_client fuel c q m = Ret (r, c', q') m' ∧
    m_trace m' = m_trace m ++ (EvRecv (uc_fd c) <$> chunks) ∧
    queue_at m' q' (rs ++ (to_qreq (uc_fd c) <$> ds)) ∧
    zlen rs + zlen ds ≤ WC_UDS_MAX_QUEUED_REQUESTS ∧
    ((r = 0 ∧ ∃ rest, spec_frames (inb ++ mjoin chunks) = (ds, rest) ∧
        client_repr c' rest outb ∧ zlen rest < WC_UDS_INPUT_LIMIT) ∨
     (r = -1 ∧ ∃ later, (spec_frames (inb ++ mjoin chunks)).1 = ds ++ later)).
Proof.
  intros Hc Hneed Hq Hb Hfuel.
  assert (wp true (wc_uds_read_client fuel c q) (λ '(r, c', q') m', ∃ chunks ds,
    m_trace m' = m_trace m ++ (EvRecv (uc_fd c) <$> chunks) ∧
    queue_at m' q' (rs ++ (to_qreq (uc_fd c) <$> ds)) ∧
    zlen rs + zlen ds ≤ WC_UDS_MAX_QUEUED_REQUESTS ∧
    ((r = 0 ∧ ∃ rest, spec_frames (inb ++ mjoin chunks) = (ds, rest) ∧
        client_repr c' rest outb ∧ zlen rest < WC_UDS_INPUT_LIMIT) ∨
     (r = -1 ∧ ∃ later, (spec_frames (inb ++ mjoin chunks)).1 = ds ++ later))) m) as Hwp.
  { eapply read_client_spec; [exact Hc | done | done | done | by apply enough_budget |..].
    - intros chunks ds rest c' q' m' [] Hc' Hsf Hneed'. exists chunks, ds.
      split_and!; try done. left. split; [done|]. exists rest.
      by pose proof (spec_parse_request_need_more_short _ Hneed').
    - intros chunks ds later more c' q' m' [] Hc' Hsf. exists chunks, ds.
      split_and!; try done. right. eauto. }
  apply wp_total_inv in Hwp as ([[r c'] q'] & m' & Hrun & chunks & ds & Hpost).
  by exists r, c', q', m', chunks, ds.
Qed.

(** [wc_uds_write_client] sends a prefix of the pending output, in order
    and without duplication or loss: what was sent followed by what is left
    in the buffer is the output from before. It returns, and touches neither
    the input nor the queue. *)
Theorem wc_uds_write_client_in_order fuel c inb outb m :
  client_repr c inb outb → (os_budget (m_os m) + length outb < fuel)%nat →
  ∃ r c' m' chunks rest, wc_uds_write_client fuel c m = Ret (r, c') m' ∧
    (r = 0 ∨ r = -1) ∧ outb = mjoin chunks ++ rest ∧
    m_trace m' = m_trace m ++ (EvSend (uc_fd c) <$> chunks) ∧
    client_repr c' inb rest ∧ uc_input c' = uc_input c ∧ m_heap m' = m_heap m.
Proof.
  intros Hc Hfuel.
  assert (wp true (wc_uds_write_client fuel c) (λ '(r, c') m', ∃ chunks rest,
    (r = 0 ∨ r = -1) ∧ outb = mjoin chunks ++ rest ∧
    m_trace m' = m_trace m ++ (EvSend (uc_fd c) <$> chunks) ∧
    client_repr c' inb rest ∧ uc_input c' = uc_input c ∧ m_heap m' = m_heap m) m) as Hwp.
  { eapply write_client_spec; [exact Hc | apply enough_budget; lia |].
    intros r chunks rest c' m' Hr [] Hc' Hout. exists chunks, rest.
    split_and!; try done. apply st_kept. }
  apply wp_total_inv in Hwp as ([r c'] & m' & Hrun & chunks & rest & Hpost).
  by exists r, c', m', chunks, rest.
Qed.

(** C10: the queue is served strictly in order. From any state that satisfies
    the invariant, [wc_uds_process_queue] returns, preserves the invariant and
    does exactly what the abstract server does: it takes the oldest request,
    answers it with one response frame for its client (or drops a client whose
    response cannot be stored, with all its requests), and stops only when the
    queue is empty or the client whose turn it is still has unsent output. *)
Theorem wc_uds_process_queue_refines base live0 tr0 listener clients queue rs m :
  server_inv base live0 tr0 listener clients queue rs m →
  ∃ clients' queue' rs' m', wc_uds_process_queue clients queue m = Ret (clients', queue') m' ∧
    server_inv base live0 tr0 listener clients' queue' rs' m' ∧
    rtc serve (conns_of clients, rs, m_trace m) (conns_of clients', rs', m_trace m') ∧
    stalled clients' rs'.
Proof.
  intros HI.
  assert (wp true (wc_uds_process_queue clients queue) (λ '(clients', queue') m', ∃ rs',
    server_inv base live0 tr0 listener clients' queue' rs' m' ∧
    rtc serve (conns_of clients, rs, m_trace m) (conns_of clients', rs', m_trace m') ∧
    stalled clients' rs') m) as Hwp.
  { eapply process_queue_spec; [exact HI|]. intros. eauto 10. }
  apply wp_total_inv in Hwp as ([clients' queue'] & m' & Hrun & rs' & Hpost).
  by exists clients', queue', rs', m'.
Qed.

(** C21: every request gets one well-formed response, or none for a definite
    reason. For a decoded request and an empty output buffer,
    [wc_uds_encode_command_response] appends exactly one response frame, whose
    body is the whole output of the command the request names, or the text of the
    error it failed with. It fails, with the output still empty, only with ENOMEM,
    or with EIO when snprintf() cannot format the text of the error because its
    length is above INT_MAX; it never fails because the response is too long for
    the buffer. *)
Theorem wc_uds_encode_command_response_answers c inb n r m :
  client_repr c inb [] → node_repr n r → qreq_ok r →
  ∃ v c' m', wc_uds_encode_command_response c n m = Ret (v, c') m' ∧
    m_heap m' = m_heap m ∧ m_open m' = m_open m ∧
    m_live m' - bufs_owned c' = m_live m - bufs_owned c ∧
    ((v = 0 ∧ ∃ body, answered r (m_trace m) body (m_trace m') ∧
        client_repr c' inb (response_frame body) ∧ zlen body ≤ UINT16_MAX) ∨
     (v = -1 ∧ unanswered r (m_trace m) (m_errno m') (m_trace m') ∧ client_repr c' inb [])).
Proof.
  intros Hc Hn Hr.
  assert (wp true (wc_uds_encode_command_response c n) (λ '(v, c') m',
    m_heap m' = m_heap m ∧ m_open m' = m_open m ∧
    m_live m' - bufs_owned c' = m_live m - bufs_owned c ∧
    ((v = 0 ∧ ∃ body, answered r (m_trace m) body (m_trace m') ∧
        client_repr c' inb (response_frame body) ∧ zlen body ≤ UINT16_MAX) ∨
     (v = -1 ∧ unanswered r (m_trace m) (m_errno m') (m_trace m') ∧
      client_repr c' inb []))) m) as Hwp.
  { eapply encode_command_response_spec; [exact Hc | exact Hn | exact Hr |..].
    - intros body c' m' [] Ha Hlen Hc'. split_and!; try done. left. eauto.
    - intros c' m' [] Hun Hc'. split_and!; try done. by right. }
  apply wp_total_inv in Hwp as ([v c'] & m' & Hrun & Hpost). by exists v, c', m'.
Qed.

End properties.

(** ** Concrete runs *)

(** Uninitialised memory for the table. *)
Definition raw_table : list wc_uds_client :=
  replicate 64 (WcUdsClient 7 (WcBuffer None 1 2 3) (WcBuffer None 1 2 3)).

(** One client connects, sends PWD and half of another request, receives the
    answer in two pieces, and the server is stopped. *)
Definition one_session : script :=
  Script [] [inl (request_frame WC_REQUEST_PWD [] ++ [Byte.x00]); inr EAGAIN] []
    [inl 3] [None] [inl [POLLIN]; inl [0; POLLIN]; inl [0; POLLOUT]]
    [(lit "/srv" ++ [Byte.x0a], 0)] [] 0 [false; false; false] [].

Lemma wc_server_uds_run_releases_witness :
  ∃ r m', wc_server_uds_run (Z.to_nat 66000) raw_table (Some (lit "/tmp/s")) (Some ())
      (boot one_session) = Ret r m' ∧ m_open m' = {[0; 1; 2]} ∧ m_live m' = 0.
Proof.
  destruct (wc_server_uds_run_releases (Z.to_nat 66000) raw_table (Some (lit "/tmp/s"))
    (Some ()) (boot one_session)) as (r & m' & Hrun & _ & Ho & Hl & _).
  - reflexivity.
  - reflexivity.
  - change (os_budget (m_os (boot one_session))) with 7%nat.
    unfold OUTPUT_ROOM, WC_UDS_OUTPUT_LIMIT, UINT16_MAX, WC_PROTOCOL_RESPONSE_HEADER_SIZE. lia.
  - exists r, m'. split; [exact Hrun | split; [exact Ho | exact Hl]].
Defined.

Lemma wc_server_uds_run_refines_witness :
  ∃ r m' tr1 tr2, wc_server_uds_run (Z.to_nat 66000) raw_table (Some (lit "/tmp/s")) (Some ())
      (boot one_session) = Ret r m' ∧ rtc uds (∅, [], tr1) (∅, [], tr2).
Proof.
  destruct (wc_server_uds_run_refines (Z.to_nat 66000) raw_table (Some (lit "/tmp/s"))
    (Some ()) (boot one_session)) as (r & m' & tr1 & tr2 & Hrun & _ & Hu & _).
  - reflexivity.
  - reflexivity.
  - change (os_budget (m_os (boot one_session))) with 7%nat.
    unfold OUTPUT_ROOM, WC_UDS_OUTPUT_LIMIT, UINT16_MAX, WC_PROTOCOL_RESPONSE_HEADER_SIZE. lia.
  - exists r, m', tr1, tr2. split; [exact Hrun | exact Hu].
Defined.

(** What the session looks like from outside: the answer to PWD, and every
    descriptor closed. *)
Example one_session_trace :
  ∃ m', wc_server_uds_run 20 raw_table (Some (lit "/tmp/s")) (Some ()) (boot one_session) =
      Ret 0 m' ∧
    sent_bytes 4 (m_trace m') = response_frame (lit "/srv") ∧ m_live m' = 0.
Proof. eexists. split; [vm_compute; reflexivity | split; reflexivity]. Qed.

(** A server with a free table, listening on descriptor 3. *)
Definition idle_table : list wc_uds_client := (λ c, set_fd c (-1)) <$> raw_table.
Definition idle_queue : wc_request_queue := WcRequestQueue None None 0.
Definition idle_machine (s : script) : machine script :=
  set_open ({[3]} ∪ {[0; 1; 2]}) (boot s).

Lemma idle_inv s :
  server_inv {[0; 1; 2]} 0 [] 3 idle_table idle_queue [] (idle_machine s).
Proof.
  apply (init_inv idle_table 3 (boot s) (idle_machine s)); try done.
  apply (bool_decide_eq_true_1 _). vm_compute. reflexivity.
Qed.

Lemma wc_uds_round_keeps_invariant_witness :
  ∃ out m', wc_uds_round (Z.to_nat 66000) 3 idle_table idle_queue
      (idle_machine one_session) = Ret out m' ∧
    match out with
    | Continue (clients', queue') | Break (_, clients', queue') =>
      ∃ rs', server_inv {[0; 1; 2]} 0 [] 3 clients' queue' rs' m'
    end.
Proof.
  apply (wc_uds_round_keeps_invariant {[0; 1; 2]} 0 [] (Z.to_nat 66000) 3 idle_table idle_queue []
    (idle_machine one_session) (idle_inv _)).
  change (os_budget (m_os (idle_machine one_session))) with 7%nat.
  unfold OUTPUT_ROOM, WC_UDS_OUTPUT_LIMIT, UINT16_MAX, WC_PROTOCOL_RESPONSE_HEADER_SIZE. lia.
Defined.

Lemma wc_uds_process_queue_refines_witness :
  ∃ clients' queue' m', wc_uds_process_queue idle_table idle_queue (idle_machine one_session) =
      Ret (clients', queue') m' ∧
    ∃ rs', server_inv {[0; 1; 2]} 0 [] 3 clients' queue' rs' m'.
Proof.
  destruct (wc_uds_process_queue_refines {[0; 1; 2]} 0 [] 3 idle_table idle_queue []
    (idle_machine one_session) (idle_inv _))
    as (clients' & queue' & rs' & m' & Hrun & HI & _).
  exists clients', queue', m'. split; [exact Hrun | exists rs'; exact HI].
Defined.

(** A client that has just connected. *)
Definition new_client (outb : list byte) : wc_uds_client :=
  WcUdsClient 4 (WcBuffer None 0 0 WC_UDS_INPUT_LIMIT)
    (match outb with
     | [] => WcBuffer None 0 0 WC_UDS_OUTPUT_LIMIT
     | _ => WcBuffer (Some (bytes_block outb)) (zlen outb) (zlen outb) WC_UDS_OUTPUT_LIMIT
     end).

Lemma new_client_repr : client_repr (new_client []) [] [].
Proof. by repeat constructor. Qed.

Lemma pending_client_repr : client_repr (new_client (lit "reply")) [] (lit "reply").
Proof. by repeat constructor. Qed.

Lemma wc_uds_read_client_decodes_witness :
  ∃ r c' q' m' chunks ds, wc_uds_read_client 10 (new_client []) idle_queue
      (idle_machine one_session) = Ret (r, c', q') m' ∧
    queue_at m' q' ([] ++ (to_qreq 4 <$> ds)) ∧
    m_trace m' = [] ++ (EvRecv 4 <$> chunks).
Proof.
  destruct (wc_uds_read_client_decodes 10 (new_client []) idle_queue [] [] []
    (idle_machine one_session) new_client_repr)
    as (r & c' & q' & m' & chunks & ds & Hrun & Ht & Hq & _).
  - reflexivity.
  - apply (si_queue _ _ _ _ _ _ _ _ (idle_inv one_session)).
  - unfold WC_UDS_MAX_QUEUED_REQUESTS. simpl. lia.
  - change (os_budget (m_os (idle_machine one_session))) with 7%nat. lia.
  - exists r, c', q', m', chunks, ds. split; [exact Hrun | split; [exact Hq | exact Ht]].
Defined.

Lemma wc_uds_write_client_in_order_witness :
  ∃ r c' m' chunks rest, wc_uds_write_client 20 (new_client (lit "reply"))
      (idle_machine one_session) = Ret (r, c') m' ∧ lit "reply" = mjoin chunks ++ rest ∧
    m_trace m' = [] ++ (EvSend 4 <$> chunks).
Proof.
  destruct (wc_uds_write_client_in_order 20 (new_client (lit "reply")) [] (lit "reply")
    (idle_machine one_session) pending_client_repr)
    as (r & c' & m' & chunks & rest & Hrun & _ & Hout & Ht & _).
  - change (os_budget (m_os (idle_machine one_session))) with 7%nat. simpl. lia.
  - exists r, c', m', chunks, rest. split; [exact Hrun | split; [exact Hout | exact Ht]].
Defined.

Lemma wc_uds_encode_command_response_answers_witness :
  ∃ v c' m', wc_uds_encode_command_response (new_client [])
      (WcQueuedRequest 4 WC_REQUEST_PWD 0 None []) (idle_machine one_session) =
      Ret (v, c') m' ∧ m_heap m' = ∅.
Proof.
  destruct (wc_uds_encode_command_response_answers (new_client []) []
    (WcQueuedRequest 4 WC_REQUEST_PWD 0 None []) (QReq 4 WC_REQUEST_PWD [])
    (idle_machine one_session) new_client_repr) as (v & c' & m' & Hrun & Hh & _).
  - by repeat split.
  - split; [reflexivity | simpl; lia].
  - exists v, c', m'. split; [exact Hrun | exact Hh].
Defined.
