(* ===== verification/Session.v ===== *)
(** * The threaded servers: one connection

    server_tcp.c and server_uds_threaded.c serve each connection in a thread
    of its own, with the same code up to the texts of the log records. The
    operations on one connection are written here once, over the transport,
    and instantiated for the two servers; the specifications relate them to
    an abstract connection that answers one request at a time. *)

From S2P Require Import Prelude Machine Script Buffer Protocol Queue SocketUtils Logging Commands Respond.

Inductive transport := Tcp | UdsThreaded.

(** The two servers name their transport in most log records; the UDS server
    leaves it out of some. *)
Definition tp_tag (tp : transport) : string :=
  match tp with Tcp => "transport=tcp " | UdsThreaded => "transport=uds-threaded " end.
Definition tp_opt (tp : transport) : string :=
  match tp with Tcp => "transport=tcp " | UdsThreaded => "" end.

Definition WC_TCP_POLL_TIMEOUT_MS : Z := 250.
Definition WC_TCP_READ_SIZE : Z := 4096.
Definition WC_TCP_INPUT_LIMIT : Z := UINT16_MAX.
Definition WC_TCP_OUTPUT_LIMIT : Z := UINT16_MAX + WC_PROTOCOL_RESPONSE_HEADER_SIZE.

Section session.
Context {W : Type} {OS : Posix W} (tp : transport).
(** [pthread_self()] *)
Context (self : Z).

Definition session_run_command (type : Z) (argument : pointer) (argument_length : Z)
    (result : wc_command_result) : M W (Z * wc_command_result) :=
  wc_log WC_LOG_DEBUG "commands" "command_dispatch"
    (Some (tp_tag tp ++ "thread=%lu type=%u argument_length=%zu")%string)
    [LInt self; LInt type; LInt argument_length] ;;
  dispatch_command type argument argument_length result.

(** [argument] is the pointer [request->argument] into the input buffer. *)
Definition session_encode_response (output : wc_buffer) (request : wc_request)
    (argument : pointer) (client_fd : Z) : M W (Z * wc_buffer) :=
  encode_outcome
    (session_run_command (rq_type request) argument (rq_argument_length request))
    (λ command_errno, wc_log WC_LOG_ERROR "commands" "command_failed"
      (Some (tp_opt tp ++ "client=fd:%d thread=%lu type=%u errno=%d")%string)
      [LInt client_fd; LInt self; LInt (rq_type request); LInt command_errno])
    output.

Definition session_process_request (input output : wc_buffer) (client_fd : Z)
    : M W (Z * wc_buffer * wc_buffer) :=
  '(parse_result, request, consumed) ←
    wc_protocol_parse_request (buf_data input) (buf_length input)
      (Some (WcRequest 0 0 0 0)) (Some 0);
  request ← from_option_ub request;
  consumed ← from_option_ub consumed;
  if decide (parse_result = WC_PARSE_NEED_MORE) then mret (0, input, output)
  else if decide (parse_result = WC_PARSE_INVALID) then
    put_errno EPROTO ;;
    wc_log WC_LOG_WARN "protocol" "request_rejected"
      (Some (tp_opt tp ++ "client=fd:%d thread=%lu reason=invalid_message")%string)
      [LInt client_fd; LInt self] ;;
    mret (-1, input, output)
  else
    '(r, output) ← session_encode_response output request
      (ptr_add (buf_data input) (rq_argument request)) client_fd;
    if r =? -1 then mret (-1, input, output) else
    wc_log WC_LOG_DEBUG "protocol" "request_complete"
      (Some (tp_opt tp ++ "client=fd:%d thread=%lu type=%u message_length=%zu")%string)
      [LInt client_fd; LInt self; LInt (rq_type request);
       LInt (rq_message_length request)] ;;
    wc_log WC_LOG_DEBUG "server" "response_queued"
      (Some (tp_opt tp ++ "client=fd:%d thread=%lu type=%u output_pending=%zu")%string)
      [LInt client_fd; LInt self; LInt (rq_type request); LInt (buf_length output)] ;;
    '(r, input) ← by_ref (λ p, wc_buffer_consume p consumed) input;
    mret (r, input, output).

Definition session_read (client_fd : Z) (input : wc_buffer) : M W (Z * wc_buffer) :=
  let available := buf_max_size input -ₛ buf_length input in
  let read_size := if available <? WC_TCP_READ_SIZE then available else WC_TCP_READ_SIZE in
  if read_size =? 0 then put_errno EMSGSIZE ;; mret (-1, input) else
  '(bytes_read, bytes) ← sys_read client_fd read_size;
  if bytes_read >? 0 then
    '(r, input) ← by_ref (λ p, wc_buffer_append p (Some (bytes_block bytes)) bytes_read) input;
    if r =? -1 then mret (-1, input) else
    wc_log WC_LOG_DEBUG "server" "read_complete"
      (Some (tp_opt tp ++ "client=fd:%d thread=%lu bytes=%zu input_pending=%zu")%string)
      [LInt client_fd; LInt self; LInt bytes_read; LInt (buf_length input)] ;;
    mret (0, input)
  else if bytes_read =? 0 then put_errno ECONNRESET ;; mret (-1, input)
  else
    e ← get_errno;
    if (e =? EINTR) || (e =? EAGAIN) || (e =? EWOULDBLOCK) then mret (0, input)
    else mret (-1, input).

Definition session_write (client_fd : Z) (output : wc_buffer) : M W (Z * wc_buffer) :=
  bytes ← read_bytes (buf_data output) (buf_length output);
  bytes_written ← sys_send client_fd bytes;
  if bytes_written >? 0 then
    '(r, output) ← by_ref (λ p, wc_buffer_consume p bytes_written) output;
    if r =? -1 then mret (-1, output) else
    wc_log WC_LOG_DEBUG "server" "write_complete"
      (Some (tp_opt tp ++ "client=fd:%d thread=%lu bytes=%zu output_pending=%zu")%string)
      [LInt client_fd; LInt self; LInt bytes_written; LInt (buf_length output)] ;;
    mret (0, output)
  else
    e ← get_errno;
    if (bytes_written =? -1) && ((e =? EINTR) || (e =? EAGAIN) || (e =? EWOULDBLOCK))
    then mret (0, output)
    else mret (-1, output).

(** The second half of the worker's loop body: wait for the one event the
    buffers call for, and transfer. *)
Definition session_poll (client_fd : Z) (input output : wc_buffer)
    : M W ((wc_buffer * wc_buffer) + (wc_buffer * wc_buffer)) :=
  let events := if buf_length output >? 0 then POLLOUT else POLLIN in
  '(poll_result, revents) ← sys_poll [(client_fd, events)] WC_TCP_POLL_TIMEOUT_MS;
  if poll_result =? -1 then
    e ← get_errno;
    if e =? EINTR then mret (Continue (input, output)) else mret (Break (input, output))
  else if poll_result =? 0 then mret (Continue (input, output))
  else
    revents ← from_option_ub (head revents);
    '(r, input) ← (if has_event revents POLLIN then session_read client_fd input
                   else mret (0, input));
    if r =? -1 then mret (Break (input, output)) else
    '(r, output) ← (if has_event revents POLLOUT then session_write client_fd output
                    else mret (0, output));
    if r =? -1 then mret (Break (input, output)) else
    if has_event revents (Z.lor POLLERR POLLNVAL) then mret (Break (input, output))
    else if has_event revents POLLHUP && (buf_length output =? 0) then
      mret (Break (input, output))
    else mret (Continue (input, output)).

(** The body of the worker's loop: [Continue] and [Break] as in the code, with
    the buffers as they are then. *)
Definition session_round (client_fd : Z) (input output : wc_buffer)
    : M W ((wc_buffer * wc_buffer) + (wc_buffer * wc_buffer)) :=
  '(r, input, output) ←
    (if buf_length output =? 0 then session_process_request input output client_fd
     else mret (0, input, output));
  if r =? -1 then mret (Break (input, output)) else
  session_poll client_fd input output.

(** [n] rounds of the loop, or fewer when it is left. *)
Fixpoint session_rounds (n : nat) (client_fd : Z) (input output : wc_buffer)
    : M W ((wc_buffer * wc_buffer) + (wc_buffer * wc_buffer)) :=
  match n with
  | O => mret (Continue (input, output))
  | S n =>
    r ← session_round client_fd input output;
    match r with
    | inl (input, output) => session_rounds n client_fd input output
    | inr bufs => mret (Break bufs)
    end
  end.

End session.

Arguments session_run_command : simpl never.
Arguments session_encode_response : simpl never.
Arguments session_process_request : simpl never.
Arguments session_read : simpl never.
Arguments session_write : simpl never.
Arguments session_poll : simpl never.
Arguments session_round : simpl never.

(** The functions of the two files. *)
Definition wc_tcp_run_command {W} {OS : Posix W} := session_run_command (W:=W) Tcp.
Definition wc_tcp_encode_response {W} {OS : Posix W} := session_encode_response (W:=W) Tcp.
Definition wc_tcp_process_request {W} {OS : Posix W} := session_process_request (W:=W) Tcp.
Definition wc_tcp_read_client {W} {OS : Posix W} := session_read (W:=W) Tcp.
Definition wc_tcp_write_client {W} {OS : Posix W} := session_write (W:=W) Tcp.

Definition wc_threaded_uds_run_command {W} {OS : Posix W} :=
  session_run_command (W:=W) UdsThreaded.
Definition wc_threaded_uds_encode_response {W} {OS : Posix W} :=
  session_encode_response (W:=W) UdsThreaded.
Definition wc_threaded_uds_process_request {W} {OS : Posix W} :=
  session_process_request (W:=W) UdsThreaded.
Definition wc_threaded_uds_read {W} {OS : Posix W} := session_read (W:=W) UdsThreaded.
Definition wc_threaded_uds_write {W} {OS : Posix W} := session_write (W:=W) UdsThreaded.

(** ** The abstract connection *)

(** The state of a connection: undecoded input, unsent output, trace. It reads
    only when there is nothing to send and no complete request to answer, and
    answers a request only when the previous response has been sent. *)
Inductive conn {W} {OS : Posix W} (fd : Z) :
    relation (list byte * list byte * list event) :=
| conn_recv inb bs tr :
    spec_parse_request inb = PNeedMore →
    conn fd (inb, [], tr) (inb ++ bs, [], tr ++ [EvRecv fd bs])
| conn_answer type arg rest body tr tr' :
    request_ok type arg → answered (QReq fd type arg) tr body tr' →
    zlen body ≤ UINT16_MAX →
    conn fd (request_frame type arg ++ rest, [], tr) (rest, response_frame body, tr')
| conn_send inb bs rest tr :
    conn fd (inb, bs ++ rest, tr) (inb, rest, tr ++ [EvSend fd bs]).

(** What a connection that is given up may have done last: received bytes it
    could not store, or run a command whose response it could not store. *)
Definition conn_last (fd : Z) (tr tr' : list event) : Prop :=
  (∃ bs, tr' = tr ++ [EvRecv fd bs]) ∨ (∃ r, ran r tr tr').

(** ** Specifications *)

(** The steps of a connection touch no queue node and no descriptor table. *)
Record local {W} {OS : Posix W} (m m' : machine W) : Prop := {
  lo_world : world m m';
  lo_heap : m_heap m' = m_heap m;
  lo_next : m_next_loc m' = m_next_loc m;
  lo_open : m_open m' = m_open m;
}.

#[global] Instance local_preorder {W} {OS : Posix W} : PreOrder local.
Proof.
  split; [by intros m; constructor|].
  intros m1 m2 m3 [] []. constructor; try congruence. by etrans.
Qed.

Section locals.
Context {W : Type} {OS : Posix W}.
Implicit Types m : machine W.

Lemma silent_local m m' : silent m m' → local m m'.
Proof. intros H. pose proof (silent_world _ _ H). destruct H. by constructor. Qed.
Lemma logged_local m m' : logged m m' → local m m'.
Proof. intros H. pose proof (logged_world _ _ H). destruct H. by constructor. Qed.
Lemma call_local m m' : call_frame m m' → m_open m' = m_open m → local m m'.
Proof. intros H ?. pose proof (call_frame_world _ _ H). destruct H as [[] ??]. by constructor. Qed.
Lemma call0_local m m' : call_frame0 m m' → local m m'.
Proof. intros []. by apply call_local. Qed.
Lemma answering_local b m b' m' : answering b m b' m' → local m m'.
Proof. by intros []. Qed.

End locals.

#[export] Hint Resolve silent_local logged_local call_local call0_local answering_local : wc.

(** The two buffers of a connection. *)
Record session_repr (input output : wc_buffer) (inb outb : list byte) : Prop := {
  se_input : buffer_repr input inb;
  se_input_max : buf_max_size input = WC_TCP_INPUT_LIMIT;
  se_output : buffer_repr output outb;
  se_output_max : buf_max_size output = WC_TCP_OUTPUT_LIMIT;
}.

(** Nothing but the heap blocks of the two buffers was allocated or freed. *)
Definition balanced {W} (m m' : machine W) (input output input' output' : wc_buffer) : Prop :=
  m_live m' - buf_owned input' - buf_owned output' =
  m_live m - buf_owned input - buf_owned output.

Section session_specs.
Context {W : Type} {OS : Posix W} `{!PosixLaws W} (tp : transport) (self : Z).
Implicit Types (m : machine W) (t : bool).

Lemma session_run_command_spec t p r m :
  points_to p (qq_arg r) → qreq_ok r →
  runs_request t r (session_run_command tp self (qq_type r) p (zlen (qq_arg r))
    (WcCommandResult None 0)) m.
Proof.
  intros Hp Hr Q HQ. unfold session_run_command.
  apply wp_bind, wp_log; [by destruct tp; log_ok|]. intros m1 Hlg.
  eapply dispatch_command_spec; [done..|by eauto].
Qed.

(** One request at most: nothing to do, a malformed frame, an answer, or no
    memory for the answer. *)
Lemma process_request_spec t fd input output inb
    (Q : Z * wc_buffer * wc_buffer → machine W → Prop) m :
  session_repr input output inb [] →
  (spec_parse_request inb = PNeedMore → Q (0, input, output) m) →
  (∀ m', local m m' → m_live m' = m_live m → m_trace m' = m_trace m →
     Q (-1, input, output) m') →
  (∀ type arg rest body input' output' m', inb = request_frame type arg ++ rest →
     request_ok type arg → answered (QReq fd type arg) (m_trace m) body (m_trace m') →
     zlen body ≤ UINT16_MAX → local m m' → balanced m m' input output input' output' →
     session_repr input' output' rest (response_frame body) → Q (0, input', output') m') →
  (∀ r output' m', ran r (m_trace m) (m_trace m') → local m m' →
     balanced m m' input output input output' →
     session_repr input output' inb [] → Q (-1, input, output') m') →
  wp t (session_process_request tp self input output fd) Q m.
Proof.
  intros [Hin Hinm Ho Hom] Hneed Hbad Hok Hmem. unfold session_process_request.
  rewrite (br_length _ _ Hin). apply wp_bind.
  apply (parse_request_spec _ _ inb); [by apply buffer_repr_points_to|].
  destruct (spec_parse_request inb) as [[type arg]| |] eqn:Hp; simpl; wp_go; [|by apply Hneed|].
  2:{ apply wp_log; [by destruct tp; log_ok|]. intros m1 Hlg. wp_go.
      apply Hbad; [|apply Hlg..]. etrans; [|by apply logged_local].
      by apply call0_local, call_frame0_errno. }
  apply spec_parse_request_inv in Hp as (Hr & rest & ->).
  pose proof (buffer_repr_points_to _ _ Hin) as Hpt.
  unfold session_encode_response. simpl.
  eapply (encode_outcome_spec _ _ _ _ (QReq fd type arg)); [exact Ho | exact Hom |..].
  - apply (session_run_command_spec _ _ (QReq fd type arg)); [|done].
    by eapply points_to_app_l, frame_view.
  - intros e m1 Q1 HQ1. apply wp_log; [by destruct tp; log_ok | exact HQ1].
  - intros body b' m1 Ha Hans Hlen Hb'. cbn beta iota. simpl. wp_go.
    apply wp_log; [by destruct tp; log_ok|]. intros m2 Hlg2. wp_go.
    apply wp_log; [by destruct tp; log_ok|]. intros m3 Hlg3. wp_go.
    assert (logged m1 m3) as Hlg by (by etrans).
    eapply wc_buffer_consume_spec; [exact Hin | lia | |]; cycle 1.
    { rewrite zlen_app, zlen_request_frame. lia. }
    intros _ i' Hi' Him' Hio. cbn beta iota. wp_go.
    apply (Hok type arg rest body); try done.
    + by rewrite (lg_trace _ _ Hlg).
    + etrans; [by eapply answering_local | by apply logged_local].
    + unfold balanced. rewrite (lg_live _ _ Hlg), Hio. pose proof (an_live _ _ _ _ Ha). lia.
    + constructor; [|congruence|done|by rewrite (an_max _ _ _ _ Ha)].
      by rewrite <-(zlen_request_frame type), Nat2Z.id, drop_app_length in Hi'.
  - intros b' m1 Ha [Hran _] Hb'. cbn beta iota. simpl. wp_go.
    eapply Hmem; [exact Hran | by eapply answering_local | |].
    + unfold balanced. pose proof (an_live _ _ _ _ Ha). lia.
    + constructor; try done. by rewrite (an_max _ _ _ _ Ha).
Qed.

(** A read happens only while a request is incomplete, so there is room. *)
Lemma session_read_spec t fd input output inb (Q : Z * wc_buffer → machine W → Prop) m :
  session_repr input output inb [] → spec_parse_request inb = PNeedMore →
  (∀ bs input' m', local m m' → balanced m m' input output input' output →
     m_trace m' = m_trace m ++ [EvRecv fd bs] →
     session_repr input' output (inb ++ bs) [] → Q (0, input') m') →
  (∀ r m', local m m' → m_live m' = m_live m → m_trace m' = m_trace m →
     (r = 0 ∨ r = -1) → Q (r, input) m') →
  (∀ bs m', local m m' → m_live m' = m_live m →
     m_trace m' = m_trace m ++ [EvRecv fd bs] → Q (-1, input) m') →
  wp t (session_read tp self fd input) Q m.
Proof.
  intros [Hin Hinm Ho Hom] Hneed Hok Hagain Hend. unfold session_read.
  apply spec_parse_request_need_more_short in Hneed.
  rewrite (br_length _ _ Hin), Hinm. unfold WC_TCP_INPUT_LIMIT, UINT16_MAX in *.
  rewrite size_sub_small by (unfold SIZE_MAX; lia). unfold WC_TCP_READ_SIZE.
  set (n := if _ <? _ then _ else _).
  assert (0 < n ≤ 65535 - zlen inb) as Hn by (unfold n; case_if; lia).
  case_if; [lia|]. wp_call wp_sys_read; [lia|..].
  2:{ intros m1 Hf _. simpl. wp_go.
      case_if; wp_go; (apply Hagain; [by apply call0_local | apply Hf | apply Hf | by auto]). }
  intros bs m1 Hbs Hf Ho1 Ht1 _. destruct bs as [|c bs].
  { simpl. wp_go. eapply Hend; [|apply Hf|exact Ht1]. etrans; [by apply call_local|].
    by apply call0_local, call_frame0_errno. }
  rewrite (proj2 (Z.gtb_lt _ _)) by (simpl; lia). wp_go.
  eapply wc_buffer_append_spec; [exact Hin | apply points_to_bytes |..].
  - intros _ b' m2 Hs2 He2 Hl2 Hb' Hm'. cbn beta iota. simpl. wp_go.
    apply wp_log; [by destruct tp; log_ok|]. intros m3 Hlg. wp_go.
    apply (Hok (c :: bs)).
    + etrans; [by apply call_local|]. etrans; [by apply silent_local | by apply logged_local].
    + unfold balanced. rewrite (lg_live _ _ Hlg), Hl2, (cf_live _ _ Hf). lia.
    + rewrite (lg_trace _ _ Hlg), (silent_trace _ _ Hs2). done.
    + by constructor; rewrite ?Hm'.
  - rewrite Hinm. unfold WC_TCP_INPUT_LIMIT, UINT16_MAX. lia.
  - intros _ m2 Hs2 He2 Hl2. cbn beta iota. simpl. wp_go.
    apply (Hend (c :: bs)).
    + etrans; [by apply call_local | by apply silent_local].
    + rewrite Hl2. apply Hf.
    + by rewrite (silent_trace _ _ Hs2).
Qed.

(** A write happens only while there is output. *)
Lemma session_write_spec t fd input output inb outb (Q : Z * wc_buffer → machine W → Prop) m :
  session_repr input output inb outb → outb ≠ [] →
  (∀ r bs rest output' m', local m m' → balanced m m' input output input output' →
     outb = bs ++ rest → m_trace m' = m_trace m ++ [EvSend fd bs] →
     session_repr input output' inb rest → (r = 0 ∨ r = -1) → Q (r, output') m') →
  (∀ r m', local m m' → m_live m' = m_live m → m_trace m' = m_trace m →
     (r = 0 ∨ r = -1) → Q (r, output) m') →
  wp t (session_write tp self fd output) Q m.
Proof.
  intros Hse Hne Hok Hagain. pose proof Hse as [Hin Hinm Ho Hom]. unfold session_write.
  rewrite (br_length _ _ Ho).
  apply wp_bind, wp_read_points_to;
    [by apply buffer_repr_points_to | by intros ?%zlen_nil_inv|].
  wp_call wp_sys_send.
  2:{ intros m1 Hf _. simpl. wp_go.
      case_if; wp_go; (apply Hagain; [by apply call0_local | apply Hf | apply Hf | by auto]). }
  intros n m1 Hn Hf Ho1 Ht1.
  assert (outb = take (Z.to_nat n) outb ++ drop (Z.to_nat n) outb) as Hsplit
    by (by rewrite take_drop).
  destruct (n >? 0) eqn:Hnp; bool_to_prop; cycle 1.
  { assert (n = 0) as -> by lia. simpl. wp_go.
    apply (Hok (-1) [] outb); [by apply call_local | |done|done|done|by right].
    unfold balanced. rewrite (cf_live _ _ Hf). lia. }
  wp_go. eapply wc_buffer_consume_spec; [exact Ho | lia | |]; cycle 1; [lia|].
  intros _ b' Hb' Hm' Hbo. cbn beta iota. simpl. wp_go.
  apply wp_log; [by destruct tp; log_ok|]. intros m2 Hlg. wp_go.
  eapply (Hok 0); [| |exact Hsplit| | |by left].
  - etrans; [by apply call_local | by apply logged_local].
  - unfold balanced. rewrite (lg_live _ _ Hlg), (cf_live _ _ Hf). lia.
  - by rewrite (lg_trace _ _ Hlg).
  - by constructor; rewrite ?Hm'.
Qed.

(** poll() reports no transfer event that was not requested. *)
Lemma not_requested r ev mask :
  Z.land r (Z.lor ev (Z.lor POLLERR (Z.lor POLLHUP POLLNVAL))) = r →
  Z.land (Z.lor ev (Z.lor POLLERR (Z.lor POLLHUP POLLNVAL))) mask = 0 →
  has_event r mask = false.
Proof.
  intros Hr Hm. unfold has_event. by rewrite <-Hr, <-Z.land_assoc, Hm, Z.land_0_r.
Qed.

(** A stretch of the loop: the buffers moved along the abstract connection;
    when the connection is given up, a last step may be lost. *)
Definition session_post (fd : Z) (input output : wc_buffer) (inb outb : list byte) m
    (r : (wc_buffer * wc_buffer) + (wc_buffer * wc_buffer)) m' : Prop :=
  match r with
  | inl (input', output') => local m m' ∧ balanced m m' input output input' output' ∧
      ∃ inb' outb', session_repr input' output' inb' outb' ∧
        rtc (conn fd) (inb, outb, m_trace m) (inb', outb', m_trace m')
  | inr (input', output') => local m m' ∧ balanced m m' input output input' output' ∧
      ∃ inb' outb' tr, session_repr input' output' inb' outb' ∧
        rtc (conn fd) (inb, outb, m_trace m) (inb', outb', tr) ∧
        conn_last fd tr (m_trace m')
  end.

Lemma conn_last_refl fd tr : conn_last fd tr tr.
Proof. right. exists (QReq fd 0 []). by left. Qed.

Lemma session_post_intro fd input output inb outb m b input' output' inb' outb' m' :
  local m m' → balanced m m' input output input' output' →
  session_repr input' output' inb' outb' →
  rtc (conn fd) (inb, outb, m_trace m) (inb', outb', m_trace m') →
  session_post fd input output inb outb m
    (if b : bool then inl (input', output') else inr (input', output')) m'.
Proof.
  intros. destruct b; (split; [done|]; split; [done|]); [by eauto|].
  exists inb', outb', (m_trace m'). split_and!; try done. apply conn_last_refl.
Qed.

(** The two exits at the end of the loop body. *)
Lemma session_exit_spec t fd input output inb outb input' output' inb' outb' r
    (Q : _ → machine W → Prop) m m' :
  (∀ r m', session_post fd input output inb outb m r m' → Q r m') →
  local m m' → balanced m m' input output input' output' →
  session_repr input' output' inb' outb' →
  rtc (conn fd) (inb, outb, m_trace m) (inb', outb', m_trace m') →
  wp t (if has_event r (Z.lor POLLERR POLLNVAL) then mret (Break (input', output'))
        else if has_event r POLLHUP && (buf_length output' =? 0)
             then mret (Break (input', output'))
             else mret (Continue (input', output'))) Q m'.
Proof.
  intros HQ Hlo Hba Hse Hrtc.
  assert (∀ b : bool, Q (if b then inl (input', output') else inr (input', output')) m')
    as Hend by (intros b; by eapply HQ, session_post_intro).
  destruct (has_event r _); [wp_go; exact (Hend false)|].
  destruct (_ && _); wp_go; [exact (Hend false) | exact (Hend true)].
Qed.

(** Reading: the connection has nothing to send. *)
Lemma session_poll_in_spec t fd input output inb (Q : _ → machine W → Prop) m :
  session_repr input output inb [] → spec_parse_request inb = PNeedMore →
  (∀ r m', session_post fd input output inb [] m r m' → Q r m') →
  wp t (session_poll tp self fd input output) Q m.
Proof.
  intros Hse Hneed HQ. unfold session_poll.
  rewrite (br_length _ _ (se_output _ _ _ _ Hse)). simpl.
  wp_call wp_sys_poll_one. intros k r m1 Hr Hf1. cbn beta iota.
  assert (balanced m m1 input output input output) as Hb1
    by (unfold balanced; rewrite (cf_live _ _ (cf0_frame _ _ Hf1)); lia).
  pose proof (cf0_trace _ _ Hf1) as Ht1. apply call0_local in Hf1 as Hl1.
  assert (∀ b : bool, Q (if b then inl (input, output) else inr (input, output)) m1) as Hsame
    by (intros b; eapply HQ, session_post_intro; [done..|rewrite Ht1; apply rtc_refl]).
  case_if; [wp_go; case_if; wp_go; [exact (Hsame true) | exact (Hsame false)]|].
  case_if; [wp_go; exact (Hsame true)|]. apply wp_bind, (wp_from_option _ _ r); [done|]. apply wp_bind.
  rewrite (not_requested _ _ POLLOUT Hr) by done.
  assert (∀ m2 input2 inb2, local m m2 → balanced m m2 input output input2 output →
    session_repr input2 output inb2 [] →
    rtc (conn fd) (inb, [], m_trace m) (inb2, [], m_trace m2) →
    wp t (x ← mret (0, output); let '(r0, output0) := x in
          if r0 =? -1 then mret (Break (input2, output0)) else
          if has_event r (Z.lor POLLERR POLLNVAL) then mret (Break (input2, output0))
          else if has_event r POLLHUP && (buf_length output0 =? 0)
               then mret (Break (input2, output0))
               else mret (Continue (input2, output0))) Q m2) as Hexit.
  { intros m2 input2 inb2 ????. wp_go. simpl. by eapply session_exit_spec. }
  destruct (has_event r POLLIN).
  2:{ wp_go. simpl. eapply Hexit; [done..|]. rewrite Ht1. apply rtc_refl. }
  eapply session_read_spec; [exact Hse | done |..].
  - intros bs input' m2 Hl2 Hb2 Ht2 Hse2. simpl. eapply Hexit; [by etrans | | exact Hse2 |].
    + unfold balanced in *. lia.
    + apply rtc_once. rewrite Ht2, Ht1. by apply conn_recv.
  - intros v m2 Hl2 Hm2 Ht2 Hv.
    assert (balanced m m2 input output input output) by (unfold balanced in *; lia).
    assert (rtc (conn fd) (inb, [], m_trace m) (inb, [], m_trace m2))
      by (rewrite Ht2, Ht1; apply rtc_refl).
    destruct Hv as [->| ->]; simpl.
    + eapply Hexit; [by etrans | done..].
    + wp_go. eapply HQ, (session_post_intro _ _ _ _ _ _ false); [by etrans | done..].
  - intros bs m2 Hl2 Hm2 Ht2. simpl. wp_go. apply HQ. split; [by etrans|].
    split; [unfold balanced in *; lia|]. exists inb, [], (m_trace m).
    split_and!; [done | apply rtc_refl |]. left. exists bs. congruence.
Qed.

(** Writing: a response is pending. *)
Lemma session_poll_out_spec t fd input output inb outb (Q : _ → machine W → Prop) m :
  session_repr input output inb outb → outb ≠ [] →
  (∀ r m', session_post fd input output inb outb m r m' → Q r m') →
  wp t (session_poll tp self fd input output) Q m.
Proof.
  intros Hse Hne HQ. unfold session_poll. rewrite (br_length _ _ (se_output _ _ _ _ Hse)).
  rewrite (proj2 (Z.gtb_lt _ _)) by (destruct outb; [done | simpl; lia]).
  wp_call wp_sys_poll_one. intros k r m1 Hr Hf1. cbn beta iota.
  assert (balanced m m1 input output input output) as Hb1
    by (unfold balanced; rewrite (cf_live _ _ (cf0_frame _ _ Hf1)); lia).
  pose proof (cf0_trace _ _ Hf1) as Ht1. apply call0_local in Hf1 as Hl1.
  assert (∀ b : bool, Q (if b then inl (input, output) else inr (input, output)) m1) as Hsame
    by (intros b; eapply HQ, session_post_intro; [done..|rewrite Ht1; apply rtc_refl]).
  case_if; [wp_go; case_if; wp_go; [exact (Hsame true) | exact (Hsame false)]|].
  case_if; [wp_go; exact (Hsame true)|]. apply wp_bind, (wp_from_option _ _ r); [done|]. apply wp_bind.
  rewrite (not_requested _ _ POLLIN Hr) by done. wp_go. simpl.
  destruct (has_event r POLLOUT).
  2:{ wp_go. simpl. eapply session_exit_spec; [done..|]. rewrite Ht1. apply rtc_refl. }
  wp_go. eapply session_write_spec; [exact Hse | done |..].
  - intros v bs rest output' m2 Hl2 Hb2 -> Ht2 Hse2 Hv.
    assert (balanced m m2 input output input output') by (unfold balanced in *; lia).
    assert (rtc (conn fd) (inb, bs ++ rest, m_trace m) (inb, rest, m_trace m2))
      by (rewrite Ht2, Ht1; apply rtc_once, conn_send).
    destruct Hv as [->| ->]; simpl.
    + eapply session_exit_spec; [done | by etrans | done..].
    + wp_go. eapply HQ, (session_post_intro _ _ _ _ _ _ false); [by etrans | done..].
  - intros v m2 Hl2 Hm2 Ht2 Hv.
    assert (balanced m m2 input output input output) by (unfold balanced in *; lia).
    assert (rtc (conn fd) (inb, outb, m_trace m) (inb, outb, m_trace m2))
      by (rewrite Ht2, Ht1; apply rtc_refl).
    destruct Hv as [->| ->]; simpl.
    + eapply session_exit_spec; [done | by etrans | done..].
    + wp_go. eapply HQ, (session_post_intro _ _ _ _ _ _ false); [by etrans | done..].
Qed.

(** Two stretches in a row. *)
Lemma session_post_trans fd input output inb outb m input1 output1 inb1 outb1 m1 r m2 :
  local m m1 → balanced m m1 input output input1 output1 →
  rtc (conn fd) (inb, outb, m_trace m) (inb1, outb1, m_trace m1) →
  session_post fd input1 output1 inb1 outb1 m1 r m2 →
  session_post fd input output inb outb m r m2.
Proof.
  intros Hl Hb Hrtc Hp. unfold session_post, balanced in *.
  destruct r as [[i o]|[i o]].
  - destruct Hp as (? & ? & inb' & outb' & ? & ?).
    split; [by etrans|]. split; [lia|]. exists inb', outb'. split; [done | by etrans].
  - destruct Hp as (? & ? & inb' & outb' & tr & ? & ? & ?).
    split; [by etrans|]. split; [lia|]. exists inb', outb', tr. split_and!; [done | by etrans | done].
Qed.

Lemma session_round_spec t fd input output inb outb (Q : _ → machine W → Prop) m :
  session_repr input output inb outb →
  (∀ r m', session_post fd input output inb outb m r m' → Q r m') →
  wp t (session_round tp self fd input output) Q m.
Proof.
  intros Hse HQ. unfold session_round. rewrite (br_length _ _ (se_output _ _ _ _ Hse)).
  destruct outb as [|c outb].
  2:{ rewrite (proj2 (Z.eqb_neq _ _)) by (simpl; lia). wp_go. simpl.
      by eapply session_poll_out_spec. }
  simpl. apply wp_bind. eapply process_request_spec; [exact Hse|..].
  - intros Hneed. cbn beta iota. simpl. by eapply session_poll_in_spec.
  - intros m1 Hl1 Hm1 Ht1. cbn beta iota. simpl. wp_go.
    eapply HQ, (session_post_intro _ _ _ _ _ _ false); [done | unfold balanced; lia | done |].
    rewrite Ht1. apply rtc_refl.
  - intros type arg rest body input' output' m1 -> Hr Hans Hlen Hl1 Hb1 Hse1.
    cbn beta iota. simpl. eapply session_poll_out_spec; [exact Hse1 | done |].
    intros r m2 Hp. apply HQ. eapply session_post_trans; [done | done | | exact Hp].
    by apply rtc_once, conn_answer.
  - intros r output' m1 Hran Hl1 Hb1 Hse1. cbn beta iota. simpl. wp_go.
    apply HQ. split; [done|]. split; [done|]. exists inb, [], (m_trace m).
    split_and!; [done | apply rtc_refl |]. right. by exists r.
Qed.

Lemma session_rounds_spec t n fd input output inb outb (Q : _ → machine W → Prop) m :
  session_repr input output inb outb →
  (∀ r m', session_post fd input output inb outb m r m' → Q r m') →
  wp t (session_rounds tp self n fd input output) Q m.
Proof.
  revert input output inb outb Q m.
  induction n as [|n IH]; intros input output inb outb Q m Hse HQ; simpl.
  { wp_go. eapply HQ, (session_post_intro _ _ _ _ _ _ true); [done..|apply rtc_refl]. }
  apply wp_bind. eapply session_round_spec; [exact Hse|].
  intros [[i o]|[i o]] m1 Hp; [|wp_go; by apply HQ].
  destruct Hp as (Hl & Hb & inb' & outb' & Hse' & Hrtc).
  eapply IH; [exact Hse'|]. intros r m2 Hp. by eapply HQ, session_post_trans.
Qed.

End session_specs.

(** ** What the abstract connection guarantees *)

(** A request, as type and argument, and the body of its response. *)
Abbreviation exchange := (Z * list byte * list byte)%type.

Definition requests_of (served : list exchange) : list byte :=
  mjoin ((λ x, request_frame x.1.1 x.1.2) <$> served).
Definition responses_of (served : list exchange) : list byte :=
  mjoin ((λ x, response_frame x.2) <$> served).

(** The traffic [evs] of a connection on [fd] is served in order: the requests
    served are the first ones decoded from the bytes received, what was sent is a
    prefix of the responses in the order of the requests, and each response
    answers its request, by events within [tr]. *)
Definition in_order_on {W} {OS : Posix W} (fd : Z) (tr evs : list event) : Prop :=
  ∃ served later unsent,
    (spec_frames (received_bytes fd evs)).1 = served.*1 ++ later ∧
    sent_bytes fd evs ++ unsent = responses_of served ∧
    Forall (λ x, ∃ tr1 tr2, answered (QReq fd x.1.1 x.1.2) tr1 x.2 tr2 ∧
      tr2 `prefix_of` tr) served.

Section conn_facts.
Context {W : Type} {OS : Posix W}.

(** Running a command transfers nothing on the connection. *)
Lemma ran_quiet fd r tr tr' :
  ran r tr tr' → ∃ new, tr' = tr ++ new ∧ sent_bytes fd new = [] ∧ received_bytes fd new = [].
Proof.
  intros (new & -> & Hall & _)%ran_shift. exists new. split; [done|].
  unfold sent_bytes, received_bytes.
  induction Hall as [|ev new Hev _ [IH1 IH2]]; [done|].
  destruct ev; first [by destruct Hev | by split].
Qed.

(** [served] accounts for the connection's traffic [new] since [tr0]. *)
Record accounts (fd : Z) (tr0 : list event) (served : list exchange)
    (inb outb : list byte) (new : list event) : Prop := {
  ac_received : received_bytes fd new = requests_of served ++ inb;
  ac_sent : sent_bytes fd new ++ outb = responses_of served;
  ac_ok : Forall (λ x, request_ok x.1.1 x.1.2) served;
  ac_answered : Forall (λ x, ∃ tr tr', answered (QReq fd x.1.1 x.1.2) tr x.2 tr' ∧
    tr' `prefix_of` tr0 ++ new) served;
}.

Lemma accounts_grow fd tr0 served inb outb new more inb' outb' :
  accounts fd tr0 served inb outb new →
  received_bytes fd (new ++ more) = requests_of served ++ inb' →
  sent_bytes fd (new ++ more) ++ outb' = responses_of served →
  accounts fd tr0 served inb' outb' (new ++ more).
Proof.
  intros [? ? ? Ha] ??. constructor; try done. eapply Forall_impl; [exact Ha|].
  intros x (tr & tr' & ? & Hp). exists tr, tr'. split; [done|].
  etrans; [exact Hp|]. rewrite app_assoc. by apply prefix_app_r.
Qed.

Lemma accounts_recv fd tr0 served inb outb new bs :
  accounts fd tr0 served inb outb new →
  accounts fd tr0 served (inb ++ bs) outb (new ++ [EvRecv fd bs]).
Proof.
  intros Hac. eapply accounts_grow; [exact Hac|..].
  - rewrite received_bytes_snoc, (ac_received _ _ _ _ _ _ Hac), <-app_assoc. f_equal. f_equal.
    unfold received_bytes. simpl. rewrite decide_True by done. by rewrite app_nil_r.
  - rewrite sent_bytes_snoc. unfold sent_bytes at 2. simpl. rewrite app_nil_r. apply Hac.
Qed.

Lemma accounts_send fd tr0 served inb outb new bs :
  accounts fd tr0 served inb (bs ++ outb) new →
  accounts fd tr0 served inb outb (new ++ [EvSend fd bs]).
Proof.
  intros Hac. eapply accounts_grow; [exact Hac|..].
  - rewrite received_bytes_snoc. unfold received_bytes at 2. simpl. rewrite app_nil_r. apply Hac.
  - rewrite sent_bytes_snoc, <-(ac_sent _ _ _ _ _ _ Hac), <-app_assoc. f_equal.
    unfold sent_bytes. simpl. rewrite decide_True by done. by rewrite app_nil_r.
Qed.

(** Events that transfer nothing on [fd]. *)
Lemma accounts_quiet fd tr0 served inb outb new more :
  accounts fd tr0 served inb outb new →
  sent_bytes fd more = [] → received_bytes fd more = [] →
  accounts fd tr0 served inb outb (new ++ more).
Proof.
  intros Hac Hs Hr. eapply accounts_grow; [exact Hac|..]; unfold sent_bytes, received_bytes in *;
    rewrite fmap_app, join_app, ?Hs, ?Hr, app_nil_r; apply Hac.
Qed.

Lemma accounts_answer fd tr0 served inb new type arg body more :
  accounts fd tr0 served (request_frame type arg ++ inb) [] new → request_ok type arg →
  sent_bytes fd more = [] → received_bytes fd more = [] →
  answered (QReq fd type arg) (tr0 ++ new) body (tr0 ++ new ++ more) →
  accounts fd tr0 (served ++ [(type, arg, body)]) inb (response_frame body) (new ++ more).
Proof.
  intros Hac Hok Hs Hr Ha.
  destruct (accounts_quiet _ _ _ _ _ _ more Hac Hs Hr) as [Hrecv Hsent Hoks Hans].
  unfold requests_of, responses_of in *. constructor.
  - unfold requests_of. rewrite fmap_app, join_app. simpl. by rewrite app_nil_r, <-app_assoc.
  - unfold responses_of. rewrite fmap_app, join_app. simpl. rewrite app_nil_r in *. by rewrite Hsent.
  - apply Forall_app. split; [done|]. by constructor.
  - apply Forall_app. split; [done|]. constructor; [|done].
    exists (tr0 ++ new), (tr0 ++ new ++ more). by split.
Qed.

Lemma conn_accounts fd tr0 served inb outb new inb' outb' tr' :
  accounts fd tr0 served inb outb new →
  conn fd (inb, outb, tr0 ++ new) (inb', outb', tr') →
  ∃ more served', tr' = tr0 ++ new ++ more ∧
    accounts fd tr0 (served ++ served') inb' outb' (new ++ more).
Proof.
  intros Hac Hstep. inversion Hstep; subst; clear Hstep.
  - exists [EvRecv fd bs], []. split; [by rewrite app_assoc|]. rewrite app_nil_r.
    by apply accounts_recv.
  - match goal with H : answered _ _ _ _ |- _ => rename H into Ha end.
    destruct (ran_quiet fd _ _ _ (answered_ran _ _ _ _ Ha)) as (more & -> & Hs & Hr).
    exists more, [(type, arg, body)]. rewrite <-app_assoc in *. split; [done|].
    by apply accounts_answer.
  - exists [EvSend fd bs], []. split; [by rewrite app_assoc|]. rewrite app_nil_r.
    by apply accounts_send.
Qed.

Lemma rtc_conn_accounts fd tr0 served new inb outb st :
  accounts fd tr0 served inb outb new →
  rtc (conn fd) (inb, outb, tr0 ++ new) st →
  ∃ new' served', st.2 = tr0 ++ new' ∧ accounts fd tr0 served' st.1.1 st.1.2 new'.
Proof.
  intros Hac Hrtc. remember (inb, outb, tr0 ++ new) as s0 eqn:Hs0.
  revert served new inb outb Hac Hs0.
  induction Hrtc as [s|s1 [[inb1 outb1] tr1] s3 Hstep _ IH]; intros served new inb outb Hac ->.
  { by exists new, served. }
  destruct (conn_accounts _ _ _ _ _ _ _ _ _ Hac Hstep) as (more & served' & -> & Hac').
  by eapply (IH _ (new ++ more)).
Qed.

(** A connection that is given up sent nothing more. *)
Lemma conn_last_grow fd tr0 new served inb outb tr' :
  conn_last fd (tr0 ++ new) tr' → accounts fd tr0 served inb outb new →
  ∃ more inb', tr' = tr0 ++ new ++ more ∧ accounts fd tr0 served inb' outb (new ++ more).
Proof.
  intros [[bs ->]|[r Hr]] Hac.
  - exists [EvRecv fd bs], (inb ++ bs). split; [by rewrite app_assoc|].
    by apply accounts_recv.
  - destruct (ran_quiet fd _ _ _ Hr) as (more & -> & Hs & Hre).
    exists more, inb. split; [by rewrite app_assoc|]. by apply accounts_quiet.
Qed.

(** The decoder finds the served requests first. *)
Lemma spec_frames_served (served : list exchange) rest :
  Forall (λ x, request_ok x.1.1 x.1.2) served →
  (spec_frames (requests_of served ++ rest)).1 = served.*1 ++ (spec_frames rest).1.
Proof.
  induction 1 as [|[[type arg] body] served Hok _ IH]; [done|].
  change (requests_of (_ :: served)) with (request_frame type arg ++ requests_of served).
  rewrite <-app_assoc, spec_frames_frame by done.
  destruct (spec_frames (requests_of served ++ rest)) as [rs rest']. simpl in *.
  by rewrite IH.
Qed.

Lemma accounts_in_order fd tr0 served inb outb new :
  accounts fd tr0 served inb outb new → in_order_on fd (tr0 ++ new) new.
Proof.
  intros [Hr Hs Hok Ha]. exists served, (spec_frames inb).1, outb. rewrite Hr.
  split_and!; [by apply spec_frames_served | done | done].
Qed.

End conn_facts.

(** ** Properties *)

Section session_properties.
Context {W : Type} {OS : Posix W} `{!PosixLaws W}.
Implicit Types m : machine W.

(** C16: a connection of the threaded servers is served in order. Whatever the
    peer sends, however the kernel splits the bytes, and for any number of
    rounds of the worker's loop, the rounds return without touching memory
    outside the buffers, and there is a list of served exchanges such that:
    the requests served are the first ones decoded from the bytes received,
    each response answers its request, and the bytes sent so far are a prefix
    of the responses, one frame per request in the order of the requests. No
    descriptor is opened or closed and only the two buffers hold memory. *)
Theorem session_answers_in_order tp self n fd input output m :
  session_repr input output [] [] →
  ∃ r m' new served later unsent,
    session_rounds tp self n fd input output m = Ret r m' ∧
    m_trace m' = m_trace m ++ new ∧
    (spec_frames (received_bytes fd new)).1 = served.*1 ++ later ∧
    sent_bytes fd new ++ unsent = responses_of served ∧
    Forall (λ x, ∃ tr tr', answered (QReq fd x.1.1 x.1.2) tr x.2 tr' ∧
      tr' `prefix_of` m_trace m') served ∧
    m_open m' = m_open m ∧ m_heap m' = m_heap m ∧
    match r with
    | inl (input', output') | inr (input', output') =>
      balanced m m' input output input' output' ∧ zlen unsent = buf_length output'
    end.
Proof.
  intros Hse.
  assert (wp true (session_rounds tp self n fd input output)
    (session_post fd input output [] [] m) m) as Hwp by (by eapply session_rounds_spec).
  apply wp_total_inv in Hwp as (r & m' & Hrun & Hpost).
  assert (∃ input' output' inb' outb' tr, (r = inl (input', output') ∨ r = inr (input', output')) ∧
    local m m' ∧ balanced m m' input output input' output' ∧
    session_repr input' output' inb' outb' ∧
    rtc (conn fd) ([], [], m_trace m) (inb', outb', tr) ∧ conn_last fd tr (m_trace m'))
    as (input' & output' & inb' & outb' & tr & Hr & Hlo & Hb & Hse' & Hrtc & Hlast).
  { destruct r as [[i o]|[i o]]; simpl in Hpost.
    - destruct Hpost as (? & ? & inb' & outb' & ? & ?).
      exists i, o, inb', outb', (m_trace m'). split_and!; eauto. apply conn_last_refl.
    - destruct Hpost as (? & ? & inb' & outb' & tr & ? & ? & ?).
      exists i, o, inb', outb', tr. eauto 10. }
  edestruct (rtc_conn_accounts fd (m_trace m) [] [] [] []) as (new & served & Htr & Hac).
  { by constructor. }
  { rewrite app_nil_r. exact Hrtc. }
  simpl in Htr, Hac. subst tr.
  destruct (conn_last_grow fd (m_trace m) new served inb' outb' (m_trace m') Hlast Hac)
    as (more & inb2 & Htr' & [Hrecv Hsent Hok Hans]).
  exists r, m', (new ++ more), served, (spec_frames inb2).1, outb'.
  rewrite Htr'. split_and!; try done; try apply Hlo.
  - by rewrite Hrecv, spec_frames_served.
  - by destruct Hr as [->| ->]; (split; [done|]; rewrite (br_length _ _ (se_output _ _ _ _ Hse'))).
Qed.

(** C17: one round of the worker's loop is a run of the abstract connection.
    It returns; a round that continues has moved the connection by steps that
    read only while no complete request is pending and nothing is left to
    send, and that answer a request only once the previous response is sent;
    a round that gives up may have lost one last step. The descriptors and
    every heap block but those of the two buffers are as before. *)
Theorem session_round_refines tp self fd input output inb outb m :
  session_repr input output inb outb →
  ∃ r m', session_round tp self fd input output m = Ret r m' ∧ local m m' ∧
    match r with
    | inl (input', output') => balanced m m' input output input' output' ∧
        ∃ inb' outb', session_repr input' output' inb' outb' ∧
          rtc (conn fd) (inb, outb, m_trace m) (inb', outb', m_trace m')
    | inr (input', output') => balanced m m' input output input' output' ∧
        ∃ inb' outb' tr, session_repr input' output' inb' outb' ∧
          rtc (conn fd) (inb, outb, m_trace m) (inb', outb', tr) ∧
          conn_last fd tr (m_trace m')
    end.
Proof.
  intros Hse.
  assert (wp true (session_round tp self fd input output)
    (session_post fd input output inb outb m) m) as Hwp by (by eapply session_round_spec).
  apply wp_total_inv in Hwp as (r & m' & Hrun & Hpost). exists r, m'.
  by destruct r as [[i o]|[i o]]; destruct Hpost as (? & ? & ?).
Qed.

End session_properties.

(** ** Concrete runs *)

Definition fresh_input : wc_buffer := WcBuffer None 0 0 WC_TCP_INPUT_LIMIT.
Definition fresh_output : wc_buffer := WcBuffer None 0 0 WC_TCP_OUTPUT_LIMIT.

Lemma fresh_session : session_repr fresh_input fresh_output [] [].
Proof. by constructor; [apply buffer_repr_empty| |apply buffer_repr_empty|]. Qed.

(** Two [pwd] requests arrive in one read; the first response needs two sends. *)
Definition pipelined : script :=
  Script [] [inl (request_frame WC_REQUEST_PWD [] ++ request_frame WC_REQUEST_PWD [])] []
    [inl 3] [] [inl [POLLIN]; inl [POLLOUT]; inl [POLLOUT]; inl [POLLOUT]]
    [(lit "/srv", 0); (lit "/tmp", 0)] [] 0 [] [].

Example pipelined_responses :
  match session_rounds Tcp 7 4 5 fresh_input fresh_output (boot pipelined) with
  | Ret _ m' => sent_bytes 5 (m_trace m')
  | _ => []
  end = response_frame (lit "/srv") ++ response_frame (lit "/tmp").
Proof. vm_compute. reflexivity. Qed.

Lemma session_answers_in_order_witness :
  ∃ r m', session_rounds Tcp 7 4 5 fresh_input fresh_output (boot pipelined) = Ret r m' ∧
    m_open m' = m_open (boot pipelined).
Proof.
  destruct (session_answers_in_order Tcp 7 4 5 fresh_input fresh_output (boot pipelined)
    fresh_session) as (r & m' & _ & _ & _ & _ & Hrun & _ & _ & _ & _ & Ho & _).
  exists r, m'. split; [exact Hrun | exact Ho].
Defined.

Lemma session_round_refines_witness :
  ∃ r m', session_round UdsThreaded 7 5 fresh_input fresh_output (boot pipelined) = Ret r m' ∧
    local (boot pipelined) m'.
Proof.
  destruct (session_round_refines UdsThreaded 7 5 fresh_input fresh_output [] []
    (boot pipelined) fresh_session) as (r & m' & Hrun & Hl & _).
  exists r, m'. split; [exact Hrun | exact Hl].
Defined.
