(* ===== verification/ServerUdsTalk.v ===== *)
(** * The single-threaded server: the conversations

    The event loop serves many clients in one thread, and a descriptor that was
    closed may be given to the next client. A conversation is what happens
    between the accept and the close of a descriptor. In a run of the abstract
    server every conversation is served in order, and with the refinement of
    [ServerUdsProps] so is every conversation of [wc_server_uds_run]. *)

From S2P Require Import Prelude Machine Script Buffer Protocol Queue SocketUtils Logging Commands Respond Listener ServerUds ServerUdsClient ServerUdsTable ServerUdsLoop ServerUdsProps Session.

(** ** Conversations *)

(** The finished conversations on [fd] so far, and the one going on. *)
Definition talk_step (fd : Z) (st : list (list event) * option (list event)) (e : event)
    : list (list event) * option (list event) :=
  let '(closed, current) := st in
  match e with
  | EvAccept fd' =>
    if decide (fd' = fd) then (closed, Some []) else (closed, (λ c, c ++ [e]) <$> current)
  | EvClose fd' =>
    if decide (fd' = fd) then (closed ++ option_list current, None)
    else (closed, (λ c, c ++ [e]) <$> current)
  | _ => (closed, (λ c, c ++ [e]) <$> current)
  end.

Definition talks (fd : Z) (tr : list event) : list (list event) * option (list event) :=
  foldl (talk_step fd) ([], None) tr.

(** Events that neither begin nor end a conversation on [fd]. *)
Definition within_talk (fd : Z) (e : event) : Prop := e ≠ EvAccept fd ∧ e ≠ EvClose fd.

Section talks.
Implicit Types (tr more : list event) (fd : Z).

Lemma talks_app fd tr more : talks fd (tr ++ more) = foldl (talk_step fd) (talks fd tr) more.
Proof. apply foldl_app. Qed.

Lemma talks_within fd tr more :
  Forall (within_talk fd) more →
  talks fd (tr ++ more) = ((talks fd tr).1, (λ c, c ++ more) <$> (talks fd tr).2).
Proof.
  rewrite talks_app. destruct (talks fd tr) as [closed current]. simpl.
  intros Hall. revert current. induction Hall as [|e more [Ha Hc] _ IH]; intros current; cbn [foldl].
  { destruct current; simpl; by rewrite ?app_nil_r. }
  assert (talk_step fd (closed, current) e = (closed, (λ c, c ++ [e]) <$> current)) as ->.
  { destruct e; simpl; try done; rewrite decide_False; congruence. }
  rewrite IH. destruct current; simpl; [|done]. by rewrite <-app_assoc.
Qed.

Lemma talks_accept fd tr : talks fd (tr ++ [EvAccept fd]) = ((talks fd tr).1, Some []).
Proof. rewrite talks_app. destruct (talks fd tr). simpl. by rewrite decide_True. Qed.

Lemma talks_close fd tr :
  talks fd (tr ++ [EvClose fd]) = ((talks fd tr).1 ++ option_list (talks fd tr).2, None).
Proof. rewrite talks_app. destruct (talks fd tr). simpl. by rewrite decide_True. Qed.

(** Without a conversation, events that transfer nothing change nothing. *)
Lemma talks_quiet fd st more :
  st.2 = None → Forall no_traffic more → foldl (talk_step fd) st more = st.
Proof.
  destruct st as [closed current]. simpl. intros -> Hall.
  induction Hall as [|e more He _ IH]; [done|]. simpl.
  destruct e; simpl in *; try done. case_decide; [|done]. by rewrite app_nil_r.
Qed.

End talks.

(** ** The abstract server *)

(** The frames of the pending requests of [fd]. *)
Definition pending (fd : Z) (rs : list qreq) : list byte :=
  mjoin ((λ r, request_frame (qq_type r) (qq_arg r)) <$> filter (λ r, qq_fd r = fd) rs).

Section pending.
Implicit Types rs : list qreq.

Lemma pending_cons fd r rs :
  pending fd (r :: rs) =
    if decide (qq_fd r = fd) then request_frame (qq_type r) (qq_arg r) ++ pending fd rs
    else pending fd rs.
Proof. unfold pending. rewrite filter_cons. by case_decide. Qed.

Lemma pending_snoc fd r rs :
  pending fd (rs ++ [r]) =
    if decide (qq_fd r = fd) then pending fd rs ++ request_frame (qq_type r) (qq_arg r)
    else pending fd rs.
Proof.
  induction rs as [|r' rs IH]; simpl.
  - rewrite pending_cons. case_decide; [|done]. by rewrite app_nil_r.
  - rewrite !pending_cons, IH. repeat case_decide; rewrite ?app_assoc; done.
Qed.

Lemma pending_discard fd fd' rs :
  pending fd (filter (other_client fd') rs) = if decide (fd' = fd) then [] else pending fd rs.
Proof.
  induction rs as [|r rs IH]; [by case_decide|]. rewrite filter_cons, pending_cons.
  destruct (decide (other_client fd' r)) as [Ho|Ho]; unfold other_client in Ho.
  - rewrite pending_cons, IH. repeat case_decide; congruence.
  - rewrite IH. repeat case_decide; try done. lia.
Qed.

End pending.

Section abstract.
Context {W : Type} {OS : Posix W}.
Implicit Types (tr : list event) (fd : Z).

(** The conversation going on with [fd], if it is connected: what was received
    is what was served, what is queued and what is not decoded yet. *)
Definition talk_state (fd : Z) (tr0 new : list event)
    (current : option (list event)) (io : option (list byte * list byte)) (rs : list qreq) : Prop :=
  match current, io with
  | None, None => pending fd rs = []
  | Some evs, Some (inb, outb) =>
    ∃ before served, tr0 ++ new = before ++ evs ∧
      accounts fd before served (pending fd rs ++ inb) outb evs
  | _, _ => False
  end.

Record talk_inv (fd : Z) (tr0 : list event) (cs : gmap Z (list byte * list byte))
    (rs : list qreq) (new : list event) : Prop := {
  ti_closed : Forall (in_order_on fd (tr0 ++ new)) (talks fd new).1;
  ti_current : talk_state fd tr0 new (talks fd new).2 (cs !! fd) rs;
}.

Lemma in_order_grow fd tr more evs : in_order_on fd tr evs → in_order_on fd (tr ++ more) evs.
Proof.
  intros (served & later & unsent & Hf & Hs & Ha). exists served, later, unsent.
  split_and!; [done | done|]. eapply Forall_impl; [exact Ha|].
  intros x (tr1 & tr2 & ? & Hp). exists tr1, tr2. split; [done|]. by apply prefix_app_r.
Qed.

Lemma in_orders_grow fd tr more (evss : list (list event)) :
  Forall (in_order_on fd tr) evss → Forall (in_order_on fd (tr ++ more)) evss.
Proof. intros Hall. eapply Forall_impl; [exact Hall|]. intros. by apply in_order_grow. Qed.

(** A step within the conversation: how the current one changes. *)
Lemma talk_inv_within fd tr0 cs rs new cs' rs' more :
  talk_inv fd tr0 cs rs new → Forall (within_talk fd) more →
  (∀ before evs served inb outb, tr0 ++ new = before ++ evs → cs !! fd = Some (inb, outb) →
     accounts fd before served (pending fd rs ++ inb) outb evs →
     ∃ served' inb' outb', cs' !! fd = Some (inb', outb') ∧
       accounts fd before served' (pending fd rs' ++ inb') outb' (evs ++ more)) →
  (cs !! fd = None → pending fd rs = [] → cs' !! fd = None ∧ pending fd rs' = []) →
  talk_inv fd tr0 cs' rs' (new ++ more).
Proof.
  intros [Hcl Hcur] Hw Hgo Hno. constructor; rewrite (talks_within _ _ _ Hw); simpl.
  { rewrite app_assoc. by apply in_orders_grow. }
  unfold talk_state in *. destruct (talks fd new).2 as [evs|], (cs !! fd) as [[inb outb]|] eqn:Hio;
    simpl; try done.
  - destruct Hcur as (before & served & Heq & Hac).
    destruct (Hgo _ _ _ _ _ Heq eq_refl Hac) as (served' & inb' & outb' & -> & Hac').
    exists before, served'. split; [by rewrite app_assoc, Heq, app_assoc | done].
  - by destruct (Hno eq_refl Hcur) as [-> ->].
Qed.

(** Nothing happens on [fd]. *)
Lemma talk_inv_other fd tr0 cs rs new cs' rs' more :
  talk_inv fd tr0 cs rs new → Forall (within_talk fd) more →
  sent_bytes fd more = [] → received_bytes fd more = [] →
  cs' !! fd = cs !! fd → pending fd rs' = pending fd rs →
  talk_inv fd tr0 cs' rs' (new ++ more).
Proof.
  intros HI Hw Hs Hr Hcs Hp. eapply talk_inv_within; [exact HI | done |..]; rewrite Hcs, Hp; [|done].
  intros before evs served inb outb _ Hio Hac. exists served, inb, outb. split; [done|].
  by apply accounts_quiet.
Qed.

(** The conversation ends. *)
Lemma talk_inv_close fd tr0 cs rs new io :
  talk_inv fd tr0 cs rs new → cs !! fd = Some io →
  talk_inv fd tr0 (delete fd cs) (filter (other_client fd) rs) (new ++ [EvClose fd]).
Proof.
  intros [Hcl Hcur] Hio. constructor; rewrite talks_close; simpl.
  - rewrite app_assoc. apply Forall_app. split; [by apply in_orders_grow|].
    unfold talk_state in Hcur. destruct (talks fd new).2 as [evs|]; simpl; [|done].
    constructor; [|done]. rewrite Hio in Hcur. destruct io as [inb outb].
    destruct Hcur as (before & served & Heq & Hac). apply in_order_grow. rewrite Heq.
    by eapply accounts_in_order.
  - rewrite lookup_delete_eq. simpl. by rewrite pending_discard, decide_True.
Qed.

Lemma talk_inv_accept fd tr0 cs rs new :
  talk_inv fd tr0 cs rs new → cs !! fd = None →
  talk_inv fd tr0 (<[fd := ([], [])]> cs) rs (new ++ [EvAccept fd]).
Proof.
  intros [Hcl Hcur] Hio. constructor; rewrite talks_accept; simpl.
  - rewrite app_assoc. by apply in_orders_grow.
  - rewrite lookup_insert_eq. rewrite Hio in Hcur. unfold talk_state in Hcur.
    destruct (talks fd new).2; [done|]. exists (tr0 ++ new ++ [EvAccept fd]), [].
    rewrite !app_nil_r. split; [done|]. rewrite Hcur. by constructor.
Qed.

(** The events of a command. *)
Lemma ran_within fd r tr tr' :
  ran r tr tr' → ∃ more, tr' = tr ++ more ∧ Forall (within_talk fd) more ∧
    sent_bytes fd more = [] ∧ received_bytes fd more = [].
Proof.
  intros Hr. destruct (ran_quiet fd _ _ _ Hr) as (more & Heq & Hs & Hre). exists more.
  split_and!; [done| |done|done]. destruct (ran_shift _ _ _ Hr) as (more' & Heq' & Hall & _).
  rewrite Heq in Heq'. apply app_inv_head in Heq' as <-.
  eapply Forall_impl; [exact Hall|]. by intros [].
Qed.

(** The requests that can be pending. *)
Definition reqs_ok (rs : list qreq) : Prop := Forall (λ r, request_ok (qq_type r) (qq_arg r)) rs.

Lemma reqs_ok_discard fd rs : reqs_ok rs → reqs_ok (filter (other_client fd) rs).
Proof.
  unfold reqs_ok. rewrite !Forall_forall. intros Hall r [_ Hin]%list_elem_of_filter. by apply Hall.
Qed.

Lemma serve_talks fd tr0 cs rs new cs' rs' tr' :
  serve (cs, rs, tr0 ++ new) (cs', rs', tr') → reqs_ok rs → talk_inv fd tr0 cs rs new →
  ∃ new', tr' = tr0 ++ new' ∧ reqs_ok rs' ∧ talk_inv fd tr0 cs' rs' new'.
Proof.
  intros Hstep Hoks HI. inversion Hstep as [? r rs1 ? inb body ? Hio Ha|? r rs1 ? inb e ? Hio [Hran _]];
    subst; clear Hstep;
    apply Forall_cons in Hoks as [Hok Hoks].
  - destruct (ran_within fd _ _ _ (answered_ran _ _ _ _ Ha)) as (more & -> & Hw & Hs & Hr).
    rewrite <-app_assoc. exists (new ++ more). split_and!; [done | done|].
    destruct (decide (qq_fd r = fd)) as [<-|Hne].
    + eapply talk_inv_within; [exact HI | done |..]; [|congruence].
      intros before evs served inb1 outb1 Heq Hio1 Hac. rewrite Hio in Hio1. injection Hio1 as <- <-.
      rewrite pending_cons, decide_True, <-app_assoc in Hac by done.
      exists (served ++ [(qq_type r, qq_arg r, body)]), inb, (response_frame body).
      rewrite lookup_insert_eq. split; [done|]. apply accounts_answer; [done..|].
      rewrite app_assoc, <-Heq. rewrite <-app_assoc in Ha |- *. by destruct r.
    + eapply talk_inv_other; [exact HI | done | done | done | by rewrite lookup_insert_ne |].
      by rewrite pending_cons, decide_False.
  - destruct (ran_within fd _ _ _ Hran) as (more & -> & Hw & Hs & Hr).
    rewrite <-!app_assoc. exists (new ++ more ++ [EvClose (qq_fd r)]). split_and!; [done| |].
    { by apply reqs_ok_discard. }
    assert (talk_inv fd tr0 cs (r :: rs1) (new ++ more)) as HI1 by (by eapply talk_inv_other).
    rewrite app_assoc. destruct (decide (qq_fd r = fd)) as [<-|Hne].
    + apply (talk_inv_close _ _ _ _ _ _ HI1) in Hio. rewrite filter_cons in Hio.
      unfold other_client in Hio at 1. by rewrite decide_False in Hio by auto.
    + eapply talk_inv_other; [exact HI1 | | done | done | by rewrite lookup_delete_ne |].
      * constructor; [|done]. split; congruence.
      * by rewrite pending_discard, pending_cons, !decide_False.
Qed.

(** A single event on another descriptor. *)
Lemma talk_inv_event fd tr0 cs rs new cs' rs' e :
  talk_inv fd tr0 cs rs new → within_talk fd e →
  sent_bytes fd [e] = [] → received_bytes fd [e] = [] →
  cs' !! fd = cs !! fd → pending fd rs' = pending fd rs →
  talk_inv fd tr0 cs' rs' (new ++ [e]).
Proof. intros ? He ????. eapply talk_inv_other; [done | by constructor | done..]. Qed.

Lemma bytes_elsewhere fd fd' bs :
  fd' ≠ fd → received_bytes fd [EvRecv fd' bs] = [] ∧ sent_bytes fd [EvSend fd' bs] = [].
Proof. intros Hne. unfold received_bytes, sent_bytes. simpl. by rewrite !decide_False. Qed.

Lemma uds_talks fd tr0 cs rs new cs' rs' tr' :
  uds (cs, rs, tr0 ++ new) (cs', rs', tr') → reqs_ok rs → talk_inv fd tr0 cs rs new →
  ∃ new', tr' = tr0 ++ new' ∧ reqs_ok rs' ∧ talk_inv fd tr0 cs' rs' new'.
Proof.
  intros Hstep Hoks HI. inversion Hstep as [? ? Hserve|? ? ? g Hno|? ? ? g fl
    |? ? ? g inb outb bs Hio|? ? ? g type arg rest outb Hio Hok|? ? ? g inb bs rest Hio|? ? ? g io Hio];
    subst; clear Hstep; rewrite <-?app_assoc.
  - by eapply serve_talks.
  - exists (new ++ [EvAccept g]). split_and!; [done | done|].
    destruct (decide (g = fd)) as [->|Hne]; [by apply talk_inv_accept|].
    eapply talk_inv_event; [done | split; congruence | done | done | by rewrite lookup_insert_ne | done].
  - exists (new ++ [EvSetfl g fl]). split_and!; [done | done|]. by eapply talk_inv_event.
  - exists (new ++ [EvRecv g bs]). split_and!; [done | done|].
    destruct (decide (g = fd)) as [->|Hne].
    + eapply talk_inv_within; [exact HI | by repeat constructor | | congruence].
      intros before evs served inb1 outb1 _ Hio1 Hac. rewrite Hio in Hio1. injection Hio1 as <- <-.
      exists served, (inb ++ bs), outb. rewrite lookup_insert_eq, app_assoc. split; [done|].
      by apply accounts_recv.
    + eapply talk_inv_event; [done | done | done | by apply bytes_elsewhere | by rewrite lookup_insert_ne | done].
  - exists new. split_and!; [done | apply Forall_app; split; [done | by apply Forall_singleton]|].
    rewrite <-(app_nil_r new). destruct (decide (g = fd)) as [->|Hne].
    + eapply talk_inv_within; [exact HI | done | | congruence].
      intros before evs served inb1 outb1 _ Hio1 Hac. rewrite Hio in Hio1. injection Hio1 as <- <-.
      exists served, rest, outb. rewrite lookup_insert_eq, pending_snoc, decide_True, app_nil_r by done.
      by rewrite <-app_assoc.
    + eapply talk_inv_other; [done..| by rewrite lookup_insert_ne |]. by rewrite pending_snoc, decide_False.
  - exists (new ++ [EvSend g bs]). split_and!; [done | done|].
    destruct (decide (g = fd)) as [->|Hne].
    + eapply talk_inv_within; [exact HI | by repeat constructor | | congruence].
      intros before evs served inb1 outb1 _ Hio1 Hac. rewrite Hio in Hio1. injection Hio1 as <- <-.
      exists served, inb, rest. rewrite lookup_insert_eq. split; [done|]. by apply accounts_send.
    + eapply talk_inv_event; [done | done | by apply bytes_elsewhere | done | by rewrite lookup_insert_ne | done].
  - exists (new ++ [EvClose g]). split_and!; [done | by apply reqs_ok_discard|].
    destruct (decide (g = fd)) as [->|Hne]; [by eapply talk_inv_close|].
    eapply talk_inv_event; [done | split; congruence | done | done | by rewrite lookup_delete_ne|].
    by rewrite pending_discard, decide_False.
Qed.

Lemma past_talks fd tr0 cs rs tr :
  past tr0 cs rs tr → ∃ new, tr = tr0 ++ new ∧ reqs_ok rs ∧ talk_inv fd tr0 cs rs new.
Proof.
  intros Hp. apply (rtc_ind_r (λ s, ∃ new, s.2 = tr0 ++ new ∧ reqs_ok s.1.2 ∧
    talk_inv fd tr0 s.1.1 s.1.2 new) (∅, [], tr0)) in Hp; [done|..].
  - exists []. rewrite app_nil_r. split_and!; [done | by constructor | by constructor].
  - intros [[cs1 rs1] tr1] [[cs2 rs2] tr2] _ Hstep (new & Htr & Hoks & HI). simpl in *. subst tr1.
    by eapply uds_talks.
Qed.

(** All conversations of a whole run are over, and each was served in order. *)
Lemma uds_run_talks tr tr' fd :
  uds_run tr tr' → ∃ new, tr' = tr ++ new ∧ (talks fd new).2 = None ∧
    Forall (in_order_on fd tr') (talks fd new).1.
Proof.
  intros (tr1 & tr2 & (setup & -> & Hsetup) & Hpast & (down & -> & Hdown)).
  destruct (past_talks fd _ _ _ _ Hpast) as (new & -> & _ & [Hcl Hcur]).
  exists (setup ++ new ++ down). rewrite !app_assoc. split; [done|].
  assert (talks fd (setup ++ new) = talks fd new) as Hbefore.
  { rewrite talks_app. by assert (talks fd setup = ([], None)) as -> by (by apply talks_quiet). }
  rewrite lookup_empty in Hcur. unfold talk_state in Hcur.
  destruct (talks fd new).2 eqn:Hnone; [done|].
  assert (talks fd ((setup ++ new) ++ down) = talks fd new) as ->.
  { by rewrite talks_app, Hbefore, talks_quiet. }
  split; [done|]. by apply in_orders_grow.
Qed.

End abstract.

(** ** Properties *)

Section talk_properties.
Context {W : Type} {OS : Posix W} `{!PosixLaws W, !PosixFair W}.
Implicit Types (m : machine W).

Lemma server_conversations fuel clients0 path stop m :
  zlen clients0 = WC_UDS_MAX_CLIENTS → m_heap m = ∅ →
  (os_budget (m_os m) + OUTPUT_ROOM < fuel)%nat →
  ∃ r m' new, wc_server_uds_run fuel clients0 path stop m = Ret r m' ∧
    m_trace m' = m_trace m ++ new ∧
    ∀ fd, (talks fd new).2 = None ∧ Forall (in_order_on fd (m_trace m')) (talks fd new).1.
Proof.
  intros Hlen Hheap Hfuel.
  assert (wp true (wc_server_uds_run fuel clients0 path stop) (λ _ m',
    uds_run (m_trace m) (m_trace m')) m) as Hwp.
  { apply server_uds_run_spec; [done | done | apply enough_budget; lia | done]. }
  apply wp_total_inv in Hwp as (r & m' & Hrun & Hur).
  destruct (uds_run_talks _ _ 0 Hur) as (new & Ht & _). exists r, m', new. split_and!; [done | done|].
  intros fd. destruct (uds_run_talks _ _ fd Hur) as (new' & Ht' & Hfd).
  rewrite Ht in Ht'. by apply app_inv_head in Ht' as <-.
Qed.

(** C8: the single-threaded server answers every client in order. In a whole
    run of [wc_server_uds_run] every accepted connection has been closed, and in
    each conversation, whatever the other clients did in between, the requests
    served are the first ones decoded from the bytes that client sent, each
    response answers its request by a command run during the server's run, and
    what was sent to the client is a prefix of the responses in the order of its
    requests. *)
Theorem wc_server_uds_run_in_order fuel clients0 path stop m :
  zlen clients0 = WC_UDS_MAX_CLIENTS → m_heap m = ∅ →
  (os_budget (m_os m) + OUTPUT_ROOM < fuel)%nat →
  ∃ r m' new, wc_server_uds_run fuel clients0 path stop m = Ret r m' ∧
    m_trace m' = m_trace m ++ new ∧
    ∀ fd, (talks fd new).2 = None ∧ Forall (in_order_on fd (m_trace m')) (talks fd new).1.
Proof. apply server_conversations. Qed.

End talk_properties.

(** ** Concrete runs *)

(** The conversation of [one_session]. *)
Lemma wc_server_uds_run_in_order_witness :
  ∃ r m', wc_server_uds_run (Z.to_nat 66000) raw_table (Some (lit "/tmp/s")) (Some ())
      (boot one_session) = Ret r m' ∧ Forall (in_order_on 4 (m_trace m')) (talks 4 (m_trace m')).1.
Proof.
  destruct (wc_server_uds_run_in_order (Z.to_nat 66000) raw_table (Some (lit "/tmp/s"))
    (Some ()) (boot one_session)) as (r & m' & new & Hrun & Ht & Hall).
  - reflexivity.
  - reflexivity.
  - change (os_budget (m_os (boot one_session))) with 7%nat.
    unfold OUTPUT_ROOM, WC_UDS_OUTPUT_LIMIT, UINT16_MAX, WC_PROTOCOL_RESPONSE_HEADER_SIZE. lia.
  - exists r, m'. split; [exact Hrun|]. simpl in Ht. rewrite Ht at 2. apply (Hall 4).
Defined.
