(* ===== verification/Threads.v ===== *)
(** * Threads

    The programs of concurrent threads and a logic for them. A thread is a
    sequence of atomic actions on a shared state, with unbounded loops; an
    action may have to wait, and says which shared locations it accesses. The
    logic is of the rely-guarantee kind: every thread is verified on its own
    against the steps the others may take ([rely]), and must itself respect
    what the others rely on. [safe n] covers the first [n] steps, so it makes
    no assumption on how long a thread runs. *)

From S2P Require Import Prelude.

(** ** Programs *)

(** An atomic action: the next state and a result, or the thread has to wait,
    or the behaviour is undefined. *)
Inductive progress (S A : Type) :=
| Next (s : S) (a : A)
| Blocked
| Undef.
Arguments Next {S A}.
Arguments Blocked {S A}.
Arguments Undef {S A}.

(** An access to a location of type [L]. *)
Record access (L : Type) := Acc { acc_write : bool; acc_loc : L }.
Arguments Acc {L}.
Arguments acc_write {L}.
Arguments acc_loc {L}.

Inductive prog (S L : Type) : Type → Type :=
| Pret {A} (a : A) : prog S L A
| Pbind {A B} (p : prog S L A) (k : A → prog S L B) : prog S L B
| Pact {A} (accs : list (access L)) (f : S → progress S A) : prog S L A
| Piter {X A} (body : X → prog S L (X + A)) (x : X) : prog S L A.
Arguments Pret {S L A}.
Arguments Pbind {S L A B}.
Arguments Pact {S L A}.
Arguments Piter {S L X A}.

#[global] Instance prog_ret {S L} : MRet (prog S L) := λ A a, Pret a.
#[global] Instance prog_bind {S L} : MBind (prog S L) := λ A B k p, Pbind p k.

Section semantics.
Context {S L : Type}.

Definition pvalue {A} (p : prog S L A) : option A :=
  match p with
  | Pret a => Some a
  | _ => None
  end.

(** One step of a thread; a thread that has returned takes none. *)
Fixpoint pstep {A} (p : prog S L A) (s : S) : progress S (prog S L A) :=
  match p in prog _ _ A return progress S (prog S L A) with
  | Pret _ => Blocked
  | Pbind p k =>
    match pvalue p with
    | Some a => Next s (k a)
    | None =>
      match pstep p s with
      | Next s' p' => Next s' (Pbind p' k)
      | Blocked => Blocked
      | Undef => Undef
      end
    end
  | Pact _ f =>
    match f s with
    | Next s' a => Next s' (Pret a)
    | Blocked => Blocked
    | Undef => Undef
    end
  | Piter body x =>
    Next s (Pbind (body x) (λ r, match r with
                                 | inl x' => Piter body x'
                                 | inr a => Pret a
                                 end))
  end.

(** What the next step accesses. *)
Fixpoint pnext {A} (p : prog S L A) : list (access L) :=
  match p with
  | Pbind p _ => pnext p
  | Pact accs _ => accs
  | _ => []
  end.

End semantics.

(** Loops over a list of indices: the body says whether to leave with a result. *)
Fixpoint pfor {S L A} (l : list nat) (body : nat → prog S L (option A)) (last : A) : prog S L A :=
  match l with
  | [] => mret last
  | i :: l =>
    r ← body i;
    match r with
    | Some a => mret a
    | None => pfor l body last
    end
  end.

(** ** The logic *)

Section logic.
Context {S L T : Type}.
(** The invariant of the shared state, what a thread relies on, what it may
    access, what it owes when its step creates a thread, and what it may wait
    for. *)
Context (Inv : S → Prop) (rely : T → relation S).
Context (perm : T → access L → S → Prop) (forks : S → S → Prop) (waits : T → S → Prop).
Context `{!∀ t, PreOrder (rely t)}.

Definition guarantee (t : T) (s s' : S) : Prop := ∀ t', t' ≠ t → rely t' s s'.

Record good_step (t : T) (s s' : S) : Prop := {
  gs_inv : Inv s';
  gs_guarantee : guarantee t s s';
  gs_forks : forks s s';
}.

(** [safe n t p Q s]: for [n] steps, whatever the other threads do, thread [t]
    running [p] has no undefined behaviour, accesses only what it may, keeps
    the invariant and its guarantee, and waits only for what it may; if it
    returns, [Q] holds. *)
Fixpoint safe (n : nat) (t : T) {A} (p : prog S L A) (Q : A → S → Prop) (s : S) : Prop :=
  match n with
  | O => True
  | Datatypes.S n =>
    ∀ s1, Inv s1 → rely t s s1 →
      match pvalue p with
      | Some a => Q a s1
      | None =>
        Forall (λ a, perm t a s1) (pnext p) ∧
        match pstep p s1 with
        | Next s2 p' => good_step t s1 s2 ∧ safe n t p' Q s2
        | Blocked => waits t s1
        | Undef => False
        end
      end
  end.

Definition sp (t : T) {A} (p : prog S L A) (Q : A → S → Prop) (s : S) : Prop :=
  ∀ n, safe n t p Q s.

Context (good_refl : ∀ t s, Inv s → good_step t s s).

Lemma safe_rely n t {A} (p : prog S L A) Q s s1 :
  safe n t p Q s → rely t s s1 → safe n t p Q s1.
Proof. destruct n; [done|]. intros Hs Hr s2 Hi Hr2. apply Hs; [done | by etrans]. Qed.

Lemma safe_mono n t {A} (p : prog S L A) (Q Q' : A → S → Prop) s :
  safe n t p Q s → (∀ a s, Q a s → Q' a s) → safe n t p Q' s.
Proof.
  revert p s. induction n as [|n IH]; [done|]. intros p s Hs HQ s1 Hi Hr.
  specialize (Hs s1 Hi Hr). destruct (pvalue p); [by apply HQ|].
  destruct Hs as [Hp Hs]. split; [done|]. destruct (pstep p s1); [|done..].
  destruct Hs. split; [done | by apply IH].
Qed.

Lemma pvalue_Some {A} (p : prog S L A) a : pvalue p = Some a → p = Pret a.
Proof. destruct p; naive_solver. Qed.

Lemma safe_bind n t {A B} (p : prog S L A) (k : A → prog S L B) Q Q' s :
  safe n t p Q' s → (∀ a s' n', (n' < n)%nat → Q' a s' → safe n' t (k a) Q s') →
  safe n t (Pbind p k) Q s.
Proof.
  revert p s. induction n as [|n IH]; [done|]. intros p s Hs Hk s1 Hi Hr.
  specialize (Hs s1 Hi Hr). cbn [pvalue pstep pnext].
  destruct (pvalue p) as [a|] eqn:Hp.
  - apply pvalue_Some in Hp as ->. split; [done|]. split; [by apply good_refl|].
    apply Hk; [lia | done].
  - destruct Hs as [Hperm Hs]. split; [done|].
    destruct (pstep p s1) as [s2 p'| |]; [|done..]. destruct Hs as [Hg Hs]. split; [done|].
    apply IH; [done|]. intros. apply Hk; [lia | done].
Qed.

Lemma sp_bind t {A B} (p : prog S L A) (k : A → prog S L B) Q s :
  sp t p (λ a s', sp t (k a) Q s') s → sp t (mbind k p) Q s.
Proof. intros Hp n. eapply safe_bind; [apply Hp|]. intros. done. Qed.

Lemma sp_mono t {A} (p : prog S L A) (Q Q' : A → S → Prop) s :
  sp t p Q s → (∀ a s, Q a s → Q' a s) → sp t p Q' s.
Proof. intros Hs HQ n. by eapply safe_mono. Qed.

Lemma sp_ret t {A} (a : A) (Q : A → S → Prop) s :
  (∀ s1, Inv s1 → rely t s s1 → Q a s1) → sp t (mret a) Q s.
Proof. intros HQ [|n]; [done|]. intros s1 Hi Hr. by apply HQ. Qed.

(** The invariant may be assumed at any point. *)
Lemma sp_inv t {A} (p : prog S L A) (Q : A → S → Prop) s :
  (∀ s1, Inv s1 → rely t s s1 → sp t p Q s1) → sp t p Q s.
Proof.
  intros Hsp [|n]; [done|]. intros s1 Hi Hr.
  exact (Hsp s1 Hi Hr (Datatypes.S n) s1 Hi (reflexivity s1)).
Qed.

(** What the logic says of the next step. *)
Lemma sp_next t {A} (p : prog S L A) Q s :
  Inv s → sp t p Q s →
  match pvalue p with
  | Some a => Q a s
  | None =>
    Forall (λ a, perm t a s) (pnext p) ∧
    match pstep p s with
    | Next s' p' => good_step t s s' ∧ sp t p' Q s'
    | Blocked => waits t s
    | Undef => False
    end
  end.
Proof.
  intros Hi Hs. pose proof (λ n, Hs (Datatypes.S n) s Hi (reflexivity s)) as Hn.
  destruct (pvalue p); [apply (Hn 0%nat)|]. split; [apply (Hn 0%nat)|].
  destruct (pstep p s) as [s' p'| |]; [|apply (Hn 0%nat)..].
  split; [apply (Hn 0%nat)|]. intros n. apply (Hn n).
Qed.

Lemma sp_rely t {A} (p : prog S L A) Q s s1 : sp t p Q s → rely t s s1 → sp t p Q s1.
Proof. intros Hs Hr n. by eapply safe_rely. Qed.

Lemma sp_act t {A} accs (f : S → progress S A) (Q : A → S → Prop) s :
  (∀ s1, Inv s1 → rely t s s1 → Forall (λ a, perm t a s1) accs ∧
     match f s1 with
     | Next s2 a => good_step t s1 s2 ∧ (∀ s3, Inv s3 → rely t s2 s3 → Q a s3)
     | Blocked => waits t s1
     | Undef => False
     end) →
  sp t (Pact accs f) Q s.
Proof.
  intros Hact [|n]; [done|]. intros s1 Hi Hr. destruct (Hact s1 Hi Hr) as [Hp Hf].
  cbn [pvalue pnext pstep]. split; [done|].
  destruct (f s1) as [s2 a| |]; [|done..]. destruct Hf as [Hg HQ]. split; [done|].
  by apply sp_ret.
Qed.

(** Loops: an invariant of the loop state that the other threads keep. *)
Lemma sp_iter t {X A} (body : X → prog S L (X + A)) (J : X → S → Prop) (Q : A → S → Prop) x s :
  (∀ x s s1, J x s → Inv s1 → rely t s s1 → J x s1) →
  (∀ x s, Inv s → J x s →
     sp t (body x) (λ r s', match r with
       | inl x' => J x' s'
       | inr a => ∀ s1, Inv s1 → rely t s' s1 → Q a s1
       end) s) →
  J x s → sp t (Piter body x) Q s.
Proof.
  intros Hst Hbody HJ n. revert x s HJ.
  induction (lt_wf n) as [n _ IH]; intros x s HJ. destruct n as [|n]; [done|].
  intros s1 Hi Hr. cbn [pvalue pnext pstep]. split; [done|]. split; [by apply good_refl|].
  eapply safe_bind; [apply Hbody; [done | by eapply Hst]|].
  intros [x'|a] s' n' Hn HJ'; cbn beta iota in *; [apply IH; [lia | done]|].
  by apply sp_ret.
Qed.

(** A loop over indices: [J l] holds with the indices [l] still to come. *)
Lemma sp_for t {A} (body : nat → prog S L (option A)) (J : list nat → S → Prop)
    last (Q : A → S → Prop) l s :
  (∀ i l s, J (i :: l) s →
     sp t (body i) (λ r s', match r with
       | Some a => ∀ s1, Inv s1 → rely t s' s1 → Q a s1
       | None => J l s'
       end) s) →
  (∀ s s1, J [] s → Inv s1 → rely t s s1 → Q last s1) →
  J l s → sp t (pfor l body last) Q s.
Proof.
  intros Hbody Hlast. revert s. induction l as [|i l IH]; intros s HJ; simpl.
  { apply sp_ret. intros. by eapply Hlast. }
  apply sp_bind. eapply sp_mono; [by apply Hbody|].
  intros [a|] s' HJ'; cbn beta iota in *; [by apply sp_ret | by apply IH].
Qed.

End logic.
