(* ===== verification/Workers.v ===== *)
(** * The threaded servers

    The worker threads and the main thread of server_tcp.c and
    server_uds_threaded.c, as programs over a shared state: the mutex, the
    [stopping] flag and the worker table of [struct wc_tcp_server], the
    threads the system knows, and the process. The two files have the same
    text up to log records, the listener and one call; they are written once
    over the transport. A call into another module is one atomic action of
    its thread; accesses to the shared structure are marked.

    [errno] is private to each thread. Three ghost fields record, per thread,
    what it owns and did: descriptors, heap blocks and transfer events. *)

From S2P Require Import Prelude Machine Script Buffer Protocol Queue SocketUtils Logging Commands Respond Listener Session Threads.

(** ** The POSIX threads interface *)

(** Error numbers of the calls, 0 on success; a call that fails does nothing. *)
Class Pthreads (W : Type) := {
  pt_mutex_init : W → Z * W;
  pt_mutex_lock : W → Z * W;
  pt_mutex_unlock : W → Z * W;
  pt_mutex_destroy : W → Z * W;
  pt_create : W → Z * W;
  pt_join : W → Z * W;
  pt_sigmask : W → Z * W;
  pt_sigaddset : Z → W → option Z * W;
}.

(** A thread can always be joined by the one that created it, and the owner
    of a mutex can always unlock it. *)
Class PthreadLaws (W : Type) {PT : Pthreads W} := {
  pt_join_ok w e w' : pt_join w = (e, w') → e = 0;
  pt_unlock_ok w e w' : pt_mutex_unlock w = (e, w') → e = 0;
}.

(** ** The shared state *)

Record wc_worker := WcWorker {
  wk_thread : nat;
  wk_client_fd : Z;
  wk_in_use : bool;
  wk_finished : bool;
}.

(** Thread identifiers; the main thread is 0. *)
Abbreviation tid := nat.

Record sys (W : Type) := Sys {
  y_machine : machine W;
  y_errno : gmap tid Z;
  (** the mutex [workers_lock]: whether it exists, and its owner *)
  y_mutex : bool;
  y_lock : option tid;
  (** the rest of [struct wc_tcp_server] *)
  y_stopping : bool;
  y_workers : list wc_worker;
  (** threads that have been created and not joined, with their argument (the
      index of their worker), those of them that have returned, and the next
      identifier *)
  y_threads : gmap tid nat;
  y_exited : gset tid;
  y_next : tid;
  (** ghost *)
  y_owner : gmap Z tid;
  y_blocks : gmap tid Z;
  y_events : gmap tid (list event);
}.
Arguments Sys {W}.
Arguments y_machine {W}.
Arguments y_errno {W}.
Arguments y_mutex {W}.
Arguments y_lock {W}.
Arguments y_stopping {W}.
Arguments y_workers {W}.
Arguments y_threads {W}.
Arguments y_exited {W}.
Arguments y_next {W}.
Arguments y_owner {W}.
Arguments y_blocks {W}.
Arguments y_events {W}.

(** The locations the threads share. [LSlot i] stands for the fields of
    [workers[i]] other than [finished]. *)
Inductive place := LStopping | LFinished (i : nat) | LSlot (i : nat).

Definition Rd : place → access place := Acc false.
Definition Wr : place → access place := Acc true.

Definition errno_of {W} (s : sys W) (t : tid) : Z := default 0 (y_errno s !! t).
Definition blocks_of {W} (s : sys W) (t : tid) : Z := default 0 (y_blocks s !! t).
Definition events_of {W} (s : sys W) (t : tid) : list event := default [] (y_events s !! t).

(** The process as thread [t] sees it. *)
Definition view {W} (t : tid) (s : sys W) : machine W := set_errno (errno_of s t) (y_machine s).

(** Who owns the descriptors after a step of [t] from [open] to [open']: what
    [t] opened is its own, what was closed is nobody's. *)
Definition next_owner (t : tid) (owner : gmap Z tid) (open open' : gset Z) : gmap Z tid :=
  filter (λ x, x.1 ∈ open') owner ∪ gset_to_gmap t (open' ∖ open).

(** The state after [t] turned the process into [m']. *)
Definition settle {W} (t : tid) (s : sys W) (m' : machine W) : sys W :=
  let m := y_machine s in
  Sys m' (<[t := m_errno m']> (y_errno s)) (y_mutex s) (y_lock s) (y_stopping s)
    (y_workers s) (y_threads s) (y_exited s) (y_next s)
    (next_owner t (y_owner s) (m_open m) (m_open m'))
    (<[t := blocks_of s t + (m_live m' - m_live m)]> (y_blocks s))
    (<[t := events_of s t ++ drop (length (m_trace m)) (m_trace m')]> (y_events s)).

Definition with_os {W} (w : W) (s : sys W) : sys W :=
  Sys (set_os w (y_machine s)) (y_errno s) (y_mutex s) (y_lock s) (y_stopping s)
    (y_workers s) (y_threads s) (y_exited s) (y_next s) (y_owner s) (y_blocks s) (y_events s).
Definition with_mutex {W} (b : bool) (o : option tid) (s : sys W) : sys W :=
  Sys (y_machine s) (y_errno s) b o (y_stopping s) (y_workers s) (y_threads s)
    (y_exited s) (y_next s) (y_owner s) (y_blocks s) (y_events s).
Definition with_stopping {W} (b : bool) (s : sys W) : sys W :=
  Sys (y_machine s) (y_errno s) (y_mutex s) (y_lock s) b (y_workers s) (y_threads s)
    (y_exited s) (y_next s) (y_owner s) (y_blocks s) (y_events s).
Definition with_workers {W} (ws : list wc_worker) (s : sys W) : sys W :=
  Sys (y_machine s) (y_errno s) (y_mutex s) (y_lock s) (y_stopping s) ws (y_threads s)
    (y_exited s) (y_next s) (y_owner s) (y_blocks s) (y_events s).
Definition with_threads {W} (ts : gmap tid nat) (ex : gset tid) (next : tid)
    (owner : gmap Z tid) (s : sys W) : sys W :=
  Sys (y_machine s) (y_errno s) (y_mutex s) (y_lock s) (y_stopping s) (y_workers s) ts
    ex next owner (y_blocks s) (y_events s).

Section workers.
Context {W : Type} {OS : Posix W} {PT : Pthreads W}.

Abbreviation P := (prog (sys W) place).

(** ** Actions *)

(** A call of thread [self] into the other modules. A retry loop that does
    not end keeps its thread waiting. *)
Definition call {A} (self : tid) (c : M W A) : P A :=
  Pact [] (λ s,
    match c (view self s) with
    | Ret a m' => Next (settle self s m') a
    | UB => Undef
    | NoFuel => Blocked
    end).

(** A call of the threads library with effect [f] when it succeeds. *)
Definition pt_call (accs : list (access place)) (g : W → Z * W)
    (f : sys W → progress (sys W) Z) : P Z :=
  Pact accs (λ s,
    let '(e, w) := g (m_os (y_machine s)) in
    if e =? 0 then f (with_os w s) else Next (with_os w s) e).

Definition pthread_mutex_init : P Z :=
  pt_call [] pt_mutex_init (λ s, Next (with_mutex true None s) 0).

(** The mutex is of the default kind: its owner must not lock it again. *)
Definition pthread_mutex_lock (self : tid) : P Z :=
  pt_call [] pt_mutex_lock (λ s,
    if y_mutex s then
      match y_lock s with
      | None => Next (with_mutex true (Some self) s) 0
      | Some o => if decide (o = self) then Undef else Blocked
      end
    else Undef).

Definition pthread_mutex_unlock (self : tid) : P Z :=
  pt_call [] pt_mutex_unlock (λ s,
    if y_mutex s then
      if decide (y_lock s = Some self) then Next (with_mutex true None s) 0 else Undef
    else Undef).

Definition pthread_mutex_destroy : P Z :=
  pt_call [] pt_mutex_destroy (λ s,
    if y_mutex s && is_null (y_lock s) then Next (with_mutex false None s) 0 else Undef).

(** [pthread_create(&workers[i].thread, NULL, worker_main, &workers[i])]. The
    new thread owns the descriptor of its worker. *)
Definition pthread_create (i : nat) : P Z :=
  pt_call [Wr (LSlot i)] pt_create (λ s,
    match y_workers s !! i with
    | None => Undef
    | Some w =>
      let t := y_next s in
      Next (with_threads (<[t := i]> (y_threads s)) (y_exited s) (S t)
              (<[wk_client_fd w := t]> (y_owner s))
              (with_workers (<[i := WcWorker t (wk_client_fd w) (wk_in_use w) (wk_finished w)]>
                               (y_workers s)) s)) 0
    end).

(** Joining waits for the thread to return; the thread must exist. *)
Definition pthread_join (t : tid) : P Z :=
  pt_call [] pt_join (λ s,
    if decide (t ∈ y_exited s) then
      Next (with_threads (delete t (y_threads s)) (y_exited s ∖ {[t]}) (y_next s)
              (y_owner s) s) 0
    else if decide (t ∈ dom (y_threads s)) then Blocked else Undef).

Definition pthread_sigmask : P Z := pt_call [] pt_sigmask (λ s, Next s 0).

Definition load_stopping : P bool :=
  Pact [Rd LStopping] (λ s, Next s (y_stopping s)).
Definition store_stopping (b : bool) : P () :=
  Pact [Wr LStopping] (λ s, Next (with_stopping b s) ()).

(** [workers[i]], through the given accesses. *)
Definition load_worker (accs : list (access place)) (i : nat) : P wc_worker :=
  Pact accs (λ s, match y_workers s !! i with Some w => Next s w | None => Undef end).
Definition store_worker (accs : list (access place)) (i : nat)
    (f : wc_worker → wc_worker) : P () :=
  Pact accs (λ s, match y_workers s !! i with
                  | Some w => Next (with_workers (<[i := f w]> (y_workers s)) s) ()
                  | None => Undef
                  end).

(** ** The functions of the two files *)

Context (tp : transport).

Definition log (self : tid) (level : Z) (event format : string) (args : list log_arg) : P () :=
  call self (wc_log level "server" event (Some format) args).

Definition LSelf (self : tid) : log_arg := LInt (Z.of_nat self).

Definition worker_is_stopping (self : tid) : P bool :=
  r ← pthread_mutex_lock self;
  if negb (r =? 0) then mret true else
  stopping ← load_stopping;
  r ← pthread_mutex_unlock self;
  if negb (r =? 0) then mret true else
  _ ← log self WC_LOG_TRACE "shutdown_checked" (tp_tag tp ++ "thread=%lu stopping=%d")
        [LSelf self; LInt (Z.b2z stopping)];
  mret stopping.

Definition server_request_stop (self : tid) : P Z :=
  lock_result ← pthread_mutex_lock self;
  if negb (lock_result =? 0) then mret lock_result else
  _ ← store_stopping true;
  unlock_result ← pthread_mutex_unlock self;
  _ ← (if unlock_result =? 0 then
         log self WC_LOG_DEBUG "shutdown_requested"
           (match tp with Tcp => "transport=tcp" | UdsThreaded => "transport=uds-threaded" end) []
       else mret ());
  mret unlock_result.

Definition worker_mark_finished (self : tid) (i : nat) : P () :=
  lock_result ← pthread_mutex_lock self;
  if negb (lock_result =? 0) then
    log self WC_LOG_ERROR "worker_lock_failed" (tp_opt tp ++ "thread=%lu error=%d")
      [LSelf self; LInt lock_result]
  else
    _ ← store_worker [Wr (LFinished i)] i
          (λ w, WcWorker (wk_thread w) (wk_client_fd w) (wk_in_use w) true);
    unlock_result ← pthread_mutex_unlock self;
    if unlock_result =? 0 then
      w ← load_worker [Rd (LSlot i)] i;
      log self WC_LOG_DEBUG "worker_finished" (tp_tag tp ++ "client=fd:%d thread=%lu")
        [LInt (wk_client_fd w); LSelf self]
    else
      log self WC_LOG_ERROR "worker_unlock_failed" (tp_opt tp ++ "thread=%lu error=%d")
        [LSelf self; LInt unlock_result].

(** A buffer could not be set up (the UDS server does not log it). *)
Definition buffer_failed (self : tid) (client_fd : Z) (buffer : string) : M W () :=
  match tp with
  | Tcp =>
    e ← get_errno;
    wc_log WC_LOG_ERROR "server" "worker_buffer_failed"
      (Some ("transport=tcp client=fd:%d thread=%lu buffer=" ++ buffer ++ " errno=%d")%string)
      [LInt client_fd; LSelf self; LInt e]
  | UdsThreaded => mret ()
  end.

(** The worker's two buffers, or [None] after giving up. *)
Definition session_open (self : tid) (client_fd : Z) : M W (option (wc_buffer * wc_buffer)) :=
  '(r, input) ← by_ref (λ p, wc_buffer_init p WC_TCP_INPUT_LIMIT) (WcBuffer None 0 0 0);
  if r =? -1 then
    buffer_failed self client_fd "input" ;;
    _ ← sys_close client_fd;
    mret None
  else
    '(r, output) ← by_ref (λ p, wc_buffer_init p WC_TCP_OUTPUT_LIMIT) (WcBuffer None 0 0 0);
    if r =? -1 then
      buffer_failed self client_fd "output" ;;
      _ ← wc_buffer_destroy (Some input);
      _ ← sys_close client_fd;
      mret None
    else
      wc_log WC_LOG_INFO "server" "worker_start"
        (Some (tp_opt tp ++ "client=fd:%d thread=%lu")%string) [LInt client_fd; LSelf self] ;;
      mret (Some (input, output)).

Definition session_close (self : tid) (client_fd : Z) (input output : wc_buffer) : M W () :=
  _ ← wc_buffer_destroy (Some input);
  _ ← wc_buffer_destroy (Some output);
  r ← sys_close client_fd;
  (if r =? -1 then
     e ← get_errno;
     wc_log WC_LOG_WARN "server" "close_failed"
       (Some (tp_opt tp ++ "client=fd:%d thread=%lu errno=%d")%string)
       [LInt client_fd; LSelf self; LInt e]
   else mret ()) ;;
  wc_log WC_LOG_INFO "server" "worker_stop"
    (Some (tp_opt tp ++ "client=fd:%d thread=%lu")%string) [LInt client_fd; LSelf self].

Definition worker_main (self : tid) (i : nat) : P () :=
  w ← load_worker [Rd (LSlot i)] i;
  let client_fd := wk_client_fd w in
  buffers ← call self (session_open self client_fd);
  match buffers with
  | None => worker_mark_finished self i
  | Some buffers =>
    '(input, output) ← Piter (λ '(input, output),
      stopping ← worker_is_stopping self;
      if (stopping : bool) then mret (Break (input, output)) else
      call self (session_round tp (Z.of_nat self) client_fd input output)) buffers;
    _ ← call self (session_close self client_fd input output);
    worker_mark_finished self i
  end.

Definition WC_TCP_MAX_CLIENTS : nat := 64.

Definition server_workers_init (self : tid) : P () :=
  _ ← pfor (seq 0 WC_TCP_MAX_CLIENTS) (λ i,
        _ ← store_worker [Wr (LSlot i); Wr (LFinished i)] i
              (λ w, WcWorker (wk_thread w) (-1) false false);
        mret None) ();
  log self WC_LOG_DEBUG "worker_table_initialized" (tp_tag tp ++ "slots=%d") [LInt 64].

(** The slot is free again. *)
Definition free_slot (i : nat) : P () :=
  store_worker [Wr (LSlot i)] i
    (λ w, WcWorker (wk_thread w) (-1) false (wk_finished w)).

Definition server_reap_finished (self : tid) : P () :=
  pfor (seq 0 WC_TCP_MAX_CLIENTS) (λ i,
    lock_result ← pthread_mutex_lock self;
    if negb (lock_result =? 0) then
      _ ← log self WC_LOG_ERROR "worker_lock_failed" (tp_opt tp ++ "error=%d") [LInt lock_result];
      mret (Some ())
    else
      w ← load_worker [Rd (LSlot i); Rd (LFinished i)] i;
      unlock_result ← pthread_mutex_unlock self;
      if negb (unlock_result =? 0) then
        _ ← log self WC_LOG_ERROR "worker_unlock_failed" (tp_opt tp ++ "error=%d")
              [LInt unlock_result];
        mret (Some ())
      else if wk_in_use w && wk_finished w then
        join_result ← pthread_join (wk_thread w);
        if negb (join_result =? 0) then
          _ ← log self WC_LOG_ERROR "worker_join_failed" (tp_opt tp ++ "error=%d")
                [LInt join_result];
          mret None
        else
          _ ← free_slot i;
          _ ← log self WC_LOG_DEBUG "worker_reaped" (tp_tag tp ++ "slot=%zu")
                [LInt (Z.of_nat i)];
          mret None
      else mret None) ().

(** [sigemptyset(..) == -1 || sigaddset(.., SIGINT) == -1 || ...] *)
Definition stop_signals : M W Z :=
  r ← os_call os_sigemptyset;
  r ← status_result r;
  if r =? -1 then mret (-1) else
  r ← os_call (pt_sigaddset 2);
  r ← status_result r;
  if r =? -1 then mret (-1) else
  r ← os_call (pt_sigaddset 15);
  status_result r.

(** The body of start_worker's loop for the first slot that is not in use. *)
Definition server_start_in_slot (self : tid) (client_fd : Z) (i : nat) : P Z :=
  _ ← store_worker [Wr (LSlot i); Wr (LFinished i)] i
        (λ w, WcWorker (wk_thread w) client_fd true false);
  r ← call self stop_signals;
  if r =? -1 then _ ← free_slot i; mret (-1) else
  mask_result ← pthread_sigmask;
  if negb (mask_result =? 0) then
    _ ← free_slot i;
    _ ← call self (put_errno mask_result);
    mret (-1)
  else
    create_result ← pthread_create i;
    restore_result ← pthread_sigmask;
    if negb (create_result =? 0) then
      _ ← free_slot i;
      _ ← call self (put_errno create_result);
      mret (-1)
    else
      _ ← (if negb (restore_result =? 0) then
             log self WC_LOG_ERROR "signal_mask_restore_failed" (tp_tag tp ++ "error=%d")
               [LInt restore_result]
           else mret ());
      _ ← log self WC_LOG_DEBUG "worker_created" (tp_tag tp ++ "client=fd:%d slot=%zu")
            [LInt client_fd; LInt (Z.of_nat i)];
      mret 0.

Definition server_start_worker (self : tid) (client_fd : Z) : P Z :=
  r ← pfor (seq 0 WC_TCP_MAX_CLIENTS) (λ i,
    w ← load_worker [Rd (LSlot i)] i;
    if wk_in_use w then mret None else
    r ← server_start_in_slot self client_fd i;
    mret (Some (Some r))) None;
  match r with
  | Some r => mret r
  | None => _ ← call self (put_errno EMFILE); mret (-1)
  end.

(** A connection that is not served. *)
Definition reject_client (client_fd : Z) : M W () :=
  saved_errno ← get_errno;
  _ ← sys_close client_fd;
  wc_log WC_LOG_WARN "server" "client_rejected" (Some (tp_opt tp ++ "errno=%d")%string)
    [LInt saved_errno].

(** [fuel] bounds the retries of an interrupted fcntl(). *)
(** A new connection gets a worker or is rejected. *)
Definition server_admit_client (fuel : nat) (self : tid) (client_fd : Z) : P () :=
  _ ← (match tp with Tcp => server_reap_finished self | UdsThreaded => mret () end);
  r ← call self (wc_socket_set_nonblocking fuel client_fd);
  r ← (if r =? -1 then mret (-1) else server_start_worker self client_fd);
  if r =? -1 then call self (reject_client client_fd) else mret ().

Definition server_accept_clients (fuel : nat) (self : tid) (listener_fd : Z) : P () :=
  Piter (λ _ : (),
    client_fd ← call self (sys_accept listener_fd);
    if client_fd =? -1 then
      e ← call self get_errno;
      if e =? EINTR then mret (Continue ()) else
      _ ← (if negb (e =? EAGAIN) && negb (e =? EWOULDBLOCK) then
             log self WC_LOG_ERROR "accept_failed" (tp_opt tp ++ "errno=%d") [LInt e]
           else mret ());
      mret (Break ())
    else
      _ ← server_admit_client fuel self client_fd;
      mret (Continue ())) ().

Fixpoint server_join_loop (self : tid) (l : list nat) (result : Z) : P Z :=
  match l with
  | [] => mret result
  | i :: l =>
    w ← load_worker [Rd (LSlot i)] i;
    if wk_in_use w then
      join_result ← pthread_join (wk_thread w);
      if negb (join_result =? 0) then
        _ ← log self WC_LOG_ERROR "worker_join_failed" (tp_opt tp ++ "error=%d")
              [LInt join_result];
        server_join_loop self l (-1)
      else
        _ ← free_slot i;
        server_join_loop self l result
    else server_join_loop self l result
  end.

Definition server_join_all (self : tid) : P Z :=
  _ ← log self WC_LOG_DEBUG "workers_join_all"
        (match tp with Tcp => "transport=tcp" | UdsThreaded => "transport=uds-threaded" end) [];
  server_join_loop self (seq 0 WC_TCP_MAX_CLIENTS) 0.

(** The main loop: its result when it is left. *)
Definition server_loop (fuel : nat) (self : tid) (listener_fd : Z) : P Z :=
  Piter (λ _ : (),
    stop ← call self (os_call os_stop_requested);
    if (stop : bool) then mret (Break 0) else
    _ ← server_reap_finished self;
    '(poll_result, revents) ← call self (sys_poll [(listener_fd, POLLIN)] WC_TCP_POLL_TIMEOUT_MS);
    if poll_result =? -1 then
      e ← call self get_errno;
      if e =? EINTR then mret (Continue ()) else mret (Break (-1))
    else
      revents ← call self (from_option_ub (head revents));
      _ ← (if has_event revents POLLIN then server_accept_clients fuel self listener_fd
           else mret ());
      if has_event revents (Z.lor POLLERR (Z.lor POLLHUP POLLNVAL)) then
        _ ← call self (put_errno EIO);
        mret (Break (-1))
      else mret (Continue ())) ().

(** The listener is closed and, for the UDS server, its path removed. *)
Definition close_listener (listener_fd : Z) (socket_path : option (list byte))
    (saved_errno result : Z) : M W (Z * Z) :=
  r ← sys_close listener_fd;
  e ← get_errno;
  let '(saved_errno, result) :=
    if (r =? -1) && (result =? 0) then (e, -1) else (saved_errno, result) in
  match socket_path with
  | None => mret (saved_errno, result)
  | Some path =>
    r ← sys_unlink path;
    e ← get_errno;
    mret (if (r =? -1) && negb (e =? ENOENT) && (result =? 0) then (e, -1)
          else (saved_errno, result))
  end.

Definition server_shutdown (self : tid) (listener_fd : Z) (socket_path : option (list byte))
    (result : Z) : P Z :=
  saved_errno ← call self get_errno;
  mutex_result ← server_request_stop self;
  let '(saved_errno, result) :=
    if negb (mutex_result =? 0) && (result =? 0) then (mutex_result, -1)
    else (saved_errno, result) in
  '(saved_errno, result) ← call self (close_listener listener_fd socket_path saved_errno result);
  workers_joined ← server_join_all self;
  let '(saved_errno, result) :=
    if (workers_joined =? -1) && (result =? 0) then (EIO, -1) else (saved_errno, result) in
  '(saved_errno, result) ←
    (if workers_joined =? 0 then
       mutex_result ← pthread_mutex_destroy;
       mret (if negb (mutex_result =? 0) && (result =? 0) then (mutex_result, -1)
             else (saved_errno, result))
     else mret (saved_errno, result));
  _ ← log self WC_LOG_INFO "shutdown"
        (match tp with Tcp => "transport=tcp" | UdsThreaded => "transport=uds-threaded" end) [];
  _ ← call self (put_errno saved_errno);
  mret result.

(** The body of the two entry points, over the listener, the first log record
    and the path to remove. *)
Definition server_run (fuel : nat) (self : tid) (open_listener : M W Z) (start : M W ())
    (socket_path : option (list byte)) (stop_requested : option ()) : P Z :=
  match stop_requested with
  | None => _ ← call self (put_errno EINVAL); mret (-1)
  | Some _ =>
    mutex_result ← pthread_mutex_init;
    if negb (mutex_result =? 0) then _ ← call self (put_errno mutex_result); mret (-1) else
    _ ← server_workers_init self;
    listener_fd ← call self open_listener;
    if listener_fd =? -1 then _ ← pthread_mutex_destroy; mret (-1) else
    _ ← call self start;
    result ← server_loop fuel self listener_fd;
    server_shutdown self listener_fd socket_path result
  end.

End workers.

(** *** The functions of server_tcp.c *)

Section tcp.
Context {W : Type} {OS : Posix W} {PT : Pthreads W}.

Definition wc_tcp_is_stopping := worker_is_stopping (W:=W) Tcp.
Definition wc_tcp_request_stop := server_request_stop (W:=W) Tcp.
Definition wc_tcp_mark_finished := worker_mark_finished (W:=W) Tcp.
Definition wc_tcp_worker_main := worker_main (W:=W) Tcp.
Definition wc_tcp_workers_init := server_workers_init (W:=W) Tcp.
Definition wc_tcp_reap_finished := server_reap_finished (W:=W) Tcp.
Definition wc_tcp_start_worker := server_start_worker (W:=W) Tcp.
Definition wc_tcp_accept_clients := server_accept_clients (W:=W) Tcp.
Definition wc_tcp_join_all := server_join_all (W:=W) Tcp.
End tcp.

(** *** The functions of server_uds_threaded.c *)

Section uds_threaded.
Context {W : Type} {OS : Posix W} {PT : Pthreads W}.

Definition wc_threaded_uds_open_listener := open_unix_listener (W:=W) "transport=uds-threaded ".
Definition wc_threaded_uds_is_stopping := worker_is_stopping (W:=W) UdsThreaded.
Definition wc_threaded_uds_request_stop := server_request_stop (W:=W) UdsThreaded.
Definition wc_threaded_uds_mark_finished := worker_mark_finished (W:=W) UdsThreaded.
Definition wc_threaded_uds_worker_main := worker_main (W:=W) UdsThreaded.
Definition wc_threaded_uds_workers_init := server_workers_init (W:=W) UdsThreaded.
Definition wc_threaded_uds_reap_finished := server_reap_finished (W:=W) UdsThreaded.
Definition wc_threaded_uds_start_worker := server_start_worker (W:=W) UdsThreaded.
Definition wc_threaded_uds_accept_clients := server_accept_clients (W:=W) UdsThreaded.
Definition wc_threaded_uds_join_all := server_join_all (W:=W) UdsThreaded.
End uds_threaded.

(** The entry points. [fuel] bounds the retries of an interrupted fcntl(). *)
Definition wc_server_tcp_run {W} {OS : Posix W} {PT : Pthreads W} (fuel : nat)
    (bind_address : option (list byte)) (port : Z) (stop_requested : option ())
    : prog (sys W) place Z :=
  server_run Tcp fuel 0 (wc_tcp_open_listener fuel bind_address port)
    (address ← from_option_ub bind_address;
     wc_log WC_LOG_INFO "server" "start" (Some "transport=tcp bind=%s port=%u"%string)
       [LPath address; LInt port])
    None stop_requested.

Definition wc_server_uds_threaded_run {W} {OS : Posix W} {PT : Pthreads W} (fuel : nat)
    (socket_path : option (list byte)) (stop_requested : option ())
    : prog (sys W) place Z :=
  server_run UdsThreaded fuel 0 (wc_threaded_uds_open_listener fuel socket_path)
    (path ← from_option_ub socket_path;
     wc_log WC_LOG_INFO "server" "start" (Some "transport=uds-threaded socket=%s"%string)
       [LPath path])
    socket_path stop_requested.

(** ** Interleavings *)

(** The running workers. *)
Definition pool (W : Type) : Type := tid → option (prog (sys W) place ()).

Definition pool_set {W} (t : tid) (p : option (prog (sys W) place ())) (ps : pool W) : pool W :=
  λ t', if decide (t' = t) then p else ps t'.

Record config (W : Type) := Config {
  c_sys : sys W;
  c_main : prog (sys W) place Z;
  c_pool : pool W;
}.
Arguments Config {W}.
Arguments c_sys {W}.
Arguments c_main {W}.
Arguments c_pool {W}.

Section interleaving.
Context {W : Type} {OS : Posix W} {PT : Pthreads W} (tp : transport).

(** A step that created a thread puts it to work. *)
Definition spawn (s s' : sys W) (ps : pool W) : pool W :=
  if decide (y_next s' = S (y_next s)) then
    match y_threads s' !! y_next s with
    | Some i => pool_set (y_next s) (Some (worker_main tp (y_next s) i)) ps
    | None => ps
    end
  else ps.

(** A thread that has returned can be joined. *)
Definition exit_thread (t : tid) (s : sys W) : sys W :=
  with_threads (y_threads s) ({[t]} ∪ y_exited s) (y_next s) (y_owner s) s.

(** Any thread that can take a step may take the next one. *)
Inductive cstep : relation (config W) :=
| step_main s main ps s' main' :
    pstep main s = Next s' main' →
    cstep (Config s main ps) (Config s' main' (spawn s s' ps))
| step_worker s main ps t p s' p' :
    ps t = Some p → pstep p s = Next s' p' →
    cstep (Config s main ps) (Config s' main (pool_set t (Some p') ps))
| step_exit s main ps t :
    ps t = Some (Pret ()) →
    cstep (Config s main ps) (Config (exit_thread t s) main (pool_set t None ps)).

End interleaving.

(** The process at the call: [struct wc_tcp_server server = {0}]. *)
Definition sys_init {W} (m : machine W) : sys W :=
  Sys m {[0%nat := m_errno m]} false None false (replicate 64 (WcWorker 0 0 false false))
    ∅ ∅ 1 ∅ ∅ ∅.
