(* ===== verification/Programs.v ===== *)
(** * The server programs

    [main] of main_uds.c, main_uds_threaded.c and main_tcp.c: the options, the
    signals and the call of the server, with the exit code. Each has its own
    copies of the helpers; the two UDS programs have the same options. The parts
    before the call are actions of the main thread, the only one there is
    then. *)

From S2P Require Import Prelude Machine Script Protocol SocketUtils Logging Listener Options ServerUds ServerUdsClient ServerUdsTable ServerUdsLoop ServerUdsProps Threads Workers.

Definition SIGINT : Z := 2.
Definition SIGTERM : Z := 15.

(** The local variables the options set. *)
Record uds_options := UdsOptions { so_socket_path : list byte; so_log_level : Z }.
Record tcp_options := TcpOptions {
  to_bind_address : list byte;
  to_port : Z;
  to_log_level : Z;
}.

Definition uds_defaults : uds_options := UdsOptions (lit "/tmp/wirecommand.sock") WC_LOG_INFO.
Definition uds_threaded_defaults : uds_options :=
  UdsOptions (lit "/tmp/wirecommand-threaded.sock") WC_LOG_INFO.
Definition tcp_defaults : tcp_options := TcpOptions (lit "127.0.0.1") 9090 WC_LOG_INFO.

Section programs.
Context {W : Type} {OS : Posix W}.

Definition wc_print_usage (program : list byte) : M W () :=
  print_error
"Usage: %s [--socket PATH] [--log-level error|warn|info|debug|trace]
" [LPath program].

Definition wc_tcp_print_usage (program : list byte) : M W () :=
  print_error
"Usage: %s [--bind IPv4_ADDRESS] [--port 1-65535] [--log-level error|warn|info|debug|trace]
" [LPath program].

Definition wc_threaded_print_usage (program : list byte) : M W () :=
  print_error
"Usage: %s [--socket PATH] [--log-level error|warn|info|debug|trace]
" [LPath program].

(** The option loops over the arguments from [index]: the options, or [None]
    after a usage error. *)
Fixpoint uds_option_loop (program : list byte) (arguments : list (list byte))
    (o : uds_options) : M W (option uds_options) :=
  match arguments with
  | [] => mret (Some o)
  | option :: value :: rest =>
    if streq option (lit "--socket") then
      uds_option_loop program rest (UdsOptions value (so_log_level o))
    else if streq option (lit "--log-level") then
      '(r, level) ← wc_parse_log_level value (so_log_level o);
      if r =? -1 then wc_print_usage program ;; mret None else
      uds_option_loop program rest (UdsOptions (so_socket_path o) level)
    else wc_print_usage program ;; mret None
  | _ => wc_print_usage program ;; mret None
  end.

Fixpoint uds_threaded_option_loop (program : list byte) (arguments : list (list byte))
    (o : uds_options) : M W (option uds_options) :=
  match arguments with
  | [] => mret (Some o)
  | option :: value :: rest =>
    if streq option (lit "--socket") then
      uds_threaded_option_loop program rest (UdsOptions value (so_log_level o))
    else if streq option (lit "--log-level") then
      '(r, level) ← wc_threaded_parse_log_level value (so_log_level o);
      if r =? -1 then wc_threaded_print_usage program ;; mret None else
      uds_threaded_option_loop program rest (UdsOptions (so_socket_path o) level)
    else wc_threaded_print_usage program ;; mret None
  | _ => wc_threaded_print_usage program ;; mret None
  end.

Fixpoint tcp_option_loop (program : list byte) (arguments : list (list byte))
    (o : tcp_options) : M W (option tcp_options) :=
  match arguments with
  | [] => mret (Some o)
  | option :: value :: rest =>
    if streq option (lit "--bind") then
      tcp_option_loop program rest (TcpOptions value (to_port o) (to_log_level o))
    else if streq option (lit "--port") then
      '(r, port) ← wc_tcp_parse_port value (to_port o);
      if r =? -1 then wc_tcp_print_usage program ;; mret None else
      tcp_option_loop program rest (TcpOptions (to_bind_address o) port (to_log_level o))
    else if streq option (lit "--log-level") then
      '(r, level) ← wc_tcp_parse_log_level value (to_log_level o);
      if r =? -1 then wc_tcp_print_usage program ;; mret None else
      tcp_option_loop program rest (TcpOptions (to_bind_address o) (to_port o) level)
    else wc_tcp_print_usage program ;; mret None
  | _ => wc_tcp_print_usage program ;; mret None
  end.

(** [for (index = 1; index < argument_count; ++index)]: without a program name
    there is no argument either. *)
Definition from_first {A} (loop : list byte → list (list byte) → A → M W (option A))
    (arguments : list (list byte)) (defaults : A) : M W (option A) :=
  match arguments with
  | [] => mret (Some defaults)
  | program :: rest => loop program rest defaults
  end.

(** [install(SIGINT) == -1 || install(SIGTERM) == -1] *)
Definition stop_handlers (install : Z → M W Z) : M W bool :=
  r ← install SIGINT;
  if r =? -1 then mret false else
  r ← install SIGTERM;
  mret (negb (r =? -1)).

(** [wc_socket_ignore_sigpipe() == -1 || ...] *)
Definition all_signals (install : Z → M W Z) : M W bool :=
  r ← wc_socket_ignore_sigpipe;
  if r =? -1 then mret false else stop_handlers install.

(** [main] of main_uds.c. [fuel] bounds the rounds of the server, [clients0]
    is what its client table holds before it is initialized. *)
Definition uds_main (fuel : nat) (clients0 : list wc_uds_client)
    (arguments : list (list byte)) : M W Z :=
  options ← from_first uds_option_loop arguments uds_defaults;
  match options with
  | None => mret 2
  | Some o =>
    wc_log_set_level (so_log_level o) ;;
    r ← wc_socket_ignore_sigpipe;
    if r =? -1 then perror "wirecommand-uds: SIGPIPE setup" ;; mret 1 else
    installed ← stop_handlers wc_install_stop_handler;
    if negb installed then perror "wirecommand-uds: stop signal setup" ;; mret 1 else
    r ← wc_server_uds_run fuel clients0 (Some (so_socket_path o)) (Some ());
    if r =? -1 then perror "wirecommand-uds" ;; mret 1 else mret 0
  end.

(** The other two up to the call of the server: the options, or the exit code. *)
Definition tcp_setup (arguments : list (list byte)) : M W (Z + tcp_options) :=
  options ← from_first tcp_option_loop arguments tcp_defaults;
  match options with
  | None => mret (inl 2)
  | Some o =>
    wc_log_set_level (to_log_level o) ;;
    installed ← all_signals wc_tcp_install_stop_handler;
    if negb installed then perror "wirecommand-tcp: signal setup" ;; mret (inl 1)
    else mret (inr o)
  end.

Definition uds_threaded_setup (arguments : list (list byte)) : M W (Z + uds_options) :=
  options ← from_first uds_threaded_option_loop arguments uds_threaded_defaults;
  match options with
  | None => mret (inl 2)
  | Some o =>
    wc_log_set_level (so_log_level o) ;;
    installed ← all_signals wc_threaded_install_stop_handler;
    if negb installed then perror "wirecommand-uds-threaded: signal setup" ;; mret (inl 1)
    else mret (inr o)
  end.

Context {PT : Pthreads W}.

(** [main] of main_tcp.c *)
Definition tcp_main (fuel : nat) (arguments : list (list byte)) : prog (sys W) place Z :=
  setup ← call 0 (tcp_setup arguments);
  match setup with
  | inl code => mret code
  | inr o =>
    r ← wc_server_tcp_run fuel (Some (to_bind_address o)) (to_port o) (Some ());
    if r =? -1 then _ ← call 0 (perror "wirecommand-tcp"); mret 1 else mret 0
  end.

(** [main] of main_uds_threaded.c *)
Definition uds_threaded_main (fuel : nat) (arguments : list (list byte))
    : prog (sys W) place Z :=
  setup ← call 0 (uds_threaded_setup arguments);
  match setup with
  | inl code => mret code
  | inr o =>
    r ← wc_server_uds_threaded_run fuel (Some (so_socket_path o)) (Some ());
    if r =? -1 then _ ← call 0 (perror "wirecommand-uds-threaded"); mret 1 else mret 0
  end.

End programs.

Arguments wc_print_usage : simpl never.
Arguments wc_threaded_print_usage : simpl never.
Arguments wc_tcp_print_usage : simpl never.
Arguments stop_handlers : simpl never.
Arguments all_signals : simpl never.
Arguments tcp_setup : simpl never.
Arguments uds_threaded_setup : simpl never.

(** ** The command line, without its effects *)

Fixpoint scan_uds (arguments : list (list byte)) (o : uds_options) : option uds_options :=
  match arguments with
  | [] => Some o
  | option :: value :: rest =>
    if streq option (lit "--socket") then scan_uds rest (UdsOptions value (so_log_level o))
    else if streq option (lit "--log-level") then
      level ← find_level value 0 log_level_names;
      scan_uds rest (UdsOptions (so_socket_path o) level.1)
    else None
  | _ => None
  end.

Fixpoint scan_tcp (arguments : list (list byte)) (o : tcp_options) : option tcp_options :=
  match arguments with
  | [] => Some o
  | option :: value :: rest =>
    if streq option (lit "--bind") then
      scan_tcp rest (TcpOptions value (to_port o) (to_log_level o))
    else if streq option (lit "--port") then
      port ← port_accepts value;
      scan_tcp rest (TcpOptions (to_bind_address o) port (to_log_level o))
    else if streq option (lit "--log-level") then
      level ← find_level value 0 log_level_names;
      scan_tcp rest (TcpOptions (to_bind_address o) (to_port o) level.1)
    else None
  | _ => None
  end.

(** ** Specifications *)

Section programs_specs.
Context {W : Type} {OS : Posix W} `{!PosixLaws W}.
Implicit Types (m : machine W) (t : bool).

(** The usage messages of the three programs. *)
Lemma server_usage_spec t {A} print program (a : A) (Q : A → machine W → Prop) m :
  print ∈ [wc_print_usage; wc_threaded_print_usage; wc_tcp_print_usage] →
  (∀ m', noted m m' → Q a m') → wp t (print program ;; mret a) Q m.
Proof.
  intros Hin HQ.
  assert (∀ Q1 : () → machine W → Prop,
    (∀ m', printed m m' → Q1 () m') → wp t (print program) Q1 m) as Hp.
  { rewrite !elem_of_cons in Hin. destruct Hin as [->|[->|[->|[]%not_elem_of_nil]]];
      intros Q1 HQ1; by apply print_error_spec; [log_ok|]. }
  apply wp_bind, Hp. intros m2 Hpr. wp_go. by apply HQ, printed_noted.
Qed.

(** Their log-level parsers. *)
Lemma server_level_spec t parse text level (Q : Z * Z → machine W → Prop) m :
  parse ∈ [wc_parse_log_level; wc_threaded_parse_log_level; wc_tcp_parse_log_level] →
  (∀ m', noted m m' → Q (match find_level text 0 log_level_names with
                         | Some (i, _) => (0, i)
                         | None => (-1, level)
                         end) m') →
  wp t (parse text level) Q m.
Proof.
  intros Hin HQ. destruct (server_levels_eq text level m) as (H1 & H2 & H3).
  rewrite !elem_of_cons in Hin. unfold wp.
  destruct Hin as [->|[->|[->|[]%not_elem_of_nil]]]; rewrite ?H1, ?H2, ?H3;
    (destruct (find_level text 0 log_level_names) as [[i name]|]; apply HQ;
     [reflexivity | apply errno_noted]).
Qed.

Ltac in_list := rewrite !elem_of_cons; tauto.

Lemma uds_option_loop_spec t program arguments o (Q : option uds_options → machine W → Prop) m :
  (∀ m', noted m m' → Q (scan_uds arguments o) m') →
  wp t (uds_option_loop program arguments o) Q m.
Proof.
  revert o m. induction arguments as [|option|option value rest IH] using pairs_ind;
    intros o m HQ; cbn [uds_option_loop scan_uds] in *.
  { wp_go. by apply HQ. }
  { apply server_usage_spec; [in_list | done]. }
  destruct (streq option (lit "--socket")); [by apply IH|].
  destruct (streq option (lit "--log-level")); [|apply server_usage_spec; [in_list | done]].
  apply wp_bind, server_level_spec; [in_list|]. intros m' Hn.
  destruct (find_level value 0 log_level_names) as [[i name]|].
  - apply IH. intros m2 Hn2. apply HQ. by etrans.
  - apply server_usage_spec; [in_list|]. intros m2 Hn2. apply HQ. by etrans.
Qed.

Lemma uds_threaded_option_loop_spec t program arguments o
    (Q : option uds_options → machine W → Prop) m :
  (∀ m', noted m m' → Q (scan_uds arguments o) m') →
  wp t (uds_threaded_option_loop program arguments o) Q m.
Proof.
  revert o m. induction arguments as [|option|option value rest IH] using pairs_ind;
    intros o m HQ; cbn [uds_threaded_option_loop scan_uds] in *.
  { wp_go. by apply HQ. }
  { apply server_usage_spec; [in_list | done]. }
  destruct (streq option (lit "--socket")); [by apply IH|].
  destruct (streq option (lit "--log-level")); [|apply server_usage_spec; [in_list | done]].
  apply wp_bind, server_level_spec; [in_list|]. intros m' Hn.
  destruct (find_level value 0 log_level_names) as [[i name]|].
  - apply IH. intros m2 Hn2. apply HQ. by etrans.
  - apply server_usage_spec; [in_list|]. intros m2 Hn2. apply HQ. by etrans.
Qed.

Lemma tcp_option_loop_spec t program arguments o (Q : option tcp_options → machine W → Prop) m :
  (∀ m', noted m m' → Q (scan_tcp arguments o) m') →
  wp t (tcp_option_loop program arguments o) Q m.
Proof.
  revert o m. induction arguments as [|option|option value rest IH] using pairs_ind; intros o m HQ; cbn [tcp_option_loop scan_tcp] in *.
  { wp_go. by apply HQ. }
  { apply server_usage_spec; [in_list | done]. }
  destruct (streq option (lit "--bind")); [by apply IH|].
  destruct (streq option (lit "--port")).
  { destruct (wc_tcp_parse_port_eq value (to_port o) m) as (e & Heq & _).
    apply wp_bind. unfold wp at 1. rewrite Heq. destruct (port_accepts value) as [p|].
    - apply IH. intros m2 Hn2. apply HQ. etrans; [apply errno_noted | done].
    - apply server_usage_spec; [in_list|]. intros m2 Hn2. apply HQ. etrans; [apply errno_noted | done]. }
  destruct (streq option (lit "--log-level")); [|apply server_usage_spec; [in_list | done]].
  apply wp_bind, server_level_spec; [in_list|]. intros m' Hn.
  destruct (find_level value 0 log_level_names) as [[i name]|].
  - apply IH. intros m2 Hn2. apply HQ. by etrans.
  - apply server_usage_spec; [in_list|]. intros m2 Hn2. apply HQ. by etrans.
Qed.

(** The three copies of the function that installs a handler. *)
Abbreviation installers :=
  [wc_install_stop_handler; wc_threaded_install_stop_handler; wc_tcp_install_stop_handler].

Lemma install_stop_handler_spec t install n (Q : Z → machine W → Prop) m :
  install ∈ installers → (∀ r m', noted m m' → Q r m') → wp t (install n) Q m.
Proof.
  intros Hin HQ.
  assert (wp t (r ← os_call os_sigemptyset;
    r ← status_result r;
    if r =? -1 then mret (-1) else
    r ← os_call (os_sigaction n);
    status_result r) Q m) as Hwp.
  { wp_call wp_quiet_call; [constructor|]. intros r m1 Hm1 _. apply call0_noted in Hm1.
    wp_call wp_status_result.
    2:{ intros e ->. simpl. wp_go. apply HQ. etrans; [done | apply errno_noted]. }
    intros ->. simpl. wp_call wp_quiet_call; [constructor|]. intros r m2 Hm2 _.
    apply call0_noted in Hm2. apply wp_status_result.
    - intros ->. apply HQ. by etrans.
    - intros e ->. apply HQ. etrans; [by etrans | apply errno_noted]. }
  rewrite !elem_of_cons in Hin. by destruct Hin as [->|[->|[->|[]%not_elem_of_nil]]].
Qed.

Lemma stop_handlers_spec t install (Q : bool → machine W → Prop) m :
  install ∈ installers → (∀ b m', noted m m' → Q b m') → wp t (stop_handlers install) Q m.
Proof.
  intros Hin HQ. unfold stop_handlers. apply wp_bind, install_stop_handler_spec; [done|].
  intros r m1 Hn1. destruct (r =? -1); [wp_go; by apply HQ|].
  apply wp_bind, install_stop_handler_spec; [done|].
  intros r2 m2 Hn2. wp_go. apply HQ. by etrans.
Qed.

Lemma all_signals_spec t install (Q : bool → machine W → Prop) m :
  install ∈ installers → (∀ b m', noted m m' → Q b m') → wp t (all_signals install) Q m.
Proof.
  intros Hin HQ. unfold all_signals. apply wp_bind, wc_socket_ignore_sigpipe_spec. intros r m1 _ Hf.
  apply call0_noted in Hf. destruct (r =? -1); [wp_go; by apply HQ|].
  apply stop_handlers_spec; [done|]. intros b m2 Hn2. apply HQ. by etrans.
Qed.

Lemma set_level_spec t level (Q : () → machine W → Prop) m :
  (∀ m', noted m m' → Q () m') → wp t (wc_log_set_level level) Q m.
Proof.
  intros HQ. unfold wc_log_set_level. destruct (wc_log_level_valid level); wp_go; apply HQ;
    [apply level_noted | reflexivity].
Qed.

Lemma perror_ret_spec t {A} s (a : A) (Q : A → machine W → Prop) m :
  (∀ m', noted m m' → Q a m') → wp t (perror s ;; mret a) Q m.
Proof.
  intros HQ. apply wp_bind, perror_spec. intros m1 Hp. wp_go. by apply HQ, printed_noted.
Qed.

(** The option loops over the whole command line. *)
Lemma from_first_spec t {A} loop scan arguments (o : A) (Q : option A → machine W → Prop) m :
  (∀ program rest m, (∀ m', noted m m' → Q (scan rest o) m') → wp t (loop program rest o) Q m) →
  scan [] o = Some o →
  (∀ m', noted m m' → Q (scan (tail arguments) o) m') →
  wp t (from_first loop arguments o) Q m.
Proof.
  intros Hloop Hnil HQ. destruct arguments as [|program rest]; simpl in *; [|by apply Hloop].
  wp_go. rewrite <-Hnil. by apply HQ.
Qed.

(** What the two set-ups report. *)
Definition setup_post {A} (scanned : option A) (r : Z + A) : Prop :=
  match r with
  | inl code => code = 2 ∧ scanned = None ∨ code = 1 ∧ is_Some scanned
  | inr o => scanned = Some o
  end.

Lemma tcp_setup_spec t arguments (Q : Z + tcp_options → machine W → Prop) m :
  (∀ r m', setup_post (scan_tcp (tail arguments) tcp_defaults) r → noted m m' → Q r m') →
  wp t (tcp_setup arguments) Q m.
Proof.
  intros HQ. unfold tcp_setup. apply wp_bind, (from_first_spec _ _ scan_tcp);
    [by intros; apply tcp_option_loop_spec | done |]. intros m1 Hn1.
  destruct (scan_tcp (tail arguments) tcp_defaults) as [o|]; [|wp_go; apply HQ; [by left | done]].
  apply wp_bind, set_level_spec. intros m2 Hn2. apply wp_bind, all_signals_spec; [in_list|].
  intros b m3 Hn3.
  assert (noted m m3) as Hn by (etrans; [done | by etrans]). destruct b; simpl.
  - wp_go. by apply HQ.
  - apply perror_ret_spec. intros m4 Hn4. apply HQ; [by right | by etrans].
Qed.

Lemma uds_threaded_setup_spec t arguments (Q : Z + uds_options → machine W → Prop) m :
  (∀ r m', setup_post (scan_uds (tail arguments) uds_threaded_defaults) r → noted m m' → Q r m') →
  wp t (uds_threaded_setup arguments) Q m.
Proof.
  intros HQ. unfold uds_threaded_setup. apply wp_bind, (from_first_spec _ _ scan_uds);
    [by intros; apply uds_threaded_option_loop_spec | done |]. intros m1 Hn1.
  destruct (scan_uds (tail arguments) uds_threaded_defaults) as [o|];
    [|wp_go; apply HQ; [by left | done]].
  apply wp_bind, set_level_spec. intros m2 Hn2. apply wp_bind, all_signals_spec; [in_list|].
  intros b m3 Hn3.
  assert (noted m m3) as Hn by (etrans; [done | by etrans]). destruct b; simpl.
  - wp_go. by apply HQ.
  - apply perror_ret_spec. intros m4 Hn4. apply HQ; [by right | by etrans].
Qed.

(** The process is as before, up to what [noted] allows and the outside world. *)
Record given_back m m' : Prop := {
  gb_open : m_open m' = m_open m;
  gb_live : m_live m' = m_live m;
  gb_heap : m_heap m' = m_heap m;
}.

Lemma noted_given_back m m' : noted m m' → given_back m m'.
Proof. by intros []. Qed.

#[global] Instance given_back_trans : Transitive given_back.
Proof. intros m1 m2 m3 [] []. constructor; congruence. Qed.

Lemma uds_main_spec t fuel clients0 arguments (Q : Z → machine W → Prop) m :
  zlen clients0 = WC_UDS_MAX_CLIENTS → m_heap m = ∅ →
  enough t (fuel - OUTPUT_ROOM) (m_os m) →
  (∀ m', noted m m' → scan_uds (tail arguments) uds_defaults = None → Q 2 m') →
  (∀ code m', given_back m m' → is_Some (scan_uds (tail arguments) uds_defaults) →
     code = 0 ∨ code = 1 → uds_run (m_trace m) (m_trace m') → Q code m') →
  wp t (uds_main fuel clients0 arguments) Q m.
Proof.
  intros Hlen Hheap Hfuel Hbad Hok. unfold uds_main. apply wp_bind, (from_first_spec _ _ scan_uds);
    [by intros; apply uds_option_loop_spec | done |]. intros m1 Hn1.
  destruct (scan_uds (tail arguments) uds_defaults) as [o|]; [|wp_go; by apply Hbad].
  assert (∀ code m', noted m m' → code = 0 ∨ code = 1 → Q code m') as Hfail.
  { intros code m' Hn Hc. apply Hok; [by apply noted_given_back | done | done|].
    apply uds_run_quietly. by rewrite (nt_trace _ _ Hn). }
  apply wp_bind, set_level_spec. intros m2 Hn2. apply wp_bind, wc_socket_ignore_sigpipe_spec.
  intros r m3 _ Hn3%call0_noted. assert (noted m m3) as Hn03 by (etrans; [done | by etrans]).
  destruct (r =? -1).
  { apply perror_ret_spec. intros m4 Hn4. apply Hfail; [by etrans | auto]. }
  apply wp_bind, stop_handlers_spec; [in_list|]. intros b m4 Hn4. assert (noted m m4) as Hn04 by (by etrans).
  destruct b; simpl.
  2:{ apply perror_ret_spec. intros m5 Hn5. apply Hfail; [by etrans | auto]. }
  apply wp_bind, server_uds_run_spec; [done | by rewrite (nt_heap _ _ Hn04) | |].
  { eapply enough_mono; [done | apply Hn04 | done]. }
  intros r5 m5 _ [] _ Hur. rewrite (nt_trace _ _ Hn04) in Hur.
  assert (given_back m m5) as Hb.
  { etrans; [by apply noted_given_back|]. constructor; try done. by rewrite (nt_heap _ _ Hn04), Hheap. }
  destruct (r5 =? -1).
  - apply perror_ret_spec. intros m6 Hn6. apply Hok; [|done|auto|by rewrite (nt_trace _ _ Hn6)].
    etrans; [done | by apply noted_given_back].
  - wp_go. apply Hok; auto.
Qed.

End programs_specs.

(** ** Properties *)

Section programs_properties.
Context {W : Type} {OS : Posix W} `{!PosixLaws W, !PosixFair W}.

(** C20: the single-threaded server program always terminates once it is asked
    to stop, with an exit code that says what happened: 2 exactly when the
    command line is not understood (and then no socket was touched), otherwise
    0 or 1; in every case all descriptors and all memory are given back. *)
Theorem uds_main_exits fuel clients0 arguments (m : machine W) :
  zlen clients0 = WC_UDS_MAX_CLIENTS → m_heap m = ∅ →
  (os_budget (m_os m) + OUTPUT_ROOM < fuel)%nat →
  ∃ code m', uds_main fuel clients0 arguments m = Ret code m' ∧ given_back m m' ∧
    match scan_uds (tail arguments) uds_defaults with
    | None => code = 2 ∧ m_trace m' = m_trace m
    | Some _ => code = 0 ∨ code = 1
    end.
Proof.
  intros Hlen Hheap Hfuel.
  assert (wp true (uds_main fuel clients0 arguments) (λ code m', given_back m m' ∧
    match scan_uds (tail arguments) uds_defaults with
    | None => code = 2 ∧ m_trace m' = m_trace m
    | Some _ => code = 0 ∨ code = 1
    end) m) as Hwp.
  { apply uds_main_spec; [done | done | apply enough_budget; lia |..].
    - intros m' Hn ->. split; [by apply noted_given_back | split; [done | apply Hn]].
    - by intros code m' Hb [o ->] Hc _. }
  by apply wp_total_inv in Hwp as (code & m' & Hrun & Hpost); exists code, m'.
Qed.

End programs_properties.

(** ** Concrete runs *)

(** The options are read left to right; a missing value is a usage error. *)
Example scan_uds_runs :
  scan_uds [lit "--log-level"; lit "TRACE"; lit "--socket"; lit "/s"] uds_defaults =
    Some (UdsOptions (lit "/s") WC_LOG_TRACE) ∧
  scan_uds [lit "--socket"] uds_defaults = None.
Proof. vm_compute. done. Qed.

Example scan_tcp_runs :
  scan_tcp [lit "--port"; lit "80"; lit "--bind"; lit "10.0.0.1"; lit "--port"; lit "81"]
    tcp_defaults = Some (TcpOptions (lit "10.0.0.1") 81 WC_LOG_INFO) ∧
  scan_tcp [lit "--port"; lit "0"] tcp_defaults = None.
Proof. vm_compute. done. Qed.

Lemma uds_main_exits_witness :
  ∃ code m', uds_main (Z.to_nat 66000) raw_table [lit "server"; lit "--socket"; lit "/tmp/s"]
      (boot one_session) = Ret code m' ∧ m_open m' = {[0; 1; 2]} ∧ (code = 0 ∨ code = 1).
Proof.
  destruct (uds_main_exits (Z.to_nat 66000) raw_table
    [lit "server"; lit "--socket"; lit "/tmp/s"] (boot one_session)) as (code & m' & Hrun & Hb & Hc).
  - reflexivity.
  - reflexivity.
  - change (os_budget (m_os (boot one_session))) with 7%nat.
    unfold OUTPUT_ROOM, WC_UDS_OUTPUT_LIMIT, UINT16_MAX, WC_PROTOCOL_RESPONSE_HEADER_SIZE. lia.
  - exists code, m'. split; [exact Hrun | split; [exact (gb_open _ _ Hb) | exact Hc]].
Defined.
