(* ===== verification/WorkersInv.v ===== *)
(** * The threaded servers: invariant and protocol

    What the threads of a server share and what each may rely on: the
    invariant of the shared state, the rely of a thread, its access rights,
    and the rules for the actions. *)

From S2P Require Import Prelude Machine Script Buffer Protocol Queue SocketUtils Logging Commands Respond Listener Session Threads Workers.

(** ** The invariant *)

Definition block_sum (blocks : gmap tid Z) : Z := map_fold (λ _ n acc, n + acc) 0 blocks.

Lemma block_sum_insert blocks t n :
  block_sum (<[t := n]> blocks) = block_sum blocks - default 0 (blocks !! t) + n.
Proof.
  unfold block_sum. destruct (blocks !! t) as [k|] eqn:Ht; simpl.
  - rewrite <-(insert_delete_id blocks t k Ht) at 2. rewrite <-(insert_delete_eq blocks t n).
    rewrite !map_fold_insert_L by (first [by intros; lia | by rewrite lookup_delete_eq]). lia.
  - rewrite map_fold_insert_L by (first [by intros; lia | done]). lia.
Qed.

Lemma block_sum_zero blocks :
  (∀ t, default 0 (blocks !! t) = 0) → block_sum blocks = 0.
Proof.
  unfold block_sum. induction blocks as [|t n blocks Ht IH] using map_ind; intros H0.
  { by rewrite map_fold_empty. }
  rewrite map_fold_insert_L by (first [by intros; lia | done]).
  specialize (H0 t) as Hn. rewrite lookup_insert_eq in Hn. simpl in Hn. rewrite IH; [lia|].
  intros t'. specialize (H0 t'). destruct (decide (t' = t)) as [->|]; [by rewrite Ht|].
  by rewrite lookup_insert_ne in H0.
Qed.

(** The traffic of a worker is served in order. *)
Definition in_order {W} {OS : Posix W} (evs : list event) : Prop := ∀ fd, in_order_on fd evs evs.

(** The main thread runs for ever; a worker until it returns. *)
Definition alive {W} (t : tid) (s : sys W) : Prop :=
  t = 0%nat ∨ (is_Some (y_threads s !! t) ∧ t ∉ y_exited s).

(** No thread works on slot [i]. *)
Definition idle {W} (i : nat) (s : sys W) : Prop := ∀ t, y_threads s !! t ≠ Some i.

Section invariant.
Context {W : Type} {OS : Posix W} {PT : Pthreads W}.
(** Descriptors and heap blocks of the process before the call. *)
Context (base : gset Z) (live0 : Z).
Implicit Types s : sys W.

Record sys_inv s : Prop := {
  yi_open : m_open (y_machine s) = base ∪ dom (y_owner s);
  yi_base : base ## dom (y_owner s);
  yi_live : m_live (y_machine s) = live0 + block_sum (y_blocks s);
  yi_table : length (y_workers s) = WC_TCP_MAX_CLIENTS;
  yi_thread t i : y_threads s !! t = Some i → (0 < t < y_next s)%nat ∧ y_mutex s = true ∧
    ∃ w, y_workers s !! i = Some w ∧ wk_in_use w = true ∧ wk_thread w = t;
  yi_exited : y_exited s ⊆ dom (y_threads s);
  yi_gone t : ¬ alive t s → blocks_of s t = 0 ∧ y_lock s ≠ Some t ∧
    (∀ fd, y_owner s !! fd ≠ Some t);
  yi_order t : t ≠ 0%nat → in_order (events_of s t);
  yi_unborn t : (y_next s ≤ t)%nat → events_of s t = [];
  yi_next : (0 < y_next s)%nat;
}.

(** Two tables that differ in the [finished] flags only. *)
Definition same_slot (w w' : wc_worker) : Prop :=
  wk_thread w' = wk_thread w ∧ wk_client_fd w' = wk_client_fd w ∧ wk_in_use w' = wk_in_use w.

(** What the steps of the other threads leave alone, for [t]: its part of the
    ghost state, its hold on the mutex, its slot; for the main thread, the
    whole table up to the [finished] flags, and which threads there are. *)
Record rely_to (t : tid) s s' : Prop := {
  rl_alive : alive t s';
  rl_lock : y_lock s = Some t ↔ y_lock s' = Some t;
  rl_owner fd : y_owner s !! fd = Some t ↔ y_owner s' !! fd = Some t;
  rl_blocks : blocks_of s' t = blocks_of s t;
  rl_errno : errno_of s' t = errno_of s t;
  rl_events : events_of s' t = events_of s t;
  rl_slot i w : y_threads s !! t = Some i → y_workers s !! i = Some w →
    y_threads s' !! t = Some i ∧
    ∃ w', y_workers s' !! i = Some w' ∧ wk_client_fd w' = wk_client_fd w;
  rl_main : t = 0%nat → y_threads s' = y_threads s ∧ y_next s' = y_next s ∧
    y_mutex s' = y_mutex s ∧ Forall2 same_slot (y_workers s) (y_workers s');
}.

Definition rely (t : tid) s s' : Prop := alive t s → rely_to t s s'.

#[global] Instance same_slot_preorder : PreOrder same_slot.
Proof.
  split; [done|]. unfold same_slot. intros w1 w2 w3 (? & ? & ?) (? & ? & ?).
  split_and!; congruence.
Qed.

#[global] Instance rely_preorder t : PreOrder (rely t).
Proof.
  split.
  - intros s Ha. constructor; try done; eauto.
  - intros s1 s2 s3 H12 H23 Ha. specialize (H12 Ha). specialize (H23 (rl_alive _ _ _ H12)).
    destruct H12 as [_ Hl1 Ho1 Hb1 He1 Hv1 Hs1 Hm1], H23 as [Ha3 Hl2 Ho2 Hb2 He2 Hv2 Hs2 Hm2].
    constructor; try congruence; try done.
    + by rewrite Hl1.
    + intros fd. by rewrite Ho1.
    + intros i w Hi Hw. destruct (Hs1 i w Hi Hw) as (Hi2 & w2 & Hw2 & ?).
      destruct (Hs2 i w2 Hi2 Hw2) as (Hi3 & w3 & Hw3 & ?). split; [done|].
      exists w3. split; [done | congruence].
    + intros ->. destruct (Hm1 eq_refl) as (? & ? & ? & ?), (Hm2 eq_refl) as (? & ? & ? & ?).
      split_and!; try congruence. by etrans.
Qed.

(** Access rights: [stopping] and [finished] under the mutex, the other fields
    of a slot by the main thread and the slot's worker; the main thread alone
    may write to a slot, and only while no thread works on it. *)
Definition perm (t : tid) (a : access place) s : Prop :=
  match acc_loc a with
  | LStopping => y_lock s = Some t
  | LFinished i =>
    (y_lock s = Some t ∧ (t = 0%nat ∨ y_threads s !! t = Some i)) ∨ (t = 0%nat ∧ idle i s)
  | LSlot i =>
    if acc_write a then t = 0%nat ∧ idle i s
    else t = 0%nat ∨ y_threads s !! t = Some i
  end.

(** Two accesses of which one is a write. *)
Definition conflict (a b : access place) : Prop :=
  acc_loc a = acc_loc b ∧ (acc_write a || acc_write b = true).

Lemma perm_no_conflict t1 t2 a b s :
  t1 ≠ t2 → perm t1 a s → perm t2 b s → ¬ conflict a b.
Proof.
  unfold perm. intros Hne Ha Hb [Heq Hw]. destruct a as [wa la], b as [wb lb]. simpl in *. subst lb.
  destruct la as [|i|i]; [congruence|..].
  - unfold idle in *. naive_solver congruence.
  - unfold idle in *. destruct wa, wb; naive_solver.
Qed.

(** The state a worker starts in: it owns its descriptor and nothing else. *)
Record born (t : tid) (i : nat) s : Prop := {
  bo_thread : y_threads s !! t = Some i;
  bo_running : t ∉ y_exited s;
  bo_owner w fd : y_workers s !! i = Some w →
    y_owner s !! fd = Some t ↔ fd = wk_client_fd w;
  bo_blocks : blocks_of s t = 0;
  bo_lock : y_lock s ≠ Some t;
  bo_events : events_of s t = [];
}.

(** A worker there is after a step was there before it, as returned as it was, or is the one the step created. *)
Definition forks s s' : Prop :=
  ∀ t i, y_threads s' !! t = Some i →
    (y_threads s !! t = Some i ∧ (t ∈ y_exited s ↔ t ∈ y_exited s')) ∨
    (t = y_next s ∧ y_next s' = S (y_next s) ∧ born t i s').

(** What a thread may wait for: the mutex, held by another; the main thread
    without the mutex, a worker that has not returned; or the outside world
    interrupts its calls more than [fuel] times. *)
Definition waits (fuel : nat) (t : tid) s : Prop :=
  (∃ o, y_lock s = Some o ∧ o ≠ t) ∨
  (t = 0%nat ∧ y_lock s ≠ Some 0%nat ∧ ∃ t', alive t' s ∧ t' ≠ 0%nat) ∨
  ¬ enough true fuel (m_os (y_machine s)).

(** A call that is cut off was interrupted too often. *)
Lemma call_waits {A} fuel t (c : M W A) s (Q : A → machine W → Prop) :
  (∀ b, enough b fuel (m_os (y_machine s)) → wp b c Q (view t s)) →
  match c (view t s) with
  | Ret a m' => Q a m'
  | UB => False
  | NoFuel => waits fuel t s
  end.
Proof.
  intros Hc. pose proof (Hc false (enough_false _ _)) as Hf. unfold wp in *.
  destruct (c (view t s)); [done | done |]. right. right. intros He. by specialize (Hc true He).
Qed.

Abbreviation gstep := (good_step sys_inv rely forks).

Lemma good_refl t s : sys_inv s → gstep t s s.
Proof. intros Hi. constructor; [done | by intros t' _; apply reflexivity | by left]. Qed.


(** ** Calls into the other modules *)

Lemma alive_next t s : sys_inv s → alive t s → (t < y_next s)%nat.
Proof.
  intros Hi [->|[[i Ht] _]]; [apply Hi|]. by destruct (yi_thread _ Hi _ _ Ht) as [? _]; lia.
Qed.

Lemma settle_other t t' s m' :
  t' ≠ t → errno_of (settle t s m') t' = errno_of s t' ∧
    blocks_of (settle t s m') t' = blocks_of s t' ∧
    events_of (settle t s m') t' = events_of s t'.
Proof.
  intros Hne. unfold errno_of, blocks_of, events_of, settle. simpl.
  by rewrite !lookup_insert_ne.
Qed.

Lemma settle_own t s m' :
  errno_of (settle t s m') t = m_errno m' ∧
  blocks_of (settle t s m') t = blocks_of s t + (m_live m' - m_live (y_machine s)) ∧
  events_of (settle t s m') t =
    events_of s t ++ drop (length (m_trace (y_machine s))) (m_trace m').
Proof.
  unfold errno_of at 1, blocks_of at 1, events_of at 1, settle. simpl.
  by rewrite !lookup_insert_eq.
Qed.

(** A call of [t] is a good step when the ownership it leaves is consistent
    and, for a worker, its traffic still in order. *)
Lemma settle_good t s m' owner' :
  sys_inv s → alive t s →
  next_owner t (y_owner s) (m_open (y_machine s)) (m_open m') = owner' →
  m_open m' = base ∪ dom owner' → base ## dom owner' →
  (∀ t' fd, t' ≠ t → y_owner s !! fd = Some t' ↔ owner' !! fd = Some t') →
  (t ≠ 0%nat → in_order (events_of s t ++ drop (length (m_trace (y_machine s))) (m_trace m'))) →
  gstep t s (settle t s m').
Proof.
  intros Hi Ha Hown Hopen Hdisj Hothers Hord.
  pose proof (alive_next _ _ Hi Ha) as Hnext. constructor; [constructor|..].
  - simpl. by rewrite Hown.
  - simpl. by rewrite Hown.
  - simpl. rewrite block_sum_insert. fold (blocks_of s t). rewrite (yi_live _ Hi). lia.
  - apply Hi.
  - apply Hi.
  - apply Hi.
  - intros t' Hn. assert (t' ≠ t) as Hne by (intros ->; by apply Hn).
    destruct (settle_other t t' s m' Hne) as (_ & -> & _).
    destruct (yi_gone _ Hi t' Hn) as (? & ? & Hno). split_and!; [done..|].
    intros fd. simpl. rewrite Hown, <-Hothers by done. apply Hno.
  - intros t' Ht'. destruct (decide (t' = t)) as [->|Hne].
    + destruct (settle_own t s m') as (_ & _ & ->). by apply Hord.
    + destruct (settle_other t t' s m' Hne) as (_ & _ & ->). by apply Hi.
  - intros t' Ht'. simpl in Ht'. destruct (settle_other t t' s m') as (_ & _ & ->); [lia|].
    by apply Hi.
  - apply Hi.
  - intros t' Hne Ha'. destruct (settle_other t t' s m' Hne) as (He & Hb & Hv).
    constructor; try done; [|by eauto].
    intros fd. simpl. rewrite Hown. by apply Hothers.
  - by left.
Qed.

Lemma next_owner_lookup t owner open open' fd :
  next_owner t owner open open' !! fd =
    if decide (fd ∈ open') then
      match owner !! fd with
      | Some o => Some o
      | None => if decide (fd ∈ open) then None else Some t
      end
    else None.
Proof.
  unfold next_owner. rewrite lookup_union, map_lookup_filter, lookup_gset_to_gmap.
  destruct (decide (fd ∈ open')) as [Hin'|Hout'].
  - destruct (owner !! fd) as [o|]; simpl.
    + rewrite option_guard_True by done. simpl.
      by destruct (guard (fd ∈ open' ∖ open)).
    + case_decide as Hin; [rewrite option_guard_False by set_solver | rewrite option_guard_True by set_solver]; done.
  - rewrite (option_guard_False (fd ∈ open' ∖ open)) by set_solver.
    destruct (owner !! fd); simpl; [|done]. by rewrite option_guard_False.
Qed.

Lemma next_owner_same t owner (open : gset Z) :
  dom owner ⊆ open → next_owner t owner open open = owner.
Proof.
  intros Hd. apply map_eq. intros fd. rewrite next_owner_lookup.
  destruct (owner !! fd) as [o|] eqn:Ho.
  - rewrite decide_True; [done|]. by apply Hd, elem_of_dom.
  - by case_decide.
Qed.

Lemma next_owner_close t owner (open : gset Z) fd :
  dom owner ⊆ open → next_owner t owner open (open ∖ {[fd]}) = delete fd owner.
Proof.
  intros Hd. apply map_eq. intros fd'. rewrite next_owner_lookup.
  destruct (decide (fd' = fd)) as [->|Hne].
  - rewrite decide_False by set_solver. by rewrite lookup_delete_eq.
  - rewrite lookup_delete_ne by done. destruct (owner !! fd') as [o|] eqn:Ho.
    + rewrite decide_True; [done|]. apply elem_of_difference. split; [|set_solver].
      by apply Hd, elem_of_dom.
    + case_decide; [|done]. rewrite decide_True by set_solver. done.
Qed.

Lemma next_owner_open t owner (open : gset Z) fd :
  dom owner ⊆ open → (fd ∉ open) →
  next_owner t owner open ({[fd]} ∪ open) = <[fd := t]> owner.
Proof.
  intros Hd Hfresh. apply map_eq. intros fd'. rewrite next_owner_lookup.
  destruct (decide (fd' = fd)) as [->|Hne].
  - rewrite decide_True by set_solver. rewrite lookup_insert_eq.
    destruct (owner !! fd) eqn:Ho; [|by rewrite decide_False].
    exfalso. apply Hfresh, Hd. by apply elem_of_dom.
  - rewrite lookup_insert_ne by done. destruct (owner !! fd') as [o|] eqn:Ho.
    + rewrite decide_True; [done|]. apply elem_of_union_r. by apply Hd, elem_of_dom.
    + case_decide; [|done]. by rewrite decide_True by set_solver.
Qed.

(** The three ways a call can change the descriptors. *)
Lemma owner_dom s : sys_inv s → dom (y_owner s) ⊆ m_open (y_machine s).
Proof. intros Hi. rewrite (yi_open _ Hi). set_solver. Qed.

Definition order_kept t s (m' : machine W) : Prop :=
  t ≠ 0%nat → in_order (events_of s t ++ drop (length (m_trace (y_machine s))) (m_trace m')).

Lemma settle_same t s m' :
  sys_inv s → alive t s → m_open m' = m_open (y_machine s) → order_kept t s m' →
  gstep t s (settle t s m') ∧ y_owner (settle t s m') = y_owner s.
Proof.
  intros Hi Ha Ho Hord. pose proof (next_owner_same t _ _ (owner_dom _ Hi)) as Hown.
  rewrite <-Ho in Hown at 2. split; [|exact Hown].
  eapply settle_good; [done | done | exact Hown | | apply Hi | done | done].
  rewrite Ho. apply Hi.
Qed.

Lemma settle_close t s m' fd :
  sys_inv s → alive t s → y_owner s !! fd = Some t →
  m_open m' = m_open (y_machine s) ∖ {[fd]} → order_kept t s m' →
  gstep t s (settle t s m') ∧ y_owner (settle t s m') = delete fd (y_owner s).
Proof.
  intros Hi Ha Hfd Ho Hord. pose proof (next_owner_close t _ _ fd (owner_dom _ Hi)) as Hown.
  rewrite <-Ho in Hown. split; [|exact Hown].
  assert (fd ∈ dom (y_owner s)) as Hin by (by apply elem_of_dom).
  pose proof (yi_base _ Hi) as Hb.
  eapply settle_good; [done | done | exact Hown | | | | done].
  - rewrite Ho, (yi_open _ Hi), dom_delete_L. apply set_eq. intros x. set_solver.
  - rewrite dom_delete_L. set_solver.
  - intros t' fd' Hne. destruct (decide (fd' = fd)) as [->|].
    + rewrite lookup_delete_eq, Hfd. naive_solver.
    + by rewrite lookup_delete_ne.
Qed.

Lemma settle_open t s m' fd :
  sys_inv s → alive t s → (fd ∉ m_open (y_machine s)) →
  m_open m' = {[fd]} ∪ m_open (y_machine s) → order_kept t s m' →
  gstep t s (settle t s m') ∧ y_owner (settle t s m') = <[fd := t]> (y_owner s).
Proof.
  intros Hi Ha Hfd Ho Hord. pose proof (next_owner_open t _ _ fd (owner_dom _ Hi) Hfd) as Hown.
  rewrite <-Ho in Hown. split; [|exact Hown].
  pose proof (yi_base _ Hi) as Hb. rewrite (yi_open _ Hi) in Hfd.
  assert (y_owner s !! fd = None) as Hnone by (apply not_elem_of_dom; set_solver).
  eapply settle_good; [done | done | exact Hown | | | | done].
  - rewrite Ho, (yi_open _ Hi), dom_insert_L. set_solver.
  - rewrite dom_insert_L. set_solver.
  - intros t' fd' Hne. destruct (decide (fd' = fd)) as [->|].
    + rewrite lookup_insert_eq, Hnone. naive_solver.
    + by rewrite lookup_insert_ne.
Qed.

End invariant.
