(* ===== verification/WorkersThread.v ===== *)
(** * The threaded servers: the worker threads

    A worker verified on its own: the rules for its actions, and the proof
    that from its start to its return it keeps to the protocol, answers its
    connection in order, and gives back its descriptor and its memory. *)

From S2P Require Import Prelude Machine Script Buffer Protocol Queue SocketUtils Logging Commands Respond Listener Session Threads Workers WorkersInv.

(** ** Pthread calls, for any thread *)

Section pthread_rules.
Context {W : Type} {OS : Posix W} {PT : Pthreads W}.
Context (base : gset Z) (live0 : Z) (fuel : nat).
Implicit Types s : sys W.

Abbreviation inv := (sys_inv base live0).
Abbreviation gstep := (good_step inv rely forks).
Abbreviation tsafe := (sp inv rely perm forks (waits fuel)).

(** The outside world is nobody's business. *)
Lemma with_os_inv w s : inv s → inv (with_os w s).
Proof. intros []. by constructor. Qed.

Lemma with_os_rely t w s : rely t s (with_os w s).
Proof. intros Ha. by constructor; eauto. Qed.

Lemma rely_with_os t w s s' : rely t (with_os w s) s' → rely t s s'.
Proof. intros Hr. etrans; [apply with_os_rely | exact Hr]. Qed.

Lemma good_with_os t w s s2 : gstep t (with_os w s) s2 → gstep t s s2.
Proof.
  intros [Hi Hg Hf]. constructor; [done | | exact Hf].
  intros t' Hne. eapply rely_with_os. by apply Hg.
Qed.

(** A call: it fails and does nothing, or has its effect. *)
Lemma sp_pt_call t accs g (f : sys W → progress (sys W) Z) (Q : Z → sys W → Prop) s :
  (∀ s1, inv s1 → rely t s s1 → Forall (λ a, perm t a s1) accs) →
  (∀ s1 w, inv s1 → rely t s s1 → g (m_os (y_machine s1)) = (0, w) →
     match f (with_os w s1) with
     | Next s2 a => gstep t (with_os w s1) s2 ∧ (∀ s3, inv s3 → rely t s2 s3 → Q a s3)
     | Blocked => waits fuel t s1
     | Undef => False
     end) →
  (∀ e w w' s3, g w = (e, w') → e ≠ 0 → inv s3 → rely t s s3 → Q e s3) →
  tsafe t (pt_call accs g f) Q s.
Proof.
  intros Hperm Hok Hfail. apply sp_act. intros s1 Hi Hr. split; [by apply Hperm|].
  destruct (g (m_os (y_machine s1))) as [e w] eqn:Hg. case_if as He.
  - subst e. specialize (Hok s1 w Hi Hr Hg). destruct (f (with_os w s1)); [|done..].
    destruct Hok. split; [by eapply good_with_os | done].
  - split; [constructor; [by apply with_os_inv | intros t' _; apply with_os_rely | by left]|].
    intros s3 Hi3 Hr3. eapply Hfail; [exact Hg | done | done |].
    etrans; [exact Hr|]. by eapply rely_with_os.
Qed.

(** ** The mutex *)

(** Taking and releasing the mutex is a good step. *)
Lemma lock_good t s :
  inv s → y_lock s = None → alive t s → gstep t s (with_mutex (y_mutex s) (Some t) s).
Proof.
  intros Hi Hl Ha. constructor; [|intros t' Hne Ha'|by left].
  - constructor; try apply Hi. intros t' Hn.
    destruct (yi_gone _ _ _ Hi t' Hn) as (? & ? & ?). split_and!; try done.
    simpl. intros [= <-]. by apply Hn.
  - constructor; simpl; eauto; [rewrite Hl; naive_solver | done].
Qed.

Lemma unlock_good t s :
  inv s → y_lock s = Some t → gstep t s (with_mutex (y_mutex s) None s).
Proof.
  intros Hi Hl. constructor; [|intros t' Hne Ha'|by left].
  - constructor; try apply Hi. intros t' Hn.
    destruct (yi_gone _ _ _ Hi t' Hn) as (? & ? & ?). by split_and!.
  - constructor; simpl; eauto; [rewrite Hl; naive_solver | done].
Qed.

End pthread_rules.

(** ** The traffic of one connection *)

Section traffic.
Context {W : Type} {OS : Posix W}.

(** The abstract connection only appends to the trace, whatever it is. *)
Lemma conn_shift fd inb outb tr inb' outb' tr' :
  conn fd (inb, outb, tr) (inb', outb', tr') →
  ∃ more, tr' = tr ++ more ∧ ∀ tr2, conn fd (inb, outb, tr2) (inb', outb', tr2 ++ more).
Proof.
  intros Hstep. inversion Hstep; subst; clear Hstep.
  - eexists. split; [done|]. intros. by apply conn_recv.
  - match goal with H : answered _ _ _ _ |- _ => rename H into Ha end.
    destruct (answered_shift _ _ _ _ Ha) as (more & -> & Hsh). exists more. split; [done|].
    intros. by apply conn_answer.
  - eexists. split; [done|]. intros. apply conn_send.
Qed.

Lemma conn_last_shift fd tr tr' :
  conn_last fd tr tr' → ∃ more, tr' = tr ++ more ∧ ∀ tr2, conn_last fd tr2 (tr2 ++ more).
Proof.
  intros [[bs ->]|[r Hr]].
  - eexists. split; [done|]. left. by eexists.
  - destruct (ran_shift _ _ _ Hr) as (more & -> & _ & Hsh). exists more. split; [done|].
    intros. right. by exists r.
Qed.

(** Nothing is transferred on other descriptors. *)
Definition silent_on (fd : Z) (evs : list event) : Prop :=
  received_bytes fd evs = [] ∧ sent_bytes fd evs = [].

Lemma silent_on_app fd evs more :
  silent_on fd evs → silent_on fd more → silent_on fd (evs ++ more).
Proof.
  unfold silent_on, received_bytes, sent_bytes. rewrite !fmap_app, !join_app.
  intros [-> ->] [-> ->]. done.
Qed.

Lemma conn_others fd fd' inb outb tr inb' outb' more :
  conn fd (inb, outb, tr) (inb', outb', tr ++ more) → fd' ≠ fd → silent_on fd' more.
Proof.
  intros Hstep Hne. inversion Hstep; subst; clear Hstep.
  - match goal with H : tr ++ _ = tr ++ _ |- _ => apply app_inv_head in H; subst end.
    split; unfold received_bytes, sent_bytes; simpl; [by rewrite decide_False|done].
  - match goal with H : answered _ _ _ _ |- _ => rename H into Ha end.
    destruct (ran_quiet fd' _ _ _ (answered_ran _ _ _ _ Ha)) as (more' & Heq & Hs & Hr).
    apply app_inv_head in Heq as ->. by split.
  - match goal with H : tr ++ _ = tr ++ _ |- _ => apply app_inv_head in H; subst end.
    split; unfold received_bytes, sent_bytes; simpl; [done|by rewrite decide_False].
Qed.

Lemma conn_last_others fd fd' tr more :
  conn_last fd tr (tr ++ more) → fd' ≠ fd → silent_on fd' more.
Proof.
  intros [[bs Heq]|[r Hr]] Hne.
  - apply app_inv_head in Heq as ->.
    split; unfold received_bytes, sent_bytes; simpl; [by rewrite decide_False|done].
  - destruct (ran_quiet fd' _ _ _ Hr) as (more' & Heq & Hs & Hrec).
    apply app_inv_head in Heq as ->. by split.
Qed.

(** The events of a worker on [fd] that has [inb] undecoded and [outb] unsent. *)
Record traffic (fd : Z) (evs : list event) (inb outb : list byte) : Prop := {
  tf_accounts : ∃ served, accounts fd [] served inb outb evs;
  tf_others fd' : fd' ≠ fd → silent_on fd' evs;
}.

Lemma traffic_start fd : traffic fd [] [] [].
Proof. split; [by exists []|]. by intros. Qed.

Lemma traffic_conn fd evs inb outb tr inb' outb' tr' :
  traffic fd evs inb outb → rtc (conn fd) (inb, outb, tr) (inb', outb', tr') →
  ∃ more, tr' = tr ++ more ∧ traffic fd (evs ++ more) inb' outb'.
Proof.
  intros Htf Hrtc. remember (inb, outb, tr) as st eqn:Hst. remember (inb', outb', tr') as st'.
  revert evs inb outb tr Htf Hst. induction Hrtc as [st|st [[inb1 outb1] tr1] st2 Hstep _ IH];
    intros evs inb outb tr Htf ->; simplify_eq.
  { exists []. by rewrite !app_nil_r. }
  destruct (conn_shift _ _ _ _ _ _ _ Hstep) as (more & -> & Hsh).
  destruct Htf as [[served Hac] Ho].
  destruct (conn_accounts fd [] served _ _ evs _ _ _ Hac (Hsh evs))
    as (more' & served' & Heq & Hac').
  simpl in Heq. apply app_inv_head in Heq as <-.
  destruct (IH eq_refl (evs ++ more) inb1 outb1 (tr ++ more)) as (more2 & -> & Htf2); [|done|].
  - split; [by eexists|]. intros fd' Hne. apply silent_on_app; [by apply Ho|].
    by eapply conn_others.
  - exists (more ++ more2). by rewrite !app_assoc.
Qed.

Lemma traffic_last fd evs inb outb tr tr' :
  traffic fd evs inb outb → conn_last fd tr tr' →
  ∃ more inb', tr' = tr ++ more ∧ traffic fd (evs ++ more) inb' outb.
Proof.
  intros [[served Hac] Ho] Hl. destruct (conn_last_shift _ _ _ Hl) as (more & -> & Hsh).
  destruct (conn_last_grow fd [] evs served inb outb _ (Hsh evs) Hac)
    as (more' & inb' & Heq & Hac').
  simpl in Heq. apply app_inv_head in Heq as <-. exists more, inb'. split; [done|].
  split; [by eexists|]. intros fd' Hne. apply silent_on_app; [by apply Ho|].
  by eapply conn_last_others.
Qed.

(** Events that are no transfers. *)
Lemma traffic_quiet fd evs inb outb more :
  traffic fd evs inb outb → (∀ fd', silent_on fd' more) → traffic fd (evs ++ more) inb outb.
Proof.
  intros [[served Hac] Ho] Hq. split.
  - exists served. by apply accounts_quiet; [|apply Hq..].
  - intros fd' Hne. apply silent_on_app; [by apply Ho | done].
Qed.

Lemma traffic_in_order fd evs inb outb : traffic fd evs inb outb → in_order evs.
Proof.
  intros [[served Hac] Ho] fd'. destruct (decide (fd' = fd)) as [->|Hne].
  - by apply (accounts_in_order fd [] served inb outb).
  - destruct (Ho fd' Hne) as [Hr' Hs']. exists [], [], []. by rewrite Hr', Hs'.
Qed.

End traffic.

(** ** A worker *)

(** What worker [t] on slot [i] knows of the shared state: its descriptor [fd],
    the descriptors it owns, its heap blocks, its events, and whether it holds
    the mutex. The other threads do not change any of it. *)
Record worker_at {W} (t : tid) (i : nat) (fd : Z) (owns : gset Z) (blocks : Z)
    (evs : list event) (locked : bool) (s : sys W) : Prop := {
  wa_thread : y_threads s !! t = Some i;
  wa_running : t ∉ y_exited s;
  wa_slot : ∃ w, y_workers s !! i = Some w ∧ wk_client_fd w = fd;
  wa_owner fd' : y_owner s !! fd' = Some t ↔ fd' ∈ owns;
  wa_blocks : blocks_of s t = blocks;
  wa_events : events_of s t = evs;
  wa_lock : y_lock s = Some t ↔ locked = true;
}.

Section worker.
Context {W : Type} {OS : Posix W} {PT : Pthreads W} `{!PosixLaws W, !PthreadLaws W}.
Context (base : gset Z) (live0 : Z) (fuel : nat) (tp : transport).
Implicit Types s : sys W.

Abbreviation inv := (sys_inv base live0).
Abbreviation gstep := (good_step inv rely forks).
Abbreviation tsafe := (sp inv rely perm forks (waits fuel)).

Lemma worker_alive t i fd owns b evs k s : worker_at t i fd owns b evs k s → alive t s.
Proof. intros []. right. by split; [eexists|]. Qed.

Lemma worker_not_main t i fd owns b evs k s :
  inv s → worker_at t i fd owns b evs k s → t ≠ 0%nat.
Proof. intros Hi []. destruct (yi_thread _ _ _ Hi t i) as [? _]; [done | lia]. Qed.

Lemma worker_rely t i fd owns b evs k s s1 :
  worker_at t i fd owns b evs k s → rely t s s1 → inv s1 → worker_at t i fd owns b evs k s1.
Proof.
  intros Hw Hr Hi. pose proof (Hr (worker_alive _ _ _ _ _ _ _ _ Hw)) as [Ha Hl Ho Hb _ Hv Hs _].
  destruct Hw as [Ht Hx (w & Hw & Hfd) How Hbl Hev Hlk].
  destruct (Hs i w Ht Hw) as (Ht1 & w1 & Hw1 & Hfd1).
  constructor; try congruence.
  - destruct Ha as [->|[_ ?]]; [|done].
    by destruct (yi_thread _ _ _ Hi _ _ Ht1) as [? _]; lia.
  - exists w1. split; [done | congruence].
  - intros fd'. by rewrite <-Ho.
  - by rewrite <-Hl.
Qed.

(** A call that opens and closes nothing. *)
Lemma sp_worker_call {A} t i fd owns b evs (c : M W A) (Q : A → sys W → Prop) s :
  worker_at t i fd owns b evs false s →
  (∀ z m, enough z fuel (m_os m) → in_order evs → wp z c (λ a m', ∃ new, m_open m' = m_open m ∧
     m_trace m' = m_trace m ++ new ∧ in_order (evs ++ new) ∧
     ∀ s', worker_at t i fd owns (b + (m_live m' - m_live m)) (evs ++ new) false s' → Q a s') m) →
  tsafe t (call t c) Q s.
Proof.
  intros Hw Hc. apply sp_act. intros s1 Hi Hr. split; [done|].
  pose proof (worker_rely _ _ _ _ _ _ _ _ _ Hw Hr Hi) as Hw1.
  pose proof (worker_not_main _ _ _ _ _ _ _ _ Hi Hw1) as Hne.
  assert (in_order evs) as Hord by (rewrite <-(wa_events _ _ _ _ _ _ _ _ Hw1); by apply Hi).
  specialize (call_waits fuel t c s1 _ (λ z Hz, Hc z (view t s1) Hz Hord)) as Hrun.
  destruct (c (view t s1)) as [a m'| |]; [|done..].
  destruct Hrun as (new & Ho & Htr & Hnew & HQ). simpl in Ho, Htr.
  assert (drop (length (m_trace (y_machine s1))) (m_trace m') = new) as Hdrop
    by (rewrite Htr; apply drop_app_length).
  destruct (settle_same base live0 t s1 m') as [Hg Hown]; [done | by eapply worker_alive | done | |].
  { intros _. by rewrite Hdrop, (wa_events _ _ _ _ _ _ _ _ Hw1). }
  split; [done|]. intros s3 Hi3 Hr3. apply HQ. eapply worker_rely; [|exact Hr3|done].
  destruct (settle_own t s1 m') as (_ & Hb & Hv). destruct Hw1.
  constructor; try done.
  - intros fd'. rewrite Hown. done.
  - rewrite Hb. simpl. by rewrite wa_blocks0.
  - by rewrite Hv, Hdrop, wa_events0.
Qed.

Lemma sp_worker_log t i fd owns b evs level event format args (Q : () → sys W → Prop) s :
  worker_at t i fd owns b evs false s → log_ok (Some format) args →
  (∀ s', worker_at t i fd owns b evs false s' → Q () s') →
  tsafe t (log t level event format args) Q s.
Proof.
  intros Hw Hok HQ. eapply sp_worker_call; [exact Hw|]. intros z m _ Hord.
  apply wp_log; [done|]. intros m' Hlg. exists []. rewrite !app_nil_r.
  split_and!; [apply Hlg..|done|]. rewrite (lg_live _ _ Hlg), Z.sub_diag, Z.add_0_r. exact HQ.
Qed.

(** ** The mutex and the shared fields *)

Lemma sp_worker_lock t i fd owns b evs (Q : Z → sys W → Prop) s :
  worker_at t i fd owns b evs false s →
  (∀ s', worker_at t i fd owns b evs true s' → Q 0 s') →
  (∀ e s', e ≠ 0 → worker_at t i fd owns b evs false s' → Q e s') →
  tsafe t (pthread_mutex_lock t) Q s.
Proof.
  intros Hw Hok Hfail. apply sp_pt_call; [by constructor|..].
  2:{ intros. eapply Hfail; [done|]. by eapply worker_rely. }
  intros s1 w Hi Hr _. pose proof (worker_rely _ _ _ _ _ _ _ _ _ Hw Hr Hi) as Hw1.
  destruct (yi_thread _ _ _ Hi t i (wa_thread _ _ _ _ _ _ _ _ Hw1)) as (_ & Hm & _).
  simpl. rewrite Hm. destruct (y_lock s1) as [o|] eqn:Hl.
  - assert (o ≠ t) as Hne; [|by rewrite decide_False; [left; exists o|]]. intros ->.
    by apply (wa_lock _ _ _ _ _ _ _ _ Hw1) in Hl.
  - assert (gstep t (with_os w s1) (with_mutex true (Some t) (with_os w s1))) as Hg.
    { rewrite <-Hm. apply (lock_good base live0 t (with_os w s1)); [by apply with_os_inv | done |].
      exact (worker_alive _ _ _ _ _ _ _ _ Hw1). }
    split; [done|]. intros s3 Hi3 Hr3. apply Hok. eapply worker_rely; [|exact Hr3|done].
    destruct Hw1. by constructor.
Qed.

Lemma sp_worker_unlock t i fd owns b evs (Q : Z → sys W → Prop) s :
  worker_at t i fd owns b evs true s →
  (∀ s', worker_at t i fd owns b evs false s' → Q 0 s') →
  tsafe t (pthread_mutex_unlock t) Q s.
Proof.
  intros Hw Hok. apply sp_pt_call; [by constructor|..].
  2:{ intros e w w' s3 He Hne. by apply pt_unlock_ok in He. }
  intros s1 w Hi Hr _. pose proof (worker_rely _ _ _ _ _ _ _ _ _ Hw Hr Hi) as Hw1.
  destruct (yi_thread _ _ _ Hi t i (wa_thread _ _ _ _ _ _ _ _ Hw1)) as (_ & Hm & _).
  assert (y_lock s1 = Some t) as Hl by (by apply (wa_lock _ _ _ _ _ _ _ _ Hw1)).
  simpl. rewrite Hm, decide_True by done.
  split.
  - rewrite <-Hm. apply (unlock_good base live0 t (with_os w s1)); [by apply with_os_inv | done].
  - intros s3 Hi3 Hr3. apply Hok. eapply worker_rely; [|exact Hr3|done].
    destruct Hw1. by constructor.
Qed.

Lemma sp_worker_load_stopping t i fd owns b evs (Q : bool → sys W → Prop) s :
  worker_at t i fd owns b evs true s →
  (∀ v s', worker_at t i fd owns b evs true s' → Q v s') →
  tsafe t load_stopping Q s.
Proof.
  intros Hw HQ. apply sp_act. intros s1 Hi Hr.
  pose proof (worker_rely _ _ _ _ _ _ _ _ _ Hw Hr Hi) as Hw1. split.
  - repeat constructor. by apply (wa_lock _ _ _ _ _ _ _ _ Hw1).
  - split; [by apply good_refl|]. intros s3 Hi3 Hr3. apply HQ. by eapply worker_rely.
Qed.

Lemma sp_worker_load t i fd owns b evs (Q : wc_worker → sys W → Prop) s :
  worker_at t i fd owns b evs false s →
  (∀ w s', wk_client_fd w = fd → worker_at t i fd owns b evs false s' → Q w s') →
  tsafe t (load_worker [Rd (LSlot i)] i) Q s.
Proof.
  intros Hw HQ. apply sp_act. intros s1 Hi Hr.
  pose proof (worker_rely _ _ _ _ _ _ _ _ _ Hw Hr Hi) as Hw1. split.
  - apply Forall_singleton. unfold perm. simpl. right. apply Hw1.
  - destruct (wa_slot _ _ _ _ _ _ _ _ Hw1) as (w & -> & Hfd). split; [by apply good_refl|].
    intros s3 Hi3 Hr3. apply HQ; [done|]. by eapply worker_rely.
Qed.

(** Setting the [finished] flag of a slot is a good step for any thread. *)
Lemma finished_good t i w s :
  inv s → y_workers s !! i = Some w →
  gstep t s (with_workers (<[i := WcWorker (wk_thread w) (wk_client_fd w) (wk_in_use w) true]>
                             (y_workers s)) s).
Proof.
  intros Hi Hw.
  assert (∀ j w1, y_workers s !! j = Some w1 → ∃ w2,
    <[i := WcWorker (wk_thread w) (wk_client_fd w) (wk_in_use w) true]> (y_workers s) !! j
      = Some w2 ∧ same_slot w1 w2) as Hsame.
  { intros j w1 Hj. destruct (decide (j = i)) as [->|Hne].
    - rewrite list_lookup_insert_eq by (by eapply lookup_lt_Some). simplify_eq. by eexists.
    - rewrite list_lookup_insert_ne by done. by exists w1. }
  constructor; [|intros t' Hne Ha|by left].
  - constructor; try apply Hi.
    + simpl. rewrite length_insert. apply Hi.
    + intros t' j Hj. destruct (yi_thread _ _ _ Hi t' j Hj) as (? & ? & w1 & Hw1 & Hu & Ht).
      do 2 (split; [done|]). destruct (Hsame j w1 Hw1) as (w2 & Hw2 & E1 & _ & E3).
      exists w2. split_and!; [done | congruence..].
  - constructor; try done.
    + intros j w1 Hj Hw1. split; [done|]. destruct (Hsame j w1 Hw1) as (w2 & Hw2 & _ & E & _).
      by exists w2.
    + intros ->. split_and!; try done. simpl. apply Forall2_same_length_lookup_2.
      * by rewrite length_insert.
      * intros j w1 w2 Hj1 Hj2. destruct (Hsame j w1 Hj1) as (w3 & Hj3 & Hss).
        by simplify_eq.
Qed.

Lemma sp_worker_finish t i fd owns b evs (Q : () → sys W → Prop) s :
  worker_at t i fd owns b evs true s →
  (∀ s', worker_at t i fd owns b evs true s' → Q () s') →
  tsafe t (store_worker [Wr (LFinished i)] i
    (λ w, WcWorker (wk_thread w) (wk_client_fd w) (wk_in_use w) true)) Q s.
Proof.
  intros Hw HQ. apply sp_act. intros s1 Hi Hr.
  pose proof (worker_rely _ _ _ _ _ _ _ _ _ Hw Hr Hi) as Hw1. split.
  - apply Forall_singleton. unfold perm. simpl. left. split; [by apply (wa_lock _ _ _ _ _ _ _ _ Hw1) | right; apply Hw1].
  - destruct (wa_slot _ _ _ _ _ _ _ _ Hw1) as (w & Hlk & Hfd). rewrite Hlk.
    split; [by apply finished_good|]. intros s3 Hi3 Hr3. apply HQ.
    eapply worker_rely; [|exact Hr3|done]. destruct Hw1. constructor; try done.
    simpl. rewrite list_lookup_insert_eq by (by eapply lookup_lt_Some). by eexists.
Qed.

(** A call that closes the descriptor of the connection. *)
Lemma sp_worker_close {A} t i fd b evs (c : M W A) (Q : A → sys W → Prop) s :
  worker_at t i fd {[fd]} b evs false s →
  (∀ z m, enough z fuel (m_os m) → fd ∈ m_open m → wp z c (λ a m', ∃ new, m_open m' = m_open m ∖ {[fd]} ∧
     m_trace m' = m_trace m ++ new ∧ in_order (evs ++ new) ∧
     ∀ s', worker_at t i fd ∅ (b + (m_live m' - m_live m)) (evs ++ new) false s' → Q a s') m) →
  tsafe t (call t c) Q s.
Proof.
  intros Hw Hc. apply sp_act. intros s1 Hi Hr. split; [done|].
  pose proof (worker_rely _ _ _ _ _ _ _ _ _ Hw Hr Hi) as Hw1.
  assert (y_owner s1 !! fd = Some t) as Hfd by (apply (wa_owner _ _ _ _ _ _ _ _ Hw1); set_solver).
  assert (fd ∈ m_open (view t s1)) as Hin.
  { simpl. eapply owner_dom; [done|]. by apply elem_of_dom. }
  specialize (call_waits fuel t c s1 _ (λ z Hz, Hc z (view t s1) Hz Hin)) as Hrun.
  destruct (c (view t s1)) as [a m'| |]; [|done..].
  destruct Hrun as (new & Ho & Htr & Hnew & HQ). simpl in Ho, Htr.
  assert (drop (length (m_trace (y_machine s1))) (m_trace m') = new) as Hdrop
    by (rewrite Htr; apply drop_app_length).
  destruct (settle_close base live0 t s1 m' fd) as [Hg Hown];
    [done | by eapply worker_alive | done | done | |].
  { intros _. by rewrite Hdrop, (wa_events _ _ _ _ _ _ _ _ Hw1). }
  split; [done|]. intros s3 Hi3 Hr3. apply HQ. eapply worker_rely; [|exact Hr3|done].
  destruct (settle_own t s1 m') as (_ & Hb & Hv). destruct Hw1.
  constructor; try done.
  - intros fd'. rewrite Hown. destruct (decide (fd' = fd)) as [->|].
    + rewrite lookup_delete_eq. set_solver.
    + rewrite lookup_delete_ne by done. rewrite wa_owner0. set_solver.
  - rewrite Hb. simpl. by rewrite wa_blocks0.
  - by rewrite Hv, Hdrop, wa_events0.
Qed.

(** ** The functions of a worker *)

Lemma sp_is_stopping t i fd owns b evs (Q : bool → sys W → Prop) s :
  worker_at t i fd owns b evs false s →
  (∀ v s', worker_at t i fd owns b evs false s' → Q v s') →
  tsafe t (worker_is_stopping tp t) Q s.
Proof.
  intros Hw HQ. unfold worker_is_stopping. apply sp_bind; [apply good_refl|].
  eapply sp_worker_lock; [exact Hw|..].
  2:{ intros e s1 He Hw1. rewrite (proj2 (Z.eqb_neq e 0)) by done. simpl.
      apply sp_ret. intros. apply HQ. by eapply worker_rely. }
  intros s1 Hw1. simpl. apply sp_bind; [apply good_refl|].
  eapply sp_worker_load_stopping; [exact Hw1|]. intros v s2 Hw2.
  apply sp_bind; [apply good_refl|]. eapply sp_worker_unlock; [exact Hw2|].
  intros s3 Hw3. simpl. apply sp_bind; [apply good_refl|].
  eapply sp_worker_log; [exact Hw3 | by destruct tp; log_ok |]. intros s4 Hw4.
  apply sp_ret. intros. apply HQ. by eapply worker_rely.
Qed.

Lemma sp_mark_finished t i fd owns b evs (Q : () → sys W → Prop) s :
  worker_at t i fd owns b evs false s →
  (∀ s', worker_at t i fd owns b evs false s' → Q () s') →
  tsafe t (worker_mark_finished tp t i) Q s.
Proof.
  intros Hw HQ. unfold worker_mark_finished. apply sp_bind; [apply good_refl|].
  eapply sp_worker_lock; [exact Hw|..].
  2:{ intros e s1 He Hw1. rewrite (proj2 (Z.eqb_neq e 0)) by done. simpl.
      eapply sp_worker_log; [exact Hw1 | by destruct tp; log_ok | done]. }
  intros s1 Hw1. simpl. apply sp_bind; [apply good_refl|].
  eapply sp_worker_finish; [exact Hw1|]. intros s2 Hw2. apply sp_bind; [apply good_refl|].
  eapply sp_worker_unlock; [exact Hw2|]. intros s3 Hw3. simpl.
  apply sp_bind; [apply good_refl|]. eapply sp_worker_load; [exact Hw3|].
  intros w s4 _ Hw4. eapply sp_worker_log; [exact Hw4 | by destruct tp; log_ok | done].
Qed.

Lemma session_open_spec z self fd (Q : _ → machine W → Prop) m :
  (∀ input output m', session_repr input output [] [] → buf_owned input = 0 →
     buf_owned output = 0 → logged m m' → Q (Some (input, output)) m') →
  wp z (session_open tp self fd) Q m.
Proof.
  intros HQ. unfold session_open. wp_go. apply wc_buffer_init_spec; [done|].
  intros input Hin Hinm Hino. cbn beta iota. wp_go. simpl. wp_go.
  apply wc_buffer_init_spec; [done|]. intros output Ho Hom Hoo. cbn beta iota. wp_go. simpl. wp_go.
  apply wp_log; [by destruct tp; log_ok|]. intros m' Hlg. wp_go. by apply HQ.
Qed.

Lemma session_close_spec z self fd input output (Q : () → machine W → Prop) m :
  (fd ∈ m_open m) →
  (∀ m', m_open m' = m_open m ∖ {[fd]} → m_trace m' = m_trace m ++ [EvClose fd] →
     m_live m' = m_live m - buf_owned input - buf_owned output → Q () m') →
  wp z (session_close tp self fd input output) Q m.
Proof.
  intros Hin HQ. unfold session_close. wp_go.
  apply wc_buffer_destroy_spec. intros m1 Hs1 He1 Hl1. wp_go.
  apply wc_buffer_destroy_spec. intros m2 Hs2 He2 Hl2. wp_go.
  assert (silent m m2) as Hs by (by etrans).
  wp_call wp_sys_close; [by rewrite (silent_open _ _ Hs)|]. intros r m3 Hf3 Ho3 Ht3.
  assert (∀ m4, logged m3 m4 → Q () m4) as Hend.
  { intros m4 Hlg. apply HQ.
    - rewrite (lg_open _ _ Hlg), Ho3, (silent_open _ _ Hs). done.
    - rewrite (lg_trace _ _ Hlg), Ht3, (silent_trace _ _ Hs). done.
    - rewrite (lg_live _ _ Hlg), (cf_live _ _ Hf3). lia. }
  case_if; wp_go; apply wp_log; try (by destruct tp; log_ok); intros m4 Hlg4; wp_go; [|by apply Hend].
  apply wp_log; [by destruct tp; log_ok|]. intros m5 Hlg5. apply Hend. by etrans.
Qed.

(** The state of the worker's loop. *)
Definition serving t i fd (bufs : wc_buffer * wc_buffer) s : Prop :=
  ∃ inb outb evs, session_repr bufs.1 bufs.2 inb outb ∧ traffic fd evs inb outb ∧
    worker_at t i fd {[fd]} (buf_owned bufs.1 + buf_owned bufs.2) evs false s.

(** The end of the loop: the traffic may have lost a last step. *)
Definition served t i fd (bufs : wc_buffer * wc_buffer) s : Prop :=
  ∃ inb outb evs, traffic fd evs inb outb ∧
    worker_at t i fd {[fd]} (buf_owned bufs.1 + buf_owned bufs.2) evs false s.

Lemma sp_session_round t i fd input output s :
  serving t i fd (input, output) s →
  tsafe t (call t (session_round tp (Z.of_nat t) fd input output))
    (λ r s', match r with inl bufs => serving t i fd bufs s' | inr bufs => served t i fd bufs s' end) s.
Proof.
  intros (inb & outb & evs & Hse & Htf & Hw). eapply sp_worker_call; [exact Hw|]. intros z m _ _.
  eapply session_round_spec; [exact Hse|]. simpl.
  intros [[input' output']|[input' output']] m' Hpost; simpl in Hpost.
  - destruct Hpost as (Hlo & Hb & inb' & outb' & Hse' & Hrtc).
    destruct (traffic_conn _ _ _ _ _ _ _ _ Htf Hrtc) as (new & Htr & Htf').
    exists new. split_and!; [apply Hlo | done | by eapply traffic_in_order |].
    intros s' Hw'. exists inb', outb', (evs ++ new). split_and!; [done..|].
    unfold balanced in Hb. simpl.
    replace (buf_owned input' + buf_owned output') with
      (buf_owned input + buf_owned output + (m_live m' - m_live m)) by lia. done.
  - destruct Hpost as (Hlo & Hb & inb' & outb' & tr & Hse' & Hrtc & Hlast).
    destruct (traffic_conn _ _ _ _ _ _ _ _ Htf Hrtc) as (new & -> & Htf').
    destruct (traffic_last _ _ _ _ _ _ Htf' Hlast) as (more & inb2 & Htr & Htf2).
    rewrite <-app_assoc in Htr, Htf2.
    exists (new ++ more). split_and!; [apply Hlo | done | by eapply traffic_in_order |].
    intros s' Hw'. exists inb2, outb', (evs ++ new ++ more). split; [done|].
    unfold balanced in Hb. simpl.
    replace (buf_owned input' + buf_owned output') with
      (buf_owned input + buf_owned output + (m_live m' - m_live m)) by lia. done.
Qed.

Lemma serving_rely t i fd bufs s s1 :
  serving t i fd bufs s → inv s1 → rely t s s1 → serving t i fd bufs s1.
Proof.
  intros (inb & outb & evs & ? & ? & Hw) Hi Hr. exists inb, outb, evs.
  split_and!; [done..|]. by eapply worker_rely.
Qed.

Lemma served_rely t i fd bufs s s1 :
  served t i fd bufs s → inv s1 → rely t s s1 → served t i fd bufs s1.
Proof.
  intros (inb & outb & evs & ? & Hw) Hi Hr. exists inb, outb, evs.
  split_and!; [done..|]. by eapply worker_rely.
Qed.

Lemma serving_served t i fd bufs s : serving t i fd bufs s → served t i fd bufs s.
Proof. intros (inb & outb & evs & ? & ? & ?). by exists inb, outb, evs. Qed.

(** A worker that has returned owns nothing. *)
Definition returned t i s : Prop := ∃ fd evs, worker_at t i fd ∅ 0 evs false s.

(** The worker thread, from its start to its return. *)
Lemma sp_worker_main t i s :
  inv s → born t i s → tsafe t (worker_main tp t i) (λ _ s', returned t i s') s.
Proof.
  intros Hi Hb. unfold worker_main.
  destruct (yi_thread _ _ _ Hi t i (bo_thread _ _ _ Hb)) as (_ & _ & w & Hw & _ & _).
  assert (worker_at t i (wk_client_fd w) {[wk_client_fd w]} 0 [] false s) as Hat.
  { constructor; try apply Hb.
    - by exists w.
    - intros fd'. rewrite (bo_owner _ _ _ Hb w fd') by done. set_solver.
    - by pose proof (bo_lock _ _ _ Hb). }
  apply sp_bind; [apply good_refl|]. eapply sp_worker_load; [exact Hat|].
  intros w1 s1 <- Hat1. set (fd := wk_client_fd w1) in *. cbn zeta.
  apply sp_bind; [apply good_refl|]. eapply sp_worker_call; [exact Hat1|]. intros z m _ _.
  apply session_open_spec. intros input output m' Hse Hbi Hbo Hlg. exists [].
  pose proof (traffic_start fd) as Htf. rewrite app_nil_r.
  split_and!; [apply Hlg | apply Hlg | by eapply traffic_in_order |]. intros s2 Hat2. simpl.
  rewrite (lg_live _ _ Hlg), Z.sub_diag, Z.add_0_r in Hat2.
  apply sp_bind; [apply good_refl|].
  eapply sp_mono.
  { eapply sp_iter with (J := serving t i fd) (Q := served t i fd);
      [apply good_refl | by intros; eapply serving_rely | | by exists [], [], []; simpl; rewrite Hbi, Hbo].
    intros [input1 output1] s3 Hi3 (inb & outb & evs & Hse3 & Htf3 & Hw3).
    apply sp_bind; [apply good_refl|].
    eapply sp_is_stopping; [exact Hw3|]. intros v s4 Hw4.
    assert (serving t i fd (input1, output1) s4) as Hsv by (by exists inb, outb, evs).
    destruct v; cbn beta iota.
    - apply sp_ret. intros s5 Hi5 Hr5 s6 Hi6 Hr6.
      eapply served_rely; [by apply serving_served | done | by etrans].
    - eapply sp_mono; [by apply sp_session_round|]. intros [bufs|bufs] s5 H5; [done|].
      intros s6 Hi6 Hr6. by eapply served_rely. }
  intros [input1 output1] s3 (inb & outb & evs & Htf3 & Hw3).
  apply sp_bind; [apply good_refl|]. eapply sp_worker_close; [exact Hw3|]. intros z1 m1 _ Hin.
  apply session_close_spec; [done|]. intros m2 Ho2 Ht2 Hl2. exists [EvClose fd].
  split_and!; [done | done | by eapply traffic_in_order, traffic_quiet |].
  intros s4 Hw4. simpl in Hw4. rewrite Hl2 in Hw4.
  eapply sp_mark_finished; [exact Hw4|]. intros s5 Hw5.
  exists fd, (evs ++ [EvClose fd]).
  by replace (buf_owned input1 + buf_owned output1 +
    (m_live m1 - buf_owned input1 - buf_owned output1 - m_live m1)) with 0 in Hw5 by lia.
Qed.

End worker.
