(* ===== verification/WorkersMain.v ===== *)
(** * The threaded servers: the main thread

    The main thread verified against the protocol: the rules for its actions
    on the table, the mutex and the threads, and its functions from
    [reap_finished] to the whole run. *)

From S2P Require Import Prelude Machine Script Buffer Protocol Queue SocketUtils Logging Commands Respond Listener Session Threads Workers WorkersInv WorkersThread.

(** What the main thread knows: the descriptors it owns, whether it holds the
    mutex and whether there is one, and that every slot in use, but for the
    one it is working on ([skip]), has a thread that has not been joined. *)
Record main_at {W} (owns : gset Z) (locked mutex : bool) (skip : option nat) (s : sys W) : Prop := {
  ma_owner fd : y_owner s !! fd = Some 0%nat ↔ fd ∈ owns;
  ma_blocks : blocks_of s 0 = 0;
  ma_lock : y_lock s = Some 0%nat ↔ locked = true;
  ma_mutex : y_mutex s = mutex;
  ma_table i w : y_workers s !! i = Some w → wk_in_use w = true → skip ≠ Some i →
    y_threads s !! wk_thread w = Some i;
  ma_skip i : skip = Some i → idle i s;
}.

(** Slot [i] is as [w] up to the [finished] flag. *)
Definition slot_is {W} (i : nat) (w : wc_worker) (s : sys W) : Prop :=
  ∃ w', y_workers s !! i = Some w' ∧ same_slot w w'.

Section main.
Context {W : Type} {OS : Posix W} {PT : Pthreads W} `{!PosixLaws W, !PthreadLaws W}.
Context (base : gset Z) (live0 : Z) (fuel : nat) (tp : transport).
Implicit Types s : sys W.

Abbreviation inv := (sys_inv base live0).
Abbreviation gstep := (good_step inv rely forks).
Abbreviation tsafe := (sp inv rely perm forks (waits fuel)).

Lemma main_alive s : alive 0 s.
Proof. by left. Qed.

Lemma main_rely owns k mx skip s s1 :
  main_at owns k mx skip s → rely 0 s s1 → main_at owns k mx skip s1.
Proof.
  intros [How Hb Hl Hmx Htab Hskip] Hr. destruct (Hr (main_alive s)) as [_ Hl1 Ho1 Hb1 _ _ _ Hm1].
  destruct (Hm1 eq_refl) as (Hth & Hnx & Hmx1 & Hws). constructor; try congruence.
  - intros fd. by rewrite <-Ho1.
  - by rewrite <-Hl1.
  - intros i w' Hi Hu Hne. destruct (Forall2_lookup_r _ _ _ _ _ Hws Hi) as (w & Hw & Ht & _ & Hu').
    rewrite Hth, Ht. apply Htab; [done | congruence | done].
  - intros i Hi t. rewrite Hth. by apply Hskip.
Qed.

(** The table and the threads as the main thread left them. *)
Record kept_table s s' : Prop := {
  kt_threads : y_threads s' = y_threads s;
  kt_workers : Forall2 same_slot (y_workers s) (y_workers s');
}.

#[local] Instance kept_table_preorder : PreOrder kept_table.
Proof.
  split; [by intros s|]. intros s1 s2 s3 [] []. constructor; [congruence | by etrans].
Qed.

Lemma rely_table s s1 : rely 0%nat s s1 → kept_table s s1.
Proof.
  intros Hr. destruct (rl_main _ _ _ (Hr (main_alive s)) eq_refl) as (? & _ & _ & ?). by constructor.
Qed.

Lemma slot_is_kept i w s s1 : slot_is i w s → kept_table s s1 → slot_is i w s1.
Proof.
  intros (w' & Hw & Hs) [_ Hws].
  destruct (Forall2_lookup_l _ _ _ _ _ Hws Hw) as (w2 & Hw2 & Hs2). exists w2. by split; [|etrans].
Qed.

Lemma idle_kept i s s1 : idle i s → kept_table s s1 → idle i s1.
Proof. intros Hi [Ht _] t. rewrite Ht. apply Hi. Qed.

(** A slot that is not in use is idle. *)
Lemma unused_idle i w s : inv s → slot_is i w s → wk_in_use w = false → idle i s.
Proof.
  intros Hi (w' & Hw & _ & _ & Hu) Hf t Ht.
  destruct (yi_thread _ _ _ Hi t i Ht) as (_ & _ & w2 & Hw2 & Hu2 & _). congruence.
Qed.

(** ** Calls *)

(** What a call leaves of the assertion, given the ownership after it. *)
Lemma main_settle owns owns' k mx skip s m' :
  main_at owns k mx skip s → m_live m' = m_live (y_machine s) →
  (∀ fd, y_owner (settle 0 s m') !! fd = Some 0%nat ↔ fd ∈ owns') →
  main_at owns' k mx skip (settle 0 s m') ∧ kept_table s (settle 0 s m').
Proof.
  intros [] Hl How. destruct (settle_own 0 s m') as (_ & Hb & _).
  split; constructor; try done. rewrite Hb, ma_blocks0. lia.
Qed.

Lemma sp_main_call {A} owns k mx skip (c : M W A) (Q : A → sys W → Prop) s :
  main_at owns k mx skip s →
  (∀ z m, enough z fuel (m_os m) → wp z c (λ a m', m_open m' = m_open m ∧ m_live m' = m_live m ∧
     ∀ s', main_at owns k mx skip s' → kept_table s s' → Q a s') m) →
  tsafe 0%nat (call 0 c) Q s.
Proof.
  intros Hm Hc. apply sp_act. intros s1 Hi Hr. split; [done|].
  specialize (call_waits fuel 0 c s1 _ (λ z Hz, Hc z (view 0 s1) Hz)) as Hrun.
  destruct (c (view 0 s1)) as [a m'| |]; [|done..].
  destruct Hrun as (Ho & Hl & HQ). simpl in Ho, Hl.
  destruct (settle_same base live0 0 s1 m') as [Hg Hown]; [done | by left | done | by intros [] |].
  split; [done|]. intros s3 Hi3 Hr3.
  destruct (main_settle owns owns k mx skip s1 m') as [Hm2 Hk2]; [by eapply main_rely | done | |].
  { intros fd. rewrite Hown. by apply (main_rely _ _ _ _ _ _ Hm Hr). }
  apply HQ; [by eapply main_rely|].
  etrans; [by apply rely_table|]. etrans; [done | by apply rely_table].
Qed.

(** A call that opens a descriptor or fails with -1. *)
Lemma sp_main_open owns k mx skip (c : M W Z) (Q : Z → sys W → Prop) s :
  main_at owns k mx skip s →
  (∀ z m, enough z fuel (m_os m) → wp z c (λ fd m', m_live m' = m_live m ∧
     ((m_open m' = m_open m ∧
       ∀ s', main_at owns k mx skip s' → kept_table s s' → Q fd s') ∨
      ((fd ∉ m_open m) ∧ m_open m' = {[fd]} ∪ m_open m ∧
       ∀ s', main_at ({[fd]} ∪ owns) k mx skip s' → kept_table s s' → (fd ∉ owns) → Q fd s'))) m) →
  tsafe 0%nat (call 0 c) Q s.
Proof.
  intros Hm Hc. apply sp_act. intros s1 Hi Hr. split; [done|].
  pose proof (main_rely _ _ _ _ _ _ Hm Hr) as Hm1.
  specialize (call_waits fuel 0 c s1 _ (λ z Hz, Hc z (view 0 s1) Hz)) as Hrun.
  destruct (c (view 0 s1)) as [fd m'| |]; [|done..].
  destruct Hrun as (Hl & [(Ho & HQ)|(Hfr & Ho & HQ)]); simpl in Hl, Ho.
  - destruct (settle_same base live0 0 s1 m') as [Hg Hown]; [done | by left | done | by intros [] |].
    split; [done|]. intros s3 Hi3 Hr3.
    destruct (main_settle owns owns k mx skip s1 m') as [Hm2 Hk2]; [done | done | |].
    { intros fd'. rewrite Hown. by apply Hm1. }
    apply HQ; [by eapply main_rely|].
    etrans; [by apply rely_table|]. etrans; [done | by apply rely_table].
  - simpl in Hfr.
    destruct (settle_open base live0 0 s1 m' fd) as [Hg Hown];
    [done | by left | done | done | by intros [] |].
    split; [done|]. intros s3 Hi3 Hr3.
    destruct (main_settle owns ({[fd]} ∪ owns) k mx skip s1 m') as [Hm2 Hk2]; [done | done | |].
    { intros fd'. rewrite Hown. destruct (decide (fd' = fd)) as [->|].
      - rewrite lookup_insert_eq. set_solver.
      - rewrite lookup_insert_ne by done. rewrite (ma_owner _ _ _ _ _ Hm1). set_solver. }
    apply HQ; [by eapply main_rely| |].
    + etrans; [by apply rely_table|]. etrans; [done | by apply rely_table].
    + intros Hin. apply Hfr. eapply owner_dom; [done|]. apply elem_of_dom.
      exists 0%nat. by apply Hm1.
Qed.

Lemma sp_main_close {A} owns k mx skip fd (c : M W A) (Q : A → sys W → Prop) s :
  main_at owns k mx skip s → (fd ∈ owns) →
  (∀ z m, enough z fuel (m_os m) → fd ∈ m_open m → wp z c (λ a m', m_open m' = m_open m ∖ {[fd]} ∧ m_live m' = m_live m ∧
     ∀ s', main_at (owns ∖ {[fd]}) k mx skip s' → kept_table s s' → Q a s') m) →
  tsafe 0%nat (call 0 c) Q s.
Proof.
  intros Hm Hfd Hc. apply sp_act. intros s1 Hi Hr. split; [done|].
  pose proof (main_rely _ _ _ _ _ _ Hm Hr) as Hm1.
  assert (y_owner s1 !! fd = Some 0%nat) as Hown0 by (by apply Hm1).
  assert (fd ∈ m_open (view 0 s1)) as Hin.
  { simpl. eapply owner_dom; [done|]. by apply elem_of_dom. }
  specialize (call_waits fuel 0 c s1 _ (λ z Hz, Hc z (view 0 s1) Hz Hin)) as Hrun.
  destruct (c (view 0 s1)) as [a m'| |]; [|done..].
  destruct Hrun as (Ho & Hl & HQ). simpl in Ho, Hl.
  destruct (settle_close base live0 0 s1 m' fd) as [Hg Hown];
    [done | by left | done | done | by intros [] |].
  split; [done|]. intros s3 Hi3 Hr3.
  destruct (main_settle owns (owns ∖ {[fd]}) k mx skip s1 m') as [Hm2 Hk2]; [done | done | |].
  { intros fd'. rewrite Hown. destruct (decide (fd' = fd)) as [->|].
    - rewrite lookup_delete_eq. set_solver.
    - rewrite lookup_delete_ne by done. rewrite (ma_owner _ _ _ _ _ Hm1). set_solver. }
  apply HQ; [by eapply main_rely|].
  etrans; [by apply rely_table|]. etrans; [done | by apply rely_table].
Qed.

Lemma sp_main_log owns k mx skip level event format args (Q : () → sys W → Prop) s :
  main_at owns k mx skip s → log_ok (Some format) args →
  (∀ s', main_at owns k mx skip s' → kept_table s s' → Q () s') →
  tsafe 0%nat (log 0 level event format args) Q s.
Proof.
  intros Hm Hok HQ. eapply sp_main_call; [exact Hm|]. intros z m Hz.
  apply wp_log; [done|]. intros m' Hlg. split_and!; [apply Hlg..|]. exact HQ.
Qed.

Lemma sp_main_errno owns k mx skip e (Q : () → sys W → Prop) s :
  main_at owns k mx skip s →
  (∀ s', main_at owns k mx skip s' → kept_table s s' → Q () s') →
  tsafe 0%nat (call 0 (put_errno e)) Q s.
Proof. intros Hm HQ. eapply sp_main_call; [exact Hm|]. intros z m Hz. by wp_go. Qed.

Lemma sp_main_get_errno owns k mx skip (Q : Z → sys W → Prop) s :
  main_at owns k mx skip s →
  (∀ e s', main_at owns k mx skip s' → kept_table s s' → Q e s') →
  tsafe 0%nat (call 0 get_errno) Q s.
Proof.
  intros Hm HQ. eapply sp_main_call; [exact Hm|]. intros z m Hz. wp_go. split_and!; try done. auto.
Qed.

Lemma sp_main_ret {A} (a : A) owns k mx skip (Q : A → sys W → Prop) s :
  main_at owns k mx skip s →
  (∀ s', main_at owns k mx skip s' → kept_table s s' → Q a s') → tsafe 0%nat (mret a) Q s.
Proof.
  intros Hm HQ. apply sp_ret. intros s1 Hi Hr. apply HQ; [by eapply main_rely | by apply rely_table].
Qed.

(** ** The mutex *)

Lemma sp_main_lock owns (Q : Z → sys W → Prop) s :
  main_at owns false true None s →
  (∀ s', main_at owns true true None s' → kept_table s s' → Q 0 s') →
  (∀ e s', e ≠ 0 → main_at owns false true None s' → kept_table s s' → Q e s') →
  tsafe 0%nat (pthread_mutex_lock 0) Q s.
Proof.
  intros Hm Hok Hfail. apply sp_pt_call; [by constructor|..].
  2:{ intros. eapply Hfail; [done | by eapply main_rely | by apply rely_table]. }
  intros s1 w Hi Hr _. pose proof (main_rely _ _ _ _ _ _ Hm Hr) as Hm1.
  simpl. rewrite (ma_mutex _ _ _ _ _ Hm1). destruct (y_lock s1) as [o|] eqn:Hl.
  - assert (o ≠ 0%nat) as Hne; [|by rewrite decide_False; [left; exists o|]]. intros ->. by apply (ma_lock _ _ _ _ _ Hm1) in Hl.
  - split.
    + rewrite <-(ma_mutex _ _ _ _ _ Hm1).
      apply (lock_good base live0 0 (with_os w s1)); [by apply with_os_inv | done | by left].
    + intros s3 Hi3 Hr3. apply Hok.
      * eapply main_rely; [|exact Hr3]. destruct Hm1. by constructor.
      * etrans; [by apply rely_table|].
        etrans; [|by apply rely_table]. by constructor.
Qed.

Lemma sp_main_unlock owns (Q : Z → sys W → Prop) s :
  main_at owns true true None s →
  (∀ s', main_at owns false true None s' → kept_table s s' → Q 0 s') →
  tsafe 0%nat (pthread_mutex_unlock 0) Q s.
Proof.
  intros Hm Hok. apply sp_pt_call; [by constructor|..].
  2:{ intros e w w' s3 He Hne. by apply pt_unlock_ok in He. }
  intros s1 w Hi Hr _. pose proof (main_rely _ _ _ _ _ _ Hm Hr) as Hm1.
  assert (y_lock s1 = Some 0%nat) as Hl by (by apply Hm1).
  simpl. rewrite (ma_mutex _ _ _ _ _ Hm1), decide_True by done. split.
  - rewrite <-(ma_mutex _ _ _ _ _ Hm1).
    apply (unlock_good base live0 0 (with_os w s1)); [by apply with_os_inv | done].
  - intros s3 Hi3 Hr3. apply Hok.
    + eapply main_rely; [|exact Hr3]. destruct Hm1. by constructor.
    + etrans; [by apply rely_table|]. etrans; [|by apply rely_table]. by constructor.
Qed.

(** With no workers nobody else looks at the shared state. *)
Lemma alone_good s s' :
  y_threads s = ∅ → inv s' → y_threads s' = ∅ → gstep 0%nat s s'.
Proof.
  intros Hth Hi Hth'. constructor; [done | |].
  - intros t Hne [->|[[i Hi'] _]]; [done | by rewrite Hth in Hi'].
  - intros t i. by rewrite Hth'.
Qed.

Lemma mutex_inv b o s :
  inv s → y_threads s = ∅ → o = None → inv (with_mutex b o s).
Proof.
  intros Hi Hth ->. constructor; try apply Hi.
  - intros t i. simpl. by rewrite Hth.
  - intros t Hn. destruct (yi_gone _ _ _ Hi t Hn) as (? & _ & ?). by split_and!.
Qed.

Lemma sp_main_mutex_init owns (Q : Z → sys W → Prop) s :
  main_at owns false false None s → y_threads s = ∅ →
  (∀ s', main_at owns false true None s' → kept_table s s' → Q 0 s') →
  (∀ e s', e ≠ 0 → main_at owns false false None s' → kept_table s s' → Q e s') →
  tsafe 0%nat pthread_mutex_init Q s.
Proof.
  intros Hm Hth Hok Hfail. apply sp_pt_call; [by constructor|..].
  2:{ intros. eapply Hfail; [done | by eapply main_rely | by apply rely_table]. }
  intros s1 w Hi Hr _. pose proof (main_rely _ _ _ _ _ _ Hm Hr) as Hm1.
  assert (y_threads s1 = ∅) as Hth1 by (rewrite (kt_threads _ _ (rely_table _ _ Hr)); done).
  split.
  - apply alone_good; [done | | done]. by apply mutex_inv; [apply with_os_inv|..].
  - intros s3 Hi3 Hr3. apply Hok.
    + eapply main_rely; [|exact Hr3]. destruct Hm1. by constructor.
    + etrans; [by apply rely_table|]. etrans; [|by apply rely_table]. by constructor.
Qed.

Lemma sp_main_mutex_destroy owns (Q : Z → sys W → Prop) s :
  main_at owns false true None s → y_threads s = ∅ →
  (∀ e b s', main_at owns false b None s' → kept_table s s' → Q e s') →
  tsafe 0%nat pthread_mutex_destroy Q s.
Proof.
  intros Hm Hth HQ. apply sp_pt_call; [by constructor|..].
  2:{ intros. eapply HQ; [by eapply main_rely | by apply rely_table]. }
  intros s1 w Hi Hr _. pose proof (main_rely _ _ _ _ _ _ Hm Hr) as Hm1.
  assert (y_threads s1 = ∅) as Hth1 by (rewrite (kt_threads _ _ (rely_table _ _ Hr)); done).
  assert (y_lock s1 = None) as Hl.
  { destruct (y_lock s1) as [o|] eqn:Hl; [|done]. destruct (decide (o = 0%nat)) as [->|Hne].
    - by apply (ma_lock _ _ _ _ _ Hm1) in Hl.
    - destruct (yi_gone _ _ _ Hi o) as (_ & Hno & _); [|done].
      intros [->|[[i Hi'] _]]; [done | by rewrite Hth1 in Hi']. }
  simpl. rewrite (ma_mutex _ _ _ _ _ Hm1), Hl. simpl. split.
  - apply alone_good; [done | | done]. by apply mutex_inv; [apply with_os_inv|..].
  - intros s3 Hi3 Hr3. apply (HQ _ false).
    + eapply main_rely; [|exact Hr3]. destruct Hm1. by constructor.
    + etrans; [by apply rely_table|]. etrans; [|by apply rely_table]. by constructor.
Qed.

Lemma sp_main_sigmask owns k mx skip (Q : Z → sys W → Prop) s :
  main_at owns k mx skip s →
  (∀ e s', main_at owns k mx skip s' → kept_table s s' → Q e s') →
  tsafe 0%nat pthread_sigmask Q s.
Proof.
  intros Hm HQ. apply sp_pt_call; [by constructor|..].
  2:{ intros. eapply HQ; [by eapply main_rely | by apply rely_table]. }
  intros s1 w Hi Hr _. pose proof (main_rely _ _ _ _ _ _ Hm Hr) as Hm1. split.
  - apply good_refl. by apply with_os_inv.
  - intros s3 Hi3 Hr3. apply rely_with_os in Hr3.
    apply HQ; [by eapply main_rely | etrans; by apply rely_table].
Qed.

Lemma sp_main_stop owns (Q : () → sys W → Prop) s :
  main_at owns true true None s →
  (∀ s', main_at owns true true None s' → kept_table s s' → Q () s') →
  tsafe 0%nat (store_stopping true) Q s.
Proof.
  intros Hm HQ. apply sp_act. intros s1 Hi Hr. pose proof (main_rely _ _ _ _ _ _ Hm Hr) as Hm1.
  split; [apply Forall_singleton; by apply Hm1|]. split.
  - constructor; [destruct Hi; by constructor | | by left].
    intros t Hne Ha. constructor; try done; eauto.
  - intros s3 Hi3 Hr3. apply HQ.
    + eapply main_rely; [|exact Hr3]. destruct Hm1. by constructor.
    + etrans; [by apply rely_table|]. etrans; [|by apply rely_table]. by constructor.
Qed.

(** ** The table *)

(** Reading a slot, with or without its [finished] flag. *)
Lemma sp_main_load accs i owns k mx skip (Q : wc_worker → sys W → Prop) s :
  main_at owns k mx skip s → (i < WC_TCP_MAX_CLIENTS)%nat →
  (∀ s1, main_at owns k mx skip s1 → Forall (λ a, perm 0%nat a s1) accs) →
  (∀ w s', main_at owns k mx skip s' → kept_table s s' → slot_is i w s' → inv s' → Q w s') →
  tsafe 0%nat (load_worker accs i) Q s.
Proof.
  intros Hm Hlt Hperm HQ. apply sp_act. intros s1 Hi Hr.
  pose proof (main_rely _ _ _ _ _ _ Hm Hr) as Hm1. split; [by apply Hperm|].
  destruct (lookup_lt_is_Some_2 (y_workers s1) i) as [w Hw].
  { by rewrite (yi_table _ _ _ Hi). }
  rewrite Hw. split; [by apply good_refl|]. intros s3 Hi3 Hr3.
  apply HQ; [by eapply main_rely | etrans; by apply rely_table | | done].
  eapply slot_is_kept; [|by apply rely_table]. by exists w.
Qed.

(** Writing to an idle slot is nobody else's business. *)
Lemma store_idle_good i w s :
  inv s → idle i s → gstep 0%nat s (with_workers (<[i := w]> (y_workers s)) s).
Proof.
  intros Hi Hidle.
  assert (∀ t j, y_threads s !! t = Some j → <[i := w]> (y_workers s) !! j = y_workers s !! j) as Hs.
  { intros t j Hj. apply list_lookup_insert_ne. intros ->. by apply (Hidle t). }
  constructor; [constructor; try apply Hi| |by left].
  - simpl. rewrite length_insert. apply Hi.
  - intros t j Hj. simpl. rewrite (Hs t j Hj). by apply Hi.
  - intros t Hne Ha. constructor; try done. intros j w1 Hj Hw1. split; [done|].
    exists w1. split; [|done]. simpl. by rewrite (Hs t j Hj).
Qed.

(** The slot before and after the main thread's own write. *)
Lemma sp_main_store accs i f owns k mx skip skip' w0 (Q : () → sys W → Prop) s :
  main_at owns k mx skip s → slot_is i w0 s → idle i s → skip = None ∨ skip = Some i →
  Forall (λ a, acc_loc a = LSlot i ∨ acc_loc a = LFinished i) accs →
  (∀ w, same_slot w0 w → (wk_in_use (f w) = false ∧ skip' = None) ∨ skip' = Some i) →
  (∀ w s' s1, main_at owns k mx skip' s' → kept_table s s1 → same_slot w0 w →
     y_threads s' = y_threads s →
     (∀ j, j ≠ i → ∀ wj, slot_is j wj s → slot_is j wj s') → slot_is i (f w) s' → Q () s') →
  tsafe 0%nat (store_worker accs i f) Q s.
Proof.
  intros Hm Hslot Hidle Hskip Haccs Hf HQ. apply sp_act. intros s1 Hi Hr.
  pose proof (main_rely _ _ _ _ _ _ Hm Hr) as Hm1. pose proof (rely_table _ _ Hr) as Hk1.
  pose proof (idle_kept _ _ _ Hidle Hk1) as Hidle1.
  destruct (slot_is_kept _ _ _ _ Hslot Hk1) as (w & Hw & Hsame). split.
  { eapply Forall_impl; [exact Haccs|]. intros [wr l] [Hl|Hl]; simpl in Hl; subst l;
      unfold perm; simpl; [destruct wr; auto | by right]. }
  rewrite Hw. split; [by apply store_idle_good|]. intros s3 Hi3 Hr3.
  set (s2 := with_workers (<[i := f w]> (y_workers s1)) s1) in *.
  assert (∀ j, j ≠ i → y_workers s2 !! j = y_workers s1 !! j) as Hne
    by (intros j Hj; by apply list_lookup_insert_ne).
  assert (y_workers s2 !! i = Some (f w)) as Heq
    by (apply list_lookup_insert_eq; by eapply lookup_lt_Some).
  apply (HQ w s3 s1); try done.
  - eapply main_rely; [|exact Hr3]. destruct Hm1. constructor; try done.
    + intros j wj Hj Hu Hsk. destruct (decide (j = i)) as [->|Hji].
      * destruct (Hf w Hsame) as [[? ->]| ->]; [|done]. congruence.
      * rewrite Hne in Hj by done. apply ma_table0; [done..|].
        destruct Hskip as [->| ->]; [done|]. naive_solver.
    + intros j Hj. destruct (Hf w Hsame) as [[_ ->]|Hsk]; [done|].
      assert (j = i) as -> by congruence. exact Hidle1.
  - rewrite (kt_threads _ _ (rely_table _ _ Hr3)). apply Hk1.
  - intros j Hj wj Hwj. eapply slot_is_kept; [|by apply rely_table].
    destruct (slot_is_kept _ _ _ _ Hwj Hk1) as (wj' & ? & ?). exists wj'. by rewrite Hne.
  - eapply slot_is_kept; [|by apply rely_table]. by exists (f w).
Qed.

(** ** Threads *)

(** The state after a thread was created for slot [i]. *)
Definition created (i : nat) (w : wc_worker) s : sys W :=
  with_threads (<[y_next s := i]> (y_threads s)) (y_exited s) (S (y_next s))
    (<[wk_client_fd w := y_next s]> (y_owner s))
    (with_workers (<[i := WcWorker (y_next s) (wk_client_fd w) (wk_in_use w) (wk_finished w)]>
                     (y_workers s)) s).

Lemma next_fresh s t i : inv s → y_threads s !! t = Some i → t ≠ y_next s.
Proof. intros Hi Ht ->. by destruct (yi_thread _ _ _ Hi _ _ Ht) as [? _]; lia. Qed.

Lemma next_dead s : inv s → ¬ alive (y_next s) s.
Proof.
  intros Hi [H0|[[i Ht] _]]; [pose proof (yi_next _ _ _ Hi); lia|].
  by apply (next_fresh _ _ _ Hi Ht).
Qed.

Lemma created_threads i w s t j :
  inv s → y_threads (created i w s) !! t = Some j →
  (t = y_next s ∧ j = i) ∨ (t ≠ y_next s ∧ y_threads s !! t = Some j).
Proof.
  intros Hi. simpl. destruct (decide (t = y_next s)) as [->|Hne].
  - rewrite lookup_insert_eq. naive_solver.
  - rewrite lookup_insert_ne by done. auto.
Qed.

Lemma created_alive i w s t :
  inv s → alive t (created i w s) ↔ t = y_next s ∨ alive t s.
Proof.
  intros Hi. unfold alive. simpl. destruct (decide (t = y_next s)) as [->|Hne].
  - rewrite lookup_insert_eq. split; [by left|]. intros _. right. split; [done|].
    intros Hin. apply (yi_exited _ _ _ Hi) in Hin. apply elem_of_dom in Hin as [j Hj].
    by apply (next_fresh _ _ _ Hi Hj).
  - rewrite lookup_insert_ne by done. naive_solver.
Qed.

Lemma created_inv i w s :
  inv s → idle i s → y_workers s !! i = Some w → wk_in_use w = true →
  y_owner s !! wk_client_fd w = Some 0%nat → y_mutex s = true → inv (created i w s).
Proof.
  intros Hi Hidle Hw Hu Hfd Hmx.
  assert (dom (y_owner (created i w s)) = dom (y_owner s)) as Hdom.
  { simpl. rewrite dom_insert_L. assert (wk_client_fd w ∈ dom (y_owner s)) by (by apply elem_of_dom).
    set_solver. }
  constructor; rewrite ?Hdom; try apply Hi.
  - simpl. rewrite length_insert. apply Hi.
  - intros t j Ht. simpl. destruct (created_threads _ _ _ _ _ Hi Ht) as [[-> ->]|[Hne Ht']].
    + pose proof (yi_next _ _ _ Hi). split; [lia|]. split; [done|]. eexists.
      rewrite list_lookup_insert_eq by (by eapply lookup_lt_Some). by split_and!.
    + destruct (yi_thread _ _ _ Hi t j Ht') as (? & ? & wj & Hwj & ? & ?).
      split; [lia|]. split; [done|]. exists wj.
      rewrite list_lookup_insert_ne; [done|]. intros ->. by apply (Hidle t).
  - simpl. rewrite dom_insert_L. pose proof (yi_exited _ _ _ Hi). set_solver.
  - intros t Hn. rewrite created_alive in Hn by done.
    destruct (yi_gone _ _ _ Hi t) as (? & ? & Hno); [tauto|]. split_and!; [done..|].
    intros fd. simpl. destruct (decide (fd = wk_client_fd w)) as [->|].
    + rewrite lookup_insert_eq. naive_solver.
    + rewrite lookup_insert_ne by done. apply Hno.
  - intros t Ht. simpl in Ht. apply Hi. lia.
  - simpl. lia.
Qed.

Lemma created_good i w s :
  inv s → idle i s → y_workers s !! i = Some w → wk_in_use w = true →
  y_owner s !! wk_client_fd w = Some 0%nat → y_mutex s = true →
  gstep 0%nat s (created i w s).
Proof.
  intros Hi Hidle Hw Hu Hfd Hmx. constructor; [by apply created_inv|..].
  - intros t Hne Ha.
    assert (t ≠ y_next s) as Hnx by (intros ->; by apply (next_dead _ Hi)).
    constructor; try done.
    + apply created_alive; auto.
    + intros fd. simpl. destruct (decide (fd = wk_client_fd w)) as [->|].
      * rewrite lookup_insert_eq. naive_solver.
      * by rewrite lookup_insert_ne.
    + intros j wj Hj Hwj. simpl. rewrite lookup_insert_ne by done. split; [done|].
      exists wj. rewrite list_lookup_insert_ne; [done|]. intros ->. by apply (Hidle t).
  - intros t j Ht. destruct (created_threads _ _ _ _ _ Hi Ht) as [[-> ->]|[Hne Ht']]; [|by left].
    right. do 2 (split; [done|]).
    destruct (yi_gone _ _ _ Hi (y_next s) (next_dead _ Hi)) as (Hb & Hl & Hno).
    constructor; try done.
    + by destruct (proj2 (created_alive i w s (y_next s) Hi) (or_introl eq_refl)) as [H0|[_ ?]];
        [pose proof (yi_next _ _ _ Hi); lia|].
    + intros w' fd. simpl. rewrite list_lookup_insert_eq by (by eapply lookup_lt_Some).
      intros [= <-]. simpl. destruct (decide (fd = wk_client_fd w)) as [->|Hf].
      * rewrite lookup_insert_eq. done.
      * rewrite lookup_insert_ne by done. split; [by intros ?%Hno | done].
    + by apply (yi_unborn _ _ _ Hi).
Qed.

(** Creating the worker of slot [i], which the main thread has prepared. *)
Lemma sp_main_create i fd owns w0 (Q : Z → sys W → Prop) s :
  main_at owns false true (Some i) s → slot_is i w0 s → wk_in_use w0 = true →
  wk_client_fd w0 = fd → (fd ∈ owns) →
  (∀ s', main_at (owns ∖ {[fd]}) false true None s' → Q 0 s') →
  (∀ e s', e ≠ 0 → main_at owns false true (Some i) s' → slot_is i w0 s' → Q e s') →
  tsafe 0%nat (pthread_create i) Q s.
Proof.
  intros Hm Hslot Hu Hfd Hin Hok Hfail. apply sp_pt_call.
  { intros s1 Hi Hr. apply Forall_singleton. unfold perm. simpl. split; [done|].
    by apply (ma_skip _ _ _ _ _ (main_rely _ _ _ _ _ _ Hm Hr)). }
  2:{ intros. eapply Hfail; [done | by eapply main_rely|].
      eapply slot_is_kept; [done | by apply rely_table]. }
  intros s1 wd Hi Hr _. pose proof (main_rely _ _ _ _ _ _ Hm Hr) as Hm1.
  destruct (slot_is_kept _ _ _ _ Hslot (rely_table _ _ Hr)) as (w & Hw & Ht & Hf & Hu').
  simpl. rewrite Hw.
  assert (inv (with_os wd s1)) as Hi1 by (by apply with_os_inv).
  assert (y_owner s1 !! wk_client_fd w = Some 0%nat) as Hown.
  { apply Hm1. congruence. }
  assert (idle i s1) as Hidle by (by apply (ma_skip _ _ _ _ _ Hm1)).
  split.
  - apply (created_good i w (with_os wd s1)); try done; [congruence | apply Hm1].
  - intros s3 Hi3 Hr3. apply Hok. eapply main_rely; [|exact Hr3].
    destruct Hm1 as [How Hb Hl Hmx Htab _]. constructor; try done; simpl.
    + intros fd'. destruct (decide (fd' = wk_client_fd w)) as [->|Hne].
      * rewrite lookup_insert_eq. pose proof (yi_next _ _ _ Hi).
        split; [intros [= ?]; lia | set_solver].
      * rewrite lookup_insert_ne by done. rewrite How. set_solver.
    + intros j wj. destruct (decide (j = i)) as [->|Hji].
      * rewrite list_lookup_insert_eq by (by eapply lookup_lt_Some). intros [= <-] _ _.
        simpl. apply lookup_insert_eq.
      * rewrite list_lookup_insert_ne by done. intros Hj Hju _.
        pose proof (Htab j wj Hj Hju ltac:(congruence)) as Htj.
        rewrite lookup_insert_ne; [done|]. by apply not_eq_sym, (next_fresh _ _ _ Hi Htj).
Qed.

(** The state after thread [t] was joined. *)
Definition joined (t : tid) s : sys W :=
  with_threads (delete t (y_threads s)) (y_exited s ∖ {[t]}) (y_next s) (y_owner s) s.

Lemma joined_alive t t' s : (t ∈ y_exited s) → alive t' (joined t s) ↔ alive t' s.
Proof.
  intros Ht. unfold alive. simpl. destruct (decide (t' = t)) as [->|Hne].
  - rewrite lookup_delete_eq. split; (intros [->|[[i ?] ?]]; [by left | done]).
  - rewrite lookup_delete_ne by done. set_solver.
Qed.

Lemma joined_good t s : inv s → (t ∈ y_exited s) → gstep 0%nat s (joined t s).
Proof.
  intros Hi Hx. constructor; [constructor; try apply Hi|..].
  - intros t' j. simpl. rewrite lookup_delete_Some. intros [_ Ht']. by apply Hi.
  - simpl. rewrite dom_delete_L. pose proof (yi_exited _ _ _ Hi). set_solver.
  - intros t' Hn. rewrite joined_alive in Hn by done. by apply Hi.
  - intros t' Hne Ha. assert (t' ≠ t) as Htt.
    { intros ->. destruct Ha as [->|[_ ?]]; done. }
    constructor; try done.
    + by apply joined_alive.
    + intros j wj Hj Hwj. simpl. rewrite lookup_delete_ne by done. split; [done|]. by exists wj.
  - intros t' j. simpl. rewrite lookup_delete_Some. intros [Hne Ht']. left. set_solver.
Qed.

(** Joining the worker of slot [i]: afterwards nobody works on the slot. *)
Lemma sp_main_join i owns w0 (Q : Z → sys W → Prop) s :
  main_at owns false true None s → slot_is i w0 s → wk_in_use w0 = true →
  (∀ s', main_at owns false true (Some i) s' → slot_is i w0 s' →
     (∀ j wj, slot_is j wj s → slot_is j wj s') → Q 0 s') →
  tsafe 0%nat (pthread_join (wk_thread w0)) Q s.
Proof.
  intros Hm Hslot Hu Hok. apply sp_pt_call; [by constructor|..].
  2:{ intros e w w' s3 He Hne. by apply pt_join_ok in He. }
  intros s1 wd Hi Hr _. pose proof (main_rely _ _ _ _ _ _ Hm Hr) as Hm1.
  pose proof (rely_table _ _ Hr) as Hk1.
  destruct (slot_is_kept _ _ _ _ Hslot Hk1) as (w & Hw & Ht & Hf & Hu').
  assert (y_threads s1 !! wk_thread w0 = Some i) as Hth.
  { rewrite <-Ht. apply (ma_table _ _ _ _ _ Hm1); [done | congruence | done]. }
  simpl. destruct (decide (wk_thread w0 ∈ y_exited s1)) as [Hx|Hx].
  2:{ rewrite decide_True by (by apply elem_of_dom). right. left. split; [done|].
      split; [intros Hl; by apply (ma_lock _ _ _ _ _ Hm1) in Hl|]. exists (wk_thread w0).
      split; [by right; split; [eexists|] |].
      destruct (yi_thread _ _ _ Hi _ _ Hth) as [? _]. lia. }
  split; [apply (joined_good (wk_thread w0) (with_os wd s1)); [by apply with_os_inv | done]|].
  intros s3 Hi3 Hr3. apply Hok.
  - eapply main_rely; [|exact Hr3]. destruct Hm1. constructor; try done; simpl.
    + intros j wj Hj Huj Hne. pose proof (ma_table0 j wj Hj Huj ltac:(done)) as Htj.
      rewrite lookup_delete_ne; [done|]. intros Heq. rewrite <-Heq in Htj.
      rewrite Hth in Htj. naive_solver.
    + intros j [= ->] t. simpl. rewrite lookup_delete_Some. intros [Hne Htj].
      destruct (yi_thread _ _ _ Hi t j Htj) as (_ & _ & w2 & Hw2 & _ & Ht2). congruence.
  - eapply slot_is_kept; [|by apply rely_table]. by exists w.
  - intros j wj Hj. eapply slot_is_kept; [|by apply rely_table].
    by apply (slot_is_kept _ _ _ s1) in Hj.
Qed.

(** ** The functions of the main thread *)

Lemma sp_main_free i owns w0 (Q : () → sys W → Prop) s :
  main_at owns false true (Some i) s → slot_is i w0 s →
  (∀ s' w, main_at owns false true None s' → slot_is i w s' → wk_in_use w = false →
     (∀ j, j ≠ i → ∀ wj, slot_is j wj s → slot_is j wj s') → Q () s') →
  tsafe 0%nat (free_slot i) Q s.
Proof.
  intros Hm Hs HQ. eapply sp_main_store with (skip' := None) (w0 := w0);
    [exact Hm | done | by apply Hm | by right | | by left |].
  { apply Forall_singleton. by left. }
  intros w s' s1 Hm' _ _ _ Hothers Hslot. by eapply HQ.
Qed.

Lemma sp_reap_finished owns (Q : () → sys W → Prop) s :
  main_at owns false true None s → (∀ s', main_at owns false true None s' → Q () s') →
  tsafe 0%nat (server_reap_finished tp 0) Q s.
Proof.
  intros Hm HQ. unfold server_reap_finished.
  eapply sp_for with (J := λ l s, main_at owns false true None s ∧
    Forall (λ i, i < WC_TCP_MAX_CLIENTS)%nat l); [apply good_refl | | |].
  3:{ split; [done|]. apply Forall_forall. intros i Hi%elem_of_seq. lia. }
  2:{ intros s1 s2 [Hm1 _] Hi Hr. apply HQ. by eapply main_rely. }
  intros i l s1 [Hm1 [Hlt Hl]%Forall_cons].
  assert (∀ s', main_at owns false true None s' → ∀ s1, inv s1 → rely 0%nat s' s1 → Q () s1)
    as Hend by (intros s' Hm' s2 Hi2 Hr2; apply HQ; by eapply main_rely).
  apply sp_bind; [apply good_refl|]. eapply sp_main_lock; [exact Hm1|..].
  2:{ intros e s2 He Hm2 _. rewrite (proj2 (Z.eqb_neq e 0)) by done. simpl.
      apply sp_bind; [apply good_refl|].
      eapply sp_main_log; [exact Hm2 | by destruct tp; log_ok |]. intros s3 Hm3 _.
      eapply sp_main_ret; [exact Hm3|]. intros s4 Hm4 _. by apply Hend. }
  intros s2 Hm2 _. simpl. apply sp_bind; [apply good_refl|].
  eapply sp_main_load; [exact Hm2 | done |..].
  { intros s3 Hm3. apply Forall_cons_2; [|apply Forall_singleton]; unfold perm; simpl; [by left|]. left.
    split; [by apply Hm3 | by left]. }
  intros w s3 Hm3 _ Hs3 _. apply sp_bind; [apply good_refl|].
  eapply sp_main_unlock; [exact Hm3|]. intros s4 Hm4 Hk4. simpl.
  destruct (wk_in_use w && wk_finished w) eqn:Huse.
  2:{ eapply sp_main_ret; [exact Hm4|]. by intros s5 Hm5 _. }
  apply andb_true_iff in Huse as [Hu _]. apply sp_bind; [apply good_refl|].
  eapply sp_main_join; [exact Hm4 | by eapply slot_is_kept | done |].
  intros s5 Hm5 Hs5 _. simpl. apply sp_bind; [apply good_refl|].
  eapply sp_main_free; [exact Hm5 | exact Hs5 |]. intros s6 w6 Hm6 _ _ _.
  apply sp_bind; [apply good_refl|].
  eapply sp_main_log; [exact Hm6 | by destruct tp; log_ok |]. intros s7 Hm7 _.
  eapply sp_main_ret; [exact Hm7|]. by intros s8 Hm8 _.
Qed.

Lemma stop_signals_spec z (Q : Z → machine W → Prop) m :
  (∀ r m', m_open m' = m_open m → m_live m' = m_live m → Q r m') →
  wp z stop_signals Q m.
Proof.
  intros HQ.
  assert (∀ (f : W → option Z * W) (k : Z → M W Z) m1,
    m_open m1 = m_open m → m_live m1 = m_live m →
    (∀ v m2, m_open m2 = m_open m → m_live m2 = m_live m → wp z (k v) Q m2) →
    wp z (r ← os_call f; v ← status_result r; k v) Q m1) as Hcall.
  { intros f k m1 Ho Hl Hk. apply wp_bind, wp_os_call. intros r w _. apply wp_bind.
    by apply wp_status_result; intros; apply Hk. }
  unfold stop_signals. apply Hcall; [done..|]. intros v1 m1 Ho1 Hl1.
  case_if; [wp_go; by apply HQ|]. apply Hcall; [done..|]. intros v2 m2 Ho2 Hl2.
  case_if; [wp_go; by apply HQ|]. apply wp_bind, wp_os_call. intros r w _.
  by apply wp_status_result; intros; apply HQ.
Qed.

(** A connection is handed to the worker of a free slot, or stays with the
    main thread. *)
Lemma sp_start_in_slot i w fd owns (Q : Z → sys W → Prop) s :
  inv s → main_at owns false true None s → (fd ∈ owns) →
  slot_is i w s → wk_in_use w = false →
  (∀ s', main_at (owns ∖ {[fd]}) false true None s' → Q 0 s') →
  (∀ s', main_at owns false true None s' → Q (-1) s') →
  tsafe 0%nat (server_start_in_slot tp 0 fd i) Q s.
Proof.
  intros Hi Hm Hfd Hs Hu Hok Hfail. unfold server_start_in_slot.
  apply sp_bind; [apply good_refl|].
  eapply sp_main_store with (skip' := Some i) (w0 := w);
    [exact Hm | exact Hs | by eapply unused_idle | by left | | by right |].
  { apply Forall_cons_2; [by left|]. apply Forall_singleton. by right. }
  intros w3 s3 s3' Hm3 _ _ _ _ Hs3. set (w4 := WcWorker (wk_thread w3) fd true false) in *.
  assert (∀ s' e, main_at owns false true (Some i) s' → slot_is i w4 s' →
    tsafe 0%nat (_ ← free_slot i; _ ← call 0 (put_errno e); mret (-1)) Q s') as Hgive.
  { intros s' e Hm' Hs'. apply sp_bind; [apply good_refl|].
    eapply sp_main_free; [exact Hm' | exact Hs' |]. intros s5 w5 Hm5 _ _ _.
    apply sp_bind; [apply good_refl|]. eapply sp_main_errno; [exact Hm5|]. intros s6 Hm6 _.
    eapply sp_main_ret; [exact Hm6|]. intros s7 Hm7 _. by apply Hfail. }
  apply sp_bind; [apply good_refl|]. eapply sp_main_call; [exact Hm3|]. intros z m Hz.
  apply stop_signals_spec. intros r m' Ho Hlv. split_and!; [done..|]. intros s4 Hm4 Hk4.
  pose proof (slot_is_kept _ _ _ _ Hs3 Hk4) as Hs4.
  destruct (r =? -1).
  { apply sp_bind; [apply good_refl|].
    eapply sp_main_free; [exact Hm4 | exact Hs4 |]. intros s5 w5 Hm5 _ _ _.
    eapply sp_main_ret; [exact Hm5|]. intros s6 Hm6 _. by apply Hfail. }
  apply sp_bind; [apply good_refl|]. eapply sp_main_sigmask; [exact Hm4|]. intros e5 s5 Hm5 Hk5.
  pose proof (slot_is_kept _ _ _ _ Hs4 Hk5) as Hs5.
  destruct (negb (e5 =? 0)); [by apply Hgive|].
  apply sp_bind; [apply good_refl|].
  eapply sp_main_create; [exact Hm5 | exact Hs5 | done | done | exact Hfd |..].
  2:{ intros e s6 He Hm6 Hs6. apply sp_bind; [apply good_refl|].
      eapply sp_main_sigmask; [exact Hm6|]. intros e7 s7 Hm7 Hk7.
      rewrite (proj2 (Z.eqb_neq e 0)) by done. simpl. apply Hgive; [done|].
      by eapply slot_is_kept. }
  intros s6 Hm6. apply sp_bind; [apply good_refl|]. eapply sp_main_sigmask; [exact Hm6|].
  intros e7 s7 Hm7 _. simpl. apply sp_bind; [apply good_refl|].
  eapply sp_mono with (Q := λ _ s', main_at (owns ∖ {[fd]}) false true None s').
  { destruct (negb (e7 =? 0)).
    - eapply sp_main_log; [exact Hm7 | by destruct tp; log_ok | done].
    - eapply sp_main_ret; [exact Hm7 | done]. }
  intros _ s8 Hm8. apply sp_bind; [apply good_refl|].
  eapply sp_main_log; [exact Hm8 | by destruct tp; log_ok |]. intros s9 Hm9 _.
  eapply sp_main_ret; [exact Hm9|]. intros s10 Hm10 _. by apply Hok.
Qed.

Lemma sp_start_worker fd owns (Q : Z → sys W → Prop) s :
  main_at owns false true None s → (fd ∈ owns) →
  (∀ s', main_at (owns ∖ {[fd]}) false true None s' → Q 0 s') →
  (∀ s', main_at owns false true None s' → Q (-1) s') →
  tsafe 0%nat (server_start_worker tp 0 fd) Q s.
Proof.
  intros Hm Hfd Hok Hfail. unfold server_start_worker. apply sp_bind; [apply good_refl|].
  eapply sp_for with (J := λ l s, main_at owns false true None s ∧
    Forall (λ i, i < WC_TCP_MAX_CLIENTS)%nat l); [apply good_refl | | |].
  3:{ split; [done|]. apply Forall_forall. intros i Hi%elem_of_seq. lia. }
  2:{ intros s1 s2 [Hm1 _] Hi Hr. apply sp_bind; [apply good_refl|].
      eapply sp_main_errno; [by eapply main_rely|]. intros s3 Hm3 _.
      eapply sp_main_ret; [exact Hm3|]. intros s4 Hm4 _. by apply Hfail. }
  intros i l s1 [Hm1 [Hlt Hl]%Forall_cons].
  apply sp_bind; [apply good_refl|]. eapply sp_main_load; [exact Hm1 | done |..].
  { intros s2 Hm2. apply Forall_singleton. unfold perm. simpl. by left. }
  intros w s2 Hm2 _ Hs2 Hi2. destruct (wk_in_use w) eqn:Hu.
  { eapply sp_main_ret; [exact Hm2|]. by intros s3 Hm3 _. }
  apply sp_bind; [apply good_refl|].
  eapply sp_start_in_slot; [done | exact Hm2 | done | exact Hs2 | done |..];
    intros s3 Hm3; (eapply sp_main_ret; [exact Hm3|]); intros s4 Hm4 _; cbn beta iota;
    intros s5 Hi5 Hr5; (eapply sp_main_ret; [by eapply main_rely|]); intros s6 Hm6 _;
    [by apply Hok | by apply Hfail].
Qed.

Lemma reject_client_spec z fd (Q : () → machine W → Prop) m :
  (fd ∈ m_open m) →
  (∀ m', m_open m' = m_open m ∖ {[fd]} → m_live m' = m_live m → Q () m') →
  wp z (reject_client tp fd) Q m.
Proof.
  intros Hin HQ. unfold reject_client. wp_go. wp_call wp_sys_close; [done|].
  intros r m1 Hf Ho _. wp_go. apply wp_log; [by destruct tp; log_ok|]. intros m2 Hlg.
  apply HQ; [by rewrite (lg_open _ _ Hlg) | by rewrite (lg_live _ _ Hlg), (cf_live _ _ Hf)].
Qed.

Lemma sp_reject_client fd owns (Q : () → sys W → Prop) s :
  main_at ({[fd]} ∪ owns) false true None s → (fd ∉ owns) →
  (∀ s', main_at owns false true None s' → Q () s') →
  tsafe 0%nat (call 0 (reject_client tp fd)) Q s.
Proof.
  intros Hm Hnew HQ. eapply sp_main_close with (fd := fd); [exact Hm | set_solver |].
  intros z m1 Hz Hin. apply reject_client_spec; [done|]. intros m2 Ho Hl. split_and!; [done..|].
  replace (({[fd]} ∪ owns) ∖ {[fd]}) with owns by set_solver. intros s2 Hm2 _. by apply HQ.
Qed.

(** Either way the connection leaves the main thread. *)
Lemma sp_admit_client fd owns (Q : () → sys W → Prop) s :
  main_at ({[fd]} ∪ owns) false true None s → (fd ∉ owns) →
  (∀ s', main_at owns false true None s' → Q () s') →
  tsafe 0%nat (server_admit_client tp fuel 0 fd) Q s.
Proof.
  intros Hm Hnew HQ. unfold server_admit_client. apply sp_bind; [apply good_refl|].
  eapply sp_mono with (Q := λ _ s', main_at ({[fd]} ∪ owns) false true None s').
  { assert (tsafe 0%nat (server_reap_finished tp 0)
      (λ _ s', main_at ({[fd]} ∪ owns) false true None s') s) as Hreap
      by (by eapply sp_reap_finished).
    revert Hreap. destruct tp; [done|]. intros _. by eapply sp_main_ret. }
  intros _ s3 Hm3. apply sp_bind; [apply good_refl|]. eapply sp_main_call; [exact Hm3|].
  intros z3 m3 Hz3. apply wc_socket_set_nonblocking_spec; [exact Hz3|..].
  - intros m4 Hf4 Ho4 _. split; [done|]. split; [apply Hf4|]. intros s4 Hm4 _. simpl.
    apply sp_bind; [apply good_refl|].
    eapply sp_start_worker; [exact Hm4 | set_solver |..]; intros s5 Hm5; simpl.
    + replace (({[fd]} ∪ owns) ∖ {[fd]}) with owns in Hm5 by set_solver.
      eapply sp_main_ret; [exact Hm5|]. intros s6 Hm6 _. by apply HQ.
    + by eapply sp_reject_client.
  - intros m4 [Hf4 Ho4 _]. split; [done|]. split; [apply Hf4|]. intros s4 Hm4 _. simpl.
    apply sp_bind; [apply good_refl|]. eapply sp_main_ret; [exact Hm4|]. intros s5 Hm5 _. simpl.
    by eapply sp_reject_client.
Qed.

(** Accepting leaves no connection with the main thread. *)
Lemma sp_accept_clients listener owns (Q : () → sys W → Prop) s :
  main_at owns false true None s → (∀ s', main_at owns false true None s' → Q () s') →
  tsafe 0%nat (server_accept_clients tp fuel 0 listener) Q s.
Proof.
  intros Hm HQ. unfold server_accept_clients.
  eapply sp_iter with (J := λ _ s, main_at owns false true None s);
    [apply good_refl | by intros; eapply main_rely | | done].
  intros _ s1 Hi1 Hm1. apply sp_bind; [apply good_refl|].
  eapply sp_main_open; [exact Hm1|]. intros z m Hz. wp_call wp_sys_accept; cycle 1.
  { intros m' [Hf Ho _] _. split; [apply Hf|]. left. split; [done|]. intros s2 Hm2 _. simpl.
    apply sp_bind; [apply good_refl|]. eapply sp_main_get_errno; [exact Hm2|].
    intros e s3 Hm3 _. destruct (e =? EINTR).
    { eapply sp_main_ret; [exact Hm3|]. by intros s4 Hm4 _. }
    apply sp_bind; [apply good_refl|].
    eapply sp_mono with (Q := λ _ s', main_at owns false true None s').
    { destruct (_ && _).
      - eapply sp_main_log; [exact Hm3 | by destruct tp; log_ok | done].
      - eapply sp_main_ret; [exact Hm3 | done]. }
    intros _ s4 Hm4. eapply sp_main_ret; [exact Hm4|]. intros s5 Hm5 _ s6 Hi6 Hr6.
    apply HQ. by eapply main_rely. }
  intros fd m' Hpos Hfresh Hf Ho _ _. split; [apply Hf|]. right. split; [done|]. split; [done|].
  intros s2 Hm2 _ Hnew. rewrite (proj2 (Z.eqb_neq fd (-1))) by lia.
  apply sp_bind; [apply good_refl|]. eapply sp_admit_client; [exact Hm2 | done|].
  intros s3 Hm3. eapply sp_main_ret; [exact Hm3|]. by intros s4 Hm4 _.
Qed.

(** Joining every worker leaves no thread. *)
Lemma sp_join_loop owns l (Q : Z → sys W → Prop) s :
  main_at owns false true None s → Forall (λ i, i < WC_TCP_MAX_CLIENTS)%nat l →
  (∀ i, (i < WC_TCP_MAX_CLIENTS)%nat → i ∉ l → ∃ w, slot_is i w s ∧ wk_in_use w = false) →
  (∀ s', main_at owns false true None s' → y_threads s' = ∅ → Q 0 s') →
  tsafe 0%nat (server_join_loop tp 0 l 0) Q s.
Proof.
  intros Hm Hl Hfree HQ. revert s Hm Hfree.
  induction Hl as [|i l Hlt Hl IH]; intros s Hm Hfree; simpl.
  { apply sp_ret. intros s1 Hi Hr. apply HQ; [by eapply main_rely|].
    apply map_eq. intros t. rewrite lookup_empty.
    destruct (y_threads s1 !! t) as [i|] eqn:Ht; [exfalso|done].
    destruct (yi_thread _ _ _ Hi t i Ht) as (_ & _ & w & Hw & Hu & _).
    destruct (Hfree i) as (w' & Hs & Hu').
    { apply lookup_lt_Some in Hw. by rewrite (yi_table _ _ _ Hi) in Hw. }
    { apply not_elem_of_nil. }
    destruct (slot_is_kept _ _ _ _ Hs (rely_table _ _ Hr)) as (w2 & ? & _ & _ & ?). congruence. }
  apply sp_bind; [apply good_refl|]. eapply sp_main_load; [exact Hm | done |..].
  { intros s2 Hm2. apply Forall_singleton. unfold perm. simpl. by left. }
  intros w s2 Hm2 Hk2 Hs2 _. destruct (wk_in_use w) eqn:Hu.
  - apply sp_bind; [apply good_refl|].
    eapply sp_main_join; [exact Hm2 | exact Hs2 | done |]. intros s3 Hm3 Hs3 Hkeep3. simpl.
    apply sp_bind; [apply good_refl|]. eapply sp_main_free; [exact Hm3 | exact Hs3 |].
    intros s4 w4 Hm4 Hs4 Hu4 Hkeep4. apply IH; [done|]. intros j Hj Hjl.
    destruct (decide (j = i)) as [->|Hji]; [by exists w4|].
    destruct (Hfree j Hj) as (wj & Hsj & Huj); [set_solver|]. exists wj. split; [|done].
    apply Hkeep4; [done|]. apply Hkeep3. by eapply slot_is_kept.
  - apply IH; [done|]. intros j Hj Hjl. destruct (decide (j = i)) as [->|Hji]; [by exists w|].
    destruct (Hfree j Hj) as (wj & Hsj & Huj); [set_solver|]. exists wj. split; [|done].
    by eapply slot_is_kept.
Qed.

Lemma sp_join_all owns (Q : Z → sys W → Prop) s :
  main_at owns false true None s →
  (∀ s', main_at owns false true None s' → y_threads s' = ∅ → Q 0 s') →
  tsafe 0%nat (server_join_all tp 0) Q s.
Proof.
  intros Hm HQ. unfold server_join_all. apply sp_bind; [apply good_refl|].
  eapply sp_main_log; [exact Hm | by destruct tp; log_ok |]. intros s1 Hm1 _.
  eapply sp_join_loop; [exact Hm1 | | |done].
  - apply Forall_forall. intros i Hi%elem_of_seq. lia.
  - intros i Hi Hni. exfalso. apply Hni, elem_of_seq. lia.
Qed.

Lemma sp_request_stop owns (Q : Z → sys W → Prop) s :
  main_at owns false true None s →
  (∀ e s', main_at owns false true None s' → Q e s') →
  tsafe 0%nat (server_request_stop tp 0) Q s.
Proof.
  intros Hm HQ. unfold server_request_stop. apply sp_bind; [apply good_refl|].
  eapply sp_main_lock; [exact Hm|..].
  2:{ intros e s1 He Hm1 _. rewrite (proj2 (Z.eqb_neq e 0)) by done. simpl.
      eapply sp_main_ret; [exact Hm1|]. intros s2 Hm2 _. by apply HQ. }
  intros s1 Hm1 _. simpl. apply sp_bind; [apply good_refl|].
  eapply sp_main_stop; [exact Hm1|]. intros s2 Hm2 _. apply sp_bind; [apply good_refl|].
  eapply sp_main_unlock; [exact Hm2|]. intros s3 Hm3 _. simpl. apply sp_bind; [apply good_refl|].
  eapply sp_main_log; [exact Hm3 | by destruct tp; log_ok |]. intros s4 Hm4 _.
  eapply sp_main_ret; [exact Hm4|]. intros s5 Hm5 _. by apply HQ.
Qed.

(** The results of the run functions. *)
Definition returns (r : Z) : Prop := r = 0 ∨ r = -1.

Lemma note_failure (b : bool) (e1 e2 r : Z) (p : Z * Z) :
  returns r → (if b && (r =? 0) then (e1, -1) else (e2, r)) = p → returns p.2.
Proof. intros Hr <-. case_match; [by right | done]. Qed.

Lemma close_listener_spec z fd path e r (Q : Z * Z → machine W → Prop) m :
  (fd ∈ m_open m) → returns r →
  (∀ p m', returns p.2 → m_open m' = m_open m ∖ {[fd]} → m_live m' = m_live m → Q p m') →
  wp z (close_listener fd path e r) Q m.
Proof.
  intros Hin Hret HQ. unfold close_listener. wp_call wp_sys_close; [done|].
  intros v m1 Hf Ho _. wp_go. destruct (if _ && _ then _ else _) as [e1 r1] eqn:Hr1.
  apply note_failure in Hr1; [|done].
  destruct path as [path|]; [|wp_go; apply HQ; [done | done | apply Hf]].
  wp_call wp_sys_unlink. intros v2 m2 [Hf2 Ho2 _]. wp_go.
  apply HQ; [by eapply note_failure | congruence|]. rewrite (cf_live _ _ Hf2). apply Hf.
Qed.

(** The main thread is done: it owns nothing and no worker is left. *)
Definition finished s : Prop :=
  blocks_of s 0 = 0 ∧ (∀ fd, y_owner s !! fd ≠ Some 0%nat) ∧ y_threads s = ∅.

Lemma main_finished mx s : main_at ∅ false mx None s → y_threads s = ∅ → finished s.
Proof.
  intros [] Hth. split_and!; [done | | done]. intros fd. rewrite ma_owner0. set_solver.
Qed.

Lemma sp_shutdown listener path result (Q : Z → sys W → Prop) s :
  main_at {[listener]} false true None s → returns result →
  (∀ r mx s', returns r → main_at ∅ false mx None s' → y_threads s' = ∅ → Q r s') →
  tsafe 0%nat (server_shutdown tp 0 listener path result) Q s.
Proof.
  intros Hm Hret HQ. unfold server_shutdown. apply sp_bind; [apply good_refl|].
  eapply sp_main_get_errno; [exact Hm|]. intros e s1 Hm1 _. apply sp_bind; [apply good_refl|].
  eapply sp_request_stop; [exact Hm1|]. intros e2 s2 Hm2.
  destruct (if negb _ && _ then _ else _) as [saved r2] eqn:Hr2. apply note_failure in Hr2; [|done].
  apply sp_bind; [apply good_refl|].
  eapply sp_main_close with (fd := listener); [exact Hm2 | set_solver |]. intros z m Hz Hin.
  apply close_listener_spec; [done | done |]. intros [saved3 r3] m' Hr3 Ho Hl. split_and!; [done..|].
  intros s3 Hm3 _. replace ({[listener]} ∖ {[listener]} : gset Z) with (∅ : gset Z) in Hm3 by set_solver.
  apply sp_bind; [apply good_refl|]. eapply sp_join_all; [exact Hm3|]. intros s4 Hm4 Hth4. simpl.
  apply sp_bind; [apply good_refl|]. apply sp_bind; [apply good_refl|].
  eapply sp_main_mutex_destroy; [exact Hm4 | done |]. intros e5 b s5 Hm5 Hk5.
  assert (y_threads s5 = ∅) as Hth5 by (rewrite (kt_threads _ _ Hk5); done).
  eapply sp_main_ret; [exact Hm5|]. intros s6 Hm6 Hk6.
  destruct (if negb _ && _ then _ else _) as [saved7 r7] eqn:Hr7. cbn beta iota.
  apply note_failure in Hr7; [|done].
  apply sp_bind; [apply good_refl|].
  eapply sp_main_log; [exact Hm6 | by destruct tp; log_ok |]. intros s7 Hm7 Hk7.
  apply sp_bind; [apply good_refl|]. eapply sp_main_errno; [exact Hm7|]. intros s8 Hm8 Hk8.
  eapply sp_main_ret; [exact Hm8|]. intros s9 Hm9 Hk9. eapply HQ; [exact Hr7 | exact Hm9 |].
  rewrite (kt_threads _ _ Hk9), (kt_threads _ _ Hk8), (kt_threads _ _ Hk7), (kt_threads _ _ Hk6). done.
Qed.

Lemma sp_server_loop listener owns (Q : Z → sys W → Prop) s :
  main_at owns false true None s →
  (∀ r s', returns r → main_at owns false true None s' → Q r s') →
  tsafe 0%nat (server_loop tp fuel 0 listener) Q s.
Proof.
  intros Hm HQ. unfold server_loop.
  eapply sp_iter with (J := λ _ s, main_at owns false true None s);
    [apply good_refl | by intros; eapply main_rely | | done].
  intros _ s1 Hi1 Hm1.
  assert (∀ r s', returns r → main_at owns false true None s' → tsafe 0%nat (mret (Break r : () + Z))
    (λ r s'', match r with
      | inl _ => main_at owns false true None s''
      | inr a => ∀ s1, inv s1 → rely 0%nat s'' s1 → Q a s1
      end) s') as Hbreak.
  { intros r s' Hret Hm'. eapply sp_main_ret; [exact Hm'|]. intros s2 Hm2 _ s3 Hi3 Hr3.
    apply HQ; [done | by eapply main_rely]. }
  apply sp_bind; [apply good_refl|]. eapply sp_main_call; [exact Hm1|]. intros z m Hz.
  apply wp_os_call. intros stop w _. split_and!; [done..|]. intros s2 Hm2 _.
  destruct stop; [by apply Hbreak; [by constructor|]|]. apply sp_bind; [apply good_refl|].
  eapply sp_reap_finished; [exact Hm2|]. intros s3 Hm3. apply sp_bind; [apply good_refl|].
  eapply sp_main_call; [exact Hm3|]. intros z3 m3 Hz3. wp_call wp_sys_poll. intros k revents m4 Hlen Hf4.
  split; [apply Hf4|]. split; [apply Hf4|]. intros s4 Hm4 _. cbn beta iota.
  destruct (k =? -1).
  { apply sp_bind; [apply good_refl|]. eapply sp_main_get_errno; [exact Hm4|]. intros e s5 Hm5 _.
    destruct (e =? EINTR); [|by apply Hbreak; [by constructor|]]. eapply sp_main_ret; [exact Hm5|]. by intros s6 Hm6 _. }
  destruct revents as [|r [|? ?]]; [done| |done].
  apply sp_bind; [apply good_refl|]. eapply sp_main_call; [exact Hm4|]. intros z5 m5 Hz5.
  apply (wp_from_option _ _ r); [done|]. split_and!; [done..|]. intros s5 Hm5 _.
  apply sp_bind; [apply good_refl|].
  eapply sp_mono with (Q := λ _ s', main_at owns false true None s').
  { destruct (has_event r POLLIN); [by eapply sp_accept_clients | by eapply sp_main_ret]. }
  intros _ s6 Hm6. destruct (has_event r _).
  - apply sp_bind; [apply good_refl|]. eapply sp_main_errno; [exact Hm6|]. intros s7 Hm7 _.
    by apply Hbreak; [by constructor|].
  - eapply sp_main_ret; [exact Hm6|]. by intros s7 Hm7 _.
Qed.

Lemma sp_workers_init owns (Q : () → sys W → Prop) s :
  main_at owns false true None s → y_threads s = ∅ →
  (∀ s', main_at owns false true None s' → y_threads s' = ∅ → Q () s') →
  tsafe 0%nat (server_workers_init tp 0) Q s.
Proof.
  intros Hm Hth HQ. unfold server_workers_init. apply sp_bind; [apply good_refl|].
  eapply sp_for with (J := λ l s, main_at owns false true None s ∧ y_threads s = ∅ ∧
    Forall (λ i, i < WC_TCP_MAX_CLIENTS)%nat l); [apply good_refl | | |].
  3:{ split_and!; [done..|]. apply Forall_forall. intros i Hi%elem_of_seq. lia. }
  2:{ intros s1 s2 (Hm1 & Hth1 & _) Hi Hr. eapply sp_main_log; [by eapply main_rely | by destruct tp; log_ok |].
      intros s3 Hm3 Hk3. apply HQ; [done|].
      by rewrite (kt_threads _ _ Hk3), (kt_threads _ _ (rely_table _ _ Hr)). }
  intros i l s1 (Hm1 & Hth1 & [Hlt Hl]%Forall_cons).
  apply sp_inv; [exact _|]. intros s2 Hi2 Hr2. pose proof (main_rely _ _ _ _ _ _ Hm1 Hr2) as Hm2.
  assert (y_threads s2 = ∅) as Hth2 by (rewrite (kt_threads _ _ (rely_table _ _ Hr2)); done).
  destruct (lookup_lt_is_Some_2 (y_workers s2) i) as [w Hw]; [by rewrite (yi_table _ _ _ Hi2)|].
  apply sp_bind; [apply good_refl|].
  eapply sp_main_store with (skip' := None) (w0 := w);
    [exact Hm2 | by exists w | by intros t; rewrite Hth2 | by left | | by left |].
  { apply Forall_cons_2; [by left|]. apply Forall_singleton. by right. }
  intros w3 s3 s3' Hm3 _ _ Hth3 _ _. eapply sp_main_ret; [exact Hm3|]. intros s4 Hm4 Hk4.
  split_and!; [done| |done]. rewrite (kt_threads _ _ Hk4), Hth3. done.
Qed.

(** The whole run. *)
Lemma sp_server_run (named : Prop) open start path stop (Q : Z → sys W → Prop) s :
  main_at ∅ false false None s → y_threads s = ∅ →
  (∀ z m, enough z fuel (m_os m) → opens_listener z named open m) →
  (named → ∀ z m (Q : () → machine W → Prop), (∀ m', logged m m' → Q () m') → wp z start Q m) →
  (∀ r mx s', returns r → main_at ∅ false mx None s' → y_threads s' = ∅ → Q r s') →
  tsafe 0%nat (server_run tp fuel 0 open start path stop) Q s.
Proof.
  intros Hm Hth Hopen Hstart HQ. unfold server_run. destruct stop as [[]|].
  2:{ apply sp_bind; [apply good_refl|]. eapply sp_main_errno; [exact Hm|]. intros s1 Hm1 Hk1.
      eapply sp_main_ret; [exact Hm1|]. intros s2 Hm2 Hk2. eapply HQ; [by right | exact Hm2 |]. by rewrite (kt_threads _ _ Hk2), (kt_threads _ _ Hk1). }
  apply sp_bind; [apply good_refl|]. eapply sp_main_mutex_init; [exact Hm | done |..].
  2:{ intros e s1 He Hm1 Hk1. rewrite (proj2 (Z.eqb_neq e 0)) by done. simpl.
      apply sp_bind; [apply good_refl|]. eapply sp_main_errno; [exact Hm1|]. intros s2 Hm2 Hk2.
      eapply sp_main_ret; [exact Hm2|]. intros s3 Hm3 Hk3. eapply HQ; [by right | exact Hm3 |].
      by rewrite (kt_threads _ _ Hk3), (kt_threads _ _ Hk2), (kt_threads _ _ Hk1). }
  intros s1 Hm1 Hk1. simpl. apply sp_bind; [apply good_refl|].
  eapply sp_workers_init; [exact Hm1 | by rewrite (kt_threads _ _ Hk1) |]. intros s2 Hm2 Hth2.
  apply sp_bind; [apply good_refl|]. eapply sp_main_open; [exact Hm2|]. intros z m Hz. apply Hopen; [done|..].
  { intros m' Hk Ho Hl. split; [done|]. left. split; [done|]. intros s3 Hm3 Hk3. simpl.
    apply sp_bind; [apply good_refl|].
    eapply sp_main_mutex_destroy; [exact Hm3 | by rewrite (kt_threads _ _ Hk3) |].
    intros e b s4 Hm4 Hk4. eapply sp_main_ret; [exact Hm4|]. intros s5 Hm5 Hk5. eapply HQ; [by right | exact Hm5 |].
    by rewrite (kt_threads _ _ Hk5), (kt_threads _ _ Hk4), (kt_threads _ _ Hk3). }
  intros fd m' Hnamed Hpos Hfresh Hk Ho Hl. split; [done|]. right. split_and!; [done..|].
  intros s3 Hm3 _ _. rewrite (proj2 (Z.eqb_neq fd (-1))) by lia.
  rewrite (right_id_L ∅ (∪)) in Hm3. apply sp_bind; [apply good_refl|].
  eapply sp_main_call; [exact Hm3|]. intros z3 m3 Hz3. apply (Hstart Hnamed z3). intros m4 Hlg.
  split_and!; [apply Hlg..|]. intros s4 Hm4 _. apply sp_bind; [apply good_refl|].
  eapply sp_server_loop; [exact Hm4|]. intros r s5 Hr5 Hm5. by eapply sp_shutdown.
Qed.

End main.
