(* ===== verification/WorkersProps.v ===== *)
(** * The threaded servers: what holds in every interleaving

    The threads of a server put together: the proofs of the main thread and of
    the workers give an invariant of every reachable configuration, and from it
    the properties of the two servers under every schedule. *)

From S2P Require Import Prelude Machine Script Buffer Protocol Queue SocketUtils Logging Commands Respond Listener Options Session Threads Workers Programs WorkersInv WorkersThread WorkersMain.

(** ** A server from its call *)

Inductive server_call :=
| ServeTcp (bind_address : option (list byte)) (port : Z) (stop_requested : option ())
| ServeUds (socket_path : option (list byte)) (stop_requested : option ())
| MainTcp (arguments : list (list byte))
| MainUds (arguments : list (list byte)).

Definition call_transport (c : server_call) : transport :=
  match c with
  | ServeTcp _ _ _ | MainTcp _ => Tcp
  | ServeUds _ _ | MainUds _ => UdsThreaded
  end.

(** The results it may have: those of a run function, or the exit code of a
    program. *)
Definition call_returns (c : server_call) (r : Z) : Prop :=
  let code {A} (scanned : option A) :=
    match scanned with None => r = 2 | Some _ => r = 0 ∨ r = 1 end in
  match c with
  | ServeTcp _ _ _ | ServeUds _ _ => returns r
  | MainTcp arguments => code (scan_tcp (tail arguments) tcp_defaults)
  | MainUds arguments => code (scan_uds (tail arguments) uds_threaded_defaults)
  end.

(** The call is made by the main thread; there is no other. *)
Definition launch {W} {OS : Posix W} {PT : Pthreads W} (fuel : nat) (c : server_call)
    (m : machine W) : config W :=
  Config (sys_init m)
    (match c with
     | ServeTcp address port stop => wc_server_tcp_run fuel address port stop
     | ServeUds path stop => wc_server_uds_threaded_run fuel path stop
     | MainTcp arguments => tcp_main fuel arguments
     | MainUds arguments => uds_threaded_main fuel arguments
     end) (λ _, None).

Inductive reachable {W} {OS : Posix W} {PT : Pthreads W} (fuel : nat) (c : server_call)
    (m : machine W) : config W → Prop :=
| reach_launch : reachable fuel c m (launch fuel c m)
| reach_step cfg cfg' :
    reachable fuel c m cfg → cstep (call_transport c) cfg cfg' → reachable fuel c m cfg'.

(** What thread [t] accesses next. *)
Definition next_accesses {W} (t : tid) (cfg : config W) : list (access place) :=
  if decide (t = 0%nat) then pnext (c_main cfg)
  else match c_pool cfg t with Some p => pnext p | None => [] end.

(** ** The invariant of the configurations *)

Section soundness.
Context {W : Type} {OS : Posix W} {PT : Pthreads W} `{!PosixLaws W, !PthreadLaws W}.
Context (base : gset Z) (live0 : Z) (fuel : nat) (tp : transport) (R : Z → Prop).
Implicit Types (s : sys W) (cfg : config W).

Abbreviation inv := (sys_inv base live0).
Abbreviation gstep := (good_step inv rely forks).
Abbreviation tsafe := (sp inv rely perm forks (waits fuel)).

(** Worker [t] runs [p] and keeps to the protocol. *)
Definition pool_safe s (t : tid) (p : prog (sys W) place ()) : Prop :=
  t ≠ 0%nat ∧ ∃ i, y_threads s !! t = Some i ∧ (t ∉ y_exited s) ∧
    tsafe t p (λ _ s', returned t i s') s.

Record sound cfg : Prop := {
  so_inv : inv (c_sys cfg);
  so_main : tsafe 0%nat (c_main cfg) (λ r s, finished s ∧ R r) (c_sys cfg);
  so_pool t p : c_pool cfg t = Some p → pool_safe (c_sys cfg) t p;
  so_all t : alive t (c_sys cfg) → t ≠ 0%nat → is_Some (c_pool cfg t);
}.

(** The steps of the others keep a worker safe. *)
Lemma pool_safe_rely s s' t p : rely t s s' → inv s → inv s' → pool_safe s t p → pool_safe s' t p.
Proof.
  intros Hr Hi Hi' (Hne & i & Ht & Hx & Hs). split; [done|]. exists i.
  destruct (Hr (or_intror (conj (mk_is_Some _ _ Ht) Hx))) as [Ha _ _ _ _ _ Hslot _].
  destruct (yi_thread _ _ _ Hi t i Ht) as (_ & _ & w & Hw & _).
  destruct (Hslot i w Ht Hw) as [Ht' _]. destruct Ha as [->|[_ Hx']]; [done|].
  split_and!; [done | done | eapply sp_rely; [exact _ | done..]].
Qed.

Lemma sound_main s main ps s' main' :
  sound (Config s main ps) → pstep main s = Next s' main' →
  sound (Config s' main' (spawn tp s s' ps)).
Proof.
  intros [Hi Hmain Hpool Hall] Hstep. simpl in *.
  pose proof (sp_next _ _ _ _ _ _ _ _ _ Hi Hmain) as Hn.
  destruct (pvalue main) eqn:Hv; [by apply pvalue_Some in Hv as ->|].
  rewrite Hstep in Hn. destruct Hn as (_ & [Hi' Hg Hf] & Hs').
  assert (∀ t p, ps t = Some p → pool_safe s' t p) as Hold.
  { intros t p Hp. specialize (Hpool t p Hp). apply (pool_safe_rely s s'); [|done..].
    apply Hg, Hpool. }
  constructor; simpl; [done | done |..].
  - intros t p. unfold spawn. case_decide as Hnew; [|by apply Hold].
    destruct (y_threads s' !! y_next s) as [i|] eqn:Ht; [|by apply Hold].
    unfold pool_set. case_decide as Heq; [intros [= <-]; subst t|by apply Hold].
    destruct (Hf _ _ Ht) as [[Hin _]|(_ & _ & Hb)].
    { by destruct (next_fresh _ _ _ _ _ Hi Hin). }
    split; [pose proof (yi_next _ _ _ Hi); lia|]. exists i.
    split_and!; [done | apply Hb | by apply sp_worker_main].
  - intros t Ha Hne. destruct Ha as [?|[[i Ht] Hx]]; [done|]. unfold spawn, pool_set.
    destruct (Hf _ _ Ht) as [[Hin Hex]|(-> & Hnew & _)].
    + assert (is_Some (ps t)) as Hps.
      { apply Hall; [|done]. right. split; [by eexists | by rewrite Hex]. }
      case_decide; [|done]. destruct (y_threads s' !! y_next s); [|done]. by case_decide.
    + by rewrite decide_True, Ht, decide_True.
Qed.

Lemma sound_worker s main ps t p s' p' :
  sound (Config s main ps) → ps t = Some p → pstep p s = Next s' p' →
  sound (Config s' main (pool_set t (Some p') ps)).
Proof.
  intros [Hi Hmain Hpool Hall] Hp Hstep. simpl in *.
  destruct (Hpool t p Hp) as (Hne & i & Ht & Hx & Hs).
  pose proof (sp_next _ _ _ _ _ _ _ _ _ Hi Hs) as Hn.
  destruct (pvalue p) eqn:Hv; [by apply pvalue_Some in Hv as ->|].
  rewrite Hstep in Hn. destruct Hn as (_ & [Hi' Hg Hf] & Hs').
  destruct (rl_main _ _ _ (Hg 0%nat (not_eq_sym Hne) (main_alive s)) eq_refl) as (Hth & _).
  constructor; simpl; [done | eapply sp_rely; [exact _ | done | by apply Hg] |..].
  - intros t' q. unfold pool_set. case_decide as Heq; [intros [= <-]; subst t'|].
    + split; [done|]. exists i. rewrite Hth. split_and!; [done | | done].
      rewrite <-Hth in Ht. destruct (Hf _ _ Ht) as [[_ Hex]|(-> & _ & _)]; [by rewrite <-Hex|].
      rewrite Hth in Ht. by destruct (next_fresh _ _ _ _ _ Hi Ht).
    + intros Hq. specialize (Hpool t' q Hq). apply (pool_safe_rely s s'); [|done..]. by apply Hg.
  - intros t' Ha Hne'. unfold pool_set. case_decide; [done|]. apply Hall; [|done].
    destruct Ha as [?|[[j Ht'] Hx']]; [by left|]. right.
    destruct (Hf _ _ Ht') as [[Hin Hex]|(-> & _ & _)]; [split; [by eexists | by rewrite Hex]|].
    rewrite Hth in Ht'. by destruct (next_fresh _ _ _ _ _ Hi Ht').
Qed.
(** A worker that returns has given everything back. *)
Lemma exit_alive t t' s : t' ≠ t → alive t' (exit_thread t s) ↔ alive t' s.
Proof. intros Hne. unfold alive. simpl. set_solver. Qed.

Lemma exit_good t i s :
  inv s → returned t i s → inv (exit_thread t s) ∧ ∀ t', t' ≠ t → rely t' s (exit_thread t s).
Proof.
  intros Hi (fd & evs & [Hth Hx _ Hown Hb _ Hl]). split.
  - constructor; try apply Hi.
    + simpl. pose proof (yi_exited _ _ _ Hi). apply elem_of_dom_2 in Hth. set_solver.
    + intros t' Hn. destruct (decide (t' = t)) as [->|Hne].
      * split_and!; [done | by intros ?%Hl |]. intros fd' Hfd'%Hown. set_solver.
      * rewrite exit_alive in Hn by done. by apply Hi.
  - intros t' Hne Ha. constructor; try done; [by apply exit_alive | eauto].
Qed.

Lemma sound_exit s main ps t :
  sound (Config s main ps) → ps t = Some (Pret ()) →
  sound (Config (exit_thread t s) main (pool_set t None ps)).
Proof.
  intros [Hi Hmain Hpool Hall] Hp. simpl in *.
  destruct (Hpool t _ Hp) as (Hne & i & Ht & Hx & Hs).
  pose proof (sp_next _ _ _ _ _ _ _ _ _ Hi Hs) as Hret. simpl in Hret.
  destruct (exit_good t i s Hi Hret) as [Hi' Hg].
  constructor; simpl; [done | by eapply sp_rely; [exact _ | done | apply Hg] |..].
  - intros t' q. unfold pool_set. case_decide as Heq; [done|]. intros Hq.
    apply (pool_safe_rely s); [by apply Hg | done | done | by apply Hpool].
  - intros t' Ha Hne'. unfold pool_set. case_decide as Heq.
    + subst t'. exfalso. destruct Ha as [?|[_ Hx']]; [done|]. simpl in Hx'. set_solver.
    + apply Hall; [|done]. by eapply exit_alive.
Qed.

Lemma sound_step cfg cfg' : sound cfg → cstep tp cfg cfg' → sound cfg'.
Proof.
  intros Hs Hc. destruct Hc;
    [by eapply sound_main | by eapply sound_worker | by eapply sound_exit].
Qed.

(** *** Reading off the invariant *)

Lemma sound_perm cfg t a :
  sound cfg → a ∈ next_accesses t cfg → perm t a (c_sys cfg).
Proof.
  intros [Hi Hmain Hpool _]. unfold next_accesses. case_decide as Ht; [subst t|].
  - pose proof (sp_next _ _ _ _ _ _ _ _ _ Hi Hmain) as Hn.
    destruct (pvalue (c_main cfg)) eqn:Hv.
    + apply pvalue_Some in Hv as ->. by intros ?%not_elem_of_nil.
    + destruct Hn as [Hn _]. rewrite Forall_forall in Hn. apply Hn.
  - destruct (c_pool cfg t) as [p|] eqn:Hp; [|by intros ?%not_elem_of_nil].
    destruct (Hpool t p Hp) as (_ & i & _ & _ & Hs).
    pose proof (sp_next _ _ _ _ _ _ _ _ _ Hi Hs) as Hn. destruct (pvalue p) eqn:Hv.
    + apply pvalue_Some in Hv as ->. by intros ?%not_elem_of_nil.
    + destruct Hn as [Hn _]. rewrite Forall_forall in Hn. apply Hn.
Qed.

Lemma sound_defined cfg :
  sound cfg → pstep (c_main cfg) (c_sys cfg) ≠ Undef ∧
    ∀ t p, c_pool cfg t = Some p → pstep p (c_sys cfg) ≠ Undef.
Proof.
  assert (∀ t A (p : prog (sys W) place A) Q s, inv s → tsafe t p Q s → pstep p s ≠ Undef) as Hsp.
  { intros t A p Q s Hi Hs Hu. pose proof (sp_next _ _ _ _ _ _ _ _ _ Hi Hs) as Hn.
    destruct (pvalue p) eqn:Hv; [by apply pvalue_Some in Hv as ->|]. rewrite Hu in Hn. by apply Hn. }
  intros [Hi Hmain Hpool _]. split; [by eapply Hsp|]. intros t p Hp.
  destruct (Hpool t p Hp) as (_ & i & _ & _ & Hs). by eapply Hsp.
Qed.

(** Nothing is left when the main thread has returned. *)
Lemma sound_finished cfg r :
  sound cfg → c_main cfg = Pret r → let m := y_machine (c_sys cfg) in
  m_open m = base ∧ m_live m = live0 ∧ y_threads (c_sys cfg) = ∅ ∧ R r.
Proof.
  intros [Hi Hmain _ _] Hr. pose proof (sp_next _ _ _ _ _ _ _ _ _ Hi Hmain) as Hn.
  rewrite Hr in Hn. destruct Hn as [(Hb & Ho & Hth) HR].
  assert (∀ t, t ≠ 0%nat → ¬ alive t (c_sys cfg)) as Hdead.
  { intros t Ht [?|[[i Hi'] _]]; [done | by rewrite Hth in Hi']. }
  split_and!; [| |done|done].
  - rewrite (yi_open _ _ _ Hi). replace (dom (y_owner (c_sys cfg))) with (∅ : gset Z); [set_solver|].
    symmetry. rewrite dom_empty_iff_L. apply map_eq. intros fd. rewrite lookup_empty.
    destruct (y_owner (c_sys cfg) !! fd) as [t|] eqn:Hfd; [exfalso|done].
    destruct (decide (t = 0%nat)) as [->|Ht]; [by apply (Ho fd)|].
    destruct (yi_gone _ _ _ Hi t (Hdead t Ht)) as (_ & _ & Hno). by apply (Hno fd).
  - rewrite (yi_live _ _ _ Hi), block_sum_zero; [lia|]. intros t.
    destruct (decide (t = 0%nat)) as [->|Ht]; [exact Hb|].
    by apply (yi_gone _ _ _ Hi t (Hdead t Ht)).
Qed.

(** A worker can go on, or it has to wait. *)
Lemma worker_progress cfg t p :
  sound cfg → c_pool cfg t = Some p →
  (∃ cfg', cstep tp cfg cfg') ∨ waits fuel t (c_sys cfg).
Proof.
  destruct cfg as [s main ps]. intros [Hi _ Hpool _] Hp. simpl in *.
  destruct (Hpool t p Hp) as (_ & i & _ & _ & Hs).
  pose proof (sp_next _ _ _ _ _ _ _ _ _ Hi Hs) as Hn. destruct (pvalue p) as [[]|] eqn:Hv.
  - apply pvalue_Some in Hv as ->. left. eexists. by apply (step_exit tp s main ps t).
  - destruct Hn as [_ Hn]. destruct (pstep p s) as [s' p'| |] eqn:Hstep; [|by right|done].
    left. eexists. by eapply step_worker.
Qed.

Lemma alive_running cfg t : sound cfg → alive t (c_sys cfg) → t ≠ 0%nat →
  ∃ p, c_pool cfg t = Some p.
Proof. intros Hs Ha Hne. by destruct (so_all _ Hs t Ha Hne) as [p Hp]; exists p. Qed.

(** The worker that holds the mutex can go on. *)
Lemma holder_progress cfg t :
  sound cfg → enough true fuel (m_os (y_machine (c_sys cfg))) →
  y_lock (c_sys cfg) = Some t → t ≠ 0%nat → ∃ cfg', cstep tp cfg cfg'.
Proof.
  intros Hs He Hl Hne.
  assert (alive t (c_sys cfg)) as Ha.
  { unfold alive. apply dec_stable. intros Hn. by destruct (yi_gone _ _ _ (so_inv _ Hs) t Hn) as (_ & ? & _). }
  destruct (alive_running _ _ Hs Ha Hne) as [p Hp].
  destruct (worker_progress _ _ _ Hs Hp) as [?|[(o & Ho & ?)|[[? _]|Hno]]]; [done | congruence | done | done].
Qed.

Lemma sound_progress cfg :
  sound cfg → enough true fuel (m_os (y_machine (c_sys cfg))) →
  (∃ cfg', cstep tp cfg cfg') ∨ ∃ r, c_main cfg = Pret r.
Proof.
  intros Hs He. pose proof (so_main _ Hs) as Hmain.
  apply sp_next in Hmain; [|exact _|apply Hs].
  destruct (pvalue (c_main cfg)) as [r|] eqn:Hv; [right; exists r; by apply pvalue_Some|left].
  destruct Hmain as [_ Hn].
  destruct (pstep (c_main cfg) (c_sys cfg)) as [s' p'| |] eqn:Hstep; [| |done].
  { destruct cfg. eexists. by eapply step_main. }
  destruct Hn as [(o & Ho & Hne)|[(_ & Hl & t & Ha & Hne)|?]]; [by eapply holder_progress | |done].
  destruct (alive_running _ _ Hs Ha Hne) as [p Hp].
  destruct (worker_progress _ _ _ Hs Hp) as [?|[(o & Ho & ?)|[[? _]|Hno]]]; [done | | done | done].
  eapply holder_progress; [done..|]. congruence.
Qed.

(** Every worker has a slot of its own. *)
Lemma sound_workers cfg : sound cfg → (size (y_threads (c_sys cfg)) ≤ WC_TCP_MAX_CLIENTS)%nat.
Proof.
  intros [Hi _ _ _]. set (s := c_sys cfg) in *.
  rewrite <-(length_map_to_list (y_threads s)), <-(length_fmap snd).
  rewrite <-(length_seq WC_TCP_MAX_CLIENTS 0). apply submseteq_length, NoDup_submseteq.
  - apply NoDup_fmap_2_strong; [|apply NoDup_map_to_list].
    intros [t1 i1] [t2 i2] H1%elem_of_map_to_list H2%elem_of_map_to_list Heq. simpl in Heq. subst i2.
    destruct (yi_thread _ _ _ Hi _ _ H1) as (_ & _ & w1 & ? & _ & ?).
    destruct (yi_thread _ _ _ Hi _ _ H2) as (_ & _ & w2 & ? & _ & ?). congruence.
  - intros i ([t i'] & -> & Ht%elem_of_map_to_list)%list_elem_of_fmap. apply elem_of_seq.
    destruct (yi_thread _ _ _ Hi _ _ Ht) as (_ & _ & w & Hw & _).
    apply lookup_lt_Some in Hw. rewrite (yi_table _ _ _ Hi) in Hw. simpl. lia.
Qed.

End soundness.

(** ** The calls *)

Section launch.
Context {W : Type} {OS : Posix W} {PT : Pthreads W} `{!PosixLaws W, !PthreadLaws W}.

Lemma sys_init_inv (m : machine W) : sys_inv (m_open m) (m_live m) (sys_init m).
Proof.
  constructor; simpl; try done.
  - rewrite dom_empty_L. set_solver.
  - unfold block_sum. rewrite map_fold_empty. lia.
  - intros t Ht fd. by exists [], [], [].
  - lia.
Qed.

Lemma sys_init_main (m : machine W) : main_at ∅ false false None (sys_init m).
Proof.
  constructor; try done.
  intros i w Hw Hu _. apply lookup_replicate_1 in Hw as [-> _]. done.
Qed.

(** The run functions, from a main thread that is alone. *)
Section run_functions.
Context (base : gset Z) (live0 : Z) (fuel : nat).
Abbreviation tsafe := (sp (sys_inv base live0) rely perm forks (waits fuel)).

Lemma sp_tcp_run address port stop (Q : Z → sys W → Prop) s :
  main_at ∅ false false None s → y_threads s = ∅ →
  (∀ r mx s', returns r → main_at ∅ false mx None s' → y_threads s' = ∅ → Q r s') →
  tsafe 0%nat (wc_server_tcp_run fuel address port stop) Q s.
Proof.
  intros Hm Hth HQ. eapply sp_server_run with (named := is_Some address); [done | done | | |done].
  - intros z m1 Hz. by apply tcp_open_listener_spec.
  - intros [a ->] z m1 Q' HQ'. wp_go. by apply wp_log; [log_ok|].
Qed.

Lemma sp_uds_run path stop (Q : Z → sys W → Prop) s :
  main_at ∅ false false None s → y_threads s = ∅ →
  (∀ r mx s', returns r → main_at ∅ false mx None s' → y_threads s' = ∅ → Q r s') →
  tsafe 0%nat (wc_server_uds_threaded_run fuel path stop) Q s.
Proof.
  intros Hm Hth HQ. eapply sp_server_run with (named := is_Some path); [done | done | | |done].
  - intros z m1 Hz. apply open_unix_listener_spec; [|done]. intros. log_ok.
  - intros [a ->] z m1 Q' HQ'. wp_go. by apply wp_log; [log_ok|].
Qed.

(** The programs: set-up, run function, exit code. *)
Lemma sp_program {A} (setup : M W (Z + A)) run name scanned (Q : Z → sys W → Prop) s :
  main_at ∅ false false None s → y_threads s = ∅ →
  (∀ z m (Q : Z + A → machine W → Prop),
     (∀ r m', setup_post scanned r → noted m m' → Q r m') → wp z setup Q m) →
  (∀ o (Q : Z → sys W → Prop) s, main_at ∅ false false None s → y_threads s = ∅ →
     (∀ r mx s', returns r → main_at ∅ false mx None s' → y_threads s' = ∅ → Q r s') →
     tsafe 0%nat (run o) Q s) →
  (∀ r s', match scanned with None => r = 2 | Some _ => r = 0 ∨ r = 1 end → finished s' → Q r s') →
  tsafe 0%nat (
    setup ← call 0 setup;
    match setup with
    | inl code => mret code
    | inr o =>
      r ← run o;
      if r =? -1 then _ ← call 0 (perror name); mret 1 else mret 0
    end) Q s.
Proof.
  intros Hm Hth Hsetup Hrun HQ.
  assert (∀ r mx s', match scanned with None => r = 2 | Some _ => r = 0 ∨ r = 1 end →
    main_at ∅ false mx None s' → y_threads s' = ∅ → tsafe 0%nat (mret r) Q s') as Hret.
  { intros r mx s' Hr Hm' Hth'. eapply sp_main_ret; [exact Hm'|]. intros s2 Hm2 Hk2.
    apply HQ; [done|]. eapply main_finished; [exact Hm2 | by rewrite (kt_threads _ _ Hk2)]. }
  apply sp_bind; [apply good_refl|]. eapply sp_main_call; [exact Hm|]. intros z m Hz. apply Hsetup.
  intros r m' Hpost Hn. split_and!; [apply Hn..|]. intros s1 Hm1 Hk1.
  assert (y_threads s1 = ∅) as Hth1 by (by rewrite (kt_threads _ _ Hk1)).
  destruct r as [code|o]; simpl in Hpost.
  { eapply Hret; [|done..]. by destruct Hpost as [[-> ->]|[-> [o ->]]]; [|right]. }
  subst scanned. apply sp_bind; [apply good_refl|]. apply Hrun; [done | done |].
  intros r mx s2 _ Hm2 Hth2. destruct (r =? -1); [|by eapply Hret; [left|..]].
  apply sp_bind; [apply good_refl|]. eapply sp_main_call; [exact Hm2|]. intros z2 m2 Hz2.
  apply perror_spec. intros m3 Hlg. split_and!; [apply Hlg..|]. intros s3 Hm3 Hk3.
  eapply Hret; [by right | done | by rewrite (kt_threads _ _ Hk3)].
Qed.

End run_functions.

Lemma launch_sound fuel c (m : machine W) :
  sound (m_open m) (m_live m) fuel (call_returns c) (launch fuel c m).
Proof.
  constructor; simpl; [apply sys_init_inv | | done |].
  - destruct c as [address port stop|path stop|arguments|arguments].
    + apply sp_tcp_run; [apply sys_init_main | done |]. intros. split; [by eapply main_finished | done].
    + apply sp_uds_run; [apply sys_init_main | done |]. intros. split; [by eapply main_finished | done].
    + eapply sp_program; [apply sys_init_main | done | by intros; apply tcp_setup_spec | |done].
      intros. by apply sp_tcp_run.
    + eapply sp_program; [apply sys_init_main | done | by intros; apply uds_threaded_setup_spec | |done].
      intros. by apply sp_uds_run.
  - intros t [?|[[i Hi] _]]; [done|]. by simpl in Hi.
Qed.

Lemma reachable_sound fuel c (m : machine W) cfg :
  reachable fuel c m cfg → sound (m_open m) (m_live m) fuel (call_returns c) cfg.
Proof. induction 1; [apply launch_sound | by eapply sound_step]. Qed.

End launch.

(** ** Properties *)

Section threaded_properties.
Context {W : Type} {OS : Posix W} {PT : Pthreads W} `{!PosixLaws W, !PthreadLaws W}.
Implicit Types (m : machine W) (cfg : config W).

(** C7: in no interleaving of the main thread and the workers of a threaded
    server is the next step of any thread undefined: no thread locks a mutex it
    holds, unlocks or destroys one it must not, joins a thread that is gone,
    reads or writes outside the worker table or a buffer, or closes a descriptor
    that is not open (where close() would report EBADF, or close a file that
    another thread has just opened; [sys_close] stops at it). *)
Theorem threads_defined fuel c m cfg :
  reachable fuel c m cfg →
  pstep (c_main cfg) (c_sys cfg) ≠ Undef ∧
  ∀ t p, c_pool cfg t = Some p → pstep p (c_sys cfg) ≠ Undef.
Proof. intros Hr. apply reachable_sound in Hr. by eapply sound_defined. Qed.

(** C4: the threads of a server do not race. In every reachable configuration
    the next accesses of two different threads to the stop flag or the worker
    table do not conflict: they are to different locations, or both read. *)
Theorem threads_race_free fuel c m cfg t1 t2 a b :
  reachable fuel c m cfg → t1 ≠ t2 →
  a ∈ next_accesses t1 cfg → b ∈ next_accesses t2 cfg → ¬ conflict a b.
Proof.
  intros Hr Hne Ha Hb. apply reachable_sound in Hr.
  eapply perm_no_conflict; [exact Hne | by eapply sound_perm..].
Qed.

(** C5: the threads of a server do not deadlock. In every reachable
    configuration some thread can take a step, unless the server has returned
    to its caller; [fuel] has to exceed the number of times the outside world
    can still interrupt an fcntl() call. *)
Theorem threads_progress fuel c m cfg :
  reachable fuel c m cfg → enough true fuel (m_os (y_machine (c_sys cfg))) →
  (∃ cfg', cstep (call_transport c) cfg cfg') ∨ ∃ r, c_main cfg = Pret r.
Proof. intros Hr He. eapply sound_progress; [by eapply reachable_sound | exact He]. Qed.

(** C3: however the threads are interleaved, every connection is served in
    order: in the traffic of each worker the requests served are the first ones
    decoded from the bytes received, each response answers its request, and the
    bytes sent are a prefix of the responses in the order of the requests. *)
Theorem threads_answer_in_order fuel c m cfg t :
  reachable fuel c m cfg → t ≠ 0%nat → in_order (events_of (c_sys cfg) t).
Proof. intros Hr. apply (yi_order _ _ _ (so_inv _ _ _ _ _ (reachable_sound _ _ _ _ Hr))). Qed.

(** C6: when the run function of a threaded server or its program returns,
    every worker has been joined, every descriptor it opened is closed and every
    heap block it allocated is freed, whatever the interleaving and whatever
    failed; the run functions return 0 or -1, and the exit code of a program is
    2 exactly when its command line is not understood, otherwise 0 or 1. *)
Theorem threads_leave_nothing fuel c m cfg r :
  reachable fuel c m cfg → c_main cfg = Pret r →
  m_open (y_machine (c_sys cfg)) = m_open m ∧
  m_live (y_machine (c_sys cfg)) = m_live m ∧ y_threads (c_sys cfg) = ∅ ∧ call_returns c r.
Proof. intros Hr Hret. exact (sound_finished _ _ _ _ _ _ (reachable_sound _ _ _ _ Hr) Hret). Qed.

(** C32: at most WC_TCP_MAX_CLIENTS workers exist at any time. *)
Theorem threads_bounded fuel c m cfg :
  reachable fuel c m cfg → (size (y_threads (c_sys cfg)) ≤ WC_TCP_MAX_CLIENTS)%nat.
Proof. intros Hr. apply reachable_sound in Hr. by eapply sound_workers. Qed.

End threaded_properties.

(** ** Running a schedule *)

Section schedule.
Context {W : Type} {OS : Posix W} {PT : Pthreads W} (tp : transport).

(** One step of thread [t]; nothing happens when it cannot take one. *)
Definition run_thread (t : tid) (cfg : config W) : config W :=
  let '(Config s main ps) := cfg in
  if decide (t = 0%nat) then
    match pstep main s with
    | Next s' main' => Config s' main' (spawn tp s s' ps)
    | _ => cfg
    end
  else
    match ps t with
    | Some p =>
      match pvalue p, pstep p s with
      | Some _, _ => Config (exit_thread t s) main (pool_set t None ps)
      | None, Next s' p' => Config s' main (pool_set t (Some p') ps)
      | None, _ => cfg
      end
    | None => cfg
    end.

(** [n] rounds of one step each of the threads [ts]. *)
Definition run_rounds (ts : list tid) (n : N) (cfg : config W) : config W :=
  N.iter n (λ cfg, foldl (λ cfg t, run_thread t cfg) cfg ts) cfg.

Lemma run_thread_step t cfg : run_thread t cfg = cfg ∨ cstep tp cfg (run_thread t cfg).
Proof.
  destruct cfg as [s main ps]. unfold run_thread. case_decide.
  - destruct (pstep main s) eqn:Hstep; [|by left..]. right. by constructor.
  - destruct (ps t) as [p|] eqn:Hp; [|by left]. destruct (pvalue p) as [[]|] eqn:Hv.
    + apply pvalue_Some in Hv as ->. right. by constructor.
    + destruct (pstep p s) eqn:Hstep; [|by left..]. right. by econstructor.
Qed.

End schedule.

Lemma run_rounds_reachable {W} {OS : Posix W} {PT : Pthreads W} fuel c (m : machine W) ts n :
  reachable fuel c m (run_rounds (call_transport c) ts n (launch fuel c m)).
Proof.
  unfold run_rounds. induction n as [|n IH] using N.peano_ind; [constructor|].
  rewrite N.iter_succ. revert IH. generalize (N.iter n (λ cfg,
    foldl (λ cfg t, run_thread (call_transport c) t cfg) cfg ts) (launch fuel c m)).
  induction ts as [|t ts IH]; intros cfg Hr; simpl; [done|]. apply IH.
  destruct (run_thread_step (call_transport c) t cfg) as [->|Hs]; [done | by econstructor].
Qed.

(** ** Concrete runs *)

(** The threads library never fails. *)
#[global] Instance script_pthreads : Pthreads script := {|
  pt_mutex_init w := (0, w); pt_mutex_lock w := (0, w); pt_mutex_unlock w := (0, w);
  pt_mutex_destroy w := (0, w); pt_create w := (0, w); pt_join w := (0, w);
  pt_sigmask w := (0, w); pt_sigaddset _ w := (None, w)
|}.

#[global] Instance script_pthread_laws : PthreadLaws script.
Proof. by split; intros w e w' [= <- _]. Qed.

(** One client connects, asks for the working directory and leaves; then the
    server is asked to stop. *)
Definition one_client : script :=
  Script [] [inl (request_frame WC_REQUEST_PWD []); inl []] [] []
    [None; Some EAGAIN] [inl [POLLIN]; inl [POLLIN]; inl [POLLOUT]; inl [POLLIN]]
    [(lit "/srv", 0)] [] 0 [false] [].

Definition tcp_call : server_call := ServeTcp (Some (lit "127.0.0.1")) 9000 (Some ()).

Definition uds_call : server_call := ServeUds (Some (lit "/tmp/s")) (Some ()).

Definition tcp_program : server_call := MainTcp [lit "server"; lit "--port"; lit "9000"].

(** The main thread and the worker take turns. *)
Definition turns (c : server_call) (n : N) : config script :=
  run_rounds (call_transport c) [0%nat; 1%nat] n (launch 10 c (boot one_client)).

(** The worker does not get to run. *)
Definition main_only (n : N) : config script :=
  run_rounds Tcp [0%nat] n (launch 10 tcp_call (boot one_client)).

(** The servers answer the client, close everything and return 0. *)
Example served_and_stopped c :
  c = tcp_call ∨ c = uds_call ∨ c = tcp_program →
  let cfg := turns c 4000 in
  pvalue (c_main cfg) = Some 0 ∧
  sent_bytes 4 (events_of (c_sys cfg) 1) = response_frame (lit "/srv") ∧
  m_open (y_machine (c_sys cfg)) = {[0; 1; 2]}.
Proof. intros [->|[->| ->]]; vm_compute; done. Qed.

Lemma threads_defined_witness :
  pstep (c_main (turns tcp_call 1126)) (c_sys (turns tcp_call 1126)) ≠ Undef.
Proof.
  apply (threads_defined 10 tcp_call (boot one_client)).
  apply (run_rounds_reachable 10 tcp_call).
Defined.

(** The worker and the main thread read the same slot. *)
Lemma threads_race_free_witness :
  ¬ conflict (Rd (LSlot 0)) (Rd (LSlot 0)).
Proof.
  apply (threads_race_free 10 tcp_call (boot one_client) (main_only 1161) 0%nat 1%nat).
  - apply (run_rounds_reachable 10 tcp_call).
  - discriminate.
  - vm_compute. left.
  - vm_compute. left.
Defined.

(** The main thread waits for the worker, which can go on. *)
Lemma threads_progress_witness :
  pstep (c_main (main_only 1170)) (c_sys (main_only 1170)) = Blocked ∧
  ((∃ cfg', cstep Tcp (main_only 1170) cfg') ∨ ∃ r, c_main (main_only 1170) = Pret r).
Proof.
  split; [vm_compute; reflexivity|].
  apply (threads_progress 10 tcp_call (boot one_client)).
  - apply (run_rounds_reachable 10 tcp_call).
  - apply enough_budget. apply Nat.ltb_lt. vm_compute. reflexivity.
Defined.

Lemma threads_answer_in_order_witness :
  in_order (events_of (c_sys (turns uds_call 4000)) 1).
Proof.
  apply (threads_answer_in_order 10 uds_call (boot one_client)).
  - apply (run_rounds_reachable 10 uds_call).
  - discriminate.
Defined.

Lemma threads_leave_nothing_witness :
  m_live (y_machine (c_sys (turns tcp_program 4000))) = 0.
Proof.
  apply (threads_leave_nothing 10 tcp_program (boot one_client) (turns tcp_program 4000) 0).
  - apply (run_rounds_reachable 10 tcp_program).
  - apply pvalue_Some. vm_compute. reflexivity.
Defined.

Lemma threads_bounded_witness :
  (size (y_threads (c_sys (main_only 1161))) ≤ 64)%nat.
Proof.
  apply (threads_bounded 10 tcp_call (boot one_client)).
  apply (run_rounds_reachable 10 tcp_call).
Defined.
