(* ===== verification/EndToEnd.v ===== *)
(** * The client and the servers together

    A client process and a server process, each with an outside world of its
    own, joined by a connection: a byte stream in each direction. *)

From S2P Require Import Prelude Machine Script Buffer Protocol Queue SocketUtils Logging Commands Respond Listener ServerUds ServerUdsClient ServerUdsTable ServerUdsLoop ServerUdsProps Options Client ClientProps Session ServerUdsTalk Threads Workers WorkersInv WorkersThread WorkersMain WorkersProps.

(** What the client did on [cfd] and the server on [sfd] are the two ends of one
    connection: either side received a prefix of what the other put into the
    stream. *)
Record connected (cfd : Z) (client : list event) (sfd : Z) (server : list event) : Prop := {
  cn_requests : received_bytes sfd server `prefix_of` written_bytes cfd client;
  cn_responses : received_bytes cfd client `prefix_of` sent_bytes sfd server;
}.

#[global] Instance connected_dec cfd client sfd server :
  Decision (connected cfd client sfd server).
Proof.
  refine (cast_if (decide (received_bytes sfd server `prefix_of` written_bytes cfd client ∧
    received_bytes cfd client `prefix_of` sent_bytes sfd server))); [by split; apply a|].
  abstract (intros [? ?]; naive_solver).
Defined.

Lemma answered_length {W} {OS : Posix W} r tr body tr' :
  answered r tr body tr' → zlen body ≤ UINT16_MAX.
Proof.
  intros [(_ & h & reads & status & _ & [Hlen _] & ->)|(e & _ & ->)].
  - pose proof (zlen_trim r (output_of reads)). lia.
  - pose proof (zlen_error_text e). unfold UINT16_MAX. lia.
Qed.

(** A stream that is part of one request holds no other. *)
Lemma frames_of_part type arg bs :
  request_ok type arg → bs `prefix_of` request_frame type arg →
  (spec_frames bs).1 `prefix_of` [(type, arg)].
Proof.
  intros Hok [more Hbs]. pose proof (spec_frames_frame type arg [] Hok) as Hframe.
  rewrite app_nil_r, Hbs, spec_frames_app in Hframe.
  change (spec_frames []) with (([], []) : list (Z * list byte) * list byte) in Hframe.
  destruct (spec_frames bs) as [rs rest]. destruct (spec_frames (rest ++ more)) as [rs' rest'].
  injection Hframe as Hrs _. exists rs'. simpl. by rewrite Hrs.
Qed.

(** A complete response determines its data. *)
Lemma response_frame_inj data rest body rest' :
  zlen data ≤ UINT16_MAX → zlen body ≤ UINT16_MAX →
  response_frame data ++ rest = response_frame body ++ rest' → data = body.
Proof.
  intros Hd Hb Heq. pose proof (spec_parse_response_frame data rest Hd) as H1.
  rewrite Heq, spec_parse_response_frame in H1 by done. by injection H1.
Qed.

(** A server whose traffic is in order answered the only request it can have
    received. *)
Lemma only_answer {W} {OS : Posix W} type arg data rest sfd tr evs :
  in_order_on sfd tr evs → request_ok type arg → zlen data ≤ UINT16_MAX →
  received_bytes sfd evs `prefix_of` request_frame type arg →
  response_frame data ++ rest `prefix_of` sent_bytes sfd evs →
  ∃ tr1 tr2, answered (QReq sfd type arg) tr1 data tr2 ∧ tr2 `prefix_of` tr.
Proof.
  intros (served & later & unsent & Hf & Hs & Ha) Hok Hlen Hreq [more Hresp].
  pose proof (frames_of_part _ _ _ Hok Hreq) as Hpart. rewrite Hf in Hpart.
  rewrite Hresp in Hs. destruct served as [|[[type' arg'] body] served].
  { unfold response_frame, u16_bytes in Hs. done. }
  apply Forall_cons in Ha as [(tr1 & tr2 & Hans & Htr) _].
  destruct Hpart as [k Hk]. injection Hk as <- <- _. simpl in Hans.
  assert (data = body) as ->.
  { eapply (response_frame_inj data (rest ++ more ++ unsent)); [done | by eapply answered_length |].
    rewrite <-!app_assoc in Hs. exact Hs. }
  by exists tr1, tr2.
Qed.

(** A successful client, seen from its connection. *)
Lemma client_answered {W} {OS : Posix W} `{!PosixLaws W, !PosixFair W} fuel wfuel arguments
    (m m' : machine W) :
  arguments ≠ [] → (STDOUT_FILENO ∈ m_open m) →
  (os_budget (m_os m) < fuel)%nat → (os_budget (m_os m) + Z.to_nat UINT16_MAX < wfuel)%nat →
  client_main fuel wfuel arguments m = Ret 0 m' →
  ∃ o type arg cfd new, scan_arguments arguments = Some (o, (type, arg)) ∧
    m_trace m' = m_trace m ++ new ∧ written_bytes cfd new = request_frame type arg ∧
    ∀ V (SOS : Posix V) sfd tr evs, in_order_on sfd tr evs → connected cfd new sfd evs →
      ∃ tr1 tr2, answered (QReq sfd type arg) tr1 (written_bytes STDOUT_FILENO new) tr2 ∧
        tr2 `prefix_of` tr.
Proof.
  intros Hargs Hout Hfuel Hwfuel Hrun.
  destruct (client_main_run fuel wfuel arguments m Hargs Hout Hfuel Hwfuel)
    as (r & m2 & Hrun2 & [_ _ _ _ (new & Ht & _ & Hok)]).
  rewrite Hrun in Hrun2. injection Hrun2 as <- <-.
  destruct (Hok eq_refl) as (o & type & arg & cfd & data & rest & Hs & _ & Hreq & Hlen & Hw & Hr & Hp).
  exists o, type, arg, cfd, new. split_and!; [done..|].
  intros V SOS sfd tr evs Hord [Hcr Hcs]. rewrite Hw in Hcr. rewrite Hr in Hcs. rewrite Hp.
  by eapply only_answer.
Qed.

(** ** Properties *)

Section end_to_end.
Context {W : Type} {OS : Posix W} `{!PosixLaws W, !PosixFair W}.
Context {V : Type} {SOS : Posix V} `{!PosixLaws V}.

(** C1: what a successful client prints is the answer to its command. Whenever
    its connection ends at a worker of a threaded server, in any interleaving of
    that server's threads, the worker ran the command of the client's command
    line, and the client printed exactly the output of that command, or the
    error text the server answered with. *)
Theorem client_gets_its_answer {PT : Pthreads V} `{!PthreadLaws V} fuel wfuel arguments
    (m m' : machine W) :
  arguments ≠ [] → (STDOUT_FILENO ∈ m_open m) →
  (os_budget (m_os m) < fuel)%nat → (os_budget (m_os m) + Z.to_nat UINT16_MAX < wfuel)%nat →
  client_main fuel wfuel arguments m = Ret 0 m' →
  ∃ o type arg cfd new, scan_arguments arguments = Some (o, (type, arg)) ∧
    m_trace m' = m_trace m ++ new ∧ written_bytes cfd new = request_frame type arg ∧
    ∀ sfuel c (ms : machine V) cfg t sfd, reachable sfuel c ms cfg → t ≠ 0%nat →
      connected cfd new sfd (events_of (c_sys cfg) t) →
      ∃ tr tr', answered (QReq sfd type arg) tr (written_bytes STDOUT_FILENO new) tr' ∧
        tr' `prefix_of` events_of (c_sys cfg) t.
Proof.
  intros Hargs Hout Hfuel Hwfuel Hrun.
  destruct (client_answered fuel wfuel arguments m m' Hargs Hout Hfuel Hwfuel Hrun)
    as (o & type & arg & cfd & new & Hs & Ht & Hw & Hans).
  exists o, type, arg, cfd, new. split_and!; [done..|].
  intros sfuel c ms cfg t sfd Hreach Hne Hc. eapply Hans; [|exact Hc].
  by apply (yi_order _ _ _ (so_inv _ _ _ _ _ (reachable_sound _ _ _ _ Hreach))).
Qed.

(** C2: the same with the single-threaded server: whenever the connection of a
    successful client is one of the conversations of a run of
    [wc_server_uds_run], whatever other clients did meanwhile, the client printed
    exactly what that server answered to the command of its command line. *)
Theorem client_gets_its_answer_uds `{!PosixFair V} fuel wfuel arguments (m m' : machine W) :
  arguments ≠ [] → (STDOUT_FILENO ∈ m_open m) →
  (os_budget (m_os m) < fuel)%nat → (os_budget (m_os m) + Z.to_nat UINT16_MAX < wfuel)%nat →
  client_main fuel wfuel arguments m = Ret 0 m' →
  ∃ o type arg cfd new, scan_arguments arguments = Some (o, (type, arg)) ∧
    m_trace m' = m_trace m ++ new ∧ written_bytes cfd new = request_frame type arg ∧
    ∀ sfuel clients0 path stop (ms ms' : machine V) r snew sfd evs,
      zlen clients0 = WC_UDS_MAX_CLIENTS → m_heap ms = ∅ →
      (os_budget (m_os ms) + OUTPUT_ROOM < sfuel)%nat →
      wc_server_uds_run sfuel clients0 path stop ms = Ret r ms' →
      m_trace ms' = m_trace ms ++ snew →
      (evs ∈ (talks sfd snew).1) → connected cfd new sfd evs →
      ∃ tr tr', answered (QReq sfd type arg) tr (written_bytes STDOUT_FILENO new) tr' ∧
        tr' `prefix_of` m_trace ms'.
Proof.
  intros Hargs Hout Hfuel Hwfuel Hrun.
  destruct (client_answered fuel wfuel arguments m m' Hargs Hout Hfuel Hwfuel Hrun)
    as (o & type & arg & cfd & new & Hs & Ht & Hw & Hans).
  exists o, type, arg, cfd, new. split_and!; [done..|].
  intros sfuel clients0 path stop ms ms' r snew sfd evs Hlen Hheap Hsf Hsrun Hst Hin Hc.
  eapply Hans; [|exact Hc].
  destruct (server_conversations sfuel clients0 path stop ms Hlen Hheap Hsf)
    as (r2 & ms2 & snew2 & Hrun2 & Ht2 & Hall).
  rewrite Hsrun in Hrun2. injection Hrun2 as <- <-. rewrite Hst in Ht2.
  apply app_inv_head in Ht2 as <-. destruct (Hall sfd) as [_ Hord].
  rewrite Forall_forall in Hord. by apply Hord.
Qed.

End end_to_end.

(** ** Concrete runs *)

(** The client of [pwd_arguments] against [answering_server]: what it did. *)
Definition pwd_trace : list event := Eval vm_compute in
  match client_main 10 write_steps pwd_arguments (boot answering_server) with
  | Ret _ m' => m_trace m'
  | _ => []
  end.

(** The request went to descriptor 3, whose other end is the TCP server's
    worker 1 with descriptor 4. *)
Lemma pwd_descriptor fd : written_bytes fd pwd_trace = request_frame WC_REQUEST_PWD [] → fd = 3.
Proof.
  intros Hw. destruct (decide (fd = 3)) as [|Hne]; [done|].
  destruct (decide (fd = 1)) as [->|Hne1]; [vm_compute in Hw; discriminate Hw|].
  unfold pwd_trace, written_bytes in Hw. simpl in Hw.
  rewrite !decide_False in Hw by lia. vm_compute in Hw. discriminate Hw.
Qed.

Lemma pwd_connected : connected 3 pwd_trace 4 (events_of (c_sys (turns tcp_call 4000)) 1).
Proof. apply (bool_decide_unpack _). vm_compute. exact I. Qed.

Lemma client_gets_its_answer_witness :
  ∃ tr tr', answered (QReq 4 WC_REQUEST_PWD []) tr (written_bytes 1 pwd_trace) tr' ∧
    tr' `prefix_of` events_of (c_sys (turns tcp_call 4000)) 1.
Proof.
  destruct (client_main 10 write_steps pwd_arguments (boot answering_server)) as [r m'| |] eqn:Hrun;
    [|vm_compute in Hrun; discriminate Hrun..].
  assert (r = 0 ∧ m_trace m' = pwd_trace) as [-> Htrace].
  { vm_compute in Hrun. injection Hrun as <- <-. done. }
  destruct (client_gets_its_answer 10 write_steps pwd_arguments (boot answering_server) m')
    as (o & type & arg & cfd & new & Hs & Ht & Hw & Hall).
  - discriminate.
  - apply (bool_decide_unpack _). vm_compute. exact I.
  - simpl. unfold script_budget. simpl. lia.
  - unfold write_steps, UINT16_MAX. simpl. unfold script_budget. simpl. lia.
  - exact Hrun.
  - vm_compute in Hs. injection Hs as <- <- <-. simpl in Ht. rewrite Htrace in Ht. subst new.
    rewrite (pwd_descriptor cfd Hw) in Hall.
    apply (Hall 10%nat tcp_call (boot one_client) (turns tcp_call 4000) 1%nat 4).
    + apply (run_rounds_reachable 10 tcp_call).
    + discriminate.
    + exact pwd_connected.
Defined.

(** The same client and the single-threaded server. *)
Definition pwd_session : script :=
  Script [] [inl (request_frame WC_REQUEST_PWD []); inr EAGAIN] []
    [] [None] [inl [POLLIN]; inl [0; POLLIN]; inl [0; POLLOUT]]
    [(lit "/srv" ++ [Byte.x0a], 0)] [] 0 [false; false; false] [].

Definition pwd_server : outcome (machine script) Z :=
  wc_server_uds_run (Z.to_nat 66000) raw_table (Some (lit "/tmp/s")) (Some ()) (boot pwd_session).

(** The conversation of the server, on descriptor 4. *)
Definition pwd_talk : list event := Eval vm_compute in
  match pwd_server with
  | Ret _ m' => default [] (head (talks 4 (m_trace m')).1)
  | _ => []
  end.

Lemma pwd_talk_connected : connected 3 pwd_trace 4 pwd_talk.
Proof. apply (bool_decide_unpack _). vm_compute. exact I. Qed.

Lemma client_gets_its_answer_uds_witness :
  ∃ tr tr' r ms', pwd_server = Ret r ms' ∧
    answered (QReq 4 WC_REQUEST_PWD []) tr (written_bytes 1 pwd_trace) tr' ∧
    tr' `prefix_of` m_trace ms'.
Proof.
  destruct (client_main 10 write_steps pwd_arguments (boot answering_server)) as [r m'| |] eqn:Hrun;
    [|vm_compute in Hrun; discriminate Hrun..].
  assert (r = 0 ∧ m_trace m' = pwd_trace) as [-> Htrace].
  { vm_compute in Hrun. injection Hrun as <- <-. done. }
  destruct pwd_server as [r ms'| |] eqn:Hserver;
    [|vm_compute in Hserver; discriminate Hserver..].
  assert (pwd_talk ∈ (talks 4 (m_trace ms')).1) as Htalk.
  { vm_compute in Hserver. injection Hserver as <- <-. vm_compute. left. }
  destruct (client_gets_its_answer_uds (V := script) 10 write_steps pwd_arguments
    (boot answering_server) m') as (o & type & arg & cfd & new & Hs & Ht & Hw & Hall).
  - discriminate.
  - apply (bool_decide_unpack _). vm_compute. exact I.
  - simpl. unfold script_budget. simpl. lia.
  - unfold write_steps, UINT16_MAX. simpl. unfold script_budget. simpl. lia.
  - exact Hrun.
  - vm_compute in Hs. injection Hs as <- <- <-. simpl in Ht. rewrite Htrace in Ht. subst new.
    rewrite (pwd_descriptor cfd Hw) in Hall.
    destruct (Hall (Z.to_nat 66000) raw_table (Some (lit "/tmp/s")) (Some ()) (boot pwd_session)
      ms' r (m_trace ms') 4 pwd_talk) as (tr & tr' & Ha & Hp).
    + reflexivity.
    + reflexivity.
    + change (os_budget (m_os (boot pwd_session))) with 6%nat.
      unfold OUTPUT_ROOM, WC_UDS_OUTPUT_LIMIT, UINT16_MAX, WC_PROTOCOL_RESPONSE_HEADER_SIZE. lia.
    + exact Hserver.
    + reflexivity.
    + exact Htalk.
    + exact pwd_talk_connected.
    + exists tr, tr', r, ms'. split; [reflexivity | split; [exact Ha | exact Hp]].
Defined.
